(** * A limit order book, its order arena and its tick engine

    Shallow embedding of the C++ back-tester (include/types.hpp,
    include/memory_pool.hpp, include/order_book.hpp, src/order_book.cpp,
    include/tick_engine.hpp, src/tick_engine.cpp) and the properties of its
    specification.

    Conventions.
    - [int64_t] and [uint64_t]/[size_t] values are integers of [Z].  Unsigned
      arithmetic wraps modulo 2^64 ([wrap_u64]).  Signed overflow has no
      defined behaviour in C++: signed operations are checked ([s64]) and an
      overflow ends the computation in [Undefined].
    - An [Order*] is an address [(region, index)]; memory is a total map from
      addresses to order records, so that two pointers to one slot alias.
    - [while] loops run on fuel computed from the data they walk; [OutOfFuel]
      marks an exhausted bound. *)

From Stdlib Require Import String ZArith List Bool Lia Sorted Permutation.
Import ListNotations.
Open Scope Z_scope.

(** ** Results of computations *)

Inductive result (A : Type) : Type :=
| Ok (a : A)
| Undefined
| OutOfFuel.
Arguments Ok {A} a.
Arguments Undefined {A}.
Arguments OutOfFuel {A}.

Definition bind {A B : Type} (c : result A) (k : A -> result B) : result B :=
  match c with
  | Ok a => k a
  | Undefined => Undefined
  | OutOfFuel => OutOfFuel
  end.

Definition rmap {A B : Type} (f : A -> B) (c : result A) : result B :=
  bind c (fun a => Ok (f a)).

Declare Scope result_scope.
Delimit Scope result_scope with result.
Notation "x <- c ;; k" := (bind c (fun x => k))
  (at level 61, c at next level, right associativity) : result_scope.
Notation "' pat <- c ;; k" := (bind c (fun x => match x with pat => k end))
  (at level 61, pat pattern, c at next level, right associativity) : result_scope.
Open Scope result_scope.

(** ** Machine integers (types.hpp, lines 12-16) *)

Definition INT64_MIN : Z := - 2 ^ 63.
Definition INT64_MAX : Z := 2 ^ 63 - 1.

Definition in_s64 (z : Z) : bool := (INT64_MIN <=? z) && (z <=? INT64_MAX).

(** A signed 64-bit result: the value when it is representable. *)
Definition s64 (z : Z) : result Z := if in_s64 z then Ok z else Undefined.

(** An unsigned 64-bit result. *)
Definition wrap_u64 (z : Z) : Z := z mod 2 ^ 64.

(** ** Domain types (types.hpp) *)

Inductive Side : Type := BUY | SELL.
Inductive OrderType : Type := MARKET | LIMIT.
Inductive OrderStatus : Type := PENDING | PARTIAL | FILLED | CANCELLED.

Definition Side_eqb (a b : Side) : bool :=
  match a, b with BUY, BUY | SELL, SELL => true | _, _ => false end.

Definition OrderStatus_eqb (a b : OrderStatus) : bool :=
  match a, b with
  | PENDING, PENDING | PARTIAL, PARTIAL | FILLED, FILLED
  | CANCELLED, CANCELLED => true
  | _, _ => false
  end.

Module Order.
Record t : Type := mk {
  id : Z;
  price : Z;
  quantity : Z;
  filled : Z;
  initial_quantity : Z;
  timestamp : Z;
  side : Side;
  type : OrderType;
  status : OrderStatus;
  user_id : Z
}.

(** The constructor [Order(id, price, qty, ts, side, type, user)]. *)
Definition make (id_ price_ qty_ ts_ : Z) (side_ : Side) (type_ : OrderType)
    (user_ : Z) : t :=
  mk id_ price_ qty_ 0 qty_ ts_ side_ type_ PENDING user_.

Definition set_id (v : Z) (o : t) : t :=
  mk v (price o) (quantity o) (filled o) (initial_quantity o) (timestamp o)
     (side o) (type o) (status o) (user_id o).
Definition set_timestamp (v : Z) (o : t) : t :=
  mk (id o) (price o) (quantity o) (filled o) (initial_quantity o) v
     (side o) (type o) (status o) (user_id o).
Definition set_filled (v : Z) (o : t) : t :=
  mk (id o) (price o) (quantity o) v (initial_quantity o) (timestamp o)
     (side o) (type o) (status o) (user_id o).
Definition set_status (v : OrderStatus) (o : t) : t :=
  mk (id o) (price o) (quantity o) (filled o) (initial_quantity o)
     (timestamp o) (side o) (type o) v (user_id o).

(** What matching never writes: the order with [filled] and [status]
    blanked. *)
Definition terms (o : t) : t :=
  mk (id o) (price o) (quantity o) 0 (initial_quantity o) (timestamp o)
     (side o) (type o) PENDING (user_id o).

(** [remaining()]: [quantity - filled] in [int64_t]. *)
Definition remaining (o : t) : result Z := s64 (quantity o - filled o).
End Order.

Module Trade.
Record t : Type := mk {
  buy_order_id : Z;
  sell_order_id : Z;
  price : Z;
  quantity : Z;
  timestamp : Z
}.
End Trade.

Module Tick.
Record t : Type := mk {
  symbol : string;
  price : Z;
  volume : Z;
  timestamp : Z;
  side : Side
}.
End Tick.

(** ** Memory *)

(** The address of an order slot: the allocation it lies in and its index
    there. *)
Definition ptr : Type := (Z * Z)%type.

Definition ptr_eqb (a b : ptr) : bool :=
  (fst a =? fst b) && (snd a =? snd b).

Definition Mem : Type := ptr -> Order.t.

(** [*p = o]. *)
Definition upd (s : Mem) (p : ptr) (o : Order.t) : Mem :=
  fun q => if ptr_eqb q p then o else s q.

(** ** The order arena (memory_pool.hpp) *)

Module Block.
(** A block holds the base of its allocation; the n-th successful
    [aligned_alloc] yields region [n], disjoint from every earlier one
    (nothing is freed before the destructor). *)
Record t : Type := mk { ptr : Z }.
End Block.

Section Pool.
(** The template parameter [BlockSize]. *)
Variable BlockSize : Z.

Record MemoryPool : Type := mkPool {
  blocks_ : list Block.t;
  current_block_ : Z;
  current_index_ : Z
}.

Definition blocks_size (p : MemoryPool) : Z := Z.of_nat (length (blocks_ p)).

(** [allocate_block()], lines 59-77. *)
Definition allocate_block (p : MemoryPool) : MemoryPool :=
  let blocks' :=
    if blocks_size p <=? current_block_ p
    then blocks_ p ++ [Block.mk (blocks_size p)]
    else blocks_ p in
  mkPool blocks' (wrap_u64 (Z.of_nat (length blocks') - 1)) 0.

(** The constructor [MemoryPool()]. *)
Definition new_pool : MemoryPool := allocate_block (mkPool [] 0 0).

(** [allocate()], lines 31-36: the slot handed out and the pool after. *)
Definition allocate (p : MemoryPool) : ptr * MemoryPool :=
  let p1 := if BlockSize <=? current_index_ p then allocate_block p else p in
  let blk := nth (Z.to_nat (current_block_ p1)) (blocks_ p1) (Block.mk 0) in
  ((Block.ptr blk, current_index_ p1),
   mkPool (blocks_ p1) (current_block_ p1) (wrap_u64 (current_index_ p1 + 1))).

(** [reset()]. *)
Definition reset (p : MemoryPool) : MemoryPool := mkPool (blocks_ p) 0 0.

(** [allocated_count()]. *)
Definition allocated_count (p : MemoryPool) : Z :=
  wrap_u64 (current_block_ p * BlockSize + current_index_ p).

(** [n] successive calls of [allocate()]: the slots in call order. *)
Fixpoint allocate_many (n : nat) (p : MemoryPool) : list ptr * MemoryPool :=
  match n with
  | O => ([], p)
  | S n' =>
      let (a, p1) := allocate p in
      let (l, p2) := allocate_many n' p1 in
      (a :: l, p2)
  end.
End Pool.

(** [MemoryPool<Order>]: the default block size. *)
Definition DefaultBlockSize : Z := 4096.

(** ** The order book (order_book.hpp, order_book.cpp) *)

Module PriceLevel.
Record t : Type := mk {
  price : Z;
  orders : list ptr;
  total_quantity : Z
}.

(** A value-initialised level, as [operator[]] inserts it; [price] is
    assigned before it is read. *)
Definition empty : t := mk 0 [] 0.
End PriceLevel.

(** A [std::map<Price, PriceLevel, Compare>]: the entries in iteration order,
    [begin()] first.  [cmp a b] is [Compare()(a, b)]. *)
Definition LevelMap : Type := list (Z * PriceLevel.t).

(** [std::less<Price>], the order of [asks_]. *)
Definition less (a b : Z) : bool := a <? b.
(** [std::greater<Price>], the order of [bids_]. *)
Definition greater (a b : Z) : bool := b <? a.

(** [m.find(k)]. *)
Fixpoint map_find (cmp : Z -> Z -> bool) (k : Z) (m : LevelMap)
    : option PriceLevel.t :=
  match m with
  | [] => None
  | (k', l) :: m' =>
      if cmp k k' then None
      else if cmp k' k then map_find cmp k m'
      else Some l
  end.

(** [m[k] = v]: the entry of [k] is replaced, or inserted at its place in
    the order. *)
Fixpoint map_put (cmp : Z -> Z -> bool) (k : Z) (v : PriceLevel.t)
    (m : LevelMap) : LevelMap :=
  match m with
  | [] => [(k, v)]
  | (k', l) :: m' =>
      if cmp k k' then (k, v) :: (k', l) :: m'
      else if cmp k' k then (k', l) :: map_put cmp k v m'
      else (k', v) :: m'
  end.

Record OrderBook : Type := mkBook {
  symbol_ : string;
  bids_ : LevelMap;           (* std::greater: descending *)
  asks_ : LevelMap;           (* std::less: ascending *)
  trade_callback_ : bool;     (* whether a sink is registered *)
  total_trades_ : Z
}.

(** [OrderBook(symbol)]. *)
Definition new_book (symbol : string) : OrderBook :=
  mkBook symbol [] [] false 0.

(** [set_trade_callback(cb)]: the sink receives the trades the operations
    below return, in that order. *)
Definition set_trade_callback (b : OrderBook) : OrderBook :=
  mkBook (symbol_ b) (bids_ b) (asks_ b) true (total_trades_ b).

Definition set_bids (m : LevelMap) (b : OrderBook) : OrderBook :=
  mkBook (symbol_ b) m (asks_ b) (trade_callback_ b) (total_trades_ b).
Definition set_asks (m : LevelMap) (b : OrderBook) : OrderBook :=
  mkBook (symbol_ b) (bids_ b) m (trade_callback_ b) (total_trades_ b).

(** The side an incoming order of side [sd] is matched against. *)
Definition contra_levels (sd : Side) (b : OrderBook) : LevelMap :=
  match sd with BUY => asks_ b | SELL => bids_ b end.
Definition set_contra_levels (sd : Side) (m : LevelMap) (b : OrderBook)
    : OrderBook :=
  match sd with BUY => set_asks m b | SELL => set_bids m b end.

(** The side an order of side [sd] rests on. *)
Definition own_levels (sd : Side) (b : OrderBook) : LevelMap :=
  match sd with BUY => bids_ b | SELL => asks_ b end.

(** [best_bid()] and [best_ask()], order_book.hpp lines 24-25:
    [bids_.rbegin()->first] and [asks_.begin()->first]. *)
Definition best_bid (b : OrderBook) : Z :=
  match bids_ b with
  | [] => 0
  | e :: m => fst (last m e)
  end.
Definition best_ask (b : OrderBook) : Z :=
  match asks_ b with
  | [] => 0
  | e :: _ => fst e
  end.

Definition total_trades (b : OrderBook) : Z := total_trades_ b.

(** [bid_volume()] and [ask_volume()]: the running sum in [int64_t]. *)
Fixpoint volume_from (vol : Z) (m : LevelMap) : result Z :=
  match m with
  | [] => Ok vol
  | (_, l) :: m' =>
      vol' <- s64 (vol + PriceLevel.total_quantity l) ;;
      volume_from vol' m'
  end.
Definition bid_volume (b : OrderBook) : result Z := volume_from 0 (bids_ b).
Definition ask_volume (b : OrderBook) : result Z := volume_from 0 (asks_ b).

(** [execute_trade(buy_order, sell_order, price, qty)], lines 123-138: the
    trade handed to the sink (if one is registered) and the book after. *)
Definition execute_trade (b : OrderBook) (s : Mem) (buy_order sell_order : ptr)
    (price qty : Z) : OrderBook * list Trade.t :=
  let trade := Trade.mk (Order.id (s buy_order)) (Order.id (s sell_order))
                 price qty
                 (Z.max (Order.timestamp (s buy_order))
                        (Order.timestamp (s sell_order))) in
  (mkBook (symbol_ b) (bids_ b) (asks_ b) (trade_callback_ b)
          (wrap_u64 (total_trades_ b + 1)),
   if trade_callback_ b then [trade] else []).

(** The call of [execute_trade] in the loop: the incoming [order] is the
    buyer at line 62 and the seller at line 98. *)
Definition trade_with (sd : Side) (b : OrderBook) (s : Mem)
    (order contra_order : ptr) (price qty : Z) : OrderBook * list Trade.t :=
  match sd with
  | BUY => execute_trade b s order contra_order price qty
  | SELL => execute_trade b s contra_order order price qty
  end.

(** One pass through the body of the inner loop of [match_order], lines
    56-73 (BUY) and 92-109 (SELL): [order] is the incoming order,
    [contra_order] the front of [level.orders] and [rest] what follows
    it. *)
Definition fill_front (sd : Side) (order contra_order : ptr) (rest : list ptr)
    (b : OrderBook) (s : Mem) (level : PriceLevel.t)
    : result (OrderBook * Mem * PriceLevel.t * list Trade.t) :=
  x <- Order.remaining (s order) ;;
  y <- Order.remaining (s contra_order) ;;
  let trade_qty := Z.min x y in
  let '(b1, tr) :=
    trade_with sd b s order contra_order (PriceLevel.price level) trade_qty in
  f1 <- s64 (Order.filled (s order) + trade_qty) ;;
  let s1 := upd s order (Order.set_filled f1 (s order)) in
  f2 <- s64 (Order.filled (s1 contra_order) + trade_qty) ;;
  let s2 := upd s1 contra_order (Order.set_filled f2 (s1 contra_order)) in
  t <- s64 (PriceLevel.total_quantity level - trade_qty) ;;
  if Order.quantity (s2 contra_order) <=? Order.filled (s2 contra_order)
  then
    Ok (b1,
        upd s2 contra_order (Order.set_status FILLED (s2 contra_order)),
        PriceLevel.mk (PriceLevel.price level) rest t,
        tr)
  else
    Ok (b1,
        upd s2 contra_order (Order.set_status PARTIAL (s2 contra_order)),
        PriceLevel.mk (PriceLevel.price level) (contra_order :: rest) t,
        tr).

(** The inner loop of [match_order], lines 55-74 (BUY) and 91-110 (SELL),
    on the level at [begin()] of the opposite side. *)
Fixpoint level_loop (fuel : nat) (sd : Side) (order : ptr) (b : OrderBook)
    (s : Mem) (level : PriceLevel.t)
    : result (OrderBook * Mem * PriceLevel.t * list Trade.t) :=
  match fuel with
  | O => OutOfFuel
  | S fuel' =>
      match PriceLevel.orders level with
      | [] => Ok (b, s, level, [])
      | contra_order :: rest =>
          if negb (Order.filled (s order) <? Order.quantity (s order))
          then Ok (b, s, level, [])
          else
            '(b1, s1, level1, tr) <-
               fill_front sd order contra_order rest b s level ;;
            '(b2, s2, level2, tr2) <- level_loop fuel' sd order b1 s1 level1 ;;
            Ok (b2, s2, level2, tr ++ tr2)
      end
  end.

(** [order->price < level.price] (BUY) and [order->price > level.price]
    (SELL): the level is out of a LIMIT order's reach. *)
Definition out_of_reach (sd : Side) (o : Order.t) (level : PriceLevel.t)
    : bool :=
  match sd with
  | BUY => Order.price o <? PriceLevel.price level
  | SELL => PriceLevel.price level <? Order.price o
  end.

(** The outer loop of [match_order], lines 46-79 (BUY) and 82-115 (SELL). *)
Fixpoint side_loop (fuel : nat) (sd : Side) (order : ptr) (b : OrderBook)
    (s : Mem) : result (OrderBook * Mem * list Trade.t) :=
  match fuel with
  | O => OutOfFuel
  | S fuel' =>
      if negb (Order.filled (s order) <? Order.quantity (s order))
      then Ok (b, s, [])
      else
        match contra_levels sd b with
        | [] => Ok (b, s, [])
        | (k, level) :: rest =>
            if match Order.type (s order) with
               | LIMIT => out_of_reach sd (s order) level
               | MARKET => false
               end
            then Ok (b, s, [])
            else
              '(b1, s1, level1, tr) <-
                 level_loop (S (length (PriceLevel.orders level)))
                            sd order b s level ;;
              let b2 :=
                match PriceLevel.orders level1 with
                | [] => set_contra_levels sd rest b1
                | _ :: _ => set_contra_levels sd ((k, level1) :: rest) b1
                end in
              '(b3, s3, tr3) <- side_loop fuel' sd order b2 s1 ;;
              Ok (b3, s3, tr ++ tr3)
        end
  end.

(** [match_order(order)], lines 43-121. *)
Definition match_order (b : OrderBook) (s : Mem) (order : ptr)
    : result (OrderBook * Mem * list Trade.t) :=
  let sd := Order.side (s order) in
  '(b1, s1, tr) <-
     side_loop (S (length (contra_levels sd b))) sd order b s ;;
  let o := s1 order in
  let st := if Order.quantity o <=? Order.filled o then FILLED
            else if 0 <? Order.filled o then PARTIAL else PENDING in
  Ok (b1, upd s1 order (Order.set_status st o), tr).

(** [process_market_order(order)], lines 36-41. *)
Definition process_market_order (b : OrderBook) (s : Mem) (order : ptr)
    : result (OrderBook * Mem * list Trade.t) :=
  '(b1, s1, tr) <- match_order b s order ;;
  if OrderStatus_eqb (Order.status (s1 order)) FILLED
  then Ok (b1, s1, tr)
  else Ok (b1, upd s1 order (Order.set_status CANCELLED (s1 order)), tr).

(** The body of the [if]/[else] arms of [add_order], lines 18-28:
    [auto& level = m[order->price]; level.price = ...;
     level.orders.push_back(order); level.total_quantity += ...]. *)
Definition rest_order (cmp : Z -> Z -> bool) (s : Mem) (order : ptr)
    (m : LevelMap) : result LevelMap :=
  let o := s order in
  let level := match map_find cmp (Order.price o) m with
               | Some l => l
               | None => PriceLevel.empty
               end in
  r <- Order.remaining o ;;
  t <- s64 (PriceLevel.total_quantity level + r) ;;
  Ok (map_put cmp (Order.price o)
        (PriceLevel.mk (Order.price o) (PriceLevel.orders level ++ [order]) t)
        m).

(** [add_order(order)], lines 8-30. *)
Definition add_order (b : OrderBook) (s : Mem) (order : ptr)
    : result (OrderBook * Mem * list Trade.t) :=
  match Order.type (s order) with
  | MARKET => process_market_order b s order
  | LIMIT =>
      '(b1, s1, tr) <- match_order b s order ;;
      if OrderStatus_eqb (Order.status (s1 order)) FILLED
      then Ok (b1, s1, tr)
      else
        match Order.side (s1 order) with
        | BUY =>
            m <- rest_order greater s1 order (bids_ b1) ;;
            Ok (set_bids m b1, s1, tr)
        | SELL =>
            m <- rest_order less s1 order (asks_ b1) ;;
            Ok (set_asks m b1, s1, tr)
        end
  end.

(** [cancel_order(order_id)], lines 32-34: the body is empty. *)
Definition cancel_order (b : OrderBook) (s : Mem) (order_id : Z)
    : result (OrderBook * Mem * list Trade.t) :=
  Ok (b, s, []).

(** ** The tick engine (tick_engine.hpp, tick_engine.cpp) *)

Module Stats.
Record t : Type := mk {
  ticks_processed : Z;
  orders_submitted : Z;
  trades_executed : Z;
  total_latency_ns : Z
}.
Definition zero : t := mk 0 0 0 0.
End Stats.

Section Engine.
(** The private state of a strategy object. *)
Variable St : Type.

(** [order_books_] is a [std::unordered_map], whose iteration order the
    language leaves to the hash function and the bucket count.  The map is
    kept in insertion order and [umap_begin keys] tells which entry
    [begin()] designates, counted in that order (modulo the size). *)
Variable umap_begin : list string -> nat.

(** What a call of [on_tick] does with its engine handle: it returns with
    its object in state [st], or leaves its object in state [st], calls
    [engine->submit_order(order)] and goes on from the state its object
    has when the call returns. *)
Inductive Act : Type :=
| Done (st : St)
| Submit (st : St) (order : Order.t) (k : St -> Act).

(** The virtual functions of [class Strategy]. *)
Record Strategy : Type := mkStrategy {
  on_tick : Tick.t -> St -> Act;
  on_trade : Trade.t -> St -> St;
  name : string
}.

(** A strategy object: its class and its current state. *)
Record StrategyObj : Type := mkObj {
  class_of : Strategy;
  state_of : St
}.

Record TickEngine : Type := mkEngine {
  order_books_ : list (string * OrderBook);
  strategies_ : list StrategyObj;
  order_pool_ : MemoryPool;
  next_order_id_ : Z;
  current_time_ : Z;
  stats_ : Stats.t;
  (** the contents of the slots of [order_pool_] *)
  memory : Mem;
  (** ghost: the trades [on_trade] has received, oldest first *)
  trade_log : list Trade.t
}.

(** [TickEngine()], over storage of arbitrary content. *)
Definition new_engine (m0 : Mem) : TickEngine :=
  mkEngine [] [] new_pool 1 0 Stats.zero m0 [].

Definition get_stats (e : TickEngine) : Stats.t := stats_ e.

(** [order_books_.find(symbol)]. *)
Fixpoint umap_find (symbol : string) (m : list (string * OrderBook))
    : option OrderBook :=
  match m with
  | [] => None
  | (k, b) :: m' => if String.eqb k symbol then Some b else umap_find symbol m'
  end.

(** The position of [order_books_.begin()] in the insertion order. *)
Definition begin_index (m : list (string * OrderBook)) : nat :=
  Nat.modulo (umap_begin (map fst m)) (length m).

(** Replace the entry at position [i]. *)
Fixpoint set_nth {A : Type} (i : nat) (x : A) (l : list A) : list A :=
  match l, i with
  | [], _ => []
  | _ :: l', O => x :: l'
  | y :: l', S i' => y :: set_nth i' x l'
  end.

(** [get_order_book(symbol)]. *)
Definition get_order_book (e : TickEngine) (symbol : string)
    : option OrderBook :=
  umap_find symbol (order_books_ e).

(** [add_strategy(strategy)]. *)
Definition add_strategy (e : TickEngine) (strategy : StrategyObj)
    : TickEngine :=
  mkEngine (order_books_ e) (strategies_ e ++ [strategy]) (order_pool_ e)
    (next_order_id_ e) (current_time_ e) (stats_ e) (memory e)
    (trade_log e).

(** [on_trade(trade)], lines 62-67. *)
Definition engine_on_trade (e : TickEngine) (trade : Trade.t) : TickEngine :=
  let st := stats_ e in
  mkEngine (order_books_ e)
    (map (fun so => mkObj (class_of so)
                      (on_trade (class_of so) trade (state_of so)))
         (strategies_ e))
    (order_pool_ e) (next_order_id_ e) (current_time_ e)
    (Stats.mk (Stats.ticks_processed st) (Stats.orders_submitted st)
       (wrap_u64 (Stats.trades_executed st + 1)) (Stats.total_latency_ns st))
    (memory e) (trade_log e ++ [trade]).

(** [++stats_.orders_submitted]. *)
Definition count_order (e : TickEngine) : TickEngine :=
  let st := stats_ e in
  mkEngine (order_books_ e) (strategies_ e) (order_pool_ e)
    (next_order_id_ e) (current_time_ e)
    (Stats.mk (Stats.ticks_processed st)
       (wrap_u64 (Stats.orders_submitted st + 1))
       (Stats.trades_executed st) (Stats.total_latency_ns st))
    (memory e) (trade_log e).

(** [submit_order(order_template)], lines 34-45.  The sink of every book
    the engine creates is [on_trade]; it changes neither the books nor the
    orders, so the trades of one [add_order] are delivered after it, in
    their order. *)
Definition submit_order (e : TickEngine) (order_template : Order.t)
    : result TickEngine :=
  let (order, pool1) := allocate DefaultBlockSize (order_pool_ e) in
  let s1 := upd (memory e) order order_template in
  let s2 := upd s1 order (Order.set_id (next_order_id_ e) (s1 order)) in
  let next1 := wrap_u64 (next_order_id_ e + 1) in
  let s3 := upd s2 order (Order.set_timestamp (current_time_ e) (s2 order)) in
  let e1 := mkEngine (order_books_ e) (strategies_ e) pool1 next1
              (current_time_ e) (stats_ e) s3 (trade_log e) in
  match order_books_ e with
  | [] => Ok e1
  | _ :: _ =>
      let i := begin_index (order_books_ e) in
      match nth_error (order_books_ e) i with
      | None => Ok e1
      | Some (symbol, book) =>
          '(book1, s4, trades) <- add_order book s3 order ;;
          let e2 := mkEngine (set_nth i (symbol, book1) (order_books_ e))
                      (strategies_ e) pool1 next1 (current_time_ e)
                      (stats_ e) s4 (trade_log e) in
          Ok (count_order (fold_left engine_on_trade trades e2))
      end
  end.

(** The state of the strategy object at position [i]. *)
Definition put_state (i : nat) (st : St) (e : TickEngine) : TickEngine :=
  match nth_error (strategies_ e) i with
  | None => e
  | Some so =>
      mkEngine (order_books_ e)
        (set_nth i (mkObj (class_of so) st) (strategies_ e))
        (order_pool_ e) (next_order_id_ e) (current_time_ e) (stats_ e)
        (memory e) (trade_log e)
  end.

(** One call [strategy->on_tick(tick, this)] on the object at position
    [i], whose remaining steps are [a]. *)
Fixpoint run_on_tick (i : nat) (a : Act) (e : TickEngine)
    : result TickEngine :=
  match a with
  | Done st => Ok (put_state i st e)
  | Submit st order k =>
      e1 <- submit_order (put_state i st e) order ;;
      match nth_error (strategies_ e1) i with
      | None => Ok e1
      | Some so => run_on_tick i (k (state_of so)) e1
      end
  end.

(** [for (auto& strategy : strategies_) strategy->on_tick(tick, this)],
    from position [i], over [n] objects. *)
Fixpoint notify_strategies (n : nat) (i : nat) (tick : Tick.t)
    (e : TickEngine) : result TickEngine :=
  match n with
  | O => Ok e
  | S n' =>
      match nth_error (strategies_ e) i with
      | None => Ok e
      | Some so =>
          e1 <- run_on_tick i (on_tick (class_of so) tick (state_of so)) e ;;
          notify_strategies n' (S i) tick e1
      end
  end.

(** [process_tick(tick)], lines 8-32.  [clock] holds the two readings of
    [high_resolution_clock::now()], in nanoseconds. *)
Definition process_tick (clock : Z * Z) (tick : Tick.t) (e : TickEngine)
    : result TickEngine :=
  let (start, end_) := clock in
  let books :=
    match umap_find (Tick.symbol tick) (order_books_ e) with
    | Some _ => order_books_ e
    | None =>
        order_books_ e
          ++ [(Tick.symbol tick,
               set_trade_callback (new_book (Tick.symbol tick)))]
    end in
  let e1 := mkEngine books (strategies_ e) (order_pool_ e)
              (next_order_id_ e) (Tick.timestamp tick) (stats_ e)
              (memory e) (trade_log e) in
  e2 <- notify_strategies (length (strategies_ e1)) 0 tick e1 ;;
  let latency := end_ - start in
  let st := stats_ e2 in
  Ok (mkEngine (order_books_ e2) (strategies_ e2) (order_pool_ e2)
        (next_order_id_ e2) (current_time_ e2)
        (Stats.mk (wrap_u64 (Stats.ticks_processed st + 1))
           (Stats.orders_submitted st) (Stats.trades_executed st)
           (wrap_u64 (Stats.total_latency_ns st + latency)))
        (memory e2) (trade_log e2)).

(** [run_backtest(ticks)], lines 47-51; [clock n] holds the readings taken
    while the tick at position [n] is processed. *)
Fixpoint run_backtest_from (clock : nat -> Z * Z) (n : nat)
    (ticks : list Tick.t) (e : TickEngine) : result TickEngine :=
  match ticks with
  | [] => Ok e
  | tick :: ticks' =>
      e1 <- process_tick (clock n) tick e ;;
      run_backtest_from clock (S n) ticks' e1
  end.

Definition run_backtest (clock : nat -> Z * Z) (ticks : list Tick.t)
    (e : TickEngine) : result TickEngine :=
  run_backtest_from clock 0 ticks e.
End Engine.

Arguments Done {St} st.
Arguments Submit {St} st order k.
Arguments mkStrategy {St} on_tick on_trade name.
Arguments mkObj {St} class_of state_of.
Arguments class_of {St} s.
Arguments state_of {St} s.
Arguments order_books_ {St} t.
Arguments strategies_ {St} t.
Arguments order_pool_ {St} t.
Arguments next_order_id_ {St} t.
Arguments current_time_ {St} t.
Arguments stats_ {St} t.
Arguments memory {St} t.
Arguments trade_log {St} t.
Arguments new_engine {St} m0.
Arguments get_stats {St} e.
Arguments get_order_book {St} e symbol.
Arguments add_strategy {St} e strategy.
Arguments engine_on_trade {St} e trade.
Arguments submit_order {St} umap_begin e order_template.
Arguments process_tick {St} umap_begin clock tick e.
Arguments run_backtest {St} umap_begin clock ticks e.

(** ** More of the arena (memory_pool.hpp) *)

(** [memory_usage()], lines 45-47: [blocks_.size() * BlockSize * sizeof(T)]
    in [size_t]; [sizeof_T] is [sizeof(T)]. *)
Definition memory_usage (BlockSize sizeof_T : Z) (p : MemoryPool) : Z :=
  wrap_u64 (wrap_u64 (blocks_size p * BlockSize) * sizeof_T).

(** ** The symbol registry (types.hpp, lines 81-107) *)

(** [static_cast<SymbolId>(n)] for a [size_t] value [n]: [SymbolId] is
    [uint16_t]. *)
Definition to_SymbolId (n : Z) : Z := n mod 2 ^ 16.

Module SymbolRegistry.
(** [symbol_to_id_] is a [std::unordered_map]; only [find] and
    [operator[]] are used on it, never its iteration order. *)
Record t : Type := mk {
  symbols_ : list string;
  symbol_to_id_ : list (string * Z)
}.

(** The registry [instance()] holds before the first registration. *)
Definition empty : t := mk [] [].

(** [symbol_to_id_.find(symbol)]. *)
Fixpoint find (symbol : string) (m : list (string * Z)) : option Z :=
  match m with
  | [] => None
  | (k, id) :: m' => if String.eqb k symbol then Some id else find symbol m'
  end.

(** [symbol_to_id_[symbol] = id]. *)
Fixpoint put (symbol : string) (id : Z) (m : list (string * Z))
    : list (string * Z) :=
  match m with
  | [] => [(symbol, id)]
  | (k, id') :: m' =>
      if String.eqb k symbol then (k, id) :: m'
      else (k, id') :: put symbol id m'
  end.

(** [register_symbol(symbol)], lines 88-98: the id returned and the
    registry after. *)
Definition register_symbol (symbol : string) (r : t) : Z * t :=
  match find symbol (symbol_to_id_ r) with
  | Some id => (id, r)
  | None =>
      let id := to_SymbolId (Z.of_nat (length (symbols_ r))) in
      (id, mk (symbols_ r ++ [symbol]) (put symbol id (symbol_to_id_ r)))
  end.

(** [get_symbol(id)], lines 100-102: [symbols_[id]], which has no defined
    behaviour beyond the end of the vector. *)
Definition get_symbol (r : t) (id : Z) : result string :=
  if (0 <=? id) && (id <? Z.of_nat (length (symbols_ r)))
  then match nth_error (symbols_ r) (Z.to_nat id) with
       | Some symbol => Ok symbol
       | None => Undefined
       end
  else Undefined.
End SymbolRegistry.

(** ** The sample strategies (strategies/momentum_strategy.hpp) *)

(** The state of a sample strategy object is a [result]: [Ok] of its
    members, or [Undefined] once one of its member functions has run into
    a signed overflow or a division by zero.  From that call on the
    behaviour of the whole program is undefined: nothing is said of what
    an object in that state does, and a run of the engine in which an
    object has reached it stands for no execution of the code.
    [sample_backtest], at the end of this part, is [run_backtest] with
    that made explicit. *)

(** [static_cast<int64_t>(n)] for a [size_t] value [n]. *)
Definition to_s64 (n : Z) : Z := (n + 2 ^ 63) mod 2 ^ 64 - 2 ^ 63.

(** [a / b] in [int64_t]: the quotient truncated towards zero; there is
    none for [b = 0], and [INT64_MIN / -1] overflows. *)
Definition div_s64 (a b : Z) : result Z :=
  if b =? 0 then Undefined else s64 (Z.quot a b).

(** [std::accumulate(first, last, init)] over [int64_t]. *)
Fixpoint accumulate (l : list Z) (init : Z) : result Z :=
  match l with
  | [] => Ok init
  | x :: l' => acc <- s64 (init + x) ;; accumulate l' acc
  end.

Module MomentumStrategy.
Record t : Type := mk {
  window_size_ : Z;
  order_size_ : Z;
  prices_ : list Z;
  position_ : Z;
  target_position_ : Z;
  avg_entry_price_ : Z;
  total_pnl_ : Z;
  trades_executed_ : Z;
  last_tick_ : Tick.t
}.

(** [MomentumStrategy(window_size, order_size)], lines 12-14.  The member
    [last_tick_] is default-initialised: [last_tick] stands for what its
    storage holds. *)
Definition make (window_size order_size : Z) (last_tick : Tick.t) : t :=
  mk window_size order_size [] 0 0 0 0 0 last_tick.

Definition set_prices (v : list Z) (m : t) : t :=
  mk (window_size_ m) (order_size_ m) v (position_ m) (target_position_ m)
     (avg_entry_price_ m) (total_pnl_ m) (trades_executed_ m) (last_tick_ m).
Definition set_target_position (v : Z) (m : t) : t :=
  mk (window_size_ m) (order_size_ m) (prices_ m) (position_ m) v
     (avg_entry_price_ m) (total_pnl_ m) (trades_executed_ m) (last_tick_ m).
Definition set_last_tick (v : Tick.t) (m : t) : t :=
  mk (window_size_ m) (order_size_ m) (prices_ m) (position_ m)
     (target_position_ m) (avg_entry_price_ m) (total_pnl_ m)
     (trades_executed_ m) v.
Definition set_pnl_trades (pnl trades : Z) (m : t) : t :=
  mk (window_size_ m) (order_size_ m) (prices_ m) (position_ m)
     (target_position_ m) (avg_entry_price_ m) pnl trades (last_tick_ m).

(** Lines 27-33: the moving average and the two thresholds. *)
Definition thresholds (prices : list Z) : result (Z * Z) :=
  sum <- accumulate prices 0 ;;
  ma <- div_s64 sum (to_s64 (Z.of_nat (length prices))) ;;
  up <- s64 (ma * 102) ;;
  down <- s64 (ma * 98) ;;
  Ok (Z.quot up 100, Z.quot down 100).

(** Line 64, [last_tick_ = tick], which ends [on_tick] when it has not
    returned early. *)
Definition finish (tick : Tick.t) (st : result t) : Act (result t) :=
  match st with
  | Ok m => Done (Ok (set_last_tick tick m))
  | _ => Done st
  end.

(** Lines 43-47: open the long position. *)
Definition open_long (tick : Tick.t) (st : result t) : Act (result t) :=
  match st with
  | Ok m =>
      Submit (Ok m)
        (Order.make 0 (Tick.price tick) (order_size_ m) (Tick.timestamp tick)
           BUY LIMIT 1)
        (fun st1 =>
           match st1 with
           | Ok m1 =>
               finish tick (Ok (set_target_position (order_size_ m1) m1))
           | _ => Done st1
           end)
  | _ => Done st
  end.

(** Lines 57-61: open the short position. *)
Definition open_short (tick : Tick.t) (st : result t) : Act (result t) :=
  match st with
  | Ok m =>
      Submit (Ok m)
        (Order.make 0 (Tick.price tick) (order_size_ m) (Tick.timestamp tick)
           SELL LIMIT 1)
        (fun st1 =>
           match st1 with
           | Ok m1 =>
               match s64 (- order_size_ m1) with
               | Ok target => finish tick (Ok (set_target_position target m1))
               | _ => Done Undefined
               end
           | _ => Done st1
           end)
  | _ => Done st
  end.

(** [on_tick(tick, engine)], lines 16-65. *)
Definition on_tick (tick : Tick.t) (st : result t) : Act (result t) :=
  match st with
  | Ok m =>
      let pushed := prices_ m ++ [Tick.price tick] in
      let prices :=
        if window_size_ m <? Z.of_nat (length pushed)
        then tl pushed else pushed in
      let m1 := set_prices prices m in
      if Z.of_nat (length prices) <? window_size_ m1 then Done (Ok m1)
      else
        match thresholds prices with
        | Ok (buy_threshold, sell_threshold) =>
            let current_price := Tick.price tick in
            if (buy_threshold <? current_price) && (position_ m1 <=? 0)
            then
              if position_ m1 <? 0
              then
                match s64 (- position_ m1) with
                | Ok qty =>
                    Submit (Ok m1)
                      (Order.make 0 current_price qty (Tick.timestamp tick)
                         BUY LIMIT 1)
                      (open_long tick)
                | _ => Done Undefined
                end
              else open_long tick (Ok m1)
            else if (current_price <? sell_threshold) && (0 <=? position_ m1)
            then
              if 0 <? position_ m1
              then
                Submit (Ok m1)
                  (Order.make 0 current_price (position_ m1)
                     (Tick.timestamp tick) SELL LIMIT 1)
                  (open_short tick)
              else open_short tick (Ok m1)
            else finish tick (Ok m1)
        | _ => Done Undefined
        end
  | _ => Done st
  end.

(** [on_trade(trade)], lines 67-80. *)
Definition on_trade (trade : Trade.t) (st : result t) : result t :=
  m <- st ;;
  let trades := wrap_u64 (trades_executed_ m + 1) in
  if 0 <? position_ m then
    d <- s64 (Trade.price trade - avg_entry_price_ m) ;;
    gain <- s64 (d * Trade.quantity trade) ;;
    pnl <- s64 (total_pnl_ m + gain) ;;
    Ok (set_pnl_trades pnl trades m)
  else if position_ m <? 0 then
    d <- s64 (avg_entry_price_ m - Trade.price trade) ;;
    gain <- s64 (d * Trade.quantity trade) ;;
    pnl <- s64 (total_pnl_ m + gain) ;;
    Ok (set_pnl_trades pnl trades m)
  else Ok (set_pnl_trades (total_pnl_ m) trades m).

(** The getters, lines 85-87. *)
Definition position (m : t) : Z := position_ m.
Definition pnl (m : t) : Z := total_pnl_ m.
Definition trades (m : t) : Z := trades_executed_ m.
End MomentumStrategy.

(** [class MomentumStrategy : public Strategy]. *)
Definition momentum_strategy : Strategy (result MomentumStrategy.t) :=
  mkStrategy MomentumStrategy.on_tick MomentumStrategy.on_trade
    "MomentumStrategy".

Module MarketMakerStrategy.
Record t : Type := mk {
  spread_ : Z;
  quote_size_ : Z;
  max_position_ : Z;
  position_ : Z;
  tick_count_ : Z;
  trades_count_ : Z;
  total_pnl_ : Z
}.

(** [MarketMakerStrategy(spread, quote_size, max_position)], lines
    104-108. *)
Definition make (spread quote_size max_position : Z) : t :=
  mk spread quote_size max_position 0 0 0 0.

Definition set_tick_count (v : Z) (m : t) : t :=
  mk (spread_ m) (quote_size_ m) (max_position_ m) (position_ m) v
     (trades_count_ m) (total_pnl_ m).

(** Lines 127-131: place the ask, if [can_sell]. *)
Definition place_ask (tick : Tick.t) (can_sell : bool) (st : result t)
    : Act (result t) :=
  match st with
  | Ok m =>
      if can_sell
      then
        match s64 (Tick.price tick + Z.quot (spread_ m) 2) with
        | Ok price =>
            Submit (Ok m)
              (Order.make 0 price (quote_size_ m) (Tick.timestamp tick)
                 SELL LIMIT 2)
              (fun st1 => Done st1)
        | _ => Done Undefined
        end
      else Done (Ok m)
  | _ => Done st
  end.

(** [on_tick(tick, engine)], lines 110-132. *)
Definition on_tick (tick : Tick.t) (st : result t) : Act (result t) :=
  match st with
  | Ok m =>
      let m1 := set_tick_count (wrap_u64 (tick_count_ m + 1)) m in
      if negb (tick_count_ m1 mod 10 =? 0) then Done (Ok m1)
      else
        let mid := Tick.price tick in
        let can_buy := position_ m1 <? max_position_ m1 in
        match s64 (- max_position_ m1) with
        | Ok floor =>
            let can_sell := floor <? position_ m1 in
            if can_buy
            then
              match s64 (mid - Z.quot (spread_ m1) 2) with
              | Ok price =>
                  Submit (Ok m1)
                    (Order.make 0 price (quote_size_ m1)
                       (Tick.timestamp tick) BUY LIMIT 2)
                    (place_ask tick can_sell)
              | _ => Done Undefined
              end
            else place_ask tick can_sell (Ok m1)
        | _ => Done Undefined
        end
  | _ => Done st
  end.

(** [on_trade(trade)], lines 134-142. *)
Definition on_trade (trade : Trade.t) (st : result t) : result t :=
  m <- st ;;
  pnl <- s64 (total_pnl_ m + Z.quot (spread_ m) 2) ;;
  Ok (mk (spread_ m) (quote_size_ m) (max_position_ m) (position_ m)
         (tick_count_ m) (wrap_u64 (trades_count_ m + 1)) pnl).

(** The getters, lines 147-149. *)
Definition position (m : t) : Z := position_ m.
Definition trades (m : t) : Z := trades_count_ m.
Definition pnl (m : t) : Z := total_pnl_ m.
End MarketMakerStrategy.

(** [class MarketMakerStrategy : public Strategy]. *)
Definition market_maker : Strategy (result MarketMakerStrategy.t) :=
  mkStrategy MarketMakerStrategy.on_tick MarketMakerStrategy.on_trade
    "MarketMaker".

(** *** Backtests of the sample strategies *)

(** No object of [l] has run into undefined behaviour. *)
Definition all_defined {T : Type} (l : list (StrategyObj (result T)))
    : bool :=
  forallb (fun so => match state_of so with Ok _ => true | _ => false end) l.

(** [run_backtest(ticks)], lines 47-51 of tick_engine.cpp, on an engine of
    sample strategies: the behaviour of the run is undefined as soon as
    that of a strategy is. *)
Fixpoint sample_backtest_from {T : Type} (umap_begin : list string -> nat)
    (clock : nat -> Z * Z) (n : nat) (ticks : list Tick.t)
    (e : TickEngine (result T)) : result (TickEngine (result T)) :=
  match ticks with
  | [] => Ok e
  | tick :: ticks' =>
      e1 <- process_tick umap_begin (clock n) tick e ;;
      if all_defined (strategies_ e1)
      then sample_backtest_from umap_begin clock (S n) ticks' e1
      else Undefined
  end.

Definition sample_backtest {T : Type} (umap_begin : list string -> nat)
    (clock : nat -> Z * Z) (ticks : list Tick.t)
    (e : TickEngine (result T)) : result (TickEngine (result T)) :=
  sample_backtest_from umap_begin clock 0 ticks e.

(** ** Vocabulary of the properties *)

(** *** Sessions on one book *)

(** A call of a public operation.  In [CallAdd p o] and [CallMarket p o] the
    caller has built the order [o] at address [p] and passes [p]. *)
Inductive Call : Type :=
| CallAdd (p : ptr) (o : Order.t)
| CallMarket (p : ptr) (o : Order.t)
| CallCancel (order_id : Z).

(** A book, the memory its orders live in, and the trades its sink has
    received so far. *)
Definition BookState : Type := (OrderBook * Mem * list Trade.t)%type.

Definition run_call (c : Call) (st : BookState) : result BookState :=
  let '(b, s, log) := st in
  '(b1, s1, tr) <-
     match c with
     | CallAdd p o => add_order b (upd s p o) p
     | CallMarket p o => process_market_order b (upd s p o) p
     | CallCancel order_id => cancel_order b s order_id
     end ;;
  Ok (b1, s1, log ++ tr).

Fixpoint run_calls (cs : list Call) (st : BookState) : result BookState :=
  match cs with
  | [] => Ok st
  | c :: cs' => st1 <- run_call c st ;; run_calls cs' st1
  end.

(** An empty book with a registered sink, over memory [m0]. *)
Definition fresh_book (m0 : Mem) : BookState :=
  (set_trade_callback (new_book "TEST"), m0, []).

(** The orders a level map refers to, in iteration order. *)
Definition level_ptrs (m : LevelMap) : list ptr :=
  flat_map (fun e => PriceLevel.orders (snd e)) m.

Definition book_ptrs (b : OrderBook) : list ptr :=
  level_ptrs (bids_ b) ++ level_ptrs (asks_ b).

(** *** Scenarios *)

(** Memory nothing has been written to yet. *)
Definition blank_mem : Mem := fun _ => Order.make 0 0 0 0 BUY LIMIT 0.

(** Three sells at one price, then a market buy of 250
    (test_fifo_ordering). *)
Definition fifo_calls : list Call :=
  [ CallAdd (0, 0) (Order.make 1 1000000 100 1000 SELL LIMIT 1);
    CallAdd (0, 1) (Order.make 2 1000000 100 2000 SELL LIMIT 2);
    CallAdd (0, 2) (Order.make 3 1000000 100 3000 SELL LIMIT 3);
    CallAdd (0, 3) (Order.make 4 0 250 4000 BUY MARKET 4) ].

(** A bid of 50 passed twice from the same address, then a sell of 50
    that meets it. *)
Definition twice_added_calls : list Call :=
  [ CallAdd (0, 0) (Order.make 1 1000000 50 1000 BUY LIMIT 1);
    CallAdd (0, 0) (Order.make 1 1000000 50 1000 BUY LIMIT 1);
    CallAdd (0, 1) (Order.make 2 1000000 50 2000 SELL LIMIT 2) ].

(** A bid of 100, then a bid of 50 at another price built at the address
    of the first while it rests: what [submit_order] does with a slot
    that the arena hands out again. *)
Definition slot_reused_calls : list Call :=
  [ CallAdd (0, 0) (Order.make 1 1000000 100 1000 BUY LIMIT 1);
    CallAdd (0, 0) (Order.make 2 990000 50 2000 BUY LIMIT 1) ].

(** A sell of 100, then buys of 30, 40 and 30 at its price
    (test_partial_fill_volume). *)
Definition partial_fill_calls : list Call :=
  [ CallAdd (0, 0) (Order.make 1 1000000 100 1000 SELL LIMIT 1);
    CallAdd (0, 1) (Order.make 2 1000000 30 2000 BUY LIMIT 2);
    CallAdd (0, 2) (Order.make 3 1000000 40 3000 BUY LIMIT 3);
    CallAdd (0, 3) (Order.make 4 1000000 30 4000 BUY LIMIT 4) ].

(** Sells on three levels, then a market buy of 250
    (test_multiple_price_levels). *)
Definition sweep_calls : list Call :=
  [ CallAdd (0, 0) (Order.make 1 1000000 100 1000 SELL LIMIT 1);
    CallAdd (0, 1) (Order.make 2 1010000 200 1000 SELL LIMIT 1);
    CallAdd (0, 2) (Order.make 3 1020000 300 1000 SELL LIMIT 1);
    CallAdd (0, 3) (Order.make 4 0 250 2000 BUY MARKET 2) ].

(** Two resting bids, at 1000000 and at 990000. *)
Definition two_bids_calls : list Call :=
  [ CallAdd (0, 0) (Order.make 1 1000000 10 1000 BUY LIMIT 1);
    CallAdd (0, 1) (Order.make 2 990000 10 2000 BUY LIMIT 1) ].

(** A sell of 100 resting at 1005000, and a BUY limit order at 1010000 about
    to be added from address [(0, 1)]. *)
Definition maker_price_scene : OrderBook * Mem :=
  (mkBook "TEST" [] [(1005000, PriceLevel.mk 1005000 [(0, 0)] 100)] true 0,
   upd (upd blank_mem
          (0, 0) (Order.make 1 1005000 100 1000 SELL LIMIT 1))
       (0, 1) (Order.make 2 1010000 100 2000 BUY LIMIT 2)).

(** An empty book, and a MARKET BUY of 10 about to be added from address
    [(0, 0)] (scenario 4 of the specification). *)
Definition no_liquidity_scene : OrderBook * Mem :=
  (new_book "TEST",
   upd blank_mem
       (0, 0) (Order.make 1 0 10 1000 BUY MARKET 1)).

(** A sell of 50 resting at 1000000, and a MARKET BUY of 100 about to be
    added from address [(0, 1)]. *)
Definition thin_book_scene : OrderBook * Mem :=
  (mkBook "TEST" [] [(1000000, PriceLevel.mk 1000000 [(0, 0)] 50)] true 0,
   upd (upd blank_mem
          (0, 0) (Order.make 1 1000000 50 1000 SELL LIMIT 1))
       (0, 1) (Order.make 2 0 100 2000 BUY MARKET 2)).

(** A market buy of 100 against a single resting sell of 50. *)
Definition thin_book_calls : list Call :=
  [ CallAdd (0, 0) (Order.make 1 1000000 50 1000 SELL LIMIT 1);
    CallAdd (0, 1) (Order.make 2 0 100 2000 BUY MARKET 2) ].

(** *** Quantities and prices *)

(** What is left of an order, as an integer. *)
Definition residual (o : Order.t) : Z := Order.quantity o - Order.filled o.

(** The sum of what is left of the orders [qs]. *)
Definition level_sum (s : Mem) (qs : list ptr) : Z :=
  fold_right (fun q acc => residual (s q) + acc) 0 qs.

(** [below sd x y]: for an incoming order of side [sd], price [x] does not
    reach price [y] of the opposite side (a bid under an ask). *)
Definition below (sd : Side) (x y : Z) : Prop :=
  match sd with BUY => x < y | SELL => y < x end.

(** *** Trades *)

(** The trade [t] pairs the incoming order with an order [contra] of
    [level]: it carries the price of the level, the later of the two time
    stamps, and the two ids on the sides the orders are on. *)
Definition trade_at_level (sd : Side) (s : Mem) (order : ptr)
    (level : PriceLevel.t) (t : Trade.t) : Prop :=
  exists contra,
    In contra (PriceLevel.orders level) /\
    Trade.price t = PriceLevel.price level /\
    Trade.timestamp t
      = Z.max (Order.timestamp (s order)) (Order.timestamp (s contra)) /\
    match sd with
    | BUY => Trade.buy_order_id t = Order.id (s order) /\
             Trade.sell_order_id t = Order.id (s contra)
    | SELL => Trade.buy_order_id t = Order.id (s contra) /\
              Trade.sell_order_id t = Order.id (s order)
    end.

(** The trade [t] pairs the incoming order with an order resting in one of
    the levels of [m]. *)
Definition maker_priced (sd : Side) (s : Mem) (order : ptr) (m : LevelMap)
    (t : Trade.t) : Prop :=
  exists k level, In (k, level) m /\ trade_at_level sd s order level t.

(** *** Consumption of a side *)

(** [eaten m m']: [m'] is what is left of the side [m] when orders have been
    taken from its front: whole levels are gone, the first level left has
    lost orders from its front, the others are as they were. *)
Inductive eaten : LevelMap -> LevelMap -> Prop :=
| eaten_all (m : LevelMap) : eaten m []
| eaten_front (k : Z) (l l' : PriceLevel.t) (rest : LevelMap)
    (gone : list ptr) :
    PriceLevel.price l' = PriceLevel.price l ->
    PriceLevel.orders l = gone ++ PriceLevel.orders l' ->
    eaten ((k, l) :: rest) ((k, l') :: rest)
| eaten_level (e : Z * PriceLevel.t) (m m' : LevelMap) :
    eaten m m' -> eaten (e :: m) m'.

(** Why the outer loop of [match_order] was left: the order is filled, the
    opposite side is empty, or its first level is out of a LIMIT order's
    reach. *)
Definition stopped (sd : Side) (p : ptr) (b : OrderBook) (s : Mem) : Prop :=
  Order.quantity (s p) <= Order.filled (s p) \/
  contra_levels sd b = [] \/
  (Order.type (s p) = LIMIT /\
   exists k l rest, contra_levels sd b = (k, l) :: rest /\
                    out_of_reach sd (s p) l = true).


(** The status [match_order] gives the incoming order at its end. *)
Definition final_status (o : Order.t) : OrderStatus :=
  if Order.quantity o <=? Order.filled o then FILLED
  else if 0 <? Order.filled o then PARTIAL else PENDING.

(** The order of the side an order of side [sd] rests on, and the update of
    that side. *)
Definition own_cmp (sd : Side) : Z -> Z -> bool :=
  match sd with BUY => greater | SELL => less end.
Definition set_own_levels (sd : Side) (m : LevelMap) (b : OrderBook)
    : OrderBook :=
  match sd with BUY => set_bids m b | SELL => set_asks m b end.

(** *** The invariant of a book *)

(** The total of a level is the sum of what is left of its orders, and the
    level holds an order. *)
Definition level_exact (s : Mem) (l : PriceLevel.t) : Prop :=
  PriceLevel.total_quantity l = level_sum s (PriceLevel.orders l) /\
  PriceLevel.orders l <> [].

Definition levels_consistent (b : OrderBook) (s : Mem) : Prop :=
  Forall (fun e => level_exact s (snd e)) (bids_ b ++ asks_ b).

(** The highest bid is under the lowest ask. *)
Definition not_crossed (b : OrderBook) : Prop :=
  match bids_ b, asks_ b with
  | (kb, _) :: _, (ka, _) :: _ => kb < ka
  | _, _ => True
  end.

(** How the book is laid out: a level is filed under its price and every
    order in it has something left. *)
Definition level_wf (s : Mem) (e : Z * PriceLevel.t) : Prop :=
  PriceLevel.price (snd e) = fst e /\
  Forall (fun q => Order.filled (s q) < Order.quantity (s q))
         (PriceLevel.orders (snd e)).

(** The invariant: the two properties of the specification, on a book whose
    maps are ordered as their comparators say and which refers to no order
    twice. *)
Definition book_inv (b : OrderBook) (s : Mem) : Prop :=
  levels_consistent b s /\
  not_crossed b /\
  Forall (level_wf s) (bids_ b ++ asks_ b) /\
  StronglySorted (fun x y => fst y < fst x) (bids_ b) /\
  StronglySorted (fun x y => fst x < fst y) (asks_ b) /\
  NoDup (book_ptrs b).

(** The same, seen from an incoming order of side [sd]. *)
Definition level_ok (s : Mem) (e : Z * PriceLevel.t) : Prop :=
  level_exact s (snd e) /\ level_wf s e.

Definition heads_apart (sd : Side) (own contra : LevelMap) : Prop :=
  match own, contra with
  | (ko, _) :: _, (kc, _) :: _ => below sd ko kc
  | _, _ => True
  end.

Definition book_inv_for (sd : Side) (b : OrderBook) (s : Mem) : Prop :=
  Forall (level_ok s) (own_levels sd b) /\
  Forall (level_ok s) (contra_levels sd b) /\
  StronglySorted (fun x y => below sd (fst y) (fst x)) (own_levels sd b) /\
  StronglySorted (fun x y => below sd (fst x) (fst y)) (contra_levels sd b) /\
  heads_apart sd (own_levels sd b) (contra_levels sd b) /\
  NoDup (level_ptrs (own_levels sd b) ++ level_ptrs (contra_levels sd b)).

(** What matching may do to a resting order: nothing, or fill more of it,
    up to its quantity, and set its status accordingly. *)
Definition fill_step (o o' : Order.t) : Prop :=
  o' = o \/
  (Order.terms o' = Order.terms o /\
   Order.filled o < Order.filled o' <= Order.quantity o /\
   Order.status o' = if Order.filled o' <? Order.quantity o
                     then PARTIAL else FILLED).

(** What the loops of [match_order] do to the incoming order: they raise
    [filled], not beyond [quantity]. *)
Definition taker_step (o o' : Order.t) : Prop :=
  Order.terms o' = Order.terms o /\
  Order.filled o <= Order.filled o' /\
  Order.filled o' <= Z.max (Order.filled o) (Order.quantity o).

(** A map is well formed when its keys follow each other in the order of
    its comparator. *)
Definition map_sorted (cmp : Z -> Z -> bool) (m : LevelMap) : Prop :=
  StronglySorted (fun x y => cmp (fst x) (fst y) = true) m.

(** The status [process_market_order] leaves on its order. *)
Definition market_status (o : Order.t) : OrderStatus :=
  if Order.quantity o <=? Order.filled o then FILLED else CANCELLED.

(** The address a call brings is not referred to by the book: the order is
    new to it. *)
Definition call_fresh (c : Call) (b : OrderBook) : Prop :=
  match c with
  | CallAdd p _ | CallMarket p _ => ~ In p (book_ptrs b)
  | CallCancel _ => True
  end.

(** *** Status and fill *)

(** An order is resolved when it is filled or cancelled. *)
Definition resolved (o : Order.t) : Prop :=
  Order.status o = FILLED \/ Order.status o = CANCELLED.

(** The status of an order agrees with its fill, as the data model words
    it. *)
Definition status_as_specified (o : Order.t) : Prop :=
  0 <= Order.filled o <= Order.quantity o /\
  (Order.status o = FILLED <-> Order.filled o = Order.quantity o) /\
  (Order.status o = PARTIAL <-> 0 < Order.filled o < Order.quantity o) /\
  (Order.status o = PENDING <-> Order.filled o = 0 /\ ~ resolved o) /\
  (Order.status o = CANCELLED ->
   Order.type o = MARKET /\ Order.filled o < Order.quantity o).

(** The same, where a part-filled order is PARTIAL unless it was
    cancelled. *)
Definition status_ok (o : Order.t) : Prop :=
  0 <= Order.filled o <= Order.quantity o /\
  (Order.status o = FILLED <-> Order.filled o = Order.quantity o) /\
  (Order.status o = PARTIAL <->
   0 < Order.filled o < Order.quantity o /\ Order.status o <> CANCELLED) /\
  (Order.status o = PENDING <-> Order.filled o = 0 /\ ~ resolved o) /\
  (Order.status o = CANCELLED ->
   Order.type o = MARKET /\ Order.filled o < Order.quantity o).

(** What [add_order] asks of an order: nothing filled yet and a positive
    quantity. *)
Definition order_in_contract (o : Order.t) : Prop :=
  Order.filled o = 0 /\ 0 < Order.quantity o.

(** A session is in contract when every call brings an order in contract at
    an address no earlier call has used ([used] lists the addresses of the
    earlier calls), and [process_market_order] is given MARKET orders. *)
Fixpoint calls_valid (used : list ptr) (cs : list Call) : Prop :=
  match cs with
  | [] => True
  | CallAdd p o :: cs' =>
      ~ In p used /\ order_in_contract o /\ calls_valid (p :: used) cs'
  | CallMarket p o :: cs' =>
      ~ In p used /\ order_in_contract o /\ Order.type o = MARKET /\
      calls_valid (p :: used) cs'
  | CallCancel _ :: cs' => calls_valid used cs'
  end.

(** The addresses of the orders a session has passed to the book. *)
Fixpoint calls_ptrs (cs : list Call) : list ptr :=
  match cs with
  | [] => []
  | CallAdd p _ :: cs' | CallMarket p _ :: cs' => p :: calls_ptrs cs'
  | CallCancel _ :: cs' => calls_ptrs cs'
  end.

(** The invariant of a session: the book is well formed and refers to
    orders of the session only, none of them cancelled, and every order of
    the session has a status that agrees with its fill. *)
Definition session_inv (used : list ptr) (st : BookState) : Prop :=
  let '(b, s, _) := st in
  book_inv b s /\
  incl (book_ptrs b) used /\
  (forall q, In q (book_ptrs b) -> Order.status (s q) <> CANCELLED) /\
  (forall q, In q used -> status_ok (s q)).

(** *** The engine *)

(** The entry [order_books_.begin()] designates, if the map has one. *)
Definition begin_entry (umap_begin : list string -> nat)
    (m : list (string * OrderBook)) : option (string * OrderBook) :=
  nth_error m (begin_index umap_begin m).

(** The order [submit_order] builds from a template. *)
Definition stamped {St : Type} (e : TickEngine St) (order_template : Order.t)
    : Order.t :=
  Order.set_timestamp (current_time_ e)
    (Order.set_id (next_order_id_ e) order_template).

(** The slot [submit_order] takes from the arena. *)
Definition next_slot {St : Type} (e : TickEngine St) : ptr :=
  fst (allocate DefaultBlockSize (order_pool_ e)).

(** *** Scenarios on an engine *)

(** [begin()] is the entry inserted first. *)
Definition oldest_first : list string -> nat := fun _ => 0%nat.

(** An order submitted before any tick, then a tick, then a sell and a buy
    that match. *)
Definition gap_run (umap_begin : list string -> nat) (m0 : Mem)
    : result (TickEngine unit) :=
  e1 <- submit_order umap_begin (new_engine m0)
          (Order.make 0 1000000 10 0 SELL LIMIT 1) ;;
  e2 <- process_tick umap_begin (0, 0)
          (Tick.mk "AAPL" 1000000 100 1000 BUY) e1 ;;
  e3 <- submit_order umap_begin e2 (Order.make 0 1000000 10 0 SELL LIMIT 1) ;;
  submit_order umap_begin e3 (Order.make 0 1000000 10 0 BUY LIMIT 2).

(** A strategy that bids for 10 at the price of every tick. *)
Definition bid_every_tick : Strategy unit :=
  mkStrategy
    (fun tick st =>
       Submit st
         (Order.make 0 (Tick.price tick) 10 (Tick.timestamp tick)
            BUY LIMIT 1)
         (fun st' => Done st'))
    (fun _ st => st)
    "BidEveryTick".

(** A tick for AAPL, then a tick for MSFT. *)
Definition two_symbol_ticks : list Tick.t :=
  [ Tick.mk "AAPL" 1000000 100 1000 BUY;
    Tick.mk "MSFT" 3000000 100 2000 BUY ].

(** Ticks for AAPL and MSFT in turn, two of each. *)
Definition alternating_ticks : list Tick.t :=
  [ Tick.mk "AAPL" 1000000 100 1000 BUY;
    Tick.mk "MSFT" 3000000 100 2000 BUY;
    Tick.mk "AAPL" 1000500 100 3000 BUY;
    Tick.mk "MSFT" 3000500 100 4000 BUY ].

(** A clock that reads [t0] and then [t0 + d] around every tick. *)
Definition steady_clock (t0 d : Z) : nat -> Z * Z := fun _ => (t0, t0 + d).

(** *** Two runs side by side *)

(** Two memories hold the same orders at the addresses [A]. *)
Definition agree (A : list ptr) (s s' : Mem) : Prop :=
  forall p, In p A -> s p = s' p.

(** Two computations end alike, with results related by [R]. *)
Definition result_rel {X : Type} (R : X -> X -> Prop) (r1 r2 : result X)
    : Prop :=
  match r1, r2 with
  | Ok a1, Ok a2 => R a1 a2
  | Undefined, Undefined => True
  | OutOfFuel, OutOfFuel => True
  | _, _ => False
  end.

(** The same book (or level) and trades, over memories that agree on
    [A]. *)
Definition same_on {X : Type} (A : list ptr)
    (r1 r2 : X * Mem * list Trade.t) : Prop :=
  fst (fst r1) = fst (fst r2) /\ snd r1 = snd r2 /\
  agree A (snd (fst r1)) (snd (fst r2)).

Definition same_level_on (A : list ptr)
    (r1 r2 : OrderBook * Mem * PriceLevel.t * list Trade.t) : Prop :=
  let '(b1, s1, l1, tr1) := r1 in
  let '(b2, s2, l2, tr2) := r2 in
  b1 = b2 /\ l1 = l2 /\ tr1 = tr2 /\ agree A s1 s2.

(** The orders the books of an engine refer to. *)
Definition all_book_ptrs (m : list (string * OrderBook)) : list ptr :=
  flat_map (fun e => book_ptrs (snd e)) m.

(** An engine without its memory and without the latency it has measured. *)
Definition public {St : Type} (e : TickEngine St) :=
  (order_books_ e, strategies_ e, order_pool_ e, next_order_id_ e,
   current_time_ e,
   (Stats.ticks_processed (stats_ e), Stats.orders_submitted (stats_ e),
    Stats.trades_executed (stats_ e)),
   trade_log e).

(** Two engines differ at most in the latency they have measured and in
    memory their books do not refer to. *)
Definition alike {St : Type} (e1 e2 : TickEngine St) : Prop :=
  public e1 = public e2 /\
  agree (all_book_ptrs (order_books_ e1)) (memory e1) (memory e2).

(** What a run shows: the three counters and the trades, in the order in
    which [on_trade] received them. *)
Definition observed {St : Type} (e : TickEngine St)
    : Z * Z * Z * list Trade.t :=
  (Stats.ticks_processed (stats_ e), Stats.orders_submitted (stats_ e),
   Stats.trades_executed (stats_ e), trade_log e).

(** A new engine with the strategies [l] registered in that order. *)
Definition engine_with {St : Type} (l : list (StrategyObj St)) (m0 : Mem)
    : TickEngine St :=
  fold_left add_strategy l (new_engine m0).

(** The passes the inner loop still has to make: one for each order of the
    level, and one if the incoming order is not filled. *)
Definition passes_left (s : Mem) (p : ptr) (n : nat) : nat :=
  n + (if Order.filled (s p) <? Order.quantity (s p) then 1 else 0).


(** *** Quantities within the range of [int64_t] *)







(** *** The arena and the registry *)

(** The slots [n] calls of [allocate()] hand out when the arena holds one
    block and its index stands at [idx]. *)
Definition slots_from (BlockSize idx : Z) (n : nat) : list ptr :=
  map (fun i => (0, (idx + Z.of_nat i) mod BlockSize)) (seq 0 n).

(** The registry after the symbols [syms] have been registered, in that
    order. *)
Definition registered (syms : list string) : SymbolRegistry.t :=
  fold_left (fun r symbol => snd (SymbolRegistry.register_symbol symbol r))
            syms SymbolRegistry.empty.

(** The registry knows each of its symbols under its position (as a
    [SymbolId]) and knows no other symbol; no symbol is listed twice. *)
Definition registry_inv (r : SymbolRegistry.t) : Prop :=
  NoDup (SymbolRegistry.symbols_ r) /\
  (forall i symbol,
     nth_error (SymbolRegistry.symbols_ r) i = Some symbol ->
     SymbolRegistry.find symbol (SymbolRegistry.symbol_to_id_ r)
       = Some (to_SymbolId (Z.of_nat i))) /\
  (forall symbol id,
     SymbolRegistry.find symbol (SymbolRegistry.symbol_to_id_ r) = Some id ->
     In symbol (SymbolRegistry.symbols_ r)).

(** *** Ledgers of a book *)

(** The quantity the trades [tr] have moved. *)
Definition traded (tr : list Trade.t) : Z :=
  fold_right (fun t acc => Trade.quantity t + acc) 0 tr.

(** The sum of the totals of the levels of a side. *)
Definition side_total (m : LevelMap) : Z :=
  fold_right (fun e acc => PriceLevel.total_quantity (snd e) + acc) 0 m.

(** For an incoming order of side [sd], price [x] is at least as good as
    price [y]: not higher for a buyer, not lower for a seller. *)
Definition no_worse (sd : Side) (x y : Z) : Prop :=
  match sd with BUY => x <= y | SELL => y <= x end.

(** An order is done: it is filled to its quantity and marked FILLED. *)
Definition done (o : Order.t) : Prop :=
  Order.filled o = Order.quantity o /\ Order.status o = FILLED.

(** Every level of the side is filed under its price. *)
Definition filed (m : LevelMap) : Prop :=
  Forall (fun e => PriceLevel.price (snd e) = fst e) m.

(** The level of the side [m] at price [k], as [m[k]] would find or create
    it. *)
Definition level_at (cmp : Z -> Z -> bool) (k : Z) (m : LevelMap)
    : PriceLevel.t :=
  match map_find cmp k m with
  | Some l => l
  | None => PriceLevel.empty
  end.

(** A sell of 100 resting at 1005000 and a sell of 100 at 1010000, and a
    BUY limit order for 150 at 1010000 about to be added from address
    [(0, 2)]. *)
Definition two_asks_scene : OrderBook * Mem :=
  (mkBook "TEST" []
     [(1005000, PriceLevel.mk 1005000 [(0, 0)] 100);
      (1010000, PriceLevel.mk 1010000 [(0, 1)] 100)] true 0,
   upd (upd (upd blank_mem
          (0, 0) (Order.make 1 1005000 100 1000 SELL LIMIT 1))
          (0, 1) (Order.make 2 1010000 100 1500 SELL LIMIT 1))
       (0, 2) (Order.make 3 1010000 150 2000 BUY LIMIT 2)).

(** A bid of 100 at 1010000 under an ask of 100 at 1020000, and a BUY limit
    order for 50 at 1010000 about to be added from address [(0, 2)]. *)
Definition resting_bid_scene : OrderBook * Mem :=
  (mkBook "TEST"
     [(1010000, PriceLevel.mk 1010000 [(0, 0)] 100)]
     [(1020000, PriceLevel.mk 1020000 [(0, 1)] 100)] true 0,
   upd (upd (upd blank_mem
          (0, 0) (Order.make 1 1010000 100 1000 BUY LIMIT 1))
          (0, 1) (Order.make 2 1020000 100 1500 SELL LIMIT 1))
       (0, 2) (Order.make 3 1010000 50 2000 BUY LIMIT 2)).

(** *** Runs of the engine *)

(** The executions the books [m] have counted. *)
Definition books_trades (m : list (string * OrderBook)) : Z :=
  fold_right (fun e acc => total_trades (snd e) + acc) 0 m.

(** Every book of the engine is filed under its symbol, once, and has a
    sink registered (the engine's [on_trade]). *)
Definition books_wired {St : Type} (e : TickEngine St) : Prop :=
  NoDup (map fst (order_books_ e)) /\
  Forall (fun kb => symbol_ (snd kb) = fst kb /\
                    trade_callback_ (snd kb) = true /\
                    0 <= total_trades_ (snd kb) < 2 ^ 64)
         (order_books_ e).

(** [trades_executed] is what the books have counted, and the number of
    trades [on_trade] has received. *)
Definition trades_counted {St : Type} (e : TickEngine St) : Prop :=
  Stats.trades_executed (stats_ e)
    = wrap_u64 (books_trades (order_books_ e)) /\
  Stats.trades_executed (stats_ e)
    = wrap_u64 (Z.of_nat (length (trade_log e))).

Definition engine_inv {St : Type} (e : TickEngine St) : Prop :=
  books_wired e /\ trades_counted e.

(** The ids handed out that were not counted as submitted. *)
Definition uncounted {St : Type} (e : TickEngine St) : Z :=
  wrap_u64 (next_order_id_ e - Stats.orders_submitted (stats_ e)).

(** What a strategy cannot change through [submit_order]: the symbols that
    have a book, the strategy objects registered (their states apart), the
    time, the ticks and the latency counted; and, once there is a book,
    the number of ids that were handed out without being counted. *)
Definition kept {St : Type} (e e' : TickEngine St) : Prop :=
  map fst (order_books_ e') = map fst (order_books_ e) /\
  map class_of (strategies_ e') = map class_of (strategies_ e) /\
  current_time_ e' = current_time_ e /\
  Stats.ticks_processed (stats_ e') = Stats.ticks_processed (stats_ e) /\
  Stats.total_latency_ns (stats_ e') = Stats.total_latency_ns (stats_ e) /\
  (order_books_ e <> [] -> uncounted e' = uncounted e).

(** The durations measured around the [len] ticks from position [n]. *)
Fixpoint latency_sum (clock : nat -> Z * Z) (n len : nat) : Z :=
  match len with
  | O => 0
  | S len' => (snd (clock n) - fst (clock n)) + latency_sum clock (S n) len'
  end.

(** A strategy that, at every tick, offers 10 at the price of the tick and
    then bids for 10 at that price. *)
Definition cross_every_tick : Strategy unit :=
  mkStrategy
    (fun tick st =>
       Submit st (Order.make 0 (Tick.price tick) 10 0 SELL LIMIT 1)
         (fun st1 =>
            Submit st1 (Order.make 0 (Tick.price tick) 10 0 BUY LIMIT 2)
              (fun st2 => Done st2)))
    (fun _ st => st)
    "CrossEveryTick".

(** *** The engine within its arena *)

(** The steps [a] call [submit_order] at most [n] times, in whatever state
    the object is when the calls return. *)
Inductive submits_at_most {St : Type} : nat -> Act St -> Prop :=
| submits_none (n : nat) (st : St) : submits_at_most n (Done st)
| submits_one (n : nat) (st : St) (order : Order.t) (k : St -> Act St) :
    (forall st', submits_at_most n (k st')) ->
    submits_at_most (S n) (Submit st order k).

(** Every strategy class of [l] submits at most [d] orders in one
    [on_tick]. *)
Definition at_most_per_tick {St : Type} (d : nat) (l : list (Strategy St))
    : Prop :=
  Forall (fun c => forall tick st, submits_at_most d (on_tick St c tick st)) l.

(** The arena of the engine has handed out the first slots of its block
    only and has room for [room] more; the books refer to slots handed
    out, none of them twice, and every book is well formed. *)
Definition arena_inv {St : Type} (room : nat) (e : TickEngine St) : Prop :=
  blocks_ (order_pool_ e) = [Block.mk 0] /\
  current_block_ (order_pool_ e) = 0 /\
  0 <= current_index_ (order_pool_ e) /\
  current_index_ (order_pool_ e) + Z.of_nat room <= DefaultBlockSize /\
  Forall (fun q => fst q = 0 /\ 0 <= snd q < current_index_ (order_pool_ e))
         (all_book_ptrs (order_books_ e)) /\
  NoDup (all_book_ptrs (order_books_ e)) /\
  Forall (fun kb => book_inv (snd kb) (memory e)) (order_books_ e).

(** *** Invariants of strategy objects *)

(** The steps [a] leave and find the object in states that satisfy [I],
    an invariant that may depend on the trades [on_trade] has received:
    [I] holds of every state the object is left in when [a] calls
    [submit_order] or returns, provided it holds whenever a call
    returns. *)
Inductive act_keeps {St : Type} (I : list Trade.t -> St -> Prop)
    : list Trade.t -> Act St -> Prop :=
| keeps_done (log : list Trade.t) (st : St) :
    I log st -> act_keeps I log (Done st)
| keeps_submit (log : list Trade.t) (st : St) (order : Order.t)
    (k : St -> Act St) :
    I log st ->
    (forall log' st', I log' st' -> act_keeps I log' (k st')) ->
    act_keeps I log (Submit st order k).

(** The member functions of the class [c] preserve [I]. *)
Definition upholds {St : Type} (c : Strategy St)
    (I : list Trade.t -> St -> Prop) : Prop :=
  (forall log st trade,
     I log st -> I (log ++ [trade]) (on_trade St c trade st)) /\
  (forall log st tick, I log st -> act_keeps I log (on_tick St c tick st)).

(** Every strategy object of the engine satisfies the invariant of its
    class, for the trades received so far. *)
Definition objects_keep {St : Type}
    (I : Strategy St -> list Trade.t -> St -> Prop) (e : TickEngine St)
    : Prop :=
  Forall (fun so => I (class_of so) (trade_log e) (state_of so))
         (strategies_ e).

(** The classes of the objects registered are among [classes]. *)
Definition registered_in {St : Type} (classes : list (Strategy St))
    (e : TickEngine St) : Prop :=
  incl (map class_of (strategies_ e)) classes.

(** *** The sample strategies *)




Definition new_momentum (window_size order_size : Z) (last_tick : Tick.t)
    : StrategyObj (result MomentumStrategy.t) :=
  mkObj momentum_strategy
    (Ok (MomentumStrategy.make window_size order_size last_tick)).

(** A momentum object that has seen fewer prices than its window holds,
    by more than [k]. *)
Definition warming_up (k : nat) (so : StrategyObj (result MomentumStrategy.t))
    : Prop :=
  class_of so = momentum_strategy /\
  exists m, state_of so = Ok m /\
            Z.of_nat (length (MomentumStrategy.prices_ m)) + Z.of_nat k
              < MomentumStrategy.window_size_ m.

(** The object after an [on_tick] that submits nothing. *)
Definition quiet_step {St : Type} (tick : Tick.t) (so : StrategyObj St)
    : StrategyObj St :=
  match on_tick St (class_of so) tick (state_of so) with
  | Done st => mkObj (class_of so) st
  | Submit _ _ _ => so
  end.

(** Ten ticks for TEST at 1000000. *)
Definition flat_ticks : list Tick.t :=
  map (fun i => Tick.mk "TEST" 1000000 100 (Z.of_nat i * 1000) BUY)
      (seq 0 10).

(** The engine with the strategy objects [l] in place of its own. *)
Definition set_strategies {St : Type} (l : list (StrategyObj St))
    (e : TickEngine St) : TickEngine St :=
  mkEngine St (order_books_ e) l (order_pool_ e) (next_order_id_ e)
    (current_time_ e) (stats_ e) (memory e) (trade_log e).

(** A strategy that crosses its own offer at every tick and counts the
    trades it is told of. *)
Definition counting_cross : Strategy nat :=
  mkStrategy
    (fun tick st =>
       Submit st (Order.make 0 (Tick.price tick) 10 0 SELL LIMIT 1)
         (fun st1 =>
            Submit st1 (Order.make 0 (Tick.price tick) 10 0 BUY LIMIT 2)
              (fun st2 => Done st2)))
    (fun _ st => S st)
    "CountingCross".

(** An object of class [counting_cross] has counted the trades received. *)
Definition counted (c : Strategy nat) (log : list Trade.t) (st : nat) : Prop :=
  c = counting_cross -> st = length log.

(** * Properties *)

(** ** The arena *)

(** Whatever the block size, the arena never owns more than its first
    block. *)
Lemma allocate_block_single (p : MemoryPool) :
  blocks_ p = [Block.mk 0] -> current_block_ p = 0 ->
  allocate_block p = mkPool [Block.mk 0] 0 0.
Proof.
  destruct p as [bl cb ci]; simpl; intros -> ->.
  reflexivity.
Qed.

Lemma allocate_single (BlockSize : Z) (p : MemoryPool) :
  blocks_ p = [Block.mk 0] -> current_block_ p = 0 ->
  blocks_ (snd (allocate BlockSize p)) = [Block.mk 0] /\
  current_block_ (snd (allocate BlockSize p)) = 0 /\
  fst (fst (allocate BlockSize p)) = 0.
Proof.
  intros Hb Hc. unfold allocate.
  destruct (BlockSize <=? current_index_ p).
  - rewrite (allocate_block_single p Hb Hc). simpl. auto.
  - simpl. rewrite Hb, Hc. simpl. auto.
Qed.

Lemma allocate_many_single (BlockSize : Z) (n : nat) (p : MemoryPool) :
  blocks_ p = [Block.mk 0] -> current_block_ p = 0 ->
  blocks_ (snd (allocate_many BlockSize n p)) = [Block.mk 0] /\
  Forall (fun a => fst a = 0) (fst (allocate_many BlockSize n p)).
Proof.
  revert p. induction n as [|n IH]; intros p Hb Hc; cbn [allocate_many].
  - simpl. auto.
  - destruct (allocate_single BlockSize p Hb Hc) as (Hb1 & Hc1 & Ha).
    destruct (allocate BlockSize p) as [a p1]. simpl in *.
    destruct (IH p1 Hb1 Hc1) as (Hb2 & Hall).
    destruct (allocate_many BlockSize n p1) as [l p2]. simpl in *.
    split; [assumption | constructor; assumption].
Qed.

(** C1 (as the code behaves): with the default block size, the 4097th call of
    [allocate()] on a new arena hands out the slot of the first call again;
    the arena still owns a single block and [allocated_count()] is back
    to 1. *)
Theorem C1_arena_hands_out_first_slot_again :
  let r := allocate_many DefaultBlockSize 4097 new_pool in
  nth 4096 (fst r) (0, 0) = nth 0 (fst r) (0, 0) /\
  nth 0 (fst r) (0, 0) = (0, 0) /\
  firstn 4096 (fst r) = map (fun i => (0, Z.of_nat i)) (seq 0 4096) /\
  length (blocks_ (snd r)) = 1%nat /\
  allocated_count DefaultBlockSize (snd r) = 1.
Proof.
  vm_compute. repeat split; try reflexivity.
Qed.

(** * Basic facts *)

(** ** Results *)

Lemma bind_Ok {A B : Type} (c : result A) (k : A -> result B) (r : B) :
  bind c k = Ok r -> exists a, c = Ok a /\ k a = Ok r.
Proof.
  destruct c; simpl; intros H; try discriminate.
  exists a. split; [reflexivity | assumption].
Qed.

Lemma s64_Ok (z v : Z) :
  s64 z = Ok v -> v = z /\ INT64_MIN <= z <= INT64_MAX.
Proof.
  unfold s64, in_s64. destruct (INT64_MIN <=? z) eqn:E1; simpl.
  - destruct (z <=? INT64_MAX) eqn:E2; intros H; inversion H; subst.
    apply Z.leb_le in E1. apply Z.leb_le in E2. split; [reflexivity | lia].
  - discriminate.
Qed.

Lemma s64_in_range (z : Z) :
  INT64_MIN <= z <= INT64_MAX -> s64 z = Ok z.
Proof.
  intros [H1 H2]. unfold s64, in_s64.
  apply Z.leb_le in H1. apply Z.leb_le in H2. rewrite H1, H2. reflexivity.
Qed.

Lemma remaining_Ok (o : Order.t) (v : Z) :
  Order.remaining o = Ok v ->
  v = Order.quantity o - Order.filled o /\ INT64_MIN <= v <= INT64_MAX.
Proof.
  unfold Order.remaining. intros H. apply s64_Ok in H.
  destruct H as [-> H]. auto.
Qed.

(** Peel the successful steps off a computation that ends in [Ok]. *)
Ltac ok_inv H :=
  let a := fresh "a" in
  let H1 := fresh "Hstep" in
  apply bind_Ok in H; destruct H as (a & H1 & H).

(** ** Memory *)

Lemma ptr_eqb_eq (a b : ptr) : ptr_eqb a b = true <-> a = b.
Proof.
  destruct a as [a1 a2], b as [b1 b2]. unfold ptr_eqb. simpl.
  rewrite andb_true_iff, !Z.eqb_eq. split.
  - intros [-> ->]. reflexivity.
  - intros H. inversion H. auto.
Qed.

Lemma ptr_eqb_refl (a : ptr) : ptr_eqb a a = true.
Proof. apply ptr_eqb_eq. reflexivity. Qed.

Lemma ptr_eqb_neq (a b : ptr) : a <> b -> ptr_eqb a b = false.
Proof.
  intros H. destruct (ptr_eqb a b) eqn:E; [|reflexivity].
  apply ptr_eqb_eq in E. contradiction.
Qed.

Lemma ptr_eq_dec (a b : ptr) : {a = b} + {a <> b}.
Proof.
  destruct (ptr_eqb a b) eqn:E.
  - left. apply ptr_eqb_eq. assumption.
  - right. intros H. apply ptr_eqb_eq in H. congruence.
Qed.

Lemma upd_same (s : Mem) (p : ptr) (o : Order.t) : upd s p o p = o.
Proof. unfold upd. rewrite ptr_eqb_refl. reflexivity. Qed.

Lemma upd_other (s : Mem) (p q : ptr) (o : Order.t) :
  q <> p -> upd s p o q = s q.
Proof. intros H. unfold upd. rewrite (ptr_eqb_neq q p H). reflexivity. Qed.

(** A write of [filled] or [status] leaves the terms of every order. *)
Lemma terms_upd (s : Mem) (p q : ptr) (o : Order.t) :
  Order.terms o = Order.terms (s p) ->
  Order.terms (upd s p o q) = Order.terms (s q).
Proof.
  intros H. destruct (ptr_eq_dec q p) as [->|Hne].
  - rewrite upd_same. assumption.
  - rewrite upd_other by assumption. reflexivity.
Qed.

Lemma terms_fields (o o' : Order.t) :
  Order.terms o' = Order.terms o ->
  Order.id o' = Order.id o /\ Order.price o' = Order.price o /\
  Order.quantity o' = Order.quantity o /\
  Order.timestamp o' = Order.timestamp o /\
  Order.side o' = Order.side o /\ Order.type o' = Order.type o.
Proof.
  destruct o, o'. unfold Order.terms. simpl. intros H. inversion H.
  repeat split; reflexivity.
Qed.

(** ** What every run of the matching loops does *)

Lemma trade_with_book (sd : Side) (b : OrderBook) (s : Mem) (p q : ptr)
    (price qty : Z) (b1 : OrderBook) (tr : list Trade.t) :
  trade_with sd b s p q price qty = (b1, tr) ->
  symbol_ b1 = symbol_ b /\ bids_ b1 = bids_ b /\ asks_ b1 = asks_ b /\
  trade_callback_ b1 = trade_callback_ b /\
  total_trades_ b1 = wrap_u64 (total_trades_ b + 1).
Proof.
  unfold trade_with, execute_trade.
  destruct sd; intros H; inversion H; simpl; auto.
Qed.

Lemma trade_with_trades (sd : Side) (b : OrderBook) (s : Mem) (p q : ptr)
    (level : PriceLevel.t) (rest : list ptr) (qty : Z) (b1 : OrderBook)
    (tr : list Trade.t) :
  trade_with sd b s p q (PriceLevel.price level) qty = (b1, tr) ->
  PriceLevel.orders level = q :: rest ->
  Forall (trade_at_level sd s p level) tr.
Proof.
  unfold trade_with, execute_trade. intros H Hq.
  assert (Hin : In q (PriceLevel.orders level)) by (rewrite Hq; left; reflexivity).
  destruct sd; inversion H; subst; destruct (trade_callback_ b);
    constructor; try constructor; exists q; simpl;
    repeat split; auto using Z.max_comm.
Qed.

Lemma trade_at_level_terms (sd : Side) (s s' : Mem) (p : ptr)
    (level level' : PriceLevel.t) (t : Trade.t) :
  (forall q, Order.terms (s' q) = Order.terms (s q)) ->
  PriceLevel.price level' = PriceLevel.price level ->
  incl (PriceLevel.orders level') (PriceLevel.orders level) ->
  trade_at_level sd s' p level' t -> trade_at_level sd s p level t.
Proof.
  intros Ht Hp Hincl (q & Hin & Hprice & Hts & Hids).
  exists q.
  destruct (terms_fields _ _ (Ht p)) as (Hid & _ & _ & Htime & _).
  destruct (terms_fields _ _ (Ht q)) as (Hidq & _ & _ & Htimeq & _).
  rewrite Hid, Hidq, Htime, Htimeq, Hp in *.
  auto.
Qed.
Lemma terms_set_filled (v : Z) (o : Order.t) :
  Order.terms (Order.set_filled v o) = Order.terms o.
Proof. reflexivity. Qed.

Lemma terms_set_status (v : OrderStatus) (o : Order.t) :
  Order.terms (Order.set_status v o) = Order.terms o.
Proof. reflexivity. Qed.

Lemma fill_front_frame (sd : Side) (p q : ptr) (rest : list ptr)
    (b : OrderBook) (s : Mem) (level : PriceLevel.t)
    (b1 : OrderBook) (s1 : Mem) (level1 : PriceLevel.t) (tr : list Trade.t) :
  fill_front sd p q rest b s level = Ok (b1, s1, level1, tr) ->
  PriceLevel.orders level = q :: rest ->
  (forall r, Order.terms (s1 r) = Order.terms (s r)) /\
  (symbol_ b1 = symbol_ b /\ bids_ b1 = bids_ b /\ asks_ b1 = asks_ b /\
   trade_callback_ b1 = trade_callback_ b) /\
  PriceLevel.price level1 = PriceLevel.price level /\
  (PriceLevel.orders level1 = rest \/ PriceLevel.orders level1 = q :: rest) /\
  (forall r, r <> p -> r <> q -> s1 r = s r) /\
  Forall (trade_at_level sd s p level) tr.
Proof.
  unfold fill_front. intros H Hq.
  ok_inv H. rename a into x. ok_inv H. rename a into y.
  destruct (trade_with sd b s p q (PriceLevel.price level) (Z.min x y))
    as [b0 tr0] eqn:Htrade.
  ok_inv H. rename a into f1. ok_inv H. rename a into f2.
  ok_inv H. rename a into t.
  pose proof (trade_with_book _ _ _ _ _ _ _ _ _ Htrade) as (Hb1 & Hb2 & Hb3 & Hb4 & _).
  pose proof (trade_with_trades _ _ _ _ _ _ _ _ _ _ Htrade Hq) as Htr.
  set (s2 := upd s p (Order.set_filled f1 (s p))) in *.
  set (s3 := upd s2 q (Order.set_filled f2 (s2 q))) in *.
  assert (Ht2 : forall r, Order.terms (s2 r) = Order.terms (s r)).
  { intros r. apply terms_upd. apply terms_set_filled. }
  assert (Ht3 : forall r, Order.terms (s3 r) = Order.terms (s r)).
  { intros r. unfold s3. rewrite terms_upd; [apply Ht2 | apply terms_set_filled]. }
  assert (Hfr : forall r, r <> p -> r <> q -> s3 r = s r).
  { intros r Hp Hq'. unfold s3, s2. rewrite !upd_other by assumption. reflexivity. }
  destruct (Order.quantity (s3 q) <=? Order.filled (s3 q));
    inversion H; subst; clear H; simpl.
  - repeat split; auto.
    + intros r. rewrite terms_upd; [apply Ht3 | apply terms_set_status].
    + intros r Hp Hq'. rewrite upd_other by assumption. auto.
  - repeat split; auto.
    + intros r. rewrite terms_upd; [apply Ht3 | apply terms_set_status].
    + intros r Hp Hq'. rewrite upd_other by assumption. auto.
Qed.

Lemma level_loop_unfold (fuel : nat) (sd : Side) (order : ptr) (b : OrderBook)
    (s : Mem) (level : PriceLevel.t) :
  level_loop (S fuel) sd order b s level =
      match PriceLevel.orders level with
      | [] => Ok (b, s, level, [])
      | contra_order :: rest =>
          if negb (Order.filled (s order) <? Order.quantity (s order))
          then Ok (b, s, level, [])
          else
            '(b1, s1, level1, tr) <-
               fill_front sd order contra_order rest b s level ;;
            '(b2, s2, level2, tr2) <- level_loop fuel sd order b1 s1 level1 ;;
            Ok (b2, s2, level2, tr ++ tr2)
      end.
Proof. reflexivity. Qed.

Lemma level_loop_frame (sd : Side) (p : ptr) (fuel : nat) :
  forall b s level b' s' level' tr,
    level_loop fuel sd p b s level = Ok (b', s', level', tr) ->
    (forall q, Order.terms (s' q) = Order.terms (s q)) /\
    (symbol_ b' = symbol_ b /\ bids_ b' = bids_ b /\ asks_ b' = asks_ b /\
     trade_callback_ b' = trade_callback_ b) /\
    PriceLevel.price level' = PriceLevel.price level /\
    (exists gone,
        PriceLevel.orders level = gone ++ PriceLevel.orders level') /\
    (forall q, q <> p -> ~ In q (PriceLevel.orders level) -> s' q = s q) /\
    (PriceLevel.orders level' <> [] ->
     Order.quantity (s' p) <= Order.filled (s' p)) /\
    Forall (trade_at_level sd s p level) tr.
Proof.
  induction fuel as [|fuel IH]; intros b s level b' s' level' tr H.
  - discriminate.
  - rewrite level_loop_unfold in H.
    destruct (PriceLevel.orders level) as [|q rest] eqn:Hq.
    { inversion H; subst. repeat split; auto.
      - exists []. rewrite Hq. reflexivity.
      - congruence. }
    destruct (Order.filled (s p) <? Order.quantity (s p)) eqn:Hguard; simpl in H.
    2:{ inversion H; subst. apply Z.ltb_ge in Hguard. repeat split; auto.
        exists []. rewrite Hq. reflexivity. }
    ok_inv H. destruct a as [[[b1 s1] level1] tr1].
    ok_inv H. destruct a as [[[b2 s2] level2] tr2].
    inversion H; subst; clear H.
    destruct (fill_front_frame _ _ _ _ _ _ _ _ _ _ _ Hstep Hq)
      as (Ht1 & (Hs1 & Hbi1 & Ha1 & Hc1) & Hp1 & Ho1 & Hf1 & Htr1).
    destruct (IH _ _ _ _ _ _ _ Hstep0)
      as (Ht2 & (Hs2 & Hbi2 & Ha2 & Hc2) & Hp2 & (gone & Ho2) & Hf2 & Hx2 & Htr2).
    assert (Hincl : incl (PriceLevel.orders level1) (PriceLevel.orders level)).
    { rewrite Hq. destruct Ho1 as [-> | ->].
      - apply incl_tl, incl_refl.
      - apply incl_refl. }
    split; [|split; [|split; [|split; [|split; [|split]]]]].
    + intros r. rewrite Ht2. apply Ht1.
    + repeat split; congruence.
    + congruence.
    + destruct Ho1 as [Ho1 | Ho1]; rewrite Ho1 in Ho2.
      * exists (q :: gone). rewrite Ho2. reflexivity.
      * exists gone. assumption.
    + intros r Hrp Hrin. rewrite Hf2; auto.
      * apply Hf1; auto. intros ->. apply Hrin. left. reflexivity.
      * intros Hin. apply Hrin. rewrite <- Hq. apply Hincl. assumption.
    + assumption.
    + apply Forall_app. split; [assumption|].
      eapply Forall_impl; [|exact Htr2].
      intros t Ht. eapply trade_at_level_terms; eauto.
Qed.
(** ** Consumption *)

Lemma eaten_refl (m : LevelMap) : eaten m m.
Proof.
  destruct m as [|[k l] rest].
  - constructor.
  - apply eaten_front with (gone := []); reflexivity.
Qed.

Lemma eaten_head (k : Z) (l l1 : PriceLevel.t) (rest m' : LevelMap)
    (gone : list ptr) :
  PriceLevel.price l1 = PriceLevel.price l ->
  PriceLevel.orders l = gone ++ PriceLevel.orders l1 ->
  eaten ((k, l1) :: rest) m' -> eaten ((k, l) :: rest) m'.
Proof.
  intros Hp Ho H. inversion H; subst.
  - constructor.
  - apply eaten_front with (gone := gone ++ gone0).
    + congruence.
    + rewrite Ho, H5. apply app_assoc.
  - apply eaten_level. assumption.
Qed.

Lemma eaten_trans (m1 m2 m3 : LevelMap) :
  eaten m1 m2 -> eaten m2 m3 -> eaten m1 m3.
Proof.
  induction 1 as [m | k0 l0 l0' rest gone Hp Ho | e m m' H IH]; intros H23.
  - inversion H23; subst. constructor.
  - eapply eaten_head; eauto.
  - apply eaten_level. auto.
Qed.

(** Every level left comes from a level of the same key and price, and
    holds orders of that level only. *)
Lemma eaten_In (m m' : LevelMap) :
  eaten m m' ->
  forall k l', In (k, l') m' ->
    exists l, In (k, l) m /\ PriceLevel.price l' = PriceLevel.price l /\
              exists gone, PriceLevel.orders l = gone ++ PriceLevel.orders l'.
Proof.
  induction 1 as [m | k0 l0 l0' rest gone Hp Ho | e m m' H IH]; intros k l' Hin.
  - destruct Hin.
  - destruct Hin as [Heq | Hin].
    + inversion Heq; subst. exists l0. split; [left; reflexivity|].
      split; [assumption|]. exists gone. assumption.
    + exists l'. split; [right; assumption|]. split; [reflexivity|].
      exists []. reflexivity.
  - destruct (IH k l' Hin) as (l & Hl & Hrest).
    exists l. split; [right; assumption | assumption].
Qed.

Lemma eaten_keys (m m' : LevelMap) :
  eaten m m' -> exists pre, map fst m = pre ++ map fst m'.
Proof.
  induction 1 as [m | k0 l0 l0' rest gone Hp Ho | e m m' H IH].
  - exists (map fst m). rewrite app_nil_r. reflexivity.
  - exists []. reflexivity.
  - destruct IH as [pre IH]. exists (fst e :: pre). simpl. rewrite IH.
    reflexivity.
Qed.

Lemma eaten_ptrs (m m' : LevelMap) :
  eaten m m' -> exists pre, level_ptrs m = pre ++ level_ptrs m'.
Proof.
  induction 1 as [m | k0 l0 l0' rest gone Hp Ho | e m m' H IH].
  - exists (level_ptrs m). rewrite app_nil_r. reflexivity.
  - exists gone. unfold level_ptrs. simpl. rewrite Ho, app_assoc. reflexivity.
  - destruct IH as [pre IH]. exists (PriceLevel.orders (snd e) ++ pre).
    unfold level_ptrs in *. simpl. rewrite IH, app_assoc. reflexivity.
Qed.

Lemma maker_priced_eaten (sd : Side) (s s' : Mem) (p : ptr)
    (m m' : LevelMap) (t : Trade.t) :
  (forall q, Order.terms (s' q) = Order.terms (s q)) ->
  eaten m m' ->
  maker_priced sd s' p m' t -> maker_priced sd s p m t.
Proof.
  intros Ht He (k & l' & Hin & Htrade).
  destruct (eaten_In _ _ He _ _ Hin) as (l & Hl & Hp & gone & Ho).
  exists k, l. split; [assumption|].
  eapply trade_at_level_terms; eauto.
  rewrite Ho. apply incl_appr, incl_refl.
Qed.

(** ** The outer loop *)

Lemma contra_set (sd : Side) (m : LevelMap) (b : OrderBook) :
  contra_levels sd (set_contra_levels sd m b) = m.
Proof. destruct sd; reflexivity. Qed.

Lemma own_set (sd : Side) (m : LevelMap) (b : OrderBook) :
  own_levels sd (set_contra_levels sd m b) = own_levels sd b.
Proof. destruct sd; reflexivity. Qed.

Lemma own_levels_eq (sd : Side) (b b' : OrderBook) :
  bids_ b' = bids_ b -> asks_ b' = asks_ b ->
  own_levels sd b' = own_levels sd b /\
  contra_levels sd b' = contra_levels sd b.
Proof. destruct sd; simpl; auto. Qed.

Lemma side_loop_unfold (fuel : nat) (sd : Side) (order : ptr) (b : OrderBook)
    (s : Mem) :
  side_loop (S fuel) sd order b s =
      if negb (Order.filled (s order) <? Order.quantity (s order))
      then Ok (b, s, [])
      else
        match contra_levels sd b with
        | [] => Ok (b, s, [])
        | (k, level) :: rest =>
            if match Order.type (s order) with
               | LIMIT => out_of_reach sd (s order) level
               | MARKET => false
               end
            then Ok (b, s, [])
            else
              '(b1, s1, level1, tr) <-
                 level_loop (S (length (PriceLevel.orders level)))
                            sd order b s level ;;
              let b2 :=
                match PriceLevel.orders level1 with
                | [] => set_contra_levels sd rest b1
                | _ :: _ => set_contra_levels sd ((k, level1) :: rest) b1
                end in
              '(b3, s3, tr3) <- side_loop fuel sd order b2 s1 ;;
              Ok (b3, s3, tr ++ tr3)
        end.
Proof. reflexivity. Qed.

Lemma side_loop_frame (sd : Side) (p : ptr) (fuel : nat) :
  forall b s b' s' tr,
    side_loop fuel sd p b s = Ok (b', s', tr) ->
    (forall q, Order.terms (s' q) = Order.terms (s q)) /\
    (symbol_ b' = symbol_ b /\ trade_callback_ b' = trade_callback_ b /\
     own_levels sd b' = own_levels sd b) /\
    eaten (contra_levels sd b) (contra_levels sd b') /\
    (forall q, q <> p -> ~ In q (level_ptrs (contra_levels sd b)) ->
               s' q = s q) /\
    stopped sd p b' s' /\
    Forall (maker_priced sd s p (contra_levels sd b)) tr.
Proof.
  induction fuel as [|fuel IH]; intros b s b' s' tr H.
  - discriminate.
  - rewrite side_loop_unfold in H.
    destruct (Order.filled (s p) <? Order.quantity (s p)) eqn:Hguard;
      cbn [negb] in H.
    2:{ inversion H; subst. apply Z.ltb_ge in Hguard.
        split; [reflexivity|]. split; [auto|]. split; [apply eaten_refl|].
        split; [reflexivity|]. split; [left; assumption | constructor]. }
    destruct (contra_levels sd b) as [|[k level] rest] eqn:Hm.
    { inversion H; subst.
      split; [reflexivity|]. split; [auto|]. rewrite Hm.
      split; [constructor|].
      split; [reflexivity|]. split; [right; left; assumption | constructor]. }
    destruct (match Order.type (s p) with
              | LIMIT => out_of_reach sd (s p) level
              | MARKET => false
              end) eqn:Hreach.
    { inversion H; subst.
      split; [reflexivity|]. split; [auto|]. rewrite Hm.
      split; [apply eaten_refl|].
      split; [reflexivity|]. split; [|constructor].
      right; right. destruct (Order.type (s' p)); [discriminate|].
      split; [reflexivity|]. exists k, level, rest. auto. }
    ok_inv H. destruct a as [[[b1 s1] level1] tr1].
    ok_inv H. destruct a as [[b3 s3] tr3].
    inversion H; subst; clear H.
    destruct (level_loop_frame _ _ _ _ _ _ _ _ _ _ Hstep)
      as (Ht1 & (Hs1 & Hbi1 & Ha1 & Hc1) & Hp1 & (gone & Ho1) & Hf1 & _ & Htr1).
    destruct (own_levels_eq sd _ _ Hbi1 Ha1) as [Hown1 Hcon1].
    remember (match PriceLevel.orders level1 with
              | [] => set_contra_levels sd rest b1
              | _ :: _ => set_contra_levels sd ((k, level1) :: rest) b1
              end) as b2 eqn:Hb2.
    assert (He2 : eaten ((k, level) :: rest) (contra_levels sd b2) /\
                  own_levels sd b2 = own_levels sd b1 /\
                  symbol_ b2 = symbol_ b1 /\
                  trade_callback_ b2 = trade_callback_ b1).
    { subst b2. destruct (PriceLevel.orders level1) eqn:Ho;
        rewrite contra_set, own_set.
      - split; [apply eaten_level, eaten_refl|].
        destruct sd; simpl; auto.
      - split; [apply eaten_front with (gone := gone);
                  [assumption | rewrite Ho; assumption]|].
        destruct sd; simpl; auto. }
    clear Hb2. destruct He2 as (He2 & Hown2 & Hs2 & Hc2).
    destruct (IH _ _ _ _ _ Hstep0)
      as (Ht3 & (Hs3 & Hc3 & Hown3) & He3 & Hf3 & Hstop & Htr3).
    split; [|split; [|split; [|split; [|split]]]].
    + intros q. rewrite Ht3. apply Ht1.
    + repeat split; congruence.
    + rewrite <- Hm. eapply eaten_trans; [|exact He3]. rewrite Hm. assumption.
    + intros q Hqp Hqin. rewrite Hf3; auto.
      * apply Hf1; auto. intros Hin. apply Hqin.
        unfold level_ptrs. simpl. apply in_or_app. left. assumption.
      * intros Hin. apply Hqin.
        destruct (eaten_ptrs _ _ He2) as [pre Hpre]. rewrite Hpre.
        apply in_or_app. right. assumption.
    + assumption.
    + apply Forall_app. split.
      * eapply Forall_impl; [|exact Htr1].
        intros t Ht. exists k, level. split; [left; reflexivity | assumption].
      * eapply Forall_impl; [|exact Htr3].
        intros t Ht. eapply maker_priced_eaten; eauto.
Qed.
(** ** [match_order], [process_market_order] and [add_order] *)

Lemma match_order_frame (b : OrderBook) (s : Mem) (p : ptr)
    (b' : OrderBook) (s' : Mem) (tr : list Trade.t) (sd : Side) :
  match_order b s p = Ok (b', s', tr) ->
  sd = Order.side (s p) ->
  (forall q, Order.terms (s' q) = Order.terms (s q)) /\
  (symbol_ b' = symbol_ b /\ trade_callback_ b' = trade_callback_ b /\
   own_levels sd b' = own_levels sd b) /\
  eaten (contra_levels sd b) (contra_levels sd b') /\
  (forall q, q <> p -> ~ In q (level_ptrs (contra_levels sd b)) ->
             s' q = s q) /\
  stopped sd p b' s' /\
  Order.status (s' p) = final_status (s' p) /\
  Forall (maker_priced sd s p (contra_levels sd b)) tr.
Proof.
  unfold match_order. intros H ->.
  ok_inv H. destruct a as [[b1 s1] tr1]. inversion H; subst; clear H.
  destruct (side_loop_frame _ _ _ _ _ _ _ _ Hstep)
    as (Ht & Hb & He & Hf & Hstop & Htr).
  split; [|split; [|split; [|split; [|split; [|split]]]]]; try assumption.
  - intros q. rewrite terms_upd; [apply Ht | apply terms_set_status].
  - intros q Hqp Hqin. rewrite upd_other by assumption. auto.
  - unfold stopped in *. rewrite upd_same. exact Hstop.
  - rewrite upd_same. reflexivity.
Qed.
Lemma OrderStatus_eqb_eq (a b : OrderStatus) :
  OrderStatus_eqb a b = true <-> a = b.
Proof. destruct a, b; simpl; split; intros H; congruence. Qed.

Lemma process_market_order_cases (b : OrderBook) (s : Mem) (p : ptr)
    (b' : OrderBook) (s' : Mem) (tr : list Trade.t) :
  process_market_order b s p = Ok (b', s', tr) ->
  exists s1,
    match_order b s p = Ok (b', s1, tr) /\
    ((Order.status (s1 p) = FILLED /\ s' = s1) \/
     (Order.status (s1 p) <> FILLED /\
      s' = upd s1 p (Order.set_status CANCELLED (s1 p)))).
Proof.
  unfold process_market_order. intros H.
  ok_inv H. destruct a as [[b1 s1] tr1].
  exists s1.
  destruct (OrderStatus_eqb (Order.status (s1 p)) FILLED) eqn:E;
    injection H as <- <- <-; (split; [assumption|]).
  - left. apply OrderStatus_eqb_eq in E. auto.
  - right. split; [|reflexivity]. intros Hs.
    apply OrderStatus_eqb_eq in Hs. congruence.
Qed.

Lemma add_order_cases (b : OrderBook) (s : Mem) (p : ptr)
    (b' : OrderBook) (s' : Mem) (tr : list Trade.t) :
  add_order b s p = Ok (b', s', tr) ->
  (Order.type (s p) = MARKET /\
   process_market_order b s p = Ok (b', s', tr)) \/
  (Order.type (s p) = LIMIT /\
   exists b1,
     match_order b s p = Ok (b1, s', tr) /\
     ((Order.status (s' p) = FILLED /\ b' = b1) \/
      (Order.status (s' p) <> FILLED /\
       exists m,
         rest_order (own_cmp (Order.side (s' p))) s' p
           (own_levels (Order.side (s' p)) b1) = Ok m /\
         b' = set_own_levels (Order.side (s' p)) m b1))).
Proof.
  unfold add_order. intros H.
  destruct (Order.type (s p)) eqn:Ety.
  - left. auto.
  - right. split; [reflexivity|].
    ok_inv H. destruct a as [[b1 s1] tr1].
    destruct (OrderStatus_eqb (Order.status (s1 p)) FILLED) eqn:E.
    + injection H as <- <- <-. exists b1. split; [assumption|].
      left. apply OrderStatus_eqb_eq in E. auto.
    + assert (Hne : Order.status (s1 p) <> FILLED).
      { intros Hs. apply OrderStatus_eqb_eq in Hs. congruence. }
      destruct (Order.side (s1 p)) eqn:Esd; ok_inv H;
        injection H as <- <- <-; exists b1; (split; [assumption|]);
        right; (split; [assumption|]); rewrite Esd; exists a; simpl; auto.
Qed.


(** ** Market orders *)

Lemma final_status_cases (o : Order.t) :
  (Order.quantity o <= Order.filled o /\ final_status o = FILLED) \/
  (Order.filled o < Order.quantity o /\ 0 < Order.filled o /\
   final_status o = PARTIAL) \/
  (Order.filled o < Order.quantity o /\ Order.filled o <= 0 /\
   final_status o = PENDING).
Proof.
  unfold final_status.
  destruct (Order.quantity o <=? Order.filled o) eqn:E1.
  - left. apply Z.leb_le in E1. auto.
  - apply Z.leb_gt in E1. destruct (0 <? Order.filled o) eqn:E2.
    + right; left. apply Z.ltb_lt in E2. auto.
    + right; right. apply Z.ltb_ge in E2. auto.
Qed.

Lemma process_market_order_frame (b : OrderBook) (s : Mem) (p : ptr)
    (b' : OrderBook) (s' : Mem) (tr : list Trade.t) (sd : Side) :
  process_market_order b s p = Ok (b', s', tr) ->
  sd = Order.side (s p) ->
  (forall q, Order.terms (s' q) = Order.terms (s q)) /\
  (symbol_ b' = symbol_ b /\ trade_callback_ b' = trade_callback_ b /\
   own_levels sd b' = own_levels sd b) /\
  eaten (contra_levels sd b) (contra_levels sd b') /\
  (forall q, q <> p -> ~ In q (level_ptrs (contra_levels sd b)) ->
             s' q = s q) /\
  stopped sd p b' s' /\
  ((Order.quantity (s' p) <= Order.filled (s' p) /\
    Order.status (s' p) = FILLED) \/
   (Order.filled (s' p) < Order.quantity (s' p) /\
    Order.status (s' p) = CANCELLED)).
Proof.
  intros H Hsd. apply process_market_order_cases in H.
  destruct H as (s1 & Hm & Hcases).
  destruct (match_order_frame _ _ _ _ _ _ _ Hm Hsd)
    as (Ht & Hb & He & Hf & Hstop & Hst & _).
  destruct Hcases as [[Hfilled ->] | [Hnot ->]].
  - split; [|split; [|split; [|split; [|split]]]]; try assumption.
    left. split; [|assumption].
    destruct (final_status_cases (s1 p)) as [[H1 _] | [(_ & _ & H1) | (_ & _ & H1)]];
      [assumption | congruence | congruence].
  - split; [|split; [|split; [|split; [|split]]]]; try assumption.
    + intros q. rewrite terms_upd; [apply Ht | apply terms_set_status].
    + intros q Hqp Hqin. rewrite upd_other by assumption. auto.
    + unfold stopped in *. rewrite upd_same. exact Hstop.
    + right. rewrite upd_same. simpl. split; [|reflexivity].
      destruct (final_status_cases (s1 p)) as [[_ H1] | [(H1 & _) | (H1 & _)]];
        [congruence | assumption | assumption].
Qed.

Lemma eaten_incl (m m' : LevelMap) :
  eaten m m' -> incl (level_ptrs m') (level_ptrs m).
Proof.
  intros H. destruct (eaten_ptrs _ _ H) as [pre ->].
  apply incl_appr, incl_refl.
Qed.

Lemma book_ptrs_sides (sd : Side) (b : OrderBook) (q : ptr) :
  In q (book_ptrs b) <->
  In q (level_ptrs (own_levels sd b)) \/ In q (level_ptrs (contra_levels sd b)).
Proof.
  unfold book_ptrs. rewrite in_app_iff. destruct sd; simpl; tauto.
Qed.

(** C8: a MARKET order that meets an empty opposite side (with nothing
    filled and a positive quantity) leaves [add_order] CANCELLED with
    [filled = 0], without a trade and with the book as it was; and after
    [add_order] any MARKET order is FILLED, or else CANCELLED with the
    opposite side empty, its own side of the book is as before and the book
    refers to no order it did not refer to before. *)
Theorem C8_market_order_never_rests (b : OrderBook) (s : Mem) (p : ptr) :
  Order.type (s p) = MARKET ->
  (contra_levels (Order.side (s p)) b = [] ->
   Order.filled (s p) = 0 -> 0 < Order.quantity (s p) ->
   exists s',
     add_order b s p = Ok (b, s', []) /\
     Order.status (s' p) = CANCELLED /\ Order.filled (s' p) = 0 /\
     (forall q, q <> p -> s' q = s q)) /\
  (forall b' s' tr,
     add_order b s p = Ok (b', s', tr) ->
     own_levels (Order.side (s p)) b' = own_levels (Order.side (s p)) b /\
     incl (book_ptrs b') (book_ptrs b) /\
     ((Order.quantity (s' p) <= Order.filled (s' p) /\
       Order.status (s' p) = FILLED) \/
      (Order.filled (s' p) < Order.quantity (s' p) /\
       Order.status (s' p) = CANCELLED /\
       contra_levels (Order.side (s p)) b' = []))).
Proof.
  intros Hty. split.
  - intros Hempty Hf Hq.
    exists (upd (upd s p (Order.set_status PENDING (s p))) p
              (Order.set_status CANCELLED
                 (upd s p (Order.set_status PENDING (s p)) p))).
    assert (Hguard : (Order.filled (s p) <? Order.quantity (s p)) = true).
    { apply Z.ltb_lt. lia. }
    assert (Hfin : (Order.quantity (s p) <=? Order.filled (s p)) = false).
    { apply Z.leb_gt. lia. }
    split.
    + unfold add_order. rewrite Hty.
      unfold process_market_order, match_order.
      rewrite Hempty. cbn [length]. rewrite side_loop_unfold.
      rewrite Hguard, Hempty. cbn [negb bind].
      rewrite Hfin, Hf. cbn [Z.ltb Z.compare].
      rewrite upd_same. reflexivity.
    + rewrite !upd_same. simpl. split; [reflexivity|]. split; [assumption|].
      intros q Hqp. rewrite !upd_other by assumption. reflexivity.
  - intros b' s' tr H.
    apply add_order_cases in H. destruct H as [[_ H] | [Hlim _]];
      [|congruence].
    destruct (process_market_order_frame _ _ _ _ _ _ _ H eq_refl)
      as (Ht & (_ & _ & Hown) & He & _ & Hstop & Hst).
    split; [assumption|]. split.
    + intros q Hq.
      apply (book_ptrs_sides (Order.side (s p))) in Hq.
      apply (book_ptrs_sides (Order.side (s p))).
      destruct Hq as [Hq | Hq].
      * left. rewrite <- Hown. assumption.
      * right. eapply eaten_incl; eauto.
    + destruct Hst as [Hst | [Hlt Hst]]; [left; assumption|].
      right. split; [assumption|]. split; [assumption|].
      destruct Hstop as [Hs | [Hs | [Hs _]]].
      * lia.
      * assumption.
      * destruct (terms_fields _ _ (Ht p)) as (_ & _ & _ & _ & _ & Hty').
        congruence.
Qed.

(** A market buy of 10 on an empty book (scenario 4), and the market buy of
    100 that meets a single sell of 50. *)
Lemma C8_witness :
  (exists s',
     add_order (new_book "TEST") (snd no_liquidity_scene) (0, 0)
       = Ok (new_book "TEST", s', []) /\
     Order.status (s' (0, 0)) = CANCELLED /\ Order.filled (s' (0, 0)) = 0) /\
  (exists b' s' tr,
     add_order (fst thin_book_scene) (snd thin_book_scene) (0, 1)
       = Ok (b', s', tr) /\
     bids_ b' = [] /\ asks_ b' = [] /\
     Order.filled (s' (0, 1)) = 50 /\ Order.status (s' (0, 1)) = CANCELLED).
Proof.
  split.
  - destruct (C8_market_order_never_rests (new_book "TEST")
                (snd no_liquidity_scene) (0, 0) eq_refl) as [Ha _].
    destruct (Ha eq_refl eq_refl ltac:(vm_compute; reflexivity))
      as (s' & Hadd & Hst & Hf & _).
    exists s'. auto.
  - destruct (C8_market_order_never_rests (fst thin_book_scene)
                (snd thin_book_scene) (0, 1) eq_refl) as [_ Hb].
    do 3 eexists. split; [vm_compute; reflexivity|].
    specialize (Hb _ _ _ ltac:(vm_compute; reflexivity)).
    destruct Hb as (Hown & _ & [[Hq _] | (_ & Hst & Hcon)]).
    + vm_compute in Hq. exfalso. apply Hq. reflexivity.
    + split; [exact Hown|]. split; [exact Hcon|].
      split; [reflexivity | exact Hst].
Defined.
(** ** The invariant, seen from either side *)

Lemma Forall_conj {A : Type} (P Q : A -> Prop) (l : list A) :
  Forall (fun x => P x /\ Q x) l <-> Forall P l /\ Forall Q l.
Proof.
  rewrite !Forall_forall. split.
  - intros H. split; intros x Hx; apply H; assumption.
  - intros [H1 H2] x Hx. split; auto.
Qed.

Lemma NoDup_app_swap {A : Type} (l1 l2 : list A) :
  NoDup (l1 ++ l2) <-> NoDup (l2 ++ l1).
Proof.
  split; intros H; eapply Permutation_NoDup; try exact H;
    apply Permutation_app_comm.
Qed.

Lemma heads_apart_sides (b : OrderBook) :
  (not_crossed b <-> heads_apart BUY (bids_ b) (asks_ b)) /\
  (not_crossed b <-> heads_apart SELL (asks_ b) (bids_ b)).
Proof.
  unfold not_crossed, heads_apart, below.
  destruct (bids_ b) as [|[kb lb] rb], (asks_ b) as [|[ka la] ra]; tauto.
Qed.

Lemma book_inv_for_iff (sd : Side) (b : OrderBook) (s : Mem) :
  book_inv b s <-> book_inv_for sd b s.
Proof.
  unfold book_inv, book_inv_for, levels_consistent, level_ok, book_ptrs.
  destruct (heads_apart_sides b) as [Hbuy Hsell].
  destruct sd; simpl.
  - rewrite <- Hbuy, !Forall_app, !Forall_conj. tauto.
  - rewrite <- Hsell, !Forall_app, !Forall_conj,
      (NoDup_app_swap (level_ptrs (bids_ b))). tauto.
Qed.
(** ** Matching on a well-formed book *)

Lemma level_sum_frame (s s' : Mem) (l : list ptr) :
  (forall q, In q l -> s' q = s q) -> level_sum s' l = level_sum s l.
Proof.
  induction l as [|q l IH]; intros H; simpl.
  - reflexivity.
  - rewrite H by (left; reflexivity).
    rewrite IH; [reflexivity|]. intros r Hr. apply H. right. assumption.
Qed.

Lemma fill_step_refl (o : Order.t) : fill_step o o.
Proof. left. reflexivity. Qed.

Lemma fill_step_trans (o1 o2 o3 : Order.t) :
  fill_step o1 o2 -> fill_step o2 o3 -> fill_step o1 o3.
Proof.
  intros [-> | (Ht1 & Hf1 & Hs1)]; [auto|].
  intros [-> | (Ht2 & Hf2 & Hs2)].
  - right. auto.
  - right. destruct (terms_fields _ _ Ht1) as (_ & _ & Hq & _).
    rewrite Hq in *. split; [congruence|]. split; [lia | assumption].
Qed.

Lemma taker_step_refl (o : Order.t) : taker_step o o.
Proof.
  unfold taker_step. split; [reflexivity | lia].
Qed.

Lemma taker_step_trans (o1 o2 o3 : Order.t) :
  taker_step o1 o2 -> taker_step o2 o3 -> taker_step o1 o3.
Proof.
  unfold taker_step. intros (E1 & L1 & U1) (E2 & L2 & U2).
  destruct (terms_fields _ _ E1) as (_ & _ & Hq & _).
  rewrite Hq in U2.
  split; [congruence | lia].
Qed.

(** One pass through the loop body when the front order is not the incoming
    order: [t], the smaller of the two rests, is filled on both. *)
Lemma fill_front_exact (sd : Side) (p q : ptr) (rest : list ptr)
    (b : OrderBook) (s : Mem) (level : PriceLevel.t)
    (b1 : OrderBook) (s1 : Mem) (level1 : PriceLevel.t) (tr : list Trade.t) :
  fill_front sd p q rest b s level = Ok (b1, s1, level1, tr) ->
  q <> p ->
  let t := Z.min (residual (s p)) (residual (s q)) in
  s1 p = Order.set_filled (Order.filled (s p) + t) (s p) /\
  PriceLevel.total_quantity level1 = PriceLevel.total_quantity level - t /\
  ((residual (s q) <= residual (s p) /\
    PriceLevel.orders level1 = rest /\
    s1 q = Order.set_status FILLED
             (Order.set_filled (Order.filled (s q) + t) (s q))) \/
   (residual (s p) < residual (s q) /\
    PriceLevel.orders level1 = q :: rest /\
    s1 q = Order.set_status PARTIAL
             (Order.set_filled (Order.filled (s q) + t) (s q)))).
Proof.
  intros H Hne t. unfold fill_front in H. unfold residual in t.
  ok_inv H. rename a into x. ok_inv H. rename a into y.
  apply remaining_Ok in Hstep. destruct Hstep as [Hx _].
  apply remaining_Ok in Hstep0. destruct Hstep0 as [Hy _].
  destruct (trade_with sd b s p q (PriceLevel.price level) (Z.min x y))
    as [b0 tr0] eqn:Htrade.
  ok_inv H. rename a into f1. ok_inv H. rename a into f2.
  ok_inv H. rename a into t'.
  apply s64_Ok in Hstep. destruct Hstep as [Hf1 _].
  apply s64_Ok in Hstep0. destruct Hstep0 as [Hf2 _].
  apply s64_Ok in Hstep1. destruct Hstep1 as [Ht' _].
  rewrite upd_other in Hf2 by assumption.
  rewrite upd_same in H. rewrite (upd_other _ p q) in H by assumption.
  assert (Hpq : p <> q) by congruence.
  subst x y. fold t in Hf1, Hf2, Ht'. subst f1 f2 t'.
  cbn [Order.quantity Order.filled Order.set_filled] in H.
  destruct (Order.quantity (s q) <=? Order.filled (s q) + t) eqn:E;
    injection H as <- <- <- <-; cbn [PriceLevel.total_quantity PriceLevel.orders].
  - apply Z.leb_le in E.
    rewrite upd_same, !upd_other, upd_same by assumption.
    split; [reflexivity|]. split; [reflexivity|].
    left. split; [unfold residual, t in *; lia|]. auto.
  - apply Z.leb_gt in E.
    rewrite upd_same, !upd_other, upd_same by assumption.
    split; [reflexivity|]. split; [reflexivity|].
    right. split; [unfold residual, t in *; lia|]. auto.
Qed.
Lemma level_loop_exact (sd : Side) (p : ptr) (fuel : nat) :
  forall b s level b' s' level' tr,
    level_loop fuel sd p b s level = Ok (b', s', level', tr) ->
    ~ In p (PriceLevel.orders level) ->
    NoDup (PriceLevel.orders level) ->
    Forall (fun q => Order.filled (s q) < Order.quantity (s q))
           (PriceLevel.orders level) ->
    PriceLevel.total_quantity level = level_sum s (PriceLevel.orders level) ->
    PriceLevel.total_quantity level'
      = level_sum s' (PriceLevel.orders level') /\
    Forall (fun q => Order.filled (s' q) < Order.quantity (s' q))
           (PriceLevel.orders level') /\
    (forall q, In q (PriceLevel.orders level) -> fill_step (s q) (s' q)) /\
    taker_step (s p) (s' p).
Proof.
  induction fuel as [|fuel IH];
    intros b s level b' s' level' tr H Hnotin Hnd Hpos Htot.
  - discriminate.
  - rewrite level_loop_unfold in H.
    destruct (PriceLevel.orders level) as [|q rest] eqn:Hq.
    { injection H as <- <- <- <-. rewrite Hq.
      split; [assumption|]. split; [constructor|].
      split; [intros q []|apply taker_step_refl]. }
    destruct (Order.filled (s p) <? Order.quantity (s p)) eqn:Hguard;
      cbn [negb] in H.
    2:{ injection H as <- <- <- <-. rewrite Hq.
        split; [assumption|]. split; [assumption|].
        split; [intros; apply fill_step_refl | apply taker_step_refl]. }
    apply Z.ltb_lt in Hguard.
    ok_inv H. destruct a as [[[b1 s1] level1] tr1].
    ok_inv H. destruct a as [[[b2 s2] level2] tr2].
    injection H as <- <- <- <-.
    assert (Hqp : q <> p).
    { intros ->. apply Hnotin. left. reflexivity. }
    assert (Hp_rest : ~ In p rest).
    { intros Hin. apply Hnotin. right. assumption. }
    inversion Hnd as [|q' rest' Hq_rest Hnd_rest]; subst q' rest'.
    inversion Hpos as [|q' rest' Hq_pos Hrest_pos]; subst q' rest'.
    destruct (fill_front_frame _ _ _ _ _ _ _ _ _ _ _ Hstep Hq)
      as (Ht1 & _ & _ & _ & Hf1 & _).
    destruct (fill_front_exact _ _ _ _ _ _ _ _ _ _ _ Hstep Hqp)
      as (Hp1 & Htot1 & Hcase).
    destruct (level_loop_frame _ _ _ _ _ _ _ _ _ _ Hstep0)
      as (_ & _ & _ & _ & Hf2 & _).
    assert (Hrest_same : forall r, In r rest -> s1 r = s r).
    { intros r Hr. apply Hf1; intros ->; contradiction. }
    assert (Hsum_rest : level_sum s1 rest = level_sum s rest).
    { apply level_sum_frame. assumption. }
    assert (Hrest_pos1 :
              Forall (fun r => Order.filled (s1 r) < Order.quantity (s1 r)) rest).
    { rewrite Forall_forall in *. intros r Hr.
      rewrite (Hrest_same r Hr). auto. }
    simpl in Htot. unfold residual in *.
    set (t := Z.min (Order.quantity (s p) - Order.filled (s p))
                    (Order.quantity (s q) - Order.filled (s q))) in *.
    assert (Htaker1 : taker_step (s p) (s1 p)).
    { unfold taker_step. rewrite Hp1. simpl.
      split; [reflexivity|]. unfold t. lia. }
    destruct Hcase as [(Hle & Ho1 & Hq1) | (Hlt & Ho1 & Hq1)].
    + (* the front order is filled and leaves the level *)
      assert (Hstep_q : fill_step (s q) (s1 q)).
      { right. rewrite Hq1. simpl. split; [reflexivity|].
        split; [unfold t; lia|].
        replace (Order.filled (s q) + t <? Order.quantity (s q)) with false;
          [reflexivity|].
        symmetry. apply Z.ltb_ge. unfold t. lia. }
      destruct (IH _ _ _ _ _ _ _ Hstep0) as (Htot' & Hpos' & Hsteps & Htaker).
      * rewrite Ho1. assumption.
      * rewrite Ho1. assumption.
      * rewrite Ho1. assumption.
      * rewrite Ho1, Htot1, Htot, Hsum_rest. unfold t. lia.
      * split; [assumption|]. split; [assumption|]. split.
        -- intros r [<- | Hr].
           ++ rewrite Hf2; [assumption | assumption |].
              rewrite Ho1. assumption.
           ++ rewrite <- (Hrest_same r Hr). apply Hsteps.
              rewrite Ho1. assumption.
        -- eapply taker_step_trans; eassumption.
    + (* the front order is partly filled and stays *)
      assert (Hstep_q : fill_step (s q) (s1 q)).
      { right. rewrite Hq1. simpl. split; [reflexivity|].
        split; [unfold t; lia|].
        replace (Order.filled (s q) + t <? Order.quantity (s q)) with true;
          [reflexivity|].
        symmetry. apply Z.ltb_lt. unfold t. lia. }
      destruct (IH _ _ _ _ _ _ _ Hstep0) as (Htot' & Hpos' & Hsteps & Htaker).
      * rewrite Ho1. assumption.
      * rewrite Ho1. assumption.
      * rewrite Ho1. constructor; [|assumption].
        rewrite Hq1. simpl. unfold t. lia.
      * rewrite Ho1, Htot1, Htot. simpl. rewrite Hsum_rest.
        unfold residual. rewrite Hq1. simpl. unfold t. lia.
      * split; [assumption|]. split; [assumption|]. split.
        -- intros r [<- | Hr].
           ++ eapply fill_step_trans; [exact Hstep_q|].
              apply Hsteps. rewrite Ho1. left. reflexivity.
           ++ rewrite <- (Hrest_same r Hr). apply Hsteps.
              rewrite Ho1. right. assumption.
        -- eapply taker_step_trans; eassumption.
Qed.
Lemma NoDup_app_inv {A : Type} (l1 l2 : list A) :
  NoDup (l1 ++ l2) ->
  NoDup l1 /\ NoDup l2 /\ (forall x, In x l1 -> ~ In x l2).
Proof.
  induction l1 as [|a l1 IH]; simpl; intros H.
  - split; [constructor|]. split; [assumption|]. intros x [].
  - inversion H as [|a' l' Ha Hnd]; subst.
    destruct (IH Hnd) as (H1 & H2 & H3).
    split; [|split; [assumption|]].
    + constructor; [|assumption]. intros Hin. apply Ha.
      apply in_or_app. left. assumption.
    + intros x [<- | Hx].
      * intros Hin. apply Ha. apply in_or_app. right. assumption.
      * apply H3. assumption.
Qed.

Lemma level_ok_frame (s s' : Mem) (e : Z * PriceLevel.t) :
  (forall q, In q (PriceLevel.orders (snd e)) -> s' q = s q) ->
  level_ok s e -> level_ok s' e.
Proof.
  intros Hsame ((Htot & Hne) & (Hprice & Hpos)).
  split; [split|split]; try assumption.
  - rewrite Htot. symmetry. apply level_sum_frame. assumption.
  - rewrite Forall_forall in *. intros q Hq. rewrite (Hsame q Hq). auto.
Qed.

Lemma side_ok_frame (s s' : Mem) (m : LevelMap) :
  (forall q, In q (level_ptrs m) -> s' q = s q) ->
  Forall (level_ok s) m -> Forall (level_ok s') m.
Proof.
  intros Hsame H. rewrite Forall_forall in *. intros e He.
  apply (level_ok_frame s); [|auto].
  intros q Hq. apply Hsame. unfold level_ptrs. apply in_flat_map.
  exists e. auto.
Qed.

Lemma level_ptrs_cons (k : Z) (l : PriceLevel.t) (m : LevelMap) :
  level_ptrs ((k, l) :: m) = PriceLevel.orders l ++ level_ptrs m.
Proof. reflexivity. Qed.

Lemma side_loop_exact (sd : Side) (p : ptr) (fuel : nat) :
  forall b s b' s' tr,
    side_loop fuel sd p b s = Ok (b', s', tr) ->
    Forall (level_ok s) (contra_levels sd b) ->
    NoDup (level_ptrs (contra_levels sd b)) ->
    ~ In p (level_ptrs (contra_levels sd b)) ->
    Forall (level_ok s') (contra_levels sd b') /\
    (forall q, In q (level_ptrs (contra_levels sd b)) ->
               fill_step (s q) (s' q)) /\
    taker_step (s p) (s' p).
Proof.
  induction fuel as [|fuel IH]; intros b s b' s' tr H Hok Hnd Hnotin.
  - discriminate.
  - rewrite side_loop_unfold in H.
    destruct (Order.filled (s p) <? Order.quantity (s p)) eqn:Hguard;
      cbn [negb] in H.
    2:{ injection H as <- <- <-. split; [assumption|].
        split; [intros; apply fill_step_refl | apply taker_step_refl]. }
    destruct (contra_levels sd b) as [|[k level] rest] eqn:Hm.
    { injection H as <- <- <-. rewrite Hm. split; [constructor|].
      split; [intros q [] | apply taker_step_refl]. }
    destruct (match Order.type (s p) with
              | LIMIT => out_of_reach sd (s p) level
              | MARKET => false
              end) eqn:Hreach.
    { injection H as <- <- <-. rewrite Hm. split; [assumption|].
      split; [intros; apply fill_step_refl | apply taker_step_refl]. }
    ok_inv H. destruct a as [[[b1 s1] level1] tr1].
    ok_inv H. destruct a as [[b3 s3] tr3].
    injection H as <- <- <-.
    rewrite level_ptrs_cons in Hnd, Hnotin.
    destruct (NoDup_app_inv _ _ Hnd) as (Hnd_level & Hnd_rest & Hdisj).
    inversion Hok as [|e m' Hok_level Hok_rest]; subst e m'.
    destruct Hok_level as ((Htot & Hne) & (Hprice & Hpos)).
    simpl in Htot, Hne, Hprice, Hpos.
    assert (Hp_level : ~ In p (PriceLevel.orders level)).
    { intros Hin. apply Hnotin, in_or_app. left. assumption. }
    assert (Hp_rest : ~ In p (level_ptrs rest)).
    { intros Hin. apply Hnotin, in_or_app. right. assumption. }
    destruct (level_loop_frame _ _ _ _ _ _ _ _ _ _ Hstep)
      as (_ & _ & Hp1 & (gone & Ho1) & Hf1 & _ & _).
    destruct (level_loop_exact _ _ _ _ _ _ _ _ _ _ Hstep
                Hp_level Hnd_level Hpos Htot)
      as (Htot1 & Hpos1 & Hsteps1 & Htaker1).
    assert (Hrest_same : forall q, In q (level_ptrs rest) -> s1 q = s q).
    { intros q Hq. apply Hf1.
      - intros ->. contradiction.
      - intros Hin. apply (Hdisj q Hin Hq). }
    remember (match PriceLevel.orders level1 with
              | [] => set_contra_levels sd rest b1
              | _ :: _ => set_contra_levels sd ((k, level1) :: rest) b1
              end) as b2 eqn:Hb2.
    assert (Hm2 : exists m2,
               contra_levels sd b2 = m2 /\
               Forall (level_ok s1) m2 /\
               (exists pre, PriceLevel.orders level ++ level_ptrs rest
                            = pre ++ level_ptrs m2) /\
               incl (level_ptrs rest) (level_ptrs m2)).
    { pose proof (side_ok_frame s s1 rest Hrest_same Hok_rest) as Hok1.
      subst b2. destruct (PriceLevel.orders level1) as [|q1 l1] eqn:Ho;
        rewrite contra_set.
      - exists rest. split; [reflexivity|]. split; [assumption|].
        split; [|apply incl_refl].
        exists (PriceLevel.orders level). reflexivity.
      - exists ((k, level1) :: rest). split; [reflexivity|].
        split; [|split].
        + constructor; [|assumption].
          split; [split|split]; simpl; rewrite ?Ho; try assumption;
            congruence.
        + exists gone. rewrite level_ptrs_cons, Ho, Ho1, app_assoc.
          reflexivity.
        + rewrite level_ptrs_cons. apply incl_appr, incl_refl. }
    clear Hb2. destruct Hm2 as (m2 & Hcon2 & Hok2 & (pre & Hpre) & Hincl).
    rewrite Hpre in Hnd, Hnotin.
    destruct (NoDup_app_inv _ _ Hnd) as (_ & Hnd2 & _).
    assert (Hp2 : ~ In p (level_ptrs m2)).
    { intros Hin. apply Hnotin, in_or_app. right. assumption. }
    destruct (side_loop_frame _ _ _ _ _ _ _ _ Hstep0)
      as (_ & _ & _ & Hf3 & _ & _).
    rewrite <- Hcon2 in Hok2, Hnd2, Hp2.
    destruct (IH _ _ _ _ _ Hstep0 Hok2 Hnd2 Hp2) as (Hok' & Hsteps & Htaker).
    split; [assumption|]. split.
    + intros q Hq.
      assert (Hq_p : q <> p).
      { intros ->. apply Hnotin. rewrite <- Hpre. assumption. }
      assert (Hfirst : fill_step (s q) (s1 q)).
      { rewrite level_ptrs_cons in Hq. apply in_app_or in Hq.
        destruct Hq as [Hq | Hq].
        - apply Hsteps1. assumption.
        - rewrite (Hrest_same q Hq). apply fill_step_refl. }
      destruct (in_dec ptr_eq_dec q (level_ptrs (contra_levels sd b2)))
        as [Hin | Hout].
      * eapply fill_step_trans; [exact Hfirst | apply Hsteps; assumption].
      * rewrite (Hf3 q Hq_p Hout). assumption.
    + eapply taker_step_trans; eassumption.
Qed.
(** ** Ordered maps *)

Section OrderedMap.
Variable cmp : Z -> Z -> bool.
Hypothesis cmp_trans :
  forall a b c, cmp a b = true -> cmp b c = true -> cmp a c = true.
Hypothesis cmp_total :
  forall a b, cmp a b = false -> cmp b a = false -> a = b.

Lemma map_find_In (k : Z) (m : LevelMap) (l : PriceLevel.t) :
  map_find cmp k m = Some l -> In (k, l) m.
Proof.
  induction m as [|[k' l'] m IH]; simpl; intros H.
  - discriminate.
  - destruct (cmp k k') eqn:E1; [discriminate|].
    destruct (cmp k' k) eqn:E2.
    + right. auto.
    + injection H as <-. left. rewrite (cmp_total _ _ E1 E2). reflexivity.
Qed.

Lemma map_put_Forall (P : Z * PriceLevel.t -> Prop) (k : Z)
    (v : PriceLevel.t) (m : LevelMap) :
  Forall P m -> P (k, v) -> Forall P (map_put cmp k v m).
Proof.
  intros Hm Hv. induction Hm as [|[k' l'] m Hx Hm IH]; simpl.
  - constructor; [assumption | constructor].
  - destruct (cmp k k') eqn:E1.
    + constructor; [assumption|]. constructor; assumption.
    + destruct (cmp k' k) eqn:E2.
      * constructor; assumption.
      * rewrite <- (cmp_total _ _ E1 E2). constructor; assumption.
Qed.

Lemma map_put_keys (k : Z) (v : PriceLevel.t) (m : LevelMap)
    (e : Z * PriceLevel.t) :
  In e (map_put cmp k v m) -> fst e = k \/ In e m.
Proof.
  induction m as [|[k' l'] m IH]; simpl.
  - intros [<- | []]. left. reflexivity.
  - destruct (cmp k k') eqn:E1.
    + intros [<- | H]; [left; reflexivity | right; assumption].
    + destruct (cmp k' k) eqn:E2.
      * intros [<- | H]; [right; left; reflexivity|].
        destruct (IH H) as [Hk | Hin]; [left | right; right]; assumption.
      * intros [<- | H]; [|right; right; assumption].
        left. simpl. symmetry. apply cmp_total; assumption.
Qed.

Lemma map_put_sorted (k : Z) (v : PriceLevel.t) (m : LevelMap) :
  map_sorted cmp m -> map_sorted cmp (map_put cmp k v m).
Proof.
  unfold map_sorted. induction 1 as [|[k' l'] m Hs IH Hall]; simpl.
  - constructor; constructor.
  - destruct (cmp k k') eqn:E1.
    + constructor.
      * constructor; assumption.
      * constructor; [assumption|].
        rewrite Forall_forall in *. intros e He. simpl.
        eapply cmp_trans; [exact E1 | apply (Hall e He)].
    + destruct (cmp k' k) eqn:E2.
      * constructor; [assumption|].
        rewrite Forall_forall in *. intros e He.
        destruct (map_put_keys _ _ _ _ He) as [-> | Hin]; [assumption|].
        apply (Hall e Hin).
      * constructor; assumption.
Qed.

(** The first entry after [m[k] = v] is the new one or the old first. *)
Lemma map_put_head (k : Z) (v : PriceLevel.t) (m : LevelMap) :
  exists e m', map_put cmp k v m = e :: m' /\
               (fst e = k \/ exists l r, m = (fst e, l) :: r).
Proof.
  destruct m as [|[k' l'] m]; simpl.
  - exists (k, v), []. auto.
  - destruct (cmp k k') eqn:E1.
    + eexists _, _. split; [reflexivity|]. left. reflexivity.
    + destruct (cmp k' k) eqn:E2.
      * eexists _, _. split; [reflexivity|]. right. simpl. eauto.
      * eexists _, _. split; [reflexivity|]. right. simpl. eauto.
Qed.

(** Adding [p] at the back of the level of [k]: the orders the map refers
    to are those it referred to, and [p]. *)
Lemma map_put_ptrs (k : Z) (p : ptr) (t : Z) (m : LevelMap) :
  let old := match map_find cmp k m with
             | Some l => l
             | None => PriceLevel.empty
             end in
  Permutation
    (level_ptrs (map_put cmp k
                   (PriceLevel.mk k (PriceLevel.orders old ++ [p]) t) m))
    (p :: level_ptrs m).
Proof.
  induction m as [|[k' l'] m IH]; simpl.
  - apply Permutation_refl.
  - destruct (cmp k k') eqn:E1.
    + rewrite !level_ptrs_cons. simpl. apply Permutation_refl.
    + destruct (cmp k' k) eqn:E2.
      * rewrite !level_ptrs_cons.
        eapply Permutation_trans;
          [apply Permutation_app_head; exact IH|].
        apply Permutation_sym, Permutation_middle.
      * rewrite !level_ptrs_cons. simpl.
        rewrite <- app_assoc. simpl.
        apply Permutation_sym, Permutation_middle.
Qed.
End OrderedMap.
(** ** The two sides of a book as ordered maps *)

Lemma own_cmp_below (sd : Side) (a b : Z) :
  own_cmp sd a b = true <-> below sd b a.
Proof.
  destruct sd; simpl; unfold greater, less; apply Z.ltb_lt.
Qed.

Lemma own_cmp_trans (sd : Side) (a b c : Z) :
  own_cmp sd a b = true -> own_cmp sd b c = true -> own_cmp sd a c = true.
Proof.
  rewrite !own_cmp_below. destruct sd; simpl; lia.
Qed.

Lemma own_cmp_total (sd : Side) (a b : Z) :
  own_cmp sd a b = false -> own_cmp sd b a = false -> a = b.
Proof.
  destruct sd; simpl; unfold greater, less; rewrite !Z.ltb_ge; lia.
Qed.

Lemma below_trans (sd : Side) (a b c : Z) :
  below sd a b -> below sd b c -> below sd a c.
Proof. destruct sd; simpl; lia. Qed.

Lemma own_sorted_iff (sd : Side) (m : LevelMap) :
  map_sorted (own_cmp sd) m <->
  StronglySorted (fun x y => below sd (fst y) (fst x)) m.
Proof.
  unfold map_sorted. split; intros H; induction H; constructor;
    try assumption; (eapply Forall_impl; [|eassumption]);
    intros e He; apply own_cmp_below; assumption.
Qed.

(** What is left of a side is ordered as the side was, and begins at or
    after its first key. *)
Lemma eaten_sorted (R : Z -> Z -> Prop) (m m' : LevelMap) :
  eaten m m' ->
  StronglySorted (fun x y => R (fst x) (fst y)) m ->
  StronglySorted (fun x y => R (fst x) (fst y)) m'.
Proof.
  induction 1 as [m | k0 l0 l0' rest gone Hp Ho | e m m' H IH]; intros Hs.
  - constructor.
  - inversion Hs; subst. constructor; assumption.
  - inversion Hs; subst. auto.
Qed.

Lemma eaten_first_key (R : Z -> Z -> Prop) (m m' : LevelMap) :
  eaten m m' ->
  StronglySorted (fun x y => R (fst x) (fst y)) m ->
  forall kc lc rc k' l' r',
    m = (kc, lc) :: rc -> m' = (k', l') :: r' -> k' = kc \/ R kc k'.
Proof.
  intros He Hs kc lc rc k' l' r' -> ->.
  inversion Hs as [|e m Hs' Hall]; subst.
  destruct (eaten_keys _ _ He) as [pre Hpre]. simpl in Hpre.
  destruct pre as [|k0 pre]; simpl in Hpre.
  - injection Hpre as <- _. left. reflexivity.
  - injection Hpre as <- Hrc. right.
    rewrite Forall_forall in Hall.
    assert (Hin : In k' (map fst rc)).
    { rewrite Hrc. apply in_or_app. right. left. reflexivity. }
    apply in_map_iff in Hin. destruct Hin as (e & <- & He').
    apply (Hall e He').
Qed.

Lemma NoDup_app_intro {A : Type} (l1 l2 : list A) :
  NoDup l1 -> NoDup l2 -> (forall x, In x l1 -> ~ In x l2) ->
  NoDup (l1 ++ l2).
Proof.
  intros H1 H2 Hd. induction H1 as [|a l1 Ha H1 IH]; simpl.
  - assumption.
  - constructor.
    + intros Hin. apply in_app_or in Hin. destruct Hin as [Hin | Hin].
      * contradiction.
      * apply (Hd a); [left; reflexivity | assumption].
    + apply IH. intros x Hx. apply Hd. right. assumption.
Qed.

Lemma NoDup_app_incl {A : Type} (l1 l2 l2' : list A) :
  NoDup (l1 ++ l2) -> NoDup l2' -> incl l2' l2 -> NoDup (l1 ++ l2').
Proof.
  intros H H2' Hincl. destruct (NoDup_app_inv _ _ H) as (H1 & _ & Hd).
  apply NoDup_app_intro; try assumption.
  intros x Hx Hin. apply (Hd x Hx). apply Hincl. assumption.
Qed.

Lemma level_sum_app (s : Mem) (l1 l2 : list ptr) :
  level_sum s (l1 ++ l2) = level_sum s l1 + level_sum s l2.
Proof.
  induction l1 as [|q l1 IH]; simpl; [reflexivity|]. rewrite IH. lia.
Qed.
(** ** [match_order] keeps the invariant *)

Lemma match_order_exact (b : OrderBook) (s : Mem) (p : ptr)
    (b1 : OrderBook) (s1 : Mem) (tr : list Trade.t) (sd : Side) :
  match_order b s p = Ok (b1, s1, tr) ->
  sd = Order.side (s p) ->
  book_inv_for sd b s ->
  ~ In p (book_ptrs b) ->
  book_inv_for sd b1 s1 /\
  own_levels sd b1 = own_levels sd b /\
  incl (level_ptrs (contra_levels sd b1)) (level_ptrs (contra_levels sd b)) /\
  (forall q, In q (book_ptrs b) -> fill_step (s q) (s1 q)) /\
  (forall q, q <> p -> ~ In q (book_ptrs b) -> s1 q = s q) /\
  taker_step (s p) (s1 p) /\
  Order.status (s1 p) = final_status (s1 p) /\
  stopped sd p b1 s1.
Proof.
  intros H Hsd (Hown & Hcon & Hso & Hsc & Hheads & Hnd) Hnotin.
  pose proof (match_order_frame _ _ _ _ _ _ _ H Hsd)
    as (Ht & (_ & _ & Hown_eq) & He & Hframe & Hstop & Hstatus & _).
  unfold match_order in H. rewrite <- Hsd in H.
  ok_inv H. destruct a as [[b0 s0] tr0]. injection H as <- <- <-.
  destruct (NoDup_app_inv _ _ Hnd) as (Hnd_own & Hnd_con & Hdisj).
  assert (Hp_own : ~ In p (level_ptrs (own_levels sd b))).
  { intros Hin. apply Hnotin. apply (book_ptrs_sides sd). auto. }
  assert (Hp_con : ~ In p (level_ptrs (contra_levels sd b))).
  { intros Hin. apply Hnotin. apply (book_ptrs_sides sd). auto. }
  destruct (side_loop_exact _ _ _ _ _ _ _ _ Hstep Hcon Hnd_con Hp_con)
    as (Hcon0 & Hsteps & Htaker).
  destruct (side_loop_frame _ _ _ _ _ _ _ _ Hstep)
    as (_ & _ & _ & Hframe0 & _ & _).
  set (s1 := upd s0 p (Order.set_status _ (s0 p))) in *.
  assert (Hs1 : forall q, q <> p -> s1 q = s0 q).
  { intros q Hq. unfold s1. apply upd_other. assumption. }
  pose proof (eaten_incl _ _ He) as Hincl.
  assert (Hp_con0 : ~ In p (level_ptrs (contra_levels sd b0))).
  { intros Hin. apply Hp_con, Hincl. assumption. }
  split; [|split; [|split; [|split; [|split; [|split; [|split]]]]]];
    try assumption.
  - (* the invariant *)
    split; [|split; [|split; [|split; [|split]]]].
    + rewrite Hown_eq. apply (side_ok_frame s); [|assumption].
      intros q Hq. apply Hframe.
      * intros ->. contradiction.
      * intros Hin. apply (Hdisj q Hq Hin).
    + apply (side_ok_frame s0); [|assumption].
      intros q Hq. apply Hs1. intros ->. contradiction.
    + rewrite Hown_eq. assumption.
    + apply (eaten_sorted (below sd) _ _ He Hsc).
    + rewrite Hown_eq. unfold heads_apart in *.
      destruct (own_levels sd b) as [|[ko lo] ro]; [exact I|].
      destruct (contra_levels sd b0) as [|[k' l'] r'] eqn:Hcon'; [exact I|].
      destruct (contra_levels sd b) as [|[kc lc] rc] eqn:Hcon_b.
      { inversion He. }
      destruct (eaten_first_key (below sd) _ _ He Hsc _ _ _ _ _ _
                  eq_refl eq_refl) as [-> | Hlater].
      * assumption.
      * eapply below_trans; eassumption.
    + rewrite Hown_eq. apply (NoDup_app_incl _ _ _ Hnd); [|assumption].
      destruct (eaten_ptrs _ _ He) as [pre Hpre]. rewrite Hpre in Hnd_con.
      apply (NoDup_app_inv _ _ Hnd_con).
  - (* resting orders *)
    intros q Hq.
    assert (Hqp : q <> p) by (intros ->; contradiction).
    rewrite (Hs1 q Hqp).
    apply (book_ptrs_sides sd) in Hq. destruct Hq as [Hq | Hq].
    + rewrite Hframe0; [apply fill_step_refl | assumption |].
      intros Hin. apply (Hdisj q Hq Hin).
    + apply Hsteps. assumption.
  - (* the other orders *)
    intros q Hqp Hq. apply Hframe; [assumption|].
    intros Hin. apply Hq. apply (book_ptrs_sides sd). auto.
  - (* the incoming order *)
    unfold s1. rewrite upd_same.
    unfold taker_step in *. destruct Htaker as (E & L & U). simpl.
    split; [|split; assumption].
    rewrite terms_set_status. assumption.
Qed.
(** ** Resting an order keeps the invariant *)

Lemma own_set_own (sd : Side) (m : LevelMap) (b : OrderBook) :
  own_levels sd (set_own_levels sd m b) = m /\
  contra_levels sd (set_own_levels sd m b) = contra_levels sd b.
Proof. destruct sd; split; reflexivity. Qed.

Lemma out_of_reach_below (sd : Side) (o : Order.t) (l : PriceLevel.t) :
  out_of_reach sd o l = true <->
  below sd (Order.price o) (PriceLevel.price l).
Proof. destruct sd; simpl; apply Z.ltb_lt. Qed.

Lemma rest_order_inv (sd : Side) (b1 : OrderBook) (s1 : Mem) (p : ptr)
    (m : LevelMap) :
  rest_order (own_cmp sd) s1 p (own_levels sd b1) = Ok m ->
  book_inv_for sd b1 s1 ->
  ~ In p (book_ptrs b1) ->
  Order.filled (s1 p) < Order.quantity (s1 p) ->
  stopped sd p b1 s1 ->
  book_inv_for sd (set_own_levels sd m b1) s1 /\
  Permutation (level_ptrs m) (p :: level_ptrs (own_levels sd b1)).
Proof.
  intros H (Hown & Hcon & Hso & Hsc & Hheads & Hnd) Hnotin Hrest Hstop.
  unfold rest_order in H.
  ok_inv H. rename a into r. ok_inv H. rename a into t.
  injection H as <-.
  apply remaining_Ok in Hstep. destruct Hstep as [-> _].
  apply s64_Ok in Hstep0. destruct Hstep0 as [-> _].
  set (k := Order.price (s1 p)) in *.
  set (old := match map_find (own_cmp sd) k (own_levels sd b1) with
              | Some l => l
              | None => PriceLevel.empty
              end) in *.
  set (t := PriceLevel.total_quantity old
            + (Order.quantity (s1 p) - Order.filled (s1 p))) in *.
  assert (Hold : PriceLevel.total_quantity old
                 = level_sum s1 (PriceLevel.orders old) /\
                 Forall (fun q => Order.filled (s1 q) < Order.quantity (s1 q))
                        (PriceLevel.orders old)).
  { unfold old. destruct (map_find (own_cmp sd) k (own_levels sd b1))
      as [l|] eqn:Hfind.
    - apply (map_find_In _ (own_cmp_total sd)) in Hfind.
      rewrite Forall_forall in Hown.
      destruct (Hown _ Hfind) as ((Htot & _) & (_ & Hpos)). auto.
    - simpl. split; [reflexivity | constructor]. }
  destruct Hold as [Hold_tot Hold_pos].
  pose proof (map_put_ptrs (own_cmp sd) k p t (own_levels sd b1)) as Hperm.
  cbv zeta in Hperm. fold old in Hperm.
  destruct (own_set_own sd
              (map_put (own_cmp sd) k
                 (PriceLevel.mk k (PriceLevel.orders old ++ [p]) t)
                 (own_levels sd b1)) b1) as [Eown Econ].
  split; [|exact Hperm].
  unfold book_inv_for. rewrite Eown, Econ.
  split; [|split; [|split; [|split; [|split]]]]; try assumption.
  - apply map_put_Forall; [apply own_cmp_total | assumption |].
    split; [split|split]; simpl.
    + unfold t. rewrite level_sum_app, Hold_tot. simpl. unfold residual. lia.
    + intros Hnil. apply app_eq_nil in Hnil. destruct Hnil as [_ Hnil].
      discriminate.
    + reflexivity.
    + apply Forall_app. split; [assumption|].
      constructor; [assumption | constructor].
  - apply own_sorted_iff. apply map_put_sorted.
    + apply own_cmp_trans.
    + apply own_cmp_total.
    + apply own_sorted_iff. assumption.
  - destruct (map_put_head (own_cmp sd) k
                (PriceLevel.mk k (PriceLevel.orders old ++ [p]) t)
                (own_levels sd b1)) as ([ke le] & m' & Hput & Hhead).
    rewrite Hput. unfold heads_apart in *.
    destruct (contra_levels sd b1) as [|[kc lc] rc] eqn:Hc; [exact I|].
    simpl in Hhead. destruct Hhead as [-> | (l & r & Hown_b)].
    + destruct Hstop as [Hfull | [Hempty | (_ & k' & l' & r' & Heq & Hout)]].
      * lia.
      * congruence.
      * rewrite Hc in Heq. injection Heq as <- <- <-.
        apply out_of_reach_below in Hout.
        inversion Hcon as [|e m0 [_ [Hprice _]] _]; subst.
        simpl in Hprice. rewrite <- Hprice. exact Hout.
    + rewrite Hown_b in Hheads. exact Hheads.
  - eapply Permutation_NoDup.
    + apply Permutation_sym. apply Permutation_app_tail. exact Hperm.
    + simpl. constructor; [|assumption].
      intros Hin. apply Hnotin. apply (book_ptrs_sides sd).
      apply in_app_or in Hin. exact Hin.
Qed.
(** ** The public operations keep the invariant *)

Lemma book_inv_for_frame (sd : Side) (b : OrderBook) (s s' : Mem) :
  (forall q, In q (book_ptrs b) -> s' q = s q) ->
  book_inv_for sd b s -> book_inv_for sd b s'.
Proof.
  intros Hsame (Hown & Hcon & Hrest).
  split; [|split; [|exact Hrest]].
  - apply (side_ok_frame s); [|assumption].
    intros q Hq. apply Hsame. apply (book_ptrs_sides sd). auto.
  - apply (side_ok_frame s); [|assumption].
    intros q Hq. apply Hsame. apply (book_ptrs_sides sd). auto.
Qed.

Lemma match_order_ptrs (sd : Side) (b b1 : OrderBook) :
  own_levels sd b1 = own_levels sd b ->
  incl (level_ptrs (contra_levels sd b1)) (level_ptrs (contra_levels sd b)) ->
  incl (book_ptrs b1) (book_ptrs b).
Proof.
  intros Hown Hincl q Hq.
  apply (book_ptrs_sides sd) in Hq. apply (book_ptrs_sides sd).
  destruct Hq as [Hq | Hq]; [left; rewrite <- Hown | right; apply Hincl];
    assumption.
Qed.

Lemma process_market_order_effect (b : OrderBook) (s : Mem) (p : ptr)
    (b' : OrderBook) (s' : Mem) (tr : list Trade.t) :
  process_market_order b s p = Ok (b', s', tr) ->
  book_inv b s ->
  ~ In p (book_ptrs b) ->
  book_inv b' s' /\
  (forall q, In q (book_ptrs b) -> fill_step (s q) (s' q)) /\
  (forall q, q <> p -> ~ In q (book_ptrs b) -> s' q = s q) /\
  incl (book_ptrs b') (book_ptrs b) /\
  taker_step (s p) (s' p) /\
  Order.status (s' p) = market_status (s' p).
Proof.
  intros H Hinv Hnotin.
  apply process_market_order_cases in H. destruct H as (s1 & Hm & Hcases).
  set (sd := Order.side (s p)).
  apply (book_inv_for_iff sd) in Hinv.
  destruct (match_order_exact _ _ _ _ _ _ sd Hm eq_refl Hinv Hnotin)
    as (Hinv1 & Hown & Hincl & Hsteps & Hframe & Htaker & Hstatus & _).
  pose proof (match_order_ptrs sd _ _ Hown Hincl) as Hptrs.
  assert (Hp1 : ~ In p (book_ptrs b')).
  { intros Hin. apply Hnotin, Hptrs. assumption. }
  destruct Hcases as [[Hfilled ->] | [Hnot ->]].
  - split; [apply (book_inv_for_iff sd); assumption|].
    split; [assumption|]. split; [assumption|]. split; [assumption|].
    split; [assumption|].
    unfold market_status. rewrite Hfilled.
    destruct (final_status_cases (s1 p))
      as [[H1 _] | [(_ & _ & H1) | (_ & _ & H1)]]; try congruence.
    apply Z.leb_le in H1. rewrite H1. reflexivity.
  - split; [|split; [|split; [|split; [|split]]]].
    + apply (book_inv_for_iff sd).
      apply (book_inv_for_frame sd b' s1); [|assumption].
      intros q Hq. apply upd_other. intros ->. contradiction.
    + intros q Hq. rewrite upd_other; [auto|]. intros ->. contradiction.
    + intros q Hqp Hq. rewrite upd_other by assumption. auto.
    + assumption.
    + rewrite upd_same. destruct Htaker as (E & L & U).
      split; [|split; assumption]. rewrite terms_set_status. assumption.
    + rewrite upd_same. unfold market_status. simpl.
      destruct (final_status_cases (s1 p))
        as [[_ H1] | [(H1 & _) | (H1 & _)]]; try congruence;
        apply Z.leb_gt in H1; rewrite H1; reflexivity.
Qed.

Lemma add_order_effect (b : OrderBook) (s : Mem) (p : ptr)
    (b' : OrderBook) (s' : Mem) (tr : list Trade.t) :
  add_order b s p = Ok (b', s', tr) ->
  book_inv b s ->
  ~ In p (book_ptrs b) ->
  book_inv b' s' /\
  (forall q, In q (book_ptrs b) -> fill_step (s q) (s' q)) /\
  (forall q, q <> p -> ~ In q (book_ptrs b) -> s' q = s q) /\
  incl (book_ptrs b') (p :: book_ptrs b) /\
  taker_step (s p) (s' p) /\
  match Order.type (s p) with
  | LIMIT => Order.status (s' p) = final_status (s' p)
  | MARKET => Order.status (s' p) = market_status (s' p) /\
              ~ In p (book_ptrs b')
  end.
Proof.
  intros H Hinv Hnotin.
  apply add_order_cases in H.
  destruct H as [[Hty H] | [Hty (b1 & Hm & Hcases)]]; rewrite Hty.
  - destruct (process_market_order_effect _ _ _ _ _ _ H Hinv Hnotin)
      as (Hinv' & Hsteps & Hframe & Hptrs & Htaker & Hstatus).
    split; [assumption|]. split; [assumption|]. split; [assumption|].
    split; [apply incl_tl; assumption|]. split; [assumption|].
    split; [assumption|]. intros Hin. apply Hnotin, Hptrs. assumption.
  - set (sd := Order.side (s p)).
    apply (book_inv_for_iff sd) in Hinv.
    destruct (match_order_exact _ _ _ _ _ _ sd Hm eq_refl Hinv Hnotin)
      as (Hinv1 & Hown & Hincl & Hsteps & Hframe & Htaker & Hstatus & Hstop).
    pose proof (match_order_ptrs sd _ _ Hown Hincl) as Hptrs.
    assert (Hsd : Order.side (s' p) = sd).
    { destruct Htaker as (E & _). apply terms_fields in E. apply E. }
    split; [|split; [assumption|split; [assumption|split;
             [|split; assumption]]]].
    + destruct Hcases as [[_ ->] | [Hnot (m & Hrest & ->)]].
      * apply (book_inv_for_iff sd). assumption.
      * rewrite Hsd in Hrest |- *.
        apply (book_inv_for_iff sd).
        eapply rest_order_inv; try eassumption.
        -- intros Hin. apply Hnotin, Hptrs. assumption.
        -- destruct (final_status_cases (s' p))
             as [[_ H1] | [(H1 & _) | (H1 & _)]]; congruence.
    + destruct Hcases as [[_ ->] | [Hnot (m & Hrest & ->)]].
      * apply incl_tl. assumption.
      * rewrite Hsd in Hrest |- *.
        assert (Hp1 : ~ In p (book_ptrs b1)).
        { intros Hin. apply Hnotin, Hptrs. assumption. }
        assert (Hlt : Order.filled (s' p) < Order.quantity (s' p)).
        { destruct (final_status_cases (s' p))
            as [[_ H1] | [(H1 & _) | (H1 & _)]]; congruence. }
        destruct (rest_order_inv _ _ _ _ _ Hrest Hinv1 Hp1 Hlt Hstop)
          as [_ Hperm].
        destruct (own_set_own sd m b1) as [Eown Econ].
        intros q Hq. apply (book_ptrs_sides sd) in Hq.
        rewrite Eown, Econ in Hq. destruct Hq as [Hq | Hq].
        -- apply (Permutation_in _ Hperm) in Hq.
           destruct Hq as [<- | Hq]; [left; reflexivity|].
           right. apply Hptrs. apply (book_ptrs_sides sd). auto.
        -- right. apply Hptrs. apply (book_ptrs_sides sd). auto.
Qed.
Lemma book_inv_frame (b : OrderBook) (s s' : Mem) :
  (forall q, In q (book_ptrs b) -> s' q = s q) ->
  book_inv b s -> book_inv b s'.
Proof.
  intros Hsame H. apply (book_inv_for_iff BUY).
  apply (book_inv_for_frame BUY b s); [assumption|].
  apply (book_inv_for_iff BUY). assumption.
Qed.

Lemma book_inv_new (symbol : string) (cb : bool) (n : Z) (s : Mem) :
  book_inv (mkBook symbol [] [] cb n) s.
Proof.
  unfold book_inv, levels_consistent, not_crossed, book_ptrs. simpl.
  repeat split; constructor.
Qed.

Lemma run_call_inv (c : Call) (b : OrderBook) (s : Mem) (log : list Trade.t)
    (b' : OrderBook) (s' : Mem) (log' : list Trade.t) :
  book_inv b s ->
  call_fresh c b ->
  run_call c (b, s, log) = Ok (b', s', log') ->
  book_inv b' s'.
Proof.
  intros Hinv Hfresh H. unfold run_call in H.
  ok_inv H. destruct a as [[b1 s1] tr]. injection H as <- <- <-.
  destruct c as [p o | p o | order_id]; simpl in Hfresh.
  - eapply add_order_effect; [exact Hstep | | assumption].
    apply (book_inv_frame b s); [|assumption].
    intros q Hq. apply upd_other. intros ->. contradiction.
  - eapply process_market_order_effect; [exact Hstep | | assumption].
    apply (book_inv_frame b s); [|assumption].
    intros q Hq. apply upd_other. intros ->. contradiction.
  - unfold cancel_order in Hstep. injection Hstep as <- <- <-. assumption.
Qed.

(** C5, amended: each public operation of the book ([add_order],
    [process_market_order], [cancel_order]) on an order that is new to the
    book keeps the invariant: in every level of both sides [total_quantity]
    is the sum of [quantity - filled] over the orders of the level, which
    are at least one, and the highest bid is under the lowest ask. *)
Theorem C5_operations_keep_the_book_invariant (c : Call) (b : OrderBook)
    (s : Mem) (log : list Trade.t) (b' : OrderBook) (s' : Mem)
    (log' : list Trade.t) :
  book_inv b s ->
  call_fresh c b ->
  run_call c (b, s, log) = Ok (b', s', log') ->
  book_inv b' s' /\ levels_consistent b' s' /\ not_crossed b'.
Proof.
  intros Hinv Hfresh H.
  pose proof (run_call_inv _ _ _ _ _ _ _ Hinv Hfresh H) as Hinv'.
  split; [assumption|]. split; apply Hinv'.
Qed.

(** A BUY limit order at 1010000 for 150 meets a sell of 100 at 1005000:
    the sell level goes and the rest of the buy becomes the only bid. *)
Lemma C5_witness :
  exists b' s' log',
    run_call (CallAdd (0, 1) (Order.make 2 1010000 150 2000 BUY LIMIT 2))
      (fst maker_price_scene, snd maker_price_scene, []) = Ok (b', s', log') /\
    asks_ b' = [] /\
    bids_ b' = [(1010000, PriceLevel.mk 1010000 [(0, 1)] 50)] /\
    book_inv b' s'.
Proof.
  do 3 eexists.
  split; [vm_compute; reflexivity|].
  split; [reflexivity|]. split; [reflexivity|].
  eapply (C5_operations_keep_the_book_invariant
            (CallAdd (0, 1) (Order.make 2 1010000 150 2000 BUY LIMIT 2))
            (fst maker_price_scene) (snd maker_price_scene) []).
  - unfold book_inv, levels_consistent, not_crossed, book_ptrs,
      level_exact, level_wf. simpl.
    repeat split; repeat constructor; simpl;
      try discriminate; try reflexivity; try tauto.
  - simpl. intros [H | []]. discriminate.
  - vm_compute. reflexivity.
Defined.

(** C5, as stated for every call, fails: the invariant is kept for an
    order that is new to the book only.  When a bid of 50 is passed a
    second time from the same address, the level holds it twice; the
    totals still agree, but the sell of 50 that follows fills the order
    once and leaves it in the level, now with nothing left, under a total
    of 50.  And when another order is built at the address of a resting
    bid of 100 and passed, the level of the bid keeps the total 100 over
    an order of which 50 are left. *)
Lemma C5_counterexample :
  (exists b s log b' s' log',
     run_calls (firstn 2 twice_added_calls) (fresh_book blank_mem)
       = Ok (b, s, log) /\
     bids_ b = [(1000000, PriceLevel.mk 1000000 [(0, 0); (0, 0)] 100)] /\
     levels_consistent b s /\ not_crossed b /\
     run_calls (skipn 2 twice_added_calls) (b, s, log) = Ok (b', s', log') /\
     bids_ b' = [(1000000, PriceLevel.mk 1000000 [(0, 0)] 50)] /\
     level_sum s' [(0, 0)] = 0 /\
     ~ levels_consistent b' s') /\
  (exists b s log,
     run_calls slot_reused_calls (fresh_book blank_mem) = Ok (b, s, log) /\
     bids_ b = [(1000000, PriceLevel.mk 1000000 [(0, 0)] 100);
                (990000, PriceLevel.mk 990000 [(0, 0)] 50)] /\
     level_sum s [(0, 0)] = 50 /\
     ~ levels_consistent b s).
Proof.
  split.
  - do 6 eexists.
    split; [vm_compute; reflexivity|].
    split; [reflexivity|].
    split.
    { unfold levels_consistent, level_exact. cbn [bids_ asks_ app].
      repeat constructor. discriminate. }
    split; [exact I|].
    split; [vm_compute; reflexivity|].
    split; [reflexivity|].
    split; [reflexivity|].
    unfold levels_consistent. cbn [bids_ asks_ app]. intros H.
    inversion H as [|e m [Hsum _] _]. vm_compute in Hsum. discriminate.
  - do 3 eexists.
    split; [vm_compute; reflexivity|].
    split; [reflexivity|].
    split; [reflexivity|].
    unfold levels_consistent. cbn [bids_ asks_ app]. intros H.
    inversion H as [|e m [Hsum _] _]. vm_compute in Hsum. discriminate.
Qed.
(** ** Status and fill over a session *)

Lemma book_inv_residual (b : OrderBook) (s : Mem) (q : ptr) :
  book_inv b s -> In q (book_ptrs b) ->
  Order.filled (s q) < Order.quantity (s q).
Proof.
  intros (_ & _ & Hwf & _) Hq.
  unfold book_ptrs, level_ptrs in Hq. rewrite <- flat_map_app in Hq.
  apply in_flat_map in Hq. destruct Hq as (e & He & Hq).
  rewrite Forall_forall in Hwf. destruct (Hwf e He) as [_ Hpos].
  rewrite Forall_forall in Hpos. auto.
Qed.

(** Settle the clauses of [status_ok] once the status and the bounds of the
    fill are known. *)
Ltac status_clauses :=
  repeat split; intros;
  repeat match goal with
         | H : _ /\ _ |- _ => destruct H
         | H : _ \/ _ |- _ => destruct H
         end;
  try discriminate; try lia; try congruence;
  try (intros [? | ?]; discriminate);
  try (exfalso; match goal with H : ~ _ |- _ => apply H; auto end).

Lemma fill_step_status_ok (o o' : Order.t) :
  status_ok o -> Order.status o <> CANCELLED -> fill_step o o' ->
  status_ok o' /\ Order.status o' <> CANCELLED.
Proof.
  intros Hok Hnc [-> | (Ht & Hf & Hst)]; [auto|].
  destruct (terms_fields _ _ Ht) as (_ & _ & Hq & _ & _ & Hty).
  destruct Hok as (Hrange & _).
  unfold status_ok, resolved. rewrite Hq, Hty.
  destruct (Order.filled o' <? Order.quantity o) eqn:E; rewrite Hst;
    [apply Z.ltb_lt in E | apply Z.ltb_ge in E]; status_clauses.
Qed.

Lemma final_status_ok (o : Order.t) :
  0 <= Order.filled o <= Order.quantity o -> 0 < Order.quantity o ->
  Order.status o = final_status o ->
  status_ok o /\ Order.status o <> CANCELLED.
Proof.
  intros Hrange Hq Hst. unfold status_ok, resolved. rewrite Hst.
  destruct (final_status_cases o)
    as [[H1 ->] | [(H1 & H2 & ->) | (H1 & H2 & ->)]]; status_clauses.
Qed.

Lemma market_status_ok (o : Order.t) :
  0 <= Order.filled o <= Order.quantity o ->
  Order.type o = MARKET ->
  Order.status o = market_status o ->
  status_ok o.
Proof.
  intros Hrange Hty Hst. unfold status_ok, resolved. rewrite Hst.
  unfold market_status.
  destruct (Order.quantity o <=? Order.filled o) eqn:E;
    [apply Z.leb_le in E | apply Z.leb_gt in E]; status_clauses.
Qed.
Lemma session_step_add (used : list ptr) (b : OrderBook) (s : Mem)
    (log : list Trade.t) (p : ptr) (o : Order.t) (market : bool)
    (b' : OrderBook) (s' : Mem) (tr : list Trade.t) :
  session_inv used (b, s, log) ->
  ~ In p used -> order_in_contract o ->
  (if market
   then Order.type o = MARKET /\
        process_market_order b (upd s p o) p = Ok (b', s', tr)
   else add_order b (upd s p o) p = Ok (b', s', tr)) ->
  session_inv (p :: used) (b', s', log ++ tr).
Proof.
  intros (Hinv & Hincl & Hnc & Hok) Hfresh [Hf0 Hq0] Hrun.
  assert (Hfresh_b : ~ In p (book_ptrs b)).
  { intros Hin. apply Hfresh, Hincl. assumption. }
  assert (Hinv0 : book_inv b (upd s p o)).
  { apply (book_inv_frame b s); [|assumption].
    intros q Hq. apply upd_other. intros ->. contradiction. }
  assert (Heffect :
            book_inv b' s' /\
            (forall q, In q (book_ptrs b) -> fill_step (s q) (s' q)) /\
            (forall q, q <> p -> ~ In q (book_ptrs b) -> s' q = s q) /\
            incl (book_ptrs b') (p :: book_ptrs b) /\
            taker_step o (s' p) /\
            ((Order.status (s' p) = final_status (s' p)) \/
             (Order.type o = MARKET /\
              Order.status (s' p) = market_status (s' p) /\
              ~ In p (book_ptrs b')))).
  { destruct market.
    - destruct Hrun as [Hty Hrun].
      destruct (process_market_order_effect _ _ _ _ _ _ Hrun Hinv0 Hfresh_b)
        as (H1 & H2 & H3 & H4 & H5 & H6).
      rewrite upd_same in H5.
      split; [assumption|]. split.
      { intros q Hq. rewrite <- (upd_other s p q o).
        - apply H2. assumption.
        - intros ->. contradiction. }
      split.
      { intros q Hqp Hq. rewrite (H3 q Hqp Hq). apply upd_other. assumption. }
      split; [apply incl_tl; assumption|]. split; [assumption|].
      right. split; [assumption|]. split; [assumption|].
      intros Hin. apply Hfresh_b, H4. assumption.
    - destruct (add_order_effect _ _ _ _ _ _ Hrun Hinv0 Hfresh_b)
        as (H1 & H2 & H3 & H4 & H5 & H6).
      rewrite upd_same in H5, H6.
      split; [assumption|]. split.
      { intros q Hq. rewrite <- (upd_other s p q o).
        - apply H2. assumption.
        - intros ->. contradiction. }
      split.
      { intros q Hqp Hq. rewrite (H3 q Hqp Hq). apply upd_other. assumption. }
      split; [assumption|]. split; [assumption|].
      destruct (Order.type o); [right | left]; tauto. }
  destruct Heffect as (Hinv' & Hsteps & Hframe & Hptrs & Htaker & Hstatus).
  assert (Hp_ok : status_ok (s' p) /\
                  (In p (book_ptrs b') -> Order.status (s' p) <> CANCELLED)).
  { destruct Htaker as (Ht & Hlo & Hhi).
    destruct (terms_fields _ _ Ht) as (_ & _ & Hq & _ & _ & Hty).
    assert (Hrange : 0 <= Order.filled (s' p) <= Order.quantity (s' p)).
    { rewrite Hq. lia. }
    destruct Hstatus as [Hst | (Hmk & Hst & Hout)].
    - destruct (final_status_ok (s' p)) as [H1 H2]; try assumption.
      + rewrite Hq. assumption.
      + auto.
    - split; [|contradiction].
      apply market_status_ok; try assumption. congruence. }
  destruct Hp_ok as [Hp_ok Hp_nc].
  assert (Hold : forall q, In q used ->
                   status_ok (s' q) /\
                   (In q (book_ptrs b) -> Order.status (s' q) <> CANCELLED)).
  { intros q Hq.
    assert (Hqp : q <> p) by (intros ->; contradiction).
    destruct (in_dec ptr_eq_dec q (book_ptrs b)) as [Hin | Hout].
    - destruct (fill_step_status_ok (s q) (s' q)); auto.
    - rewrite (Hframe q Hqp Hout). split; [auto | contradiction]. }
  split; [assumption|]. split; [|split].
  - intros q Hq. apply Hptrs in Hq. destruct Hq as [<- | Hq].
    + left. reflexivity.
    + right. apply Hincl. assumption.
  - intros q Hq. pose proof (Hptrs q Hq) as [<- | Hqb].
    + auto.
    + apply (Hold q); auto.
  - intros q [<- | Hq]; [assumption|]. apply (Hold q Hq).
Qed.

Lemma run_calls_session (cs : list Call) :
  forall used st st',
    session_inv used st ->
    calls_valid used cs ->
    run_calls cs st = Ok st' ->
    exists used',
      session_inv used' st' /\ incl used used' /\ incl (calls_ptrs cs) used'.
Proof.
  induction cs as [|c cs IH]; intros used st st' Hinv Hvalid H.
  - injection H as <-. exists used.
    split; [assumption|]. split; [apply incl_refl | intros q []].
  - simpl in H. ok_inv H. rename a into st1.
    destruct st as [[b s] log]. unfold run_call in Hstep.
    ok_inv Hstep. destruct a as [[b1 s1] tr]. injection Hstep as <-.
    destruct c as [p o | p o | order_id]; simpl in Hvalid.
    + destruct Hvalid as (Hfresh & Hcontract & Hvalid).
      assert (Hinv1 : session_inv (p :: used) (b1, s1, log ++ tr)).
      { apply (session_step_add used b s log p o false); assumption. }
      destruct (IH _ _ _ Hinv1 Hvalid H) as (used' & Hinv' & Hu & Hc).
      exists used'. split; [assumption|]. split.
      * intros q Hq. apply Hu. right. assumption.
      * intros q [<- | Hq]; [apply Hu; left; reflexivity | auto].
    + destruct Hvalid as (Hfresh & Hcontract & Hty & Hvalid).
      assert (Hinv1 : session_inv (p :: used) (b1, s1, log ++ tr)).
      { apply (session_step_add used b s log p o true); auto. }
      destruct (IH _ _ _ Hinv1 Hvalid H) as (used' & Hinv' & Hu & Hc).
      exists used'. split; [assumption|]. split.
      * intros q Hq. apply Hu. right. assumption.
      * intros q [<- | Hq]; [apply Hu; left; reflexivity | auto].
    + unfold cancel_order in Hstep0. injection Hstep0 as <- <- <-.
      apply (IH used (b, s, log ++ []) st'); try assumption.
Qed.

(** C6, amended: over a session in contract on a book that starts empty,
    every order passed to the book has, after each call, [0 <= filled <=
    quantity] and a status that agrees with its fill: FILLED iff
    [filled = quantity]; PARTIAL iff [0 < filled < quantity] and the order
    was not cancelled; PENDING iff [filled = 0] and the order is not
    resolved; CANCELLED only for a MARKET order left short of its
    quantity. *)
Theorem C6_status_agrees_with_fill (cs : list Call) (symbol : string)
    (cb : bool) (m0 : Mem) (b : OrderBook) (s : Mem) (log : list Trade.t) :
  calls_valid [] cs ->
  run_calls cs (mkBook symbol [] [] cb 0, m0, []) = Ok (b, s, log) ->
  forall p, In p (calls_ptrs cs) -> status_ok (s p).
Proof.
  intros Hvalid H p Hp.
  assert (Hinit : session_inv [] (mkBook symbol [] [] cb 0, m0, [])).
  { split; [apply book_inv_new|]. split; [intros q []|].
    split; intros q []. }
  destruct (run_calls_session _ _ _ _ Hinit Hvalid H)
    as (used' & (_ & _ & _ & Hok) & _ & Hc).
  apply Hok, Hc. assumption.
Qed.

(** The market buy of 100 that meets a single sell of 50 ends CANCELLED
    with [filled = 50], which [status_ok] admits. *)
Lemma C6_witness :
  calls_valid [] thin_book_calls /\
  match run_calls thin_book_calls
          (fresh_book blank_mem) with
  | Ok (_, s, _) =>
      Order.filled (s (0, 1)) = 50 /\ Order.status (s (0, 1)) = CANCELLED /\
      status_ok (s (0, 0)) /\ status_ok (s (0, 1))
  | _ => False
  end.
Proof.
  assert (Hvalid : calls_valid [] thin_book_calls).
  { simpl. unfold order_in_contract. simpl.
    repeat split; try lia; try tauto.
    intros [H | []]. discriminate. }
  split; [exact Hvalid|].
  change (fresh_book blank_mem)
    with (mkBook "TEST" [] [] true 0, blank_mem, @nil Trade.t).
  destruct (run_calls thin_book_calls
              (mkBook "TEST" [] [] true 0, blank_mem, @nil Trade.t))
    as [[[b s] log]| |] eqn:E.
  - pose proof (C6_status_agrees_with_fill thin_book_calls "TEST" true
                  blank_mem b s log Hvalid E) as Hthm.
    pose proof (Hthm (0, 0) ltac:(simpl; auto)) as H0.
    pose proof (Hthm (0, 1) ltac:(simpl; auto)) as H1.
    clear Hthm. vm_compute in E. injection E as <- <- <-.
    split; [reflexivity|]. split; [reflexivity|].
    split; [exact H0 | exact H1].
  - vm_compute in E. discriminate.
  - vm_compute in E. discriminate.
Defined.

(** C6, as stated, fails on that order: it is part filled and its status is
    not PARTIAL. *)
Lemma C6_counterexample :
  exists b s log,
    calls_valid [] thin_book_calls /\
    run_calls thin_book_calls
      (fresh_book blank_mem) = Ok (b, s, log) /\
    In (0, 1) (calls_ptrs thin_book_calls) /\
    ~ status_as_specified (s (0, 1)).
Proof.
  do 3 eexists.
  split.
  { simpl. unfold order_in_contract. simpl.
    repeat split; try lia; try tauto.
    intros [H | []]. discriminate. }
  split; [vm_compute; reflexivity|].
  split; [simpl; auto|].
  intros (_ & _ & [_ Hpartial] & _).
  assert (H : CANCELLED = PARTIAL).
  { apply Hpartial. vm_compute. split; reflexivity. }
  discriminate.
Qed.
(** ** The engine *)

Lemma add_order_terms (b : OrderBook) (s : Mem) (p : ptr)
    (b' : OrderBook) (s' : Mem) (tr : list Trade.t) :
  add_order b s p = Ok (b', s', tr) ->
  forall q, Order.terms (s' q) = Order.terms (s q).
Proof.
  intros H. apply add_order_cases in H.
  destruct H as [[_ H] | [_ (b1 & H & _)]].
  - eapply process_market_order_frame in H; [|reflexivity]. apply H.
  - eapply match_order_frame in H; [|reflexivity]. apply H.
Qed.

Section EngineFacts.
Variable St : Type.
Variable umap_begin : list string -> nat.

Lemma on_trade_fields (e : TickEngine St) (t : Trade.t) :
  order_books_ (engine_on_trade e t) = order_books_ e /\
  order_pool_ (engine_on_trade e t) = order_pool_ e /\
  next_order_id_ (engine_on_trade e t) = next_order_id_ e /\
  current_time_ (engine_on_trade e t) = current_time_ e /\
  memory (engine_on_trade e t) = memory e /\
  Stats.orders_submitted (stats_ (engine_on_trade e t))
    = Stats.orders_submitted (stats_ e) /\
  trade_log (engine_on_trade e t) = trade_log e ++ [t].
Proof. unfold engine_on_trade. simpl. repeat split; reflexivity. Qed.

Lemma on_trades_fields (trades : list Trade.t) (e : TickEngine St) :
  let e' := fold_left engine_on_trade trades e in
  order_books_ e' = order_books_ e /\
  order_pool_ e' = order_pool_ e /\
  next_order_id_ e' = next_order_id_ e /\
  current_time_ e' = current_time_ e /\
  memory e' = memory e /\
  Stats.orders_submitted (stats_ e') = Stats.orders_submitted (stats_ e) /\
  trade_log e' = trade_log e ++ trades.
Proof.
  revert e. induction trades as [|t trades IH]; intros e; simpl.
  - rewrite app_nil_r. repeat split; reflexivity.
  - destruct (IH (engine_on_trade e t)) as (H1 & H2 & H3 & H4 & H5 & H6 & H7).
    destruct (on_trade_fields e t) as (G1 & G2 & G3 & G4 & G5 & G6 & G7).
    rewrite H1, H2, H3, H4, H5, H6, H7, G1, G2, G3, G4, G5, G6, G7.
    rewrite <- app_assoc. repeat split; reflexivity.
Qed.
End EngineFacts.
Lemma begin_entry_some (umap_begin : list string -> nat)
    (m : list (string * OrderBook)) :
  m <> [] -> exists entry, begin_entry umap_begin m = Some entry.
Proof.
  intros Hne. unfold begin_entry, begin_index.
  destruct (nth_error m (umap_begin (map fst m) mod length m)%nat) eqn:E.
  - eauto.
  - apply nth_error_None in E.
    assert (Hlen : (length m <> 0)%nat).
    { destruct m; [contradiction | discriminate]. }
    pose proof (Nat.mod_upper_bound (umap_begin (map fst m)) (length m) Hlen).
    lia.
Qed.

(** C2, amended: every call of [submit_order] takes a slot from the arena,
    copies the template there, overwrites [id] with the counter, which
    starts at 1 and goes up by one with every call, and [timestamp] with
    [current_time_]; if the map of books is empty the order goes to no book
    and [orders_submitted] stays; otherwise the order is added to the book
    at [begin()] of the map, whatever the symbol of that book, and
    [orders_submitted] goes up by one. *)
Theorem C2_submit_order_stamps_and_routes (St : Type)
    (umap_begin : list string -> nat) (e : TickEngine St)
    (order_template : Order.t) (e' : TickEngine St) :
  submit_order umap_begin e order_template = Ok e' ->
  next_order_id_ (new_engine (St := St) (memory e)) = 1 /\
  Order.id (memory e' (next_slot e)) = next_order_id_ e /\
  Order.timestamp (memory e' (next_slot e)) = current_time_ e /\
  next_order_id_ e' = wrap_u64 (next_order_id_ e + 1) /\
  order_pool_ e' = snd (allocate DefaultBlockSize (order_pool_ e)) /\
  exists s3,
    s3 (next_slot e) = stamped e order_template /\
    (forall q, q <> next_slot e -> s3 q = memory e q) /\
    match begin_entry umap_begin (order_books_ e) with
    | None =>
        order_books_ e = [] /\ order_books_ e' = [] /\
        (forall q, memory e' q = s3 q) /\
        Stats.orders_submitted (stats_ e')
          = Stats.orders_submitted (stats_ e) /\
        trade_log e' = trade_log e
    | Some (symbol, book) =>
        exists book' trades,
          add_order book s3 (next_slot e) = Ok (book', memory e', trades) /\
          order_books_ e'
            = set_nth (begin_index umap_begin (order_books_ e))
                (symbol, book') (order_books_ e) /\
          Stats.orders_submitted (stats_ e')
            = wrap_u64 (Stats.orders_submitted (stats_ e) + 1) /\
          trade_log e' = trade_log e ++ trades
    end.
Proof.
  unfold submit_order, next_slot, stamped. intros H.
  destruct (allocate DefaultBlockSize (order_pool_ e)) as [slot pool1].
  cbn [fst snd].
  set (s1 := upd (memory e) slot order_template) in *.
  set (s2 := upd s1 slot (Order.set_id (next_order_id_ e) (s1 slot))) in *.
  set (s3 := upd s2 slot (Order.set_timestamp (current_time_ e) (s2 slot)))
    in *.
  assert (Hs3 : s3 slot
                = Order.set_timestamp (current_time_ e)
                    (Order.set_id (next_order_id_ e) order_template)).
  { unfold s3, s2, s1. rewrite !upd_same. reflexivity. }
  assert (Hother : forall q, q <> slot -> s3 q = memory e q).
  { intros q Hq. unfold s3, s2, s1. rewrite !upd_other by assumption.
    reflexivity. }
  split; [reflexivity|].
  destruct (order_books_ e) as [|entry0 books] eqn:Hbooks.
  - injection H as <-. cbn [memory next_order_id_ order_pool_ order_books_
                             stats_ trade_log].
    rewrite Hs3. repeat split; try reflexivity.
    exists s3. split; [assumption|]. split; [assumption|].
    unfold begin_entry. destruct (begin_index umap_begin []); simpl;
      repeat split; reflexivity.
  - destruct (begin_entry_some umap_begin (entry0 :: books))
      as [[symbol book] Hentry]; [discriminate|].
    unfold begin_entry in Hentry |- *. rewrite Hentry in H |- *.
    ok_inv H. destruct a as [[book1 s4] trades]. injection H as <-.
    pose proof (add_order_terms _ _ _ _ _ _ Hstep slot) as Hterms.
    apply terms_fields in Hterms.
    destruct Hterms as (Hid & _ & _ & Hts & _).
    set (e2 := mkEngine St
                 (set_nth (begin_index umap_begin (entry0 :: books))
                    (symbol, book1) (entry0 :: books))
                 (strategies_ e) pool1 (wrap_u64 (next_order_id_ e + 1))
                 (current_time_ e) (stats_ e) s4 (trade_log e)).
    pose proof (on_trades_fields St trades e2) as Hfields.
    cbv zeta in Hfields.
    remember (fold_left engine_on_trade trades e2) as e3 eqn:He3.
    clear He3.
    destruct Hfields as (H1 & H2 & H3 & H4 & H5 & H6 & H7).
    unfold count_order.
    cbn [memory next_order_id_ order_pool_ order_books_ stats_ trade_log
         Stats.orders_submitted].
    subst e2.
    cbn [memory next_order_id_ order_pool_ order_books_ stats_ trade_log]
      in *.
    split; [rewrite H5, Hid, Hs3; reflexivity|].
    split; [rewrite H5, Hts, Hs3; reflexivity|].
    split; [assumption|]. split; [assumption|].
    exists s3. split; [assumption|]. split; [assumption|].
    exists book1, trades.
    split; [rewrite H5; assumption|]. split; [assumption|].
    split; [rewrite H6; reflexivity | assumption].
Qed.
(** The engine reads [umap_begin] through [begin_index] only. *)
Section BeginPolicies.
Variable St : Type.
Variables u1 u2 : list string -> nat.
Hypothesis same_begin :
  forall m : list (string * OrderBook), begin_index u1 m = begin_index u2 m.

Lemma submit_order_begin_ext (e : TickEngine St) (order_template : Order.t) :
  submit_order u1 e order_template = submit_order u2 e order_template.
Proof. unfold submit_order. rewrite same_begin. reflexivity. Qed.

Lemma run_on_tick_begin_ext (a : Act St) :
  forall i e, run_on_tick St u1 i a e = run_on_tick St u2 i a e.
Proof.
  induction a as [st | st order k IH]; intros i e; cbn [run_on_tick].
  - reflexivity.
  - rewrite submit_order_begin_ext.
    destruct (submit_order u2 (put_state St i st e) order) as [e1| |];
      cbn [bind]; try reflexivity.
    destruct (nth_error (strategies_ e1) i); [apply IH | reflexivity].
Qed.

Lemma notify_strategies_begin_ext (tick : Tick.t) (n : nat) :
  forall i e,
    notify_strategies St u1 n i tick e = notify_strategies St u2 n i tick e.
Proof.
  induction n as [|n IH]; intros i e; cbn [notify_strategies];
    [reflexivity|].
  destruct (nth_error (strategies_ e) i) as [so|]; [|reflexivity].
  rewrite run_on_tick_begin_ext.
  destruct (run_on_tick St u2 i _ e) as [e1| |]; cbn [bind];
    [apply IH | reflexivity | reflexivity].
Qed.

Lemma process_tick_begin_ext (clock : Z * Z) (tick : Tick.t)
    (e : TickEngine St) :
  process_tick u1 clock tick e = process_tick u2 clock tick e.
Proof.
  unfold process_tick. destruct clock as [start end_].
  rewrite notify_strategies_begin_ext. reflexivity.
Qed.

Lemma run_backtest_begin_ext (clock : nat -> Z * Z) (ticks : list Tick.t) :
  forall n e,
    run_backtest_from St u1 clock n ticks e
    = run_backtest_from St u2 clock n ticks e.
Proof.
  induction ticks as [|tick ticks IH]; intros n e; cbn [run_backtest_from];
    [reflexivity|].
  rewrite process_tick_begin_ext.
  destruct (process_tick u2 (clock n) tick e) as [e1| |]; cbn [bind];
    [apply IH | reflexivity | reflexivity].
Qed.
End BeginPolicies.

(** C2, as stated, fails: on an engine without books a submission is not
    counted; and an order is not dispatched to the book of the symbol it
    is meant for.  When AAPL and MSFT tick in turn and a strategy bids at
    the price of every tick, then whichever of the two books stands at
    [begin()] of the map of books: either every bid is in the book of
    AAPL and the book of MSFT is empty, or the first bid is in the book of
    AAPL and the three others, the second bid for AAPL among them, are in
    the book of MSFT. *)
Lemma C2_counterexample :
  ~ (forall (umap_begin : list string -> nat) (e : TickEngine unit)
       (order_template : Order.t) (e' : TickEngine unit),
       submit_order umap_begin e order_template = Ok e' ->
       Stats.orders_submitted (stats_ e')
         = wrap_u64 (Stats.orders_submitted (stats_ e) + 1)) /\
  (forall umap_begin : list string -> nat,
     exists e' aapl msft,
       run_backtest umap_begin (steady_clock 0 0) alternating_ticks
         (add_strategy (new_engine blank_mem) (mkObj bid_every_tick tt))
         = Ok e' /\
       get_order_book e' "AAPL" = Some aapl /\
       get_order_book e' "MSFT" = Some msft /\
       ((map fst (bids_ aapl) = [3000500; 3000000; 1000500; 1000000] /\
         bids_ msft = [] /\ asks_ msft = []) \/
        (map fst (bids_ aapl) = [1000000] /\
         map fst (bids_ msft) = [3000500; 3000000; 1000500]))).
Proof.
  split.
  - intros H.
    specialize (H oldest_first (new_engine blank_mem)
                  (Order.make 0 1000000 10 0 BUY LIMIT 1) _ eq_refl).
    vm_compute in H. discriminate.
  - intros umap_begin.
    pose (i := Nat.modulo (umap_begin ["AAPL"; "MSFT"]%string) 2).
    pose (u2 := fun keys : list string =>
                  match keys with
                  | [a; b] =>
                      if (String.eqb a "AAPL" && String.eqb b "MSFT")%bool
                      then i else umap_begin keys
                  | _ => umap_begin keys
                  end).
    assert (Hext : forall m : list (string * OrderBook),
               begin_index umap_begin m = begin_index u2 m).
    { intros m. unfold begin_index, u2.
      destruct m as [|[a ba] [|[b bb] [|c m]]]; try reflexivity.
      cbn [map fst length].
      destruct (String.eqb a "AAPL") eqn:Ea; [|reflexivity].
      destruct (String.eqb b "MSFT") eqn:Eb; [|reflexivity].
      apply String.eqb_eq in Ea, Eb. subst a b. cbn [andb].
      unfold i. rewrite Nat.Div0.mod_mod. reflexivity. }
    unfold run_backtest.
    rewrite (run_backtest_begin_ext unit umap_begin u2 Hext).
    assert (Hi : (i < 2)%nat) by (apply Nat.mod_upper_bound; discriminate).
    clear Hext. subst u2. clearbody i.
    destruct i as [|[|i]]; [| |lia].
    + do 3 eexists. split; [vm_compute; reflexivity|].
      split; [vm_compute; reflexivity|].
      split; [vm_compute; reflexivity|].
      left. vm_compute. repeat split; reflexivity.
    + do 3 eexists. split; [vm_compute; reflexivity|].
      split; [vm_compute; reflexivity|].
      split; [vm_compute; reflexivity|].
      right. vm_compute. split; reflexivity.
Qed.

(** A submission on an engine with one book. *)
Lemma C2_witness :
  match process_tick (St := unit) oldest_first (0, 0)
          (Tick.mk "AAPL" 1000000 100 1000 BUY) (new_engine blank_mem) with
  | Ok e =>
      match submit_order oldest_first e
              (Order.make 0 1000000 10 0 BUY LIMIT 1) with
      | Ok e' =>
          Order.id (memory e' (next_slot e)) = 1 /\
          Order.timestamp (memory e' (next_slot e)) = 1000 /\
          next_order_id_ e' = 2
      | _ => False
      end
  | _ => False
  end.
Proof.
  destruct (process_tick (St := unit) oldest_first (0, 0)
              (Tick.mk "AAPL" 1000000 100 1000 BUY) (new_engine blank_mem))
    as [e | |] eqn:Ee; [|vm_compute in Ee; discriminate ..].
  destruct (submit_order oldest_first e
              (Order.make 0 1000000 10 0 BUY LIMIT 1))
    as [e' | |] eqn:Ee'.
  - destruct (C2_submit_order_stamps_and_routes unit oldest_first e _ e' Ee')
      as (_ & Hid & Hts & Hnext & _).
    vm_compute in Ee. injection Ee as <-.
    rewrite Hid, Hts, Hnext. repeat split; reflexivity.
  - vm_compute in Ee. injection Ee as <-. vm_compute in Ee'. discriminate.
  - vm_compute in Ee. injection Ee as <-. vm_compute in Ee'. discriminate.
Defined.

(** C10: on an engine whose map of books is empty, [submit_order] takes a
    slot from the arena, stamps the order there and advances the id counter,
    but adds the order to no book and counts nothing; the trades of later
    orders show the gap: after one such call, the first trade pairs the
    orders 3 and 2, and two orders are counted. *)
Theorem C10_order_dropped_without_a_book (St : Type)
    (umap_begin : list string -> nat) (e : TickEngine St)
    (order_template : Order.t) :
  order_books_ e = [] ->
  (exists e',
     submit_order umap_begin e order_template = Ok e' /\
     order_pool_ e' = snd (allocate DefaultBlockSize (order_pool_ e)) /\
     memory e' (next_slot e) = stamped e order_template /\
     next_order_id_ e' = wrap_u64 (next_order_id_ e + 1) /\
     order_books_ e' = [] /\
     stats_ e' = stats_ e /\
     trade_log e' = trade_log e) /\
  (forall m0,
     exists e',
       gap_run umap_begin m0 = Ok e' /\
       trade_log e' = [Trade.mk 3 2 1000000 10 1000] /\
       Stats.orders_submitted (stats_ e') = 2 /\
       Stats.trades_executed (stats_ e') = 1).
Proof.
  intros Hempty. split.
  - unfold submit_order, next_slot, stamped. rewrite Hempty.
    destruct (allocate DefaultBlockSize (order_pool_ e)) as [slot pool1].
    eexists. split; [reflexivity|]. simpl.
    rewrite !upd_same. repeat split; reflexivity.
  - intros m0. eexists. split; [vm_compute; reflexivity|].
    vm_compute. repeat split; reflexivity.
Qed.

(** On a new engine the first submission is dropped and takes id 1. *)
Lemma C10_witness :
  exists e',
    submit_order (St := unit) oldest_first (new_engine blank_mem)
      (Order.make 0 1000000 10 0 SELL LIMIT 1) = Ok e' /\
    next_order_id_ e' = 2 /\ order_books_ e' = [] /\
    Stats.orders_submitted (stats_ e') = 0.
Proof.
  destruct (C10_order_dropped_without_a_book unit oldest_first
              (new_engine blank_mem)
              (Order.make 0 1000000 10 0 SELL LIMIT 1) eq_refl)
    as [(e' & Hrun & _ & _ & Hnext & Hbooks & Hstats & _) _].
  exists e'. split; [assumption|]. split; [rewrite Hnext; reflexivity|].
  split; [assumption|]. rewrite Hstats. reflexivity.
Defined.
(** ** Matching reads the orders it is given only *)

Lemma result_rel_bind {X Y : Type} (R : X -> X -> Prop) (R' : Y -> Y -> Prop)
    (c1 c2 : result X) (k1 k2 : X -> result Y) :
  result_rel R c1 c2 ->
  (forall a1 a2, R a1 a2 -> result_rel R' (k1 a1) (k2 a2)) ->
  result_rel R' (bind c1 k1) (bind c2 k2).
Proof.
  destruct c1, c2; simpl; intros H Hk; try contradiction; auto.
Qed.

Lemma result_rel_eq {X : Type} (c : result X) (R : X -> X -> Prop) :
  (forall a, R a a) -> result_rel R c c.
Proof. destruct c; simpl; auto. Qed.

Lemma fill_front_agree (A : list ptr) (sd : Side) (p q : ptr)
    (rest : list ptr) (b : OrderBook) (s s' : Mem) (level : PriceLevel.t) :
  agree A s s' -> In p A -> In q A ->
  result_rel (same_level_on A)
    (fill_front sd p q rest b s level) (fill_front sd p q rest b s' level).
Proof.
  intros Hagree Hp Hq.
  pose proof (Hagree p Hp) as Ep. pose proof (Hagree q Hq) as Eq.
  unfold fill_front, trade_with, execute_trade.
  rewrite <- Ep, <- Eq.
  destruct (Order.remaining (s p)) as [x| |]; simpl; auto.
  destruct (Order.remaining (s q)) as [y| |]; simpl; auto.
  assert (Etrade :
            (match sd with
             | BUY =>
                 (mkBook (symbol_ b) (bids_ b) (asks_ b) (trade_callback_ b)
                    (wrap_u64 (total_trades_ b + 1)),
                  if trade_callback_ b
                  then [Trade.mk (Order.id (s p)) (Order.id (s q))
                          (PriceLevel.price level) (Z.min x y)
                          (Z.max (Order.timestamp (s p))
                                 (Order.timestamp (s q)))]
                  else [])
             | SELL =>
                 (mkBook (symbol_ b) (bids_ b) (asks_ b) (trade_callback_ b)
                    (wrap_u64 (total_trades_ b + 1)),
                  if trade_callback_ b
                  then [Trade.mk (Order.id (s q)) (Order.id (s p))
                          (PriceLevel.price level) (Z.min x y)
                          (Z.max (Order.timestamp (s q))
                                 (Order.timestamp (s p)))]
                  else [])
             end) = (mkBook (symbol_ b) (bids_ b) (asks_ b) (trade_callback_ b)
                       (wrap_u64 (total_trades_ b + 1)),
                     snd (trade_with sd b s p q (PriceLevel.price level)
                            (Z.min x y)))).
  { destruct sd; reflexivity. }
  rewrite Etrade. clear Etrade.
  destruct (s64 (Order.filled (s p) + Z.min x y)) as [f1| |]; simpl; auto.
  assert (E1 : upd s p (Order.set_filled f1 (s p)) q
               = upd s' p (Order.set_filled f1 (s p)) q).
  { unfold upd. destruct (ptr_eqb q p); [reflexivity | assumption]. }
  rewrite <- E1.
  destruct (s64 (Order.filled (upd s p (Order.set_filled f1 (s p)) q)
                 + Z.min x y)) as [f2| |]; simpl; auto.
  destruct (s64 (PriceLevel.total_quantity level - Z.min x y)) as [t| |];
    simpl; auto.
  rewrite !upd_same.
  destruct (Order.quantity
              (Order.set_filled f2 (upd s p (Order.set_filled f1 (s p)) q))
            <=? Order.filled
                  (Order.set_filled f2
                     (upd s p (Order.set_filled f1 (s p)) q)));
    simpl; (split; [reflexivity|]); (split; [reflexivity|]);
    (split; [reflexivity|]);
    intros r Hr; unfold upd;
    destruct (ptr_eqb r q); try reflexivity;
    destruct (ptr_eqb r p); try reflexivity; apply Hagree; assumption.
Qed.
Lemma result_rel_bind_eq {X Y : Type} (R : X -> X -> Prop)
    (R' : Y -> Y -> Prop) (c1 c2 : result X) (k1 k2 : X -> result Y) :
  result_rel R c1 c2 ->
  (forall a1 a2, c1 = Ok a1 -> c2 = Ok a2 -> R a1 a2 ->
                 result_rel R' (k1 a1) (k2 a2)) ->
  result_rel R' (bind c1 k1) (bind c2 k2).
Proof.
  destruct c1, c2; simpl; intros H Hk; try contradiction; auto.
Qed.

Lemma level_loop_agree (A : list ptr) (sd : Side) (p : ptr) (fuel : nat) :
  forall b s s' level,
    agree A s s' -> In p A -> incl (PriceLevel.orders level) A ->
    result_rel (same_level_on A)
      (level_loop fuel sd p b s level) (level_loop fuel sd p b s' level).
Proof.
  induction fuel as [|fuel IH]; intros b s s' level Hagree Hp Hincl.
  - exact I.
  - rewrite !level_loop_unfold.
    destruct (PriceLevel.orders level) as [|q rest] eqn:Hq.
    { simpl. auto. }
    rewrite <- (Hagree p Hp).
    destruct (Order.filled (s p) <? Order.quantity (s p)); cbn [negb].
    2:{ simpl. auto. }
    assert (Hq_in : In q A) by (apply Hincl; left; reflexivity).
    apply (result_rel_bind_eq (same_level_on A)).
    { apply fill_front_agree; assumption. }
    intros [[[b1 s1] l1] tr1] [[[b2 s2] l2] tr2] E1 E2 (-> & -> & -> & Hag).
    destruct (fill_front_frame _ _ _ _ _ _ _ _ _ _ _ E2 Hq)
      as (_ & _ & _ & Ho & _).
    assert (Hincl2 : incl (PriceLevel.orders l2) A).
    { destruct Ho as [-> | ->]; [|assumption].
      intros r Hr. apply Hincl. right. assumption. }
    apply (result_rel_bind (same_level_on A)).
    { apply IH; assumption. }
    intros [[[b3 s3] l3] tr3] [[[b4 s4] l4] tr4] (-> & -> & -> & Hag').
    simpl. auto.
Qed.

Lemma side_loop_agree (A : list ptr) (sd : Side) (p : ptr) (fuel : nat) :
  forall b s s',
    agree A s s' -> In p A ->
    incl (level_ptrs (contra_levels sd b)) A ->
    result_rel (same_on A) (side_loop fuel sd p b s) (side_loop fuel sd p b s').
Proof.
  induction fuel as [|fuel IH]; intros b s s' Hagree Hp Hincl.
  - exact I.
  - rewrite !side_loop_unfold.
    rewrite <- (Hagree p Hp).
    destruct (Order.filled (s p) <? Order.quantity (s p)); cbn [negb].
    2:{ simpl. unfold same_on. simpl. auto. }
    destruct (contra_levels sd b) as [|[k level] rest] eqn:Hm.
    { simpl. unfold same_on. simpl. auto. }
    destruct (match Order.type (s p) with
              | LIMIT => out_of_reach sd (s p) level
              | MARKET => false
              end).
    { simpl. unfold same_on. simpl. auto. }
    rewrite level_ptrs_cons in Hincl.
    assert (Hincl_level : incl (PriceLevel.orders level) A).
    { intros r Hr. apply Hincl, in_or_app. left. assumption. }
    apply (result_rel_bind_eq (same_level_on A)).
    { apply level_loop_agree; assumption. }
    intros [[[b1 s1] l1] tr1] [[[b2 s2] l2] tr2] E1 E2 (-> & -> & -> & Hag).
    destruct (level_loop_frame _ _ _ _ _ _ _ _ _ _ E2)
      as (_ & _ & _ & (gone & Ho) & _).
    apply (result_rel_bind (same_on A)).
    { apply IH; try assumption.
      destruct (PriceLevel.orders l2) eqn:Ho2; rewrite contra_set.
      - intros r Hr. apply Hincl, in_or_app. right. assumption.
      - rewrite level_ptrs_cons. intros r Hr. apply Hincl.
        apply in_app_or in Hr. apply in_or_app.
        destruct Hr as [Hr | Hr]; [left | right; assumption].
        rewrite Ho. apply in_or_app. right. rewrite <- Ho2. assumption. }
    intros [[b3 s3] tr3] [[b4 s4] tr4] (Hb & Htr & Hag').
    simpl in Hb, Htr, Hag'. subst. unfold same_on. simpl. auto.
Qed.
Lemma agree_upd (A : list ptr) (s s' : Mem) (p : ptr) (o : Order.t) :
  agree A s s' -> agree A (upd s p o) (upd s' p o).
Proof.
  intros H r Hr. unfold upd. destruct (ptr_eqb r p); [reflexivity | auto].
Qed.

Lemma match_order_agree (A : list ptr) (b : OrderBook) (s s' : Mem)
    (p : ptr) :
  agree A s s' -> In p A ->
  incl (level_ptrs (contra_levels (Order.side (s p)) b)) A ->
  result_rel (same_on A) (match_order b s p) (match_order b s' p).
Proof.
  intros Hagree Hp Hincl. unfold match_order.
  rewrite <- (Hagree p Hp).
  apply (result_rel_bind (same_on A)).
  { apply side_loop_agree; assumption. }
  intros [[b1 s1] tr1] [[b2 s2] tr2] (Hb & Htr & Hag).
  simpl in Hb, Htr, Hag. subst. rewrite <- (Hag p Hp).
  unfold same_on. simpl. split; [reflexivity|]. split; [reflexivity|].
  apply agree_upd. assumption.
Qed.

Lemma process_market_order_agree (A : list ptr) (b : OrderBook)
    (s s' : Mem) (p : ptr) :
  agree A s s' -> In p A ->
  incl (level_ptrs (contra_levels (Order.side (s p)) b)) A ->
  result_rel (same_on A)
    (process_market_order b s p) (process_market_order b s' p).
Proof.
  intros Hagree Hp Hincl. unfold process_market_order.
  apply (result_rel_bind (same_on A)).
  { apply match_order_agree; assumption. }
  intros [[b1 s1] tr1] [[b2 s2] tr2] (Hb & Htr & Hag).
  simpl in Hb, Htr, Hag. subst. rewrite <- (Hag p Hp).
  destruct (OrderStatus_eqb (Order.status (s1 p)) FILLED); unfold same_on;
    simpl; (split; [reflexivity|]); (split; [reflexivity|]).
  - assumption.
  - apply agree_upd. assumption.
Qed.

Lemma rest_order_reads (cmp : Z -> Z -> bool) (s s' : Mem) (p : ptr)
    (m : LevelMap) :
  s p = s' p -> rest_order cmp s p m = rest_order cmp s' p m.
Proof. unfold rest_order. intros ->. reflexivity. Qed.

Lemma add_order_agree (A : list ptr) (b : OrderBook) (s s' : Mem) (p : ptr) :
  agree A s s' -> In p A -> incl (book_ptrs b) A ->
  result_rel (same_on A) (add_order b s p) (add_order b s' p).
Proof.
  intros Hagree Hp Hincl.
  assert (Hcontra : incl (level_ptrs (contra_levels (Order.side (s p)) b)) A).
  { intros r Hr. apply Hincl. apply (book_ptrs_sides (Order.side (s p))).
    right. assumption. }
  unfold add_order. rewrite <- (Hagree p Hp).
  destruct (Order.type (s p)).
  - apply process_market_order_agree; assumption.
  - apply (result_rel_bind (same_on A)).
    { apply match_order_agree; assumption. }
    intros [[b1 s1] tr1] [[b2 s2] tr2] (Hb & Htr & Hag).
    simpl in Hb, Htr, Hag. subst. rewrite <- (Hag p Hp).
    destruct (OrderStatus_eqb (Order.status (s1 p)) FILLED).
    { unfold same_on. simpl. auto. }
    destruct (Order.side (s1 p)).
    + rewrite <- (rest_order_reads greater s1 s2 p) by (apply Hag; assumption).
      destruct (rest_order greater s1 p (bids_ b2)); simpl; auto.
      unfold same_on. simpl. auto.
    + rewrite <- (rest_order_reads less s1 s2 p) by (apply Hag; assumption).
      destruct (rest_order less s1 p (asks_ b2)); simpl; auto.
      unfold same_on. simpl. auto.
Qed.

(** The book refers, after [add_order], to orders it referred to before or
    to the incoming order; the memory changes at those addresses only. *)
Lemma add_order_ptrs (b : OrderBook) (s : Mem) (p : ptr)
    (b' : OrderBook) (s' : Mem) (tr : list Trade.t) :
  add_order b s p = Ok (b', s', tr) ->
  incl (book_ptrs b') (p :: book_ptrs b) /\
  (forall q, q <> p -> ~ In q (book_ptrs b) -> s' q = s q).
Proof.
  intros H. apply add_order_cases in H.
  set (sd := Order.side (s p)).
  destruct H as [[_ H] | [_ (b1 & H & Hcases)]].
  - destruct (process_market_order_frame _ _ _ _ _ _ sd H eq_refl)
      as (_ & (_ & _ & Hown) & He & Hframe & _).
    split.
    + apply incl_tl. apply (match_order_ptrs sd); [assumption|].
      apply eaten_incl. assumption.
    + intros q Hqp Hq. apply Hframe; [assumption|].
      intros Hin. apply Hq. apply (book_ptrs_sides sd). auto.
  - destruct (match_order_frame _ _ _ _ _ _ sd H eq_refl)
      as (Ht & (_ & _ & Hown) & He & Hframe & _).
    pose proof (match_order_ptrs sd _ _ Hown (eaten_incl _ _ He)) as Hptrs.
    split.
    + destruct Hcases as [[_ ->] | [_ (m & Hrest & ->)]].
      * apply incl_tl. assumption.
      * assert (Hsd : Order.side (s' p) = sd).
        { apply (terms_fields _ _ (Ht p)). }
        rewrite Hsd in Hrest |- *.
        unfold rest_order in Hrest.
        ok_inv Hrest. ok_inv Hrest. injection Hrest as <-.
        destruct (own_set_own sd
                    (map_put (own_cmp sd) (Order.price (s' p))
                       (PriceLevel.mk (Order.price (s' p))
                          (PriceLevel.orders
                             match map_find (own_cmp sd) (Order.price (s' p))
                                     (own_levels sd b1) with
                             | Some l => l
                             | None => PriceLevel.empty
                             end ++ [p]) a0) (own_levels sd b1)) b1)
          as [Eown Econ].
        intros q Hq. apply (book_ptrs_sides sd) in Hq.
        rewrite Eown, Econ in Hq. destruct Hq as [Hq | Hq].
        -- apply (Permutation_in _ (map_put_ptrs (own_cmp sd) _ p a0 _)) in Hq.
           destruct Hq as [<- | Hq]; [left; reflexivity|].
           right. apply Hptrs. apply (book_ptrs_sides sd). auto.
        -- right. apply Hptrs. apply (book_ptrs_sides sd). auto.
    + intros q Hqp Hq. apply Hframe; [assumption|].
      intros Hin. apply Hq. apply (book_ptrs_sides sd). auto.
Qed.
(** ** Two runs of an engine *)

Lemma agree_incl (A A' : list ptr) (s s' : Mem) :
  incl A' A -> agree A s s' -> agree A' s s'.
Proof. intros Hincl H r Hr. apply H, Hincl. assumption. Qed.

Lemma agree_upd_cons (A : list ptr) (s s' : Mem) (p : ptr) (o : Order.t) :
  agree A s s' -> agree (p :: A) (upd s p o) (upd s' p o).
Proof.
  intros H r [<- | Hr].
  - rewrite !upd_same. reflexivity.
  - apply (agree_upd A); assumption.
Qed.

Lemma all_book_ptrs_set_nth (i : nat) (symbol : string) (b : OrderBook)
    (m : list (string * OrderBook)) (r : ptr) :
  In r (all_book_ptrs (set_nth i (symbol, b) m)) ->
  In r (book_ptrs b) \/ In r (all_book_ptrs m).
Proof.
  revert i. induction m as [|[k0 b0] m IH]; intros i; simpl.
  - destruct i; intros [].
  - destruct i as [|i]; simpl; intros H; apply in_app_or in H.
    + destruct H as [H | H]; [left; assumption|].
      right. apply in_or_app. right. assumption.
    + destruct H as [H | H].
      * right. apply in_or_app. left. assumption.
      * destruct (IH i H) as [H' | H']; [left; assumption|].
        right. apply in_or_app. right. assumption.
Qed.

Lemma nth_error_book_ptrs (i : nat) (symbol : string) (b : OrderBook)
    (m : list (string * OrderBook)) :
  nth_error m i = Some (symbol, b) -> incl (book_ptrs b) (all_book_ptrs m).
Proof.
  intros H r Hr. apply nth_error_In in H.
  unfold all_book_ptrs. apply in_flat_map. exists (symbol, b). auto.
Qed.

Section TwoRuns.
Variable St : Type.
Variable umap_begin : list string -> nat.

Lemma alike_refl (e : TickEngine St) : alike e e.
Proof. split; [reflexivity | intros r Hr; reflexivity]. Qed.

Lemma alike_fields (e1 e2 : TickEngine St) :
  alike e1 e2 ->
  order_books_ e1 = order_books_ e2 /\ strategies_ e1 = strategies_ e2 /\
  order_pool_ e1 = order_pool_ e2 /\
  next_order_id_ e1 = next_order_id_ e2 /\
  current_time_ e1 = current_time_ e2 /\
  observed e1 = observed e2.
Proof.
  intros [H _]. unfold public, observed in *. injection H.
  intros. repeat split; congruence.
Qed.

Lemma on_trade_alike (e1 e2 : TickEngine St) (t : Trade.t) :
  alike e1 e2 -> alike (engine_on_trade e1 t) (engine_on_trade e2 t).
Proof.
  intros [H Hag]. unfold alike, public, engine_on_trade in *. simpl.
  injection H. intros. split; [congruence|]. assumption.
Qed.

Lemma on_trades_alike (trades : list Trade.t) (e1 e2 : TickEngine St) :
  alike e1 e2 ->
  alike (fold_left engine_on_trade trades e1)
        (fold_left engine_on_trade trades e2).
Proof.
  revert e1 e2. induction trades as [|t trades IH]; intros e1 e2 H; simpl.
  - assumption.
  - apply IH, on_trade_alike. assumption.
Qed.

Lemma count_order_alike (e1 e2 : TickEngine St) :
  alike e1 e2 -> alike (count_order St e1) (count_order St e2).
Proof.
  intros [H Hag]. unfold alike, public, count_order in *. simpl.
  injection H. intros. split; [congruence|]. assumption.
Qed.

Lemma put_state_alike (i : nat) (st : St) (e1 e2 : TickEngine St) :
  alike e1 e2 -> alike (put_state St i st e1) (put_state St i st e2).
Proof.
  intros [H Hag]. unfold alike, public, put_state in *.
  injection H. intros Hlog Htr Hos Htk Hct Hid Hpool Hstrat Hbooks.
  rewrite <- Hstrat.
  destruct (nth_error (strategies_ e1) i); simpl.
  - split; [congruence | assumption].
  - split; [congruence | assumption].
Qed.

Lemma submit_order_alike (e1 e2 : TickEngine St) (o : Order.t) :
  alike e1 e2 ->
  result_rel alike (submit_order umap_begin e1 o)
                   (submit_order umap_begin e2 o).
Proof.
  intros [H Hag]. unfold public in H.
  injection H. intros Hlog Htr Hos Htk Hct Hid Hpool Hstrat Hbooks.
  unfold submit_order.
  rewrite <- Hbooks, <- Hstrat, <- Hpool, <- Hid, <- Hct, <- Hlog.
  destruct (allocate DefaultBlockSize (order_pool_ e1)) as [slot pool1].
  set (A := all_book_ptrs (order_books_ e1)) in *.
  assert (Hag3 :
            agree (slot :: A)
              (upd (upd (upd (memory e1) slot o) slot
                      (Order.set_id (next_order_id_ e1)
                         (upd (memory e1) slot o slot)))
                 slot
                 (Order.set_timestamp (current_time_ e1)
                    (upd (upd (memory e1) slot o) slot
                       (Order.set_id (next_order_id_ e1)
                          (upd (memory e1) slot o slot)) slot)))
              (upd (upd (upd (memory e2) slot o) slot
                      (Order.set_id (next_order_id_ e1)
                         (upd (memory e2) slot o slot)))
                 slot
                 (Order.set_timestamp (current_time_ e1)
                    (upd (upd (memory e2) slot o) slot
                       (Order.set_id (next_order_id_ e1)
                          (upd (memory e2) slot o slot)) slot)))).
  { rewrite !upd_same. apply agree_upd_cons.
    intros r Hr.
    unfold upd. destruct (ptr_eqb r slot); [reflexivity | auto]. }
  destruct (order_books_ e1) as [|entry0 books] eqn:Hb.
  { simpl. split.
    - unfold public. simpl. congruence.
    - simpl. intros r []. }
  destruct (nth_error (entry0 :: books)
              (begin_index umap_begin (entry0 :: books)))
    as [[symbol book]|] eqn:Hentry.
  2:{ simpl. split.
      - unfold public. simpl. congruence.
      - simpl. eapply agree_incl; [|exact Hag3]. apply incl_tl, incl_refl. }
  pose proof (nth_error_book_ptrs _ _ _ _ Hentry) as Hbook.
  apply (result_rel_bind_eq (same_on (slot :: A))).
  { apply add_order_agree; [assumption | left; reflexivity|].
    apply incl_tl. assumption. }
  intros [[b1 s1] tr1] [[b2 s2] tr2] E1 E2 (Hb' & Htr' & Hag').
  simpl in Hb', Htr', Hag'. subst b2 tr2.
  destruct (add_order_ptrs _ _ _ _ _ _ E1) as [Hptrs _].
  simpl. apply count_order_alike, on_trades_alike.
  split.
  - unfold public. simpl. congruence.
  - simpl. eapply agree_incl; [|exact Hag'].
    intros r Hr. apply all_book_ptrs_set_nth in Hr.
    destruct Hr as [Hr | Hr].
    + apply Hptrs in Hr. destruct Hr as [<- | Hr]; [left; reflexivity|].
      right. apply Hbook. assumption.
    + right. assumption.
Qed.

Lemma run_on_tick_alike (i : nat) (a : Act St) :
  forall e1 e2,
    alike e1 e2 ->
    result_rel alike (run_on_tick St umap_begin i a e1)
                     (run_on_tick St umap_begin i a e2).
Proof.
  induction a as [st | st o k IH]; intros e1 e2 H; simpl.
  - apply put_state_alike. assumption.
  - apply (result_rel_bind alike).
    { apply submit_order_alike, put_state_alike. assumption. }
    intros e1' e2' H'.
    destruct (alike_fields _ _ H') as (_ & Hstrat & _).
    rewrite <- Hstrat.
    destruct (nth_error (strategies_ e1') i); [apply IH | simpl];
      assumption.
Qed.

Lemma notify_strategies_alike (tick : Tick.t) (n : nat) :
  forall i e1 e2,
    alike e1 e2 ->
    result_rel alike (notify_strategies St umap_begin n i tick e1)
                     (notify_strategies St umap_begin n i tick e2).
Proof.
  induction n as [|n IH]; intros i e1 e2 H; simpl.
  - assumption.
  - destruct (alike_fields _ _ H) as (_ & Hstrat & _).
    rewrite <- Hstrat.
    destruct (nth_error (strategies_ e1) i); [|simpl; assumption].
    apply (result_rel_bind alike).
    { apply run_on_tick_alike. assumption. }
    intros e1' e2' H'. apply IH. assumption.
Qed.

Lemma process_tick_alike (c1 c2 : Z * Z) (tick : Tick.t)
    (e1 e2 : TickEngine St) :
  alike e1 e2 ->
  result_rel alike (process_tick umap_begin c1 tick e1)
                   (process_tick umap_begin c2 tick e2).
Proof.
  intros H. unfold process_tick.
  destruct c1 as [start1 end1], c2 as [start2 end2].
  destruct (alike_fields _ _ H) as (Hbooks & Hstrat & _).
  rewrite <- Hbooks, <- Hstrat.
  apply (result_rel_bind alike).
  { apply notify_strategies_alike.
    destruct H as [H Hag]. unfold public in H.
    injection H. intros Hlog Htr Hos Htk Hct Hid Hpool _ _.
    split.
    - unfold public. simpl. congruence.
    - simpl.
      destruct (umap_find (Tick.symbol tick) (order_books_ e1));
        [assumption|].
      intros r Hr. apply Hag. unfold all_book_ptrs in *.
      rewrite flat_map_app in Hr. simpl in Hr.
      rewrite app_nil_r in Hr. exact Hr. }
  intros e1' e2' [H' Hag']. unfold public in H'.
  injection H'. intros.
  simpl. split.
  - unfold public. simpl. congruence.
  - simpl. assumption.
Qed.

Lemma run_backtest_alike (c1 c2 : nat -> Z * Z) (ticks : list Tick.t) :
  forall n e1 e2,
    alike e1 e2 ->
    result_rel alike (run_backtest_from St umap_begin c1 n ticks e1)
                     (run_backtest_from St umap_begin c2 n ticks e2).
Proof.
  induction ticks as [|tick ticks IH]; intros n e1 e2 H; simpl.
  - assumption.
  - apply (result_rel_bind alike).
    { apply process_tick_alike. assumption. }
    intros e1' e2' H'. apply IH. assumption.
Qed.

Lemma engine_with_alike (l : list (StrategyObj St)) (m1 m2 : Mem) :
  alike (engine_with l m1) (engine_with l m2).
Proof.
  unfold engine_with.
  assert (H : alike (new_engine (St := St) m1) (new_engine m2)).
  { split; [reflexivity | intros r []]. }
  revert H. generalize (new_engine (St := St) m1) (new_engine (St := St) m2).
  induction l as [|so l IH]; intros e1 e2 H; simpl.
  - assumption.
  - apply IH. destruct H as [H Hag]. unfold public in H.
    injection H. intros.
    split; [unfold public; simpl; congruence | assumption].
Qed.
End TwoRuns.

(** C4, amended: two runs of [run_backtest] on the same ticks, on two new
    engines with the same strategies registered in the same order, end
    alike and show the same [ticks_processed], [orders_submitted] and
    [trades_executed] and the same sequence of trades, whatever the clock
    reads during either run and whatever the storage of either arena held;
    [total_latency_ns] is what the clock made it. *)
Theorem C4_runs_agree_up_to_latency (St : Type)
    (umap_begin : list string -> nat) (strategies : list (StrategyObj St))
    (ticks : list Tick.t) (m1 m2 : Mem) (clock1 clock2 : nat -> Z * Z) :
  rmap observed
    (run_backtest umap_begin clock1 ticks (engine_with strategies m1))
  = rmap observed
      (run_backtest umap_begin clock2 ticks (engine_with strategies m2)).
Proof.
  pose proof (run_backtest_alike St umap_begin clock1 clock2 ticks 0%nat
                _ _ (engine_with_alike St strategies m1 m2)) as H.
  unfold run_backtest.
  destruct (run_backtest_from St umap_begin clock1 0 ticks
              (engine_with strategies m1)) as [e1| |];
    destruct (run_backtest_from St umap_begin clock2 0 ticks
                (engine_with strategies m2)) as [e2| |];
    simpl in H; try contradiction; try reflexivity.
  simpl. f_equal. apply (alike_fields St e1 e2 H).
Qed.

(** C4, as stated, fails: two runs on one tick, under clocks that take 5 ns
    and 7 ns for it, end with different statistics. *)
Lemma C4_counterexample :
  exists e1 e2 : TickEngine unit,
    run_backtest oldest_first (steady_clock 0 5)
      [Tick.mk "AAPL" 1000000 100 1000 BUY] (engine_with [] blank_mem)
      = Ok e1 /\
    run_backtest oldest_first (steady_clock 0 7)
      [Tick.mk "AAPL" 1000000 100 1000 BUY] (engine_with [] blank_mem)
      = Ok e2 /\
    Stats.total_latency_ns (get_stats e1) = 5 /\
    Stats.total_latency_ns (get_stats e2) = 7 /\
    get_stats e1 <> get_stats e2.
Proof.
  do 2 eexists.
  split; [vm_compute; reflexivity|].
  split; [vm_compute; reflexivity|].
  split; [reflexivity|]. split; [reflexivity|].
  vm_compute. discriminate.
Qed.
(** ** The loops end within their fuel *)

Lemma bind_not_out_of_fuel {X Y : Type} (c : result X) (k : X -> result Y) :
  c <> OutOfFuel -> (forall a, c = Ok a -> k a <> OutOfFuel) ->
  bind c k <> OutOfFuel.
Proof.
  destruct c; simpl; intros Hc Hk; [auto | discriminate | contradiction].
Qed.

Lemma s64_not_out_of_fuel (z : Z) : s64 z <> OutOfFuel.
Proof. unfold s64. destruct (in_s64 z); discriminate. Qed.

Lemma fill_front_not_out_of_fuel (sd : Side) (p q : ptr) (rest : list ptr)
    (b : OrderBook) (s : Mem) (level : PriceLevel.t) :
  fill_front sd p q rest b s level <> OutOfFuel.
Proof.
  unfold fill_front, Order.remaining.
  apply bind_not_out_of_fuel; [apply s64_not_out_of_fuel|]. intros x _.
  apply bind_not_out_of_fuel; [apply s64_not_out_of_fuel|]. intros y _.
  destruct (trade_with sd b s p q (PriceLevel.price level) (Z.min x y)).
  apply bind_not_out_of_fuel; [apply s64_not_out_of_fuel|]. intros f1 _.
  apply bind_not_out_of_fuel; [apply s64_not_out_of_fuel|]. intros f2 _.
  apply bind_not_out_of_fuel; [apply s64_not_out_of_fuel|]. intros t _.
  match goal with |- (if ?c then _ else _) <> _ => destruct c end;
    discriminate.
Qed.

Lemma level_loop_fuel (sd : Side) (p : ptr) (fuel : nat) :
  forall b s level,
    ~ In p (PriceLevel.orders level) ->
    (passes_left s p (length (PriceLevel.orders level)) <= fuel)%nat ->
    (1 <= fuel)%nat ->
    level_loop fuel sd p b s level <> OutOfFuel.
Proof.
  induction fuel as [|fuel IH]; intros b s level Hnotin Hfuel Hpos; [lia|].
  rewrite level_loop_unfold. unfold passes_left in Hfuel.
  destruct (PriceLevel.orders level) as [|q rest] eqn:Hq; [discriminate|].
  destruct (Order.filled (s p) <? Order.quantity (s p)) eqn:Hguard;
    cbn [negb]; [|discriminate].
  simpl in Hfuel.
  assert (Hqp : q <> p) by (intros ->; apply Hnotin; left; reflexivity).
  apply bind_not_out_of_fuel; [apply fill_front_not_out_of_fuel|].
  intros [[[b1 s1] l1] tr1] E.
  destruct (fill_front_exact _ _ _ _ _ _ _ _ _ _ _ E Hqp)
    as (Hp1 & _ & Hcase).
  apply bind_not_out_of_fuel.
  - apply IH; [| |lia].
    + destruct Hcase as [(_ & -> & _) | (_ & -> & _)].
      * intros Hin. apply Hnotin. right. assumption.
      * assumption.
    + unfold passes_left.
      destruct Hcase as [(_ & -> & _) | (Hlt & -> & _)].
      * destruct (Order.filled (s1 p) <? Order.quantity (s1 p)); lia.
      * replace (Order.filled (s1 p) <? Order.quantity (s1 p)) with false;
          [simpl; lia|].
        symmetry. apply Z.ltb_ge. rewrite Hp1. simpl.
        unfold residual in *. lia.
  - intros [[[b2 s2] l2] tr2] _. discriminate.
Qed.

Lemma side_loop_fuel (sd : Side) (p : ptr) (fuel : nat) :
  forall b s,
    ~ In p (level_ptrs (contra_levels sd b)) ->
    (passes_left s p (length (contra_levels sd b)) <= fuel)%nat ->
    (1 <= fuel)%nat ->
    side_loop fuel sd p b s <> OutOfFuel.
Proof.
  induction fuel as [|fuel IH]; intros b s Hnotin Hfuel Hpos; [lia|].
  rewrite side_loop_unfold. unfold passes_left in Hfuel.
  destruct (Order.filled (s p) <? Order.quantity (s p)) eqn:Hguard;
    cbn [negb]; [|discriminate].
  destruct (contra_levels sd b) as [|[k level] rest] eqn:Hm; [discriminate|].
  destruct (match Order.type (s p) with
            | LIMIT => out_of_reach sd (s p) level
            | MARKET => false
            end); [discriminate|].
  simpl in Hfuel. rewrite level_ptrs_cons in Hnotin.
  assert (Hp_level : ~ In p (PriceLevel.orders level)).
  { intros Hin. apply Hnotin, in_or_app. left. assumption. }
  apply bind_not_out_of_fuel.
  { apply level_loop_fuel; [assumption | | lia].
    unfold passes_left. rewrite Hguard. lia. }
  intros [[[b1 s1] l1] tr1] E.
  destruct (level_loop_frame _ _ _ _ _ _ _ _ _ _ E)
    as (_ & _ & _ & (gone & Ho) & _ & Hexit & _).
  apply bind_not_out_of_fuel.
  - apply IH; [| |lia].
    + destruct (PriceLevel.orders l1) eqn:Ho1; rewrite contra_set.
      * intros Hin. apply Hnotin, in_or_app. right. assumption.
      * rewrite level_ptrs_cons. intros Hin. apply Hnotin.
        apply in_app_or in Hin. apply in_or_app.
        destruct Hin as [Hin | Hin]; [left | right; assumption].
        rewrite Ho. apply in_or_app. right. rewrite <- Ho1. assumption.
    + unfold passes_left.
      destruct (PriceLevel.orders l1) eqn:Ho1; rewrite contra_set.
      * destruct (Order.filled (s1 p) <? Order.quantity (s1 p)); lia.
      * replace (Order.filled (s1 p) <? Order.quantity (s1 p)) with false;
          [simpl; lia|].
        symmetry. apply Z.ltb_ge. apply Hexit. discriminate.
  - intros [[b3 s3] tr3] _. discriminate.
Qed.

(** On an order that is new to the book, [add_order] and
    [process_market_order] never exhaust the fuel of their loops: they end
    in a result, or in a signed overflow. *)
Lemma match_order_fuel (b : OrderBook) (s : Mem) (p : ptr) :
  ~ In p (book_ptrs b) -> match_order b s p <> OutOfFuel.
Proof.
  intros Hnotin. unfold match_order.
  apply bind_not_out_of_fuel.
  - apply side_loop_fuel; [| |lia].
    + intros Hin. apply Hnotin.
      apply (book_ptrs_sides (Order.side (s p))). auto.
    + unfold passes_left.
      destruct (Order.filled (s p) <? Order.quantity (s p)); lia.
  - intros [[b1 s1] tr1] _. discriminate.
Qed.

Lemma process_market_order_fuel (b : OrderBook) (s : Mem) (p : ptr) :
  ~ In p (book_ptrs b) -> process_market_order b s p <> OutOfFuel.
Proof.
  intros Hnotin. unfold process_market_order.
  apply bind_not_out_of_fuel; [apply match_order_fuel; assumption|].
  intros [[b1 s1] tr1] _.
  destruct (OrderStatus_eqb (Order.status (s1 p)) FILLED); discriminate.
Qed.

Lemma add_order_fuel (b : OrderBook) (s : Mem) (p : ptr) :
  ~ In p (book_ptrs b) -> add_order b s p <> OutOfFuel.
Proof.
  intros Hnotin. unfold add_order.
  destruct (Order.type (s p)).
  - apply process_market_order_fuel. assumption.
  - apply bind_not_out_of_fuel; [apply match_order_fuel; assumption|].
    intros [[b1 s1] tr1] _.
    destruct (OrderStatus_eqb (Order.status (s1 p)) FILLED); [discriminate|].
    unfold rest_order, Order.remaining.
    destruct (Order.side (s1 p));
      (apply bind_not_out_of_fuel;
       [apply bind_not_out_of_fuel; [apply s64_not_out_of_fuel|];
        intros r _;
        apply bind_not_out_of_fuel; [apply s64_not_out_of_fuel|];
        intros t _; discriminate
       | intros m _; discriminate]).
Qed.
(** ** The operations return when the quantities are in range *)

Lemma int64_bounds : INT64_MIN < 0 /\ 0 < INT64_MAX.
Proof. split; reflexivity. Qed.

Lemma bind_defined {X Y : Type} (c : result X) (k : X -> result Y) :
  c <> Undefined -> (forall a, c = Ok a -> k a <> Undefined) ->
  bind c k <> Undefined.
Proof.
  destruct c; simpl; intros Hc Hk; [auto | contradiction | discriminate].
Qed.

Lemma level_sum_nonneg (s : Mem) (l : list ptr) :
  Forall (fun q => Order.filled (s q) < Order.quantity (s q)) l ->
  0 <= level_sum s l.
Proof.
  induction 1 as [|q l Hq Hl IH]; simpl; [lia|]. unfold residual. lia.
Qed.








(** ** Scenarios on one book *)

(** C9: on an empty book, three SELL limit orders at 1000000 of 100 each,
    stamped 1000, 2000 and 3000 and added in that order, rest without a
    trade; a MARKET BUY of 250 then yields exactly three trades, of 100, 100
    and 50, against the sells in their order of arrival, and leaves the
    third sell resting with [filled = 50] and status PARTIAL. *)
Theorem C9_fifo_at_one_level (m0 : Mem) :
  exists b0 s0 b s trades,
    run_calls (firstn 3 fifo_calls) (fresh_book m0) = Ok (b0, s0, []) /\
    run_calls (skipn 3 fifo_calls) (b0, s0, []) = Ok (b, s, trades) /\
    map Trade.quantity trades = [100; 100; 50] /\
    map Trade.sell_order_id trades = [1; 2; 3] /\
    map Trade.buy_order_id trades = [4; 4; 4] /\
    total_trades b = 3 /\
    Order.status (s (0, 0)) = FILLED /\
    Order.status (s (0, 1)) = FILLED /\
    Order.timestamp (s (0, 2)) = 3000 /\
    Order.filled (s (0, 2)) = 50 /\
    Order.status (s (0, 2)) = PARTIAL /\
    asks_ b = [(1000000, PriceLevel.mk 1000000 [(0, 2)] 50)].
Proof.
  do 5 eexists.
  split; [vm_compute; reflexivity|].
  split; [vm_compute; reflexivity|].
  vm_compute. repeat split; reflexivity.
Qed.

(** On a descending map [rbegin()] is the entry of the smallest key:
    [best_bid()] is the key that comes last in [bids_]. *)
Lemma best_bid_last (b : OrderBook) (e : Z * PriceLevel.t) (m : LevelMap) :
  bids_ b = m ++ [e] -> best_bid b = fst e.
Proof.
  unfold best_bid. intros ->.
  destruct m as [|e0 m]; simpl.
  - reflexivity.
  - rewrite last_last. reflexivity.
Qed.

(** C3 (as the code behaves): with bids resting at 1000000 and at 990000,
    [bids_] is iterated from 1000000, the price [match_order] takes as the
    best bid, down to 990000, and [best_bid()] returns 990000. *)
Theorem C3_best_bid_is_the_lowest_bid (m0 : Mem) :
  exists b s,
    run_calls two_bids_calls (fresh_book m0) = Ok (b, s, []) /\
    map fst (bids_ b) = [1000000; 990000] /\
    best_bid b = 990000.
Proof.
  do 2 eexists.
  split; [vm_compute; reflexivity|].
  vm_compute. split; reflexivity.
Qed.

(** [best_ask()] is the lowest resting ask, and both getters return 0 on an
    empty side. *)
Lemma best_ask_head (b : OrderBook) (e : Z * PriceLevel.t) (m : LevelMap) :
  asks_ b = e :: m -> best_ask b = fst e.
Proof. unfold best_ask. intros ->. reflexivity. Qed.

Lemma best_of_empty_side (b : OrderBook) :
  (bids_ b = [] -> best_bid b = 0) /\ (asks_ b = [] -> best_ask b = 0).
Proof.
  unfold best_bid, best_ask. split; intros ->; reflexivity.
Qed.


(** The assertions of test_partial_fill_volume, after each of its calls. *)
Example partial_fill_volume (m0 : Mem) :
  exists b1 s1 t1 b2 s2 t2 b3 s3 t3 b4 s4 t4,
    run_calls (firstn 1 partial_fill_calls) (fresh_book m0)
      = Ok (b1, s1, t1) /\
    ask_volume b1 = Ok 100 /\ best_ask b1 = 1000000 /\
    run_calls (firstn 2 partial_fill_calls) (fresh_book m0)
      = Ok (b2, s2, t2) /\
    ask_volume b2 = Ok 70 /\ best_ask b2 = 1000000 /\
    Order.status (s2 (0, 0)) = PARTIAL /\ Order.filled (s2 (0, 0)) = 30 /\
    run_calls (firstn 3 partial_fill_calls) (fresh_book m0)
      = Ok (b3, s3, t3) /\
    ask_volume b3 = Ok 30 /\
    run_calls partial_fill_calls (fresh_book m0) = Ok (b4, s4, t4) /\
    ask_volume b4 = Ok 0 /\ best_ask b4 = 0 /\
    Order.status (s4 (0, 0)) = FILLED.
Proof.
  do 12 eexists.
  split; [vm_compute; reflexivity|]. split; [reflexivity|].
  split; [reflexivity|].
  split; [vm_compute; reflexivity|]. split; [reflexivity|].
  split; [reflexivity|]. split; [reflexivity|]. split; [reflexivity|].
  split; [vm_compute; reflexivity|]. split; [reflexivity|].
  split; [vm_compute; reflexivity|]. split; [reflexivity|].
  split; reflexivity.
Qed.

(** The assertions of test_multiple_price_levels: the sweep trades 100 and
    150, in that order, and leaves 350 on the ask side from 1010000 up. *)
Example multiple_price_levels (m0 : Mem) :
  exists b s trades,
    run_calls sweep_calls (fresh_book m0) = Ok (b, s, trades) /\
    map Trade.quantity trades = [100; 150] /\
    map Trade.price trades = [1000000; 1010000] /\
    ask_volume b = Ok 350 /\ best_ask b = 1010000 /\
    Order.status (s (0, 3)) = FILLED.
Proof.
  do 3 eexists.
  split; [vm_compute; reflexivity|].
  vm_compute. repeat split; reflexivity.
Qed.

(** ** The arena within and beyond its block *)

Lemma slots_from_S (BlockSize idx : Z) (n : nat) :
  slots_from BlockSize idx (S n)
  = (0, idx mod BlockSize) :: slots_from BlockSize (idx + 1) n.
Proof.
  unfold slots_from. cbn [seq map]. rewrite Z.add_0_r. f_equal.
  rewrite <- seq_shift, map_map. apply map_ext. intros i.
  f_equal. f_equal. lia.
Qed.

Lemma slots_from_mod (BlockSize idx idx' : Z) (n : nat) :
  idx mod BlockSize = idx' mod BlockSize ->
  slots_from BlockSize idx n = slots_from BlockSize idx' n.
Proof.
  intros H. unfold slots_from. apply map_ext. intros i. f_equal.
  rewrite <- (Zplus_mod_idemp_l idx), <- (Zplus_mod_idemp_l idx'), H.
  reflexivity.
Qed.

Lemma wrap_u64_small (z : Z) : 0 <= z < 2 ^ 64 -> wrap_u64 z = z.
Proof. intros H. unfold wrap_u64. apply Z.mod_small. assumption. Qed.

(** One call on an arena of one block whose index stands at [idx]. *)
Lemma allocate_one_block (BlockSize : Z) (p : MemoryPool) :
  0 < BlockSize < 2 ^ 64 ->
  blocks_ p = [Block.mk 0] -> current_block_ p = 0 ->
  0 <= current_index_ p <= BlockSize ->
  let r := allocate BlockSize p in
  fst r = (0, current_index_ p mod BlockSize) /\
  blocks_ (snd r) = [Block.mk 0] /\ current_block_ (snd r) = 0 /\
  current_index_ (snd r) = current_index_ p mod BlockSize + 1.
Proof.
  intros HB Hb Hc Hi. unfold allocate.
  destruct (BlockSize <=? current_index_ p) eqn:E.
  - apply Z.leb_le in E.
    rewrite (allocate_block_single p Hb Hc). cbn.
    assert (current_index_ p = BlockSize) as -> by lia.
    rewrite Z.mod_same by lia.
    repeat split; reflexivity.
  - apply Z.leb_gt in E. cbn. rewrite Hb, Hc. cbn.
    rewrite Z.mod_small by lia.
    rewrite wrap_u64_small by lia. auto.
Qed.

Lemma allocate_many_one_block (BlockSize : Z) (n : nat) :
  0 < BlockSize < 2 ^ 64 ->
  forall p,
    blocks_ p = [Block.mk 0] -> current_block_ p = 0 ->
    0 <= current_index_ p <= BlockSize ->
    let r := allocate_many BlockSize n p in
    fst r = slots_from BlockSize (current_index_ p) n /\
    blocks_ (snd r) = [Block.mk 0] /\ current_block_ (snd r) = 0 /\
    current_index_ (snd r)
      = match n with
        | O => current_index_ p
        | S n' => (current_index_ p + Z.of_nat n') mod BlockSize + 1
        end.
Proof.
  intros HB. induction n as [|n IH]; intros p Hb Hc Hi; cbn [allocate_many].
  - cbn. auto.
  - destruct (allocate_one_block BlockSize p HB Hb Hc Hi)
      as (Ha & Hb1 & Hc1 & Hi1).
    destruct (allocate BlockSize p) as [a p1]. cbn [fst snd] in *.
    assert (Hi1' : 0 <= current_index_ p1 <= BlockSize).
    { rewrite Hi1.
      pose proof (Z.mod_pos_bound (current_index_ p) BlockSize). lia. }
    destruct (IH p1 Hb1 Hc1 Hi1') as (Hl & Hb2 & Hc2 & Hi2).
    destruct (allocate_many BlockSize n p1) as [l p2]. cbn [fst snd] in *.
    split; [|split; [assumption|split; [assumption|]]].
    + rewrite slots_from_S, Ha, Hl. f_equal.
      apply slots_from_mod. rewrite Hi1.
      rewrite Zplus_mod_idemp_l. reflexivity.
    + rewrite Hi2. destruct n as [|n'].
      * rewrite Hi1, Z.add_0_r. reflexivity.
      * rewrite Hi1, <- Z.add_assoc, Zplus_mod_idemp_l.
        replace (1 + Z.of_nat n') with (Z.of_nat (S n')) by lia.
        reflexivity.
Qed.

Lemma new_pool_one_block :
  blocks_ new_pool = [Block.mk 0] /\ current_block_ new_pool = 0 /\
  current_index_ new_pool = 0.
Proof. repeat split. Qed.

(** X1: within its block the arena is sound.  For any block size
    [0 < BlockSize < 2^64] and any [n <= BlockSize], the first [n] calls of
    [allocate()] on a new arena hand out the slots [0 .. n-1] of the first
    block, pairwise distinct, and [allocated_count()] is then [n]. *)
Theorem X1_arena_sound_within_first_block (BlockSize : Z) (n : nat) :
  0 < BlockSize < 2 ^ 64 -> Z.of_nat n <= BlockSize ->
  let r := allocate_many BlockSize n new_pool in
  fst r = map (fun i => (0, Z.of_nat i)) (seq 0 n) /\
  NoDup (fst r) /\
  allocated_count BlockSize (snd r) = Z.of_nat n.
Proof.
  intros HB Hn.
  destruct new_pool_one_block as (Hb & Hc & Hi).
  destruct (allocate_many_one_block BlockSize n HB new_pool Hb Hc)
    as (Hl & _ & Hc' & Hi'); [rewrite Hi; lia|].
  cbn zeta.
  destruct (allocate_many BlockSize n new_pool) as [l p']. cbn [fst snd] in *.
  assert (Hl' : l = map (fun i => (0, Z.of_nat i)) (seq 0 n)).
  { rewrite Hl, Hi. unfold slots_from. apply map_ext_in. intros i Hin.
    apply in_seq in Hin. f_equal. rewrite Z.mod_small; lia. }
  split; [assumption|]. split.
  - rewrite Hl'. apply Finite.Injective_map_NoDup; [|apply seq_NoDup].
    intros i j H. injection H. lia.
  - unfold allocated_count. rewrite Hc', Hi', Hi.
    destruct n as [|n'].
    + reflexivity.
    + rewrite Z.mod_small by lia. rewrite wrap_u64_small by lia. lia.
Qed.

Lemma X1_witness :
  let r := allocate_many 4 3 new_pool in
  fst r = [(0, 0); (0, 1); (0, 2)] /\ NoDup (fst r) /\
  allocated_count 4 (snd r) = 3.
Proof.
  apply (X1_arena_sound_within_first_block 4 3); [split; reflexivity|].
  vm_compute. discriminate.
Defined.

(** X2: the arena never grows.  For any block size [0 < BlockSize < 2^64]
    and any number [n] of calls of [allocate()] on a new arena, call [i]
    (counted from 0) hands out slot [i mod BlockSize] of the first block,
    the arena still owns that block alone, and [memory_usage()] is what it
    was after construction. *)
Theorem X2_arena_cycles_through_one_block (BlockSize sizeof_T : Z)
    (n : nat) :
  0 < BlockSize < 2 ^ 64 ->
  let r := allocate_many BlockSize n new_pool in
  fst r = map (fun i => (0, Z.of_nat i mod BlockSize)) (seq 0 n) /\
  blocks_ (snd r) = [Block.mk 0] /\
  memory_usage BlockSize sizeof_T (snd r)
    = memory_usage BlockSize sizeof_T new_pool.
Proof.
  intros HB.
  destruct new_pool_one_block as (Hb & Hc & Hi).
  destruct (allocate_many_one_block BlockSize n HB new_pool Hb Hc)
    as (Hl & Hb' & _); [rewrite Hi; lia|].
  cbn zeta.
  destruct (allocate_many BlockSize n new_pool) as [l p']. cbn [fst snd] in *.
  split; [|split; [assumption|]].
  - rewrite Hl, Hi. reflexivity.
  - unfold memory_usage, blocks_size. rewrite Hb', Hb. reflexivity.
Qed.

Lemma X2_witness :
  let r := allocate_many 4 6 new_pool in
  fst r = [(0, 0); (0, 1); (0, 2); (0, 3); (0, 0); (0, 1)] /\
  blocks_ (snd r) = [Block.mk 0] /\
  memory_usage 4 64 (snd r) = memory_usage 4 64 new_pool.
Proof.
  apply (X2_arena_cycles_through_one_block 4 64 6). split; reflexivity.
Defined.

(** X3: [reset()] brings a used arena back to the state the constructor
    left it in: whatever was allocated before, the calls of [allocate()]
    after a [reset()] hand out the slots a new arena hands out, starting
    with the first slot of the first block, [allocated_count()] is 0 again
    and no memory is released. *)
Theorem X3_reset_restarts_the_arena (BlockSize sizeof_T : Z) (n m : nat) :
  0 < BlockSize < 2 ^ 64 ->
  let used := snd (allocate_many BlockSize n new_pool) in
  reset used = new_pool /\
  allocated_count BlockSize (reset used) = 0 /\
  memory_usage BlockSize sizeof_T (reset used)
    = memory_usage BlockSize sizeof_T used /\
  allocate_many BlockSize m (reset used) = allocate_many BlockSize m new_pool.
Proof.
  intros HB.
  destruct new_pool_one_block as (Hb & Hc & Hi).
  destruct (allocate_many_one_block BlockSize n HB new_pool Hb Hc)
    as (_ & Hb' & _); [rewrite Hi; lia|].
  cbn zeta.
  destruct (allocate_many BlockSize n new_pool) as [l p']. cbn [fst snd] in *.
  assert (Hreset : reset p' = new_pool).
  { unfold reset. rewrite Hb'. reflexivity. }
  split; [assumption|]. split; [|split].
  - rewrite Hreset. reflexivity.
  - unfold memory_usage, blocks_size, reset. reflexivity.
  - rewrite Hreset. reflexivity.
Qed.

Lemma X3_witness :
  let used := snd (allocate_many 4 6 new_pool) in
  reset used = new_pool /\
  allocated_count 4 (reset used) = 0 /\
  memory_usage 4 64 (reset used) = memory_usage 4 64 used /\
  allocate_many 4 2 (reset used) = allocate_many 4 2 new_pool.
Proof.
  apply (X3_reset_restarts_the_arena 4 64 6 2). split; reflexivity.
Defined.

(** ** The symbol registry *)

Module RegistryFacts.
Import SymbolRegistry.

Lemma find_put_same (symbol : string) (id : Z) (m : list (string * Z)) :
  find symbol (put symbol id m) = Some id.
Proof.
  induction m as [|[k id'] m IH]; cbn [put find].
  - rewrite String.eqb_refl. reflexivity.
  - destruct (String.eqb k symbol) eqn:E; cbn [find]; rewrite E.
    + reflexivity.
    + assumption.
Qed.

Lemma find_put_other (symbol other : string) (id : Z)
    (m : list (string * Z)) :
  other <> symbol -> find other (put symbol id m) = find other m.
Proof.
  intros Hne. induction m as [|[k id'] m IH]; cbn [put find].
  - replace (String.eqb symbol other) with false; [reflexivity|].
    symmetry. apply String.eqb_neq. congruence.
  - destruct (String.eqb k symbol) eqn:E; cbn [find].
    + apply String.eqb_eq in E. subst k.
      replace (String.eqb symbol other) with false; [reflexivity|].
      symmetry. apply String.eqb_neq. congruence.
    + destruct (String.eqb k other); [reflexivity | assumption].
Qed.

Lemma registry_inv_empty : registry_inv empty.
Proof.
  split; [constructor|]. split.
  - intros [|i] symbol H; discriminate.
  - intros symbol id H. discriminate.
Qed.

(** What [register_symbol] returns and leaves, for a symbol the registry
    knows and for one it does not. *)
Lemma register_symbol_cases (symbol : string) (r : t) :
  registry_inv r ->
  (In symbol (symbols_ r) /\
   exists i, nth_error (symbols_ r) i = Some symbol /\
             register_symbol symbol r = (to_SymbolId (Z.of_nat i), r)) \/
  (~ In symbol (symbols_ r) /\
   register_symbol symbol r
   = (to_SymbolId (Z.of_nat (length (symbols_ r))),
      mk (symbols_ r ++ [symbol])
         (put symbol (to_SymbolId (Z.of_nat (length (symbols_ r))))
              (symbol_to_id_ r)))).
Proof.
  intros (Hnd & Hpos & Hknown). unfold register_symbol.
  destruct (find symbol (symbol_to_id_ r)) as [id|] eqn:E.
  - left. pose proof (Hknown _ _ E) as Hin. split; [assumption|].
    destruct (In_nth_error _ _ Hin) as [i Hi]. exists i.
    split; [assumption|].
    rewrite (Hpos _ _ Hi) in E. injection E as <-. reflexivity.
  - right. split; [|reflexivity].
    intros Hin. destruct (In_nth_error _ _ Hin) as [i Hi].
    rewrite (Hpos _ _ Hi) in E. discriminate.
Qed.

Lemma register_symbol_inv (symbol : string) (r : t) :
  registry_inv r -> registry_inv (snd (register_symbol symbol r)).
Proof.
  intros Hinv.
  destruct (register_symbol_cases symbol r Hinv)
    as [(_ & i & _ & ->) | (Hnew & ->)]; [assumption|].
  destruct Hinv as (Hnd & Hpos & Hknown). cbn [snd].
  split; [|split]; cbn [symbols_ symbol_to_id_].
  - apply NoDup_app_intro; [assumption | repeat constructor; intros [] |].
    intros x Hx [<- | []]. contradiction.
  - intros i other Hi.
    destruct (Nat.lt_ge_cases i (length (symbols_ r))) as [Hlt | Hge].
    + rewrite nth_error_app1 in Hi by assumption.
      rewrite find_put_other; [apply Hpos; assumption|].
      intros ->. apply Hnew. eapply nth_error_In. eassumption.
    + rewrite nth_error_app2 in Hi by assumption.
      destruct (i - length (symbols_ r))%nat as [|j] eqn:Ej;
        [|destruct j; discriminate].
      injection Hi as <-. rewrite find_put_same.
      replace i with (length (symbols_ r)) by lia. reflexivity.
  - intros other id Hfind. apply in_or_app.
    destruct (string_dec other symbol) as [-> | Hne].
    + right. left. reflexivity.
    + left. rewrite find_put_other in Hfind by assumption. eauto.
Qed.

Lemma register_symbol_symbols (symbol : string) (r : t) :
  registry_inv r ->
  forall x, In x (symbols_ (snd (register_symbol symbol r))) <->
            In x (symbols_ r) \/ x = symbol.
Proof.
  intros Hinv x.
  destruct (register_symbol_cases symbol r Hinv)
    as [(Hin & i & _ & ->) | (Hnew & ->)]; cbn [snd symbols_].
  - split; [auto|]. intros [H | ->]; assumption.
  - rewrite in_app_iff. cbn [In]. intuition congruence.
Qed.

Lemma registered_from (syms : list string) :
  forall r0,
    registry_inv r0 ->
    let r := fold_left (fun r symbol => snd (register_symbol symbol r))
                       syms r0 in
    registry_inv r /\
    forall x, In x (symbols_ r) <-> In x (symbols_ r0) \/ In x syms.
Proof.
  induction syms as [|symbol syms IH]; intros r0 Hinv; cbn [fold_left].
  - split; [assumption|]. intros x. cbn [In]. tauto.
  - destruct (IH _ (register_symbol_inv symbol r0 Hinv)) as [Hinv' Hin].
    split; [assumption|]. intros x. rewrite Hin.
    rewrite (register_symbol_symbols symbol r0 Hinv). cbn [In].
    intuition congruence.
Qed.

Lemma registered_inv (syms : list string) :
  registry_inv (registered syms) /\
  forall x, In x (symbols_ (registered syms)) <-> In x syms.
Proof.
  destruct (registered_from syms empty registry_inv_empty) as [Hinv Hin].
  split; [assumption|]. intros x. rewrite (Hin x). cbn. tauto.
Qed.

Lemma registered_snoc (syms : list string) (symbol : string) :
  registered (syms ++ [symbol])
  = snd (register_symbol symbol (registered syms)).
Proof. unfold registered. rewrite fold_left_app. reflexivity. Qed.

(** [symbols_] lists the symbols in the order in which each was
    registered first. *)
Lemma registered_order (syms : list string) :
  symbols_ (registered syms) = rev (nodup string_dec (rev syms)).
Proof.
  induction syms as [|symbol syms IH] using rev_ind; [reflexivity|].
  destruct (registered_inv syms) as [Hinv Hin].
  rewrite registered_snoc, rev_app_distr. cbn [rev app nodup].
  destruct (register_symbol_cases symbol _ Hinv)
    as [(Hold & i & _ & ->) | (Hnew & ->)]; cbn [snd symbols_].
  - destruct (in_dec string_dec symbol (rev syms)) as [_ | Hout];
      [assumption|].
    exfalso. apply Hout. apply in_rev. rewrite rev_involutive.
    apply Hin. assumption.
  - destruct (in_dec string_dec symbol (rev syms)) as [Hin' | _].
    + exfalso. apply Hnew. apply Hin. apply in_rev. assumption.
    + cbn [rev]. rewrite IH. reflexivity.
Qed.

Lemma get_symbol_nth (r : t) (i : nat) (symbol : string) :
  nth_error (symbols_ r) i = Some symbol ->
  get_symbol r (Z.of_nat i) = Ok symbol.
Proof.
  intros H. unfold get_symbol.
  assert (Hlt : (i < length (symbols_ r))%nat).
  { apply nth_error_Some. congruence. }
  replace (0 <=? Z.of_nat i) with true by (symmetry; apply Z.leb_le; lia).
  replace (Z.of_nat i <? Z.of_nat (length (symbols_ r))) with true
    by (symmetry; apply Z.ltb_lt; lia).
  cbn [andb]. rewrite Nat2Z.id, H. reflexivity.
Qed.

Lemma to_SymbolId_range (n : Z) : 0 <= to_SymbolId n < 2 ^ 16.
Proof. unfold to_SymbolId. apply Z.mod_pos_bound. reflexivity. Qed.

Lemma to_SymbolId_small (n : Z) : 0 <= n < 2 ^ 16 -> to_SymbolId n = n.
Proof. intros H. unfold to_SymbolId. apply Z.mod_small. assumption. Qed.
End RegistryFacts.

(** X4: registering and looking up is a round trip.  On the registry that
    any sequence of registrations has built, as long as it lists fewer
    than 65536 symbols, [get_symbol(register_symbol(symbol))] is [symbol],
    whether or not [symbol] was registered before; the id is a
    [uint16_t], and registering the symbol again returns the same id and
    changes nothing. *)
Theorem X4_register_then_get_symbol (syms : list string) (symbol : string) :
  Z.of_nat (length (SymbolRegistry.symbols_ (registered syms))) < 2 ^ 16 ->
  let r' := snd (SymbolRegistry.register_symbol symbol (registered syms)) in
  let id := fst (SymbolRegistry.register_symbol symbol (registered syms)) in
  SymbolRegistry.get_symbol r' id = Ok symbol /\
  0 <= id < 2 ^ 16 /\
  SymbolRegistry.register_symbol symbol r' = (id, r').
Proof.
  intros Hroom. cbn zeta.
  destruct (RegistryFacts.registered_inv syms) as [Hinv _].
  pose proof (RegistryFacts.register_symbol_inv symbol _ Hinv) as Hinv'.
  destruct (RegistryFacts.register_symbol_cases symbol _ Hinv)
    as [(Hin & i & Hi & E) | (Hnew & E)]; rewrite E in *; cbn [fst snd] in *.
  - assert (Hlt : (i < length (SymbolRegistry.symbols_ (registered syms)))%nat).
    { apply nth_error_Some. congruence. }
    rewrite RegistryFacts.to_SymbolId_small by lia.
    split; [apply RegistryFacts.get_symbol_nth; assumption|].
    split; [lia|]. rewrite E.
    rewrite RegistryFacts.to_SymbolId_small by lia. reflexivity.
  - rewrite RegistryFacts.to_SymbolId_small by lia.
    split; [|split; [lia|]].
    + apply RegistryFacts.get_symbol_nth. cbn [SymbolRegistry.symbols_].
      rewrite nth_error_app2 by lia. rewrite Nat.sub_diag. reflexivity.
    + unfold SymbolRegistry.register_symbol.
      cbn [SymbolRegistry.symbol_to_id_].
      rewrite RegistryFacts.find_put_same. reflexivity.
Qed.

Lemma X4_witness :
  let r' := snd (SymbolRegistry.register_symbol "MSFT"
                   (registered ["AAPL"; "MSFT"; "AAPL"]%string)) in
  SymbolRegistry.get_symbol r' 1 = Ok "MSFT"%string /\
  SymbolRegistry.register_symbol "MSFT" r' = (1, r').
Proof.
  destruct (X4_register_then_get_symbol ["AAPL"; "MSFT"; "AAPL"]%string "MSFT")
    as (H1 & _ & H2); [reflexivity|].
  split; [exact H1 | exact H2].
Defined.

(** X5: the registry lists every registered symbol once, in the order of
    first registration, and hands out the position as the id.  After any
    sequence [syms] of registrations [symbols_] is [syms] without the
    repetitions: each symbol stands once, where its first registration
    put it ([nodup] keeps the last occurrence of each element, which in
    the reversed sequence is the first registration).  So [symbols_] has
    no duplicate and holds exactly the symbols of [syms]; and
    [register_symbol] of the symbol at position [i] returns [i] cast to
    [SymbolId] and changes nothing. *)
Theorem X5_registry_ids_are_positions (syms : list string) :
  let r := registered syms in
  SymbolRegistry.symbols_ r = rev (nodup string_dec (rev syms)) /\
  NoDup (SymbolRegistry.symbols_ r) /\
  (forall symbol, In symbol (SymbolRegistry.symbols_ r) <-> In symbol syms) /\
  (forall i symbol,
     nth_error (SymbolRegistry.symbols_ r) i = Some symbol ->
     SymbolRegistry.register_symbol symbol r
     = (to_SymbolId (Z.of_nat i), r)).
Proof.
  cbn zeta. destruct (RegistryFacts.registered_inv syms) as [Hinv Hin].
  split; [apply RegistryFacts.registered_order|].
  split; [apply Hinv|]. split; [assumption|].
  intros i symbol Hi. destruct Hinv as (_ & Hpos & _).
  unfold SymbolRegistry.register_symbol. rewrite (Hpos _ _ Hi). reflexivity.
Qed.

(** X6: the id is a [uint16_t] and the registry does not check its size.
    For a symbol that has not been registered, the round trip
    [get_symbol(register_symbol(symbol)) = symbol] holds exactly when the
    registry lists fewer than 65536 symbols; from 65536 symbols on the id
    wraps around and designates a symbol registered earlier. *)
Theorem X6_registry_id_wraps (syms : list string) (symbol : string) :
  ~ In symbol syms ->
  let r' := snd (SymbolRegistry.register_symbol symbol (registered syms)) in
  let id := fst (SymbolRegistry.register_symbol symbol (registered syms)) in
  id = to_SymbolId
         (Z.of_nat (length (SymbolRegistry.symbols_ (registered syms)))) /\
  (SymbolRegistry.get_symbol r' id = Ok symbol <->
   Z.of_nat (length (SymbolRegistry.symbols_ (registered syms))) < 2 ^ 16).
Proof.
  intros Hnew. cbn zeta.
  destruct (RegistryFacts.registered_inv syms) as [Hinv Hin].
  destruct (RegistryFacts.register_symbol_cases symbol _ Hinv)
    as [(Hold & _) | (_ & E)].
  { exfalso. apply Hnew, Hin. assumption. }
  rewrite E. cbn [fst snd]. split; [reflexivity|].
  set (n := length (SymbolRegistry.symbols_ (registered syms))) in *.
  split.
  - intros Hget.
    destruct (Z.lt_ge_cases (Z.of_nat n) (2 ^ 16)) as [Hlt | Hge];
      [assumption | exfalso].
    pose proof (RegistryFacts.to_SymbolId_range (Z.of_nat n)) as Hid.
    set (id := to_SymbolId (Z.of_nat n)) in *.
    assert (Hlt : (Z.to_nat id < n)%nat) by lia.
    destruct (nth_error (SymbolRegistry.symbols_ (registered syms))
                (Z.to_nat id)) as [old|] eqn:Hold.
    2:{ apply nth_error_None in Hold. fold n in Hold. lia. }
    assert (Hget' : SymbolRegistry.get_symbol
                      (SymbolRegistry.mk
                         (SymbolRegistry.symbols_ (registered syms) ++ [symbol])
                         (SymbolRegistry.put symbol id
                            (SymbolRegistry.symbol_to_id_ (registered syms))))
                      (Z.of_nat (Z.to_nat id)) = Ok old).
    { apply RegistryFacts.get_symbol_nth. cbn [SymbolRegistry.symbols_].
      rewrite nth_error_app1 by assumption. assumption. }
    rewrite Z2Nat.id in Hget' by lia. rewrite Hget in Hget'.
    injection Hget' as <-.
    apply Hnew, Hin. eapply nth_error_In. eassumption.
  - intros Hlt. rewrite RegistryFacts.to_SymbolId_small by lia.
    apply RegistryFacts.get_symbol_nth. cbn [SymbolRegistry.symbols_].
    rewrite nth_error_app2 by (fold n; lia). fold n.
    rewrite Nat.sub_diag. reflexivity.
Qed.

Lemma X6_witness :
  fst (SymbolRegistry.register_symbol "GOOG" (registered ["AAPL"; "MSFT"]%string))
  = 2 /\
  SymbolRegistry.get_symbol
    (snd (SymbolRegistry.register_symbol "GOOG" (registered ["AAPL"; "MSFT"]%string)))
    2 = Ok "GOOG"%string.
Proof.
  destruct (X6_registry_id_wraps ["AAPL"; "MSFT"]%string "GOOG") as [Hid Hget].
  - cbn [In]. intros [H | [H | []]]; discriminate.
  - split; [exact Hid|]. apply Hget. reflexivity.
Defined.

(** ** What the trades of one call add up to *)

Lemma wrap_u64_add_l (a b : Z) :
  wrap_u64 (wrap_u64 a + b) = wrap_u64 (a + b).
Proof. unfold wrap_u64. apply Zplus_mod_idemp_l. Qed.

Lemma wrap_u64_range (a : Z) : 0 <= wrap_u64 a < 2 ^ 64.
Proof. unfold wrap_u64. apply Z.mod_pos_bound. reflexivity. Qed.

Lemma wrap_u64_id (a : Z) : 0 <= a < 2 ^ 64 -> wrap_u64 a = a.
Proof. intros H. unfold wrap_u64. apply Z.mod_small. assumption. Qed.

(** The sink receives one trade for each execution, or none when no sink
    is registered; [count b n] is the number of trades it receives out of
    [n] executions. *)
Lemma trade_with_count (sd : Side) (b : OrderBook) (s : Mem) (p q : ptr)
    (price qty : Z) (b1 : OrderBook) (tr : list Trade.t) :
  trade_with sd b s p q price qty = (b1, tr) ->
  (trade_callback_ b = true ->
   exists t, tr = [t] /\ Trade.quantity t = qty /\ Trade.price t = price) /\
  (trade_callback_ b = false -> tr = []).
Proof.
  unfold trade_with, execute_trade.
  destruct sd; intros H; injection H as <- <-;
    destruct (trade_callback_ b); split; intros Hc; try discriminate;
    try reflexivity; eexists; split; try reflexivity; split; reflexivity.
Qed.

Lemma fill_front_trades (sd : Side) (p q : ptr) (rest : list ptr)
    (b : OrderBook) (s : Mem) (level : PriceLevel.t)
    (b1 : OrderBook) (s1 : Mem) (level1 : PriceLevel.t) (tr : list Trade.t) :
  fill_front sd p q rest b s level = Ok (b1, s1, level1, tr) ->
  total_trades_ b1 = wrap_u64 (total_trades_ b + 1) /\
  (trade_callback_ b = true ->
   exists t, tr = [t] /\
             Trade.quantity t = Z.min (residual (s p)) (residual (s q)) /\
             Trade.price t = PriceLevel.price level) /\
  (trade_callback_ b = false -> tr = []).
Proof.
  unfold fill_front. intros H.
  ok_inv H. rename a into x. ok_inv H. rename a into y.
  apply remaining_Ok in Hstep. destruct Hstep as [Hx _].
  apply remaining_Ok in Hstep0. destruct Hstep0 as [Hy _].
  destruct (trade_with sd b s p q (PriceLevel.price level) (Z.min x y))
    as [b0 tr0] eqn:Htrade.
  ok_inv H. rename a into f1. ok_inv H. rename a into f2.
  ok_inv H. rename a into t.
  pose proof (trade_with_book _ _ _ _ _ _ _ _ _ Htrade)
    as (_ & _ & _ & _ & Hn).
  pose proof (trade_with_count _ _ _ _ _ _ _ _ _ Htrade) as [Hon Hoff].
  subst x y. fold (residual (s p)) in Hon. fold (residual (s q)) in Hon.
  match type of H with
  | (if ?c then _ else _) = _ =>
      destruct c; injection H as <- <- <- <-; auto
  end.
Qed.

Lemma level_loop_count (sd : Side) (p : ptr) (fuel : nat) :
  forall b s level b' s' level' tr,
    level_loop fuel sd p b s level = Ok (b', s', level', tr) ->
    0 <= total_trades_ b < 2 ^ 64 ->
    exists n : nat,
      total_trades_ b' = wrap_u64 (total_trades_ b + Z.of_nat n) /\
      (trade_callback_ b = true -> length tr = n) /\
      (trade_callback_ b = false -> tr = []).
Proof.
  induction fuel as [|fuel IH]; intros b s level b' s' level' tr H Hrange.
  - discriminate.
  - rewrite level_loop_unfold in H.
    destruct (PriceLevel.orders level) as [|q rest] eqn:Hq.
    { injection H as <- <- <- <-. exists O.
      rewrite Z.add_0_r, wrap_u64_id by assumption. auto. }
    destruct (Order.filled (s p) <? Order.quantity (s p)) eqn:Hguard;
      cbn [negb] in H.
    2:{ injection H as <- <- <- <-. exists O.
        rewrite Z.add_0_r, wrap_u64_id by assumption. auto. }
    ok_inv H. destruct a as [[[b1 s1] level1] tr1].
    ok_inv H. destruct a as [[[b2 s2] level2] tr2].
    injection H as <- <- <- <-.
    destruct (fill_front_trades _ _ _ _ _ _ _ _ _ _ _ Hstep)
      as (Hn1 & Hon1 & Hoff1).
    destruct (fill_front_frame _ _ _ _ _ _ _ _ _ _ _ Hstep Hq)
      as (_ & (_ & _ & _ & Hc1) & _).
    destruct (IH _ _ _ _ _ _ _ Hstep0) as (n & Hn2 & Hon2 & Hoff2).
    { rewrite Hn1. apply wrap_u64_range. }
    exists (S n). split; [|split].
    + rewrite Hn2, Hn1, wrap_u64_add_l. f_equal. lia.
    + intros Hc. destruct (Hon1 Hc) as (t & -> & _).
      cbn [app length]. f_equal. apply Hon2. congruence.
    + intros Hc. rewrite (Hoff1 Hc), Hoff2 by congruence. reflexivity.
Qed.

Lemma set_contra_fields (sd : Side) (m : LevelMap) (b : OrderBook) :
  symbol_ (set_contra_levels sd m b) = symbol_ b /\
  trade_callback_ (set_contra_levels sd m b) = trade_callback_ b /\
  total_trades_ (set_contra_levels sd m b) = total_trades_ b.
Proof. destruct sd; repeat split. Qed.

Lemma set_own_fields (sd : Side) (m : LevelMap) (b : OrderBook) :
  symbol_ (set_own_levels sd m b) = symbol_ b /\
  trade_callback_ (set_own_levels sd m b) = trade_callback_ b /\
  total_trades_ (set_own_levels sd m b) = total_trades_ b.
Proof. destruct sd; repeat split. Qed.

Lemma side_loop_count (sd : Side) (p : ptr) (fuel : nat) :
  forall b s b' s' tr,
    side_loop fuel sd p b s = Ok (b', s', tr) ->
    0 <= total_trades_ b < 2 ^ 64 ->
    exists n : nat,
      total_trades_ b' = wrap_u64 (total_trades_ b + Z.of_nat n) /\
      (trade_callback_ b = true -> length tr = n) /\
      (trade_callback_ b = false -> tr = []).
Proof.
  induction fuel as [|fuel IH]; intros b s b' s' tr H Hrange.
  - discriminate.
  - rewrite side_loop_unfold in H.
    destruct (Order.filled (s p) <? Order.quantity (s p)); cbn [negb] in H.
    2:{ injection H as <- <- <-. exists O.
        rewrite Z.add_0_r, wrap_u64_id by assumption. auto. }
    destruct (contra_levels sd b) as [|[k level] rest] eqn:Hm.
    { injection H as <- <- <-. exists O.
      rewrite Z.add_0_r, wrap_u64_id by assumption. auto. }
    destruct (match Order.type (s p) with
              | LIMIT => out_of_reach sd (s p) level
              | MARKET => false
              end).
    { injection H as <- <- <-. exists O.
      rewrite Z.add_0_r, wrap_u64_id by assumption. auto. }
    ok_inv H. destruct a as [[[b1 s1] level1] tr1].
    ok_inv H. destruct a as [[b3 s3] tr3].
    injection H as <- <- <-.
    destruct (level_loop_count _ _ _ _ _ _ _ _ _ _ Hstep Hrange)
      as (n1 & Hn1 & Hon1 & Hoff1).
    destruct (level_loop_frame _ _ _ _ _ _ _ _ _ _ Hstep)
      as (_ & (_ & _ & _ & Hc1) & _).
    remember (match PriceLevel.orders level1 with
              | [] => set_contra_levels sd rest b1
              | _ :: _ => set_contra_levels sd ((k, level1) :: rest) b1
              end) as b2 eqn:Hb2.
    assert (Hf2 : trade_callback_ b2 = trade_callback_ b1 /\
                  total_trades_ b2 = total_trades_ b1).
    { subst b2. destruct (PriceLevel.orders level1);
        split; apply set_contra_fields. }
    clear Hb2. destruct Hf2 as [Hc2 Hn2].
    destruct (IH _ _ _ _ _ Hstep0) as (n3 & Hn3 & Hon3 & Hoff3).
    { rewrite Hn2, Hn1. apply wrap_u64_range. }
    exists (n1 + n3)%nat. split; [|split].
    + rewrite Hn3, Hn2, Hn1, wrap_u64_add_l. f_equal. lia.
    + intros Hc. rewrite length_app, Hon1, Hon3 by congruence. reflexivity.
    + intros Hc. rewrite Hoff1, Hoff3 by congruence. reflexivity.
Qed.

Lemma match_order_count (b : OrderBook) (s : Mem) (p : ptr)
    (b' : OrderBook) (s' : Mem) (tr : list Trade.t) :
  match_order b s p = Ok (b', s', tr) ->
  0 <= total_trades_ b < 2 ^ 64 ->
  exists n : nat,
    total_trades_ b' = wrap_u64 (total_trades_ b + Z.of_nat n) /\
    (trade_callback_ b = true -> length tr = n) /\
    (trade_callback_ b = false -> tr = []).
Proof.
  unfold match_order. intros H Hrange.
  ok_inv H. destruct a as [[b1 s1] tr1]. injection H as <- <- <-.
  eapply side_loop_count; eassumption.
Qed.

(** What a call leaves of the book's own fields. *)
Lemma call_count (b : OrderBook) (s : Mem) (p : ptr)
    (b' : OrderBook) (s' : Mem) (tr : list Trade.t) :
  add_order b s p = Ok (b', s', tr) \/
  process_market_order b s p = Ok (b', s', tr) ->
  0 <= total_trades_ b < 2 ^ 64 ->
  (trade_callback_ b = true ->
   total_trades_ b' = wrap_u64 (total_trades_ b + Z.of_nat (length tr))) /\
  (trade_callback_ b = false -> tr = []) /\
  trade_callback_ b' = trade_callback_ b /\
  symbol_ b' = symbol_ b.
Proof.
  intros H Hrange.
  assert (Hmatch : exists b1 s1,
             match_order b s p = Ok (b1, s1, tr) /\
             total_trades_ b' = total_trades_ b1 /\
             trade_callback_ b' = trade_callback_ b1 /\
             symbol_ b' = symbol_ b1).
  { destruct H as [H | H].
    - destruct (add_order_cases _ _ _ _ _ _ H)
        as [(_ & Hm) | (_ & b1 & Hm & Hcase)].
      + destruct (process_market_order_cases _ _ _ _ _ _ Hm) as (s1 & E & _).
        exists b', s1. auto.
      + exists b1, s'. split; [assumption|].
        destruct Hcase as [(_ & ->) | (_ & m & _ & ->)]; [auto|].
        destruct (set_own_fields (Order.side (s' p)) m b1) as (? & ? & ?).
        auto.
    - destruct (process_market_order_cases _ _ _ _ _ _ H) as (s1 & E & _).
      exists b', s1. auto. }
  destruct Hmatch as (b1 & s1 & Hm & Hn & Hc & Hs).
  destruct (match_order_count _ _ _ _ _ _ Hm Hrange) as (n & Hn1 & Hon & Hoff).
  destruct (match_order_frame _ _ _ _ _ _ _ Hm eq_refl)
    as (_ & (Hs1 & Hc1 & _) & _).
  split; [|split; [|split]].
  - intros Hcb. rewrite Hn, Hn1, (Hon Hcb). reflexivity.
  - assumption.
  - congruence.
  - congruence.
Qed.

(** X7: a book counts what it executes.  With a sink registered,
    [add_order] and [process_market_order] raise [total_trades()] by the
    number of trades they hand to the sink (modulo 2^64); without a sink
    they hand out no trade; the sink itself is never replaced. *)
Theorem X7_total_trades_counts_the_trades (b : OrderBook) (s : Mem)
    (p : ptr) (b' : OrderBook) (s' : Mem) (tr : list Trade.t) :
  add_order b s p = Ok (b', s', tr) \/
  process_market_order b s p = Ok (b', s', tr) ->
  0 <= total_trades b < 2 ^ 64 ->
  (trade_callback_ b = true ->
   total_trades b' = wrap_u64 (total_trades b + Z.of_nat (length tr))) /\
  (trade_callback_ b = false -> tr = []) /\
  trade_callback_ b' = trade_callback_ b.
Proof.
  intros H Hrange. unfold total_trades in *.
  destruct (call_count _ _ _ _ _ _ H Hrange) as (Hon & Hoff & Hc & _).
  auto.
Qed.

Lemma X7_witness :
  exists b' s' tr,
    add_order (fst two_asks_scene) (snd two_asks_scene) (0, 2)
      = Ok (b', s', tr) /\
    length tr = 2%nat /\ total_trades b' = 2.
Proof.
  destruct (add_order (fst two_asks_scene) (snd two_asks_scene) (0, 2))
    as [[[b' s'] tr]| |] eqn:E; try discriminate E.
  exists b', s', tr. split; [reflexivity|].
  destruct (X7_total_trades_counts_the_trades _ _ _ _ _ _ (or_introl E))
    as (Hon & _ & _); [split; [discriminate | reflexivity]|].
  assert (Hlen : length tr = 2%nat).
  { vm_compute in E. injection E as _ _ <-. reflexivity. }
  split; [assumption|]. rewrite (Hon eq_refl), Hlen. reflexivity.
Defined.

(** ** Prices of the trades of one call *)

Lemma trade_at_level_price (sd : Side) (s : Mem) (p : ptr)
    (level : PriceLevel.t) (t : Trade.t) :
  trade_at_level sd s p level t -> Trade.price t = PriceLevel.price level.
Proof. intros (q & _ & H & _). assumption. Qed.

Lemma side_loop_limit (sd : Side) (p : ptr) (fuel : nat) :
  forall b s b' s' tr,
    side_loop fuel sd p b s = Ok (b', s', tr) ->
    Order.type (s p) = LIMIT ->
    Forall (fun t => no_worse sd (Trade.price t) (Order.price (s p))) tr.
Proof.
  induction fuel as [|fuel IH]; intros b s b' s' tr H Hlimit.
  - discriminate.
  - rewrite side_loop_unfold in H.
    destruct (Order.filled (s p) <? Order.quantity (s p)); cbn [negb] in H.
    2:{ injection H as <- <- <-. constructor. }
    destruct (contra_levels sd b) as [|[k level] rest] eqn:Hm.
    { injection H as <- <- <-. constructor. }
    rewrite Hlimit in H.
    destruct (out_of_reach sd (s p) level) eqn:Hreach.
    { injection H as <- <- <-. constructor. }
    ok_inv H. destruct a as [[[b1 s1] level1] tr1].
    ok_inv H. destruct a as [[b3 s3] tr3].
    injection H as <- <- <-.
    destruct (level_loop_frame _ _ _ _ _ _ _ _ _ _ Hstep)
      as (Ht1 & _ & _ & _ & _ & _ & Htr1).
    destruct (terms_fields _ _ (Ht1 p)) as (_ & Hprice & _ & _ & _ & Htype).
    apply Forall_app. split.
    + eapply Forall_impl; [|exact Htr1].
      intros t Ht. rewrite (trade_at_level_price _ _ _ _ _ Ht).
      unfold out_of_reach in Hreach. unfold no_worse.
      destruct sd; apply Z.ltb_ge in Hreach; assumption.
    + rewrite <- Hprice. eapply IH; [eassumption|]. congruence.
Qed.

(** Every call ends with the trades of one [match_order]. *)
Lemma call_matches (b : OrderBook) (s : Mem) (p : ptr)
    (b' : OrderBook) (s' : Mem) (tr : list Trade.t) :
  add_order b s p = Ok (b', s', tr) \/
  process_market_order b s p = Ok (b', s', tr) ->
  exists b1 s1,
    match_order b s p = Ok (b1, s1, tr) /\
    contra_levels (Order.side (s p)) b'
      = contra_levels (Order.side (s p)) b1 /\
    (forall q, q <> p -> s' q = s1 q) /\
    Order.filled (s' p) = Order.filled (s1 p) /\
    Order.terms (s' p) = Order.terms (s1 p).
Proof.
  intros H.
  assert (Hmkt : forall b0 s0 tr0,
             process_market_order b s p = Ok (b0, s0, tr0) ->
             exists s1,
               match_order b s p = Ok (b0, s1, tr0) /\
               (forall q, q <> p -> s0 q = s1 q) /\
               Order.filled (s0 p) = Order.filled (s1 p) /\
               Order.terms (s0 p) = Order.terms (s1 p)).
  { intros b0 s0 tr0 Hm.
    destruct (process_market_order_cases _ _ _ _ _ _ Hm)
      as (s1 & E & [(_ & ->) | (_ & ->)]); exists s1.
    - auto.
    - split; [assumption|]. split; [|split].
      + intros q Hq. apply upd_other. assumption.
      + rewrite upd_same. reflexivity.
      + rewrite upd_same. apply terms_set_status. }
  destruct H as [H | H].
  - destruct (add_order_cases _ _ _ _ _ _ H)
      as [(_ & Hm) | (_ & b1 & Hm & Hcase)].
    + destruct (Hmkt _ _ _ Hm) as (s1 & E & Hrest).
      exists b', s1. auto.
    + exists b1, s'. split; [assumption|].
      split; [|auto].
      destruct Hcase as [(_ & ->) | (_ & m & _ & ->)]; [reflexivity|].
      destruct (match_order_frame _ _ _ _ _ _ _ Hm eq_refl) as (Ht & _).
      destruct (terms_fields _ _ (Ht p)) as (_ & _ & _ & _ & -> & _).
      apply own_set_own.
  - destruct (Hmkt _ _ _ H) as (s1 & E & Hrest).
    exists b', s1. auto.
Qed.

(** X8: a LIMIT order never trades beyond its limit.  Every trade of
    [add_order] (or of [process_market_order], if it is handed a LIMIT
    order) has a price that is not above the limit of an incoming buy and
    not below the limit of an incoming sell; nothing is assumed of the
    book. *)
Theorem X8_limit_price_is_respected (b : OrderBook) (s : Mem) (p : ptr)
    (b' : OrderBook) (s' : Mem) (tr : list Trade.t) :
  add_order b s p = Ok (b', s', tr) \/
  process_market_order b s p = Ok (b', s', tr) ->
  Order.type (s p) = LIMIT ->
  Forall (fun t => no_worse (Order.side (s p)) (Trade.price t)
                     (Order.price (s p))) tr.
Proof.
  intros H Hlimit.
  destruct (call_matches _ _ _ _ _ _ H) as (b1 & s1 & Hm & _).
  unfold match_order in Hm.
  ok_inv Hm. destruct a as [[b2 s2] tr2]. injection Hm as _ _ <-.
  eapply side_loop_limit; eassumption.
Qed.

Lemma X8_witness :
  exists b' s' tr,
    add_order (fst two_asks_scene) (snd two_asks_scene) (0, 2)
      = Ok (b', s', tr) /\
    map Trade.price tr = [1005000; 1010000] /\
    Forall (fun t => Trade.price t <= 1010000) tr.
Proof.
  destruct (add_order (fst two_asks_scene) (snd two_asks_scene) (0, 2))
    as [[[b' s'] tr]| |] eqn:E; try discriminate E.
  exists b', s', tr. split; [reflexivity|]. split.
  - vm_compute in E. injection E as _ _ <-. reflexivity.
  - exact (X8_limit_price_is_respected _ _ _ _ _ _ (or_introl E) eq_refl).
Defined.

Lemma sorted_app {A : Type} (R : A -> A -> Prop) (l1 l2 : list A) :
  StronglySorted R l1 -> StronglySorted R l2 ->
  (forall x y, In x l1 -> In y l2 -> R x y) ->
  StronglySorted R (l1 ++ l2).
Proof.
  induction l1 as [|a l1 IH]; intros H1 H2 Hx; cbn [app].
  - assumption.
  - inversion H1 as [|a' l' Hs Ha]; subst. constructor.
    + apply IH; [assumption | assumption |].
      intros x y Hin. apply Hx. right. assumption.
    + apply Forall_app. split; [assumption|].
      apply Forall_forall. intros y Hy. apply Hx; [left; reflexivity|].
      assumption.
Qed.

Lemma no_worse_refl (sd : Side) (x : Z) : no_worse sd x x.
Proof. destruct sd; cbn; lia. Qed.

Lemma below_no_worse (sd : Side) (x y : Z) : below sd x y -> no_worse sd x y.
Proof. destruct sd; cbn; lia. Qed.

Lemma sorted_same_price (sd : Side) (k : Z) (tr : list Trade.t) :
  Forall (fun t => Trade.price t = k) tr ->
  StronglySorted
    (fun t1 t2 => no_worse sd (Trade.price t1) (Trade.price t2)) tr.
Proof.
  induction 1 as [|t tr Ht Hall IH]; constructor; [assumption|].
  eapply Forall_impl; [|exact Hall].
  intros t' Ht'. cbn beta. rewrite Ht, Ht'. apply no_worse_refl.
Qed.

Lemma side_loop_best_first (sd : Side) (p : ptr) (fuel : nat) :
  forall b s b' s' tr,
    side_loop fuel sd p b s = Ok (b', s', tr) ->
    filed (contra_levels sd b) ->
    StronglySorted (fun x y => below sd (fst x) (fst y))
                   (contra_levels sd b) ->
    StronglySorted
      (fun t1 t2 => no_worse sd (Trade.price t1) (Trade.price t2)) tr.
Proof.
  induction fuel as [|fuel IH]; intros b s b' s' tr H Hfiled Hsorted.
  - discriminate.
  - rewrite side_loop_unfold in H.
    destruct (Order.filled (s p) <? Order.quantity (s p)); cbn [negb] in H.
    2:{ injection H as <- <- <-. constructor. }
    destruct (contra_levels sd b) as [|[k level] rest] eqn:Hm.
    { injection H as <- <- <-. constructor. }
    destruct (match Order.type (s p) with
              | LIMIT => out_of_reach sd (s p) level
              | MARKET => false
              end).
    { injection H as <- <- <-. constructor. }
    ok_inv H. destruct a as [[[b1 s1] level1] tr1].
    ok_inv H. destruct a as [[b3 s3] tr3].
    injection H as <- <- <-.
    destruct (level_loop_frame _ _ _ _ _ _ _ _ _ _ Hstep)
      as (_ & _ & Hp1 & _ & _ & _ & Htr1).
    inversion Hfiled as [|e m' Hfiled_level Hfiled_rest]; subst e m'.
    inversion Hsorted as [|e m' Hsorted_rest Hk]; subst e m'.
    cbn [fst snd] in Hfiled_level, Hk.
    remember (match PriceLevel.orders level1 with
              | [] => set_contra_levels sd rest b1
              | _ :: _ => set_contra_levels sd ((k, level1) :: rest) b1
              end) as b2 eqn:Hb2.
    assert (H2 : filed (contra_levels sd b2) /\
                 StronglySorted (fun x y => below sd (fst x) (fst y))
                                (contra_levels sd b2) /\
                 forall k2 l2, In (k2, l2) (contra_levels sd b2) ->
                               no_worse sd k k2).
    { subst b2. destruct (PriceLevel.orders level1);
        rewrite contra_set.
      - split; [assumption|]. split; [assumption|].
        intros k2 l2 Hin. rewrite Forall_forall in Hk.
        apply below_no_worse. apply (Hk _ Hin).
      - split; [|split].
        + constructor; [cbn; congruence | assumption].
        + constructor; assumption.
        + intros k2 l2 [Heq | Hin].
          * injection Heq as <- _. apply no_worse_refl.
          * rewrite Forall_forall in Hk.
            apply below_no_worse. apply (Hk _ Hin). }
    clear Hb2. destruct H2 as (Hfiled2 & Hsorted2 & Hkeys).
    destruct (side_loop_frame _ _ _ _ _ _ _ _ Hstep0)
      as (_ & _ & _ & _ & _ & Htr3).
    assert (Hprice1 : Forall (fun t => Trade.price t = k) tr1).
    { eapply Forall_impl; [|exact Htr1].
      intros t Ht. rewrite (trade_at_level_price _ _ _ _ _ Ht). assumption. }
    apply sorted_app.
    + apply sorted_same_price with (k := k). assumption.
    + eapply IH; eassumption.
    + intros t1 t3 Hin1 Hin3. rewrite Forall_forall in Hprice1, Htr3.
      rewrite (Hprice1 _ Hin1).
      destruct (Htr3 _ Hin3) as (k2 & l2 & Hin2 & Ht3).
      rewrite (trade_at_level_price _ _ _ _ _ Ht3).
      unfold filed in Hfiled2. rewrite Forall_forall in Hfiled2.
      pose proof (Hfiled2 _ Hin2) as Hf2. cbn [fst snd] in Hf2.
      rewrite Hf2. eapply Hkeys. eassumption.
Qed.

Lemma book_inv_layout (sd : Side) (b : OrderBook) (s : Mem) :
  book_inv b s ->
  filed (contra_levels sd b) /\
  StronglySorted (fun x y => below sd (fst x) (fst y)) (contra_levels sd b).
Proof.
  intros Hinv. apply (book_inv_for_iff sd) in Hinv.
  destruct Hinv as (_ & Hok & _ & Hsorted & _).
  split; [|assumption].
  unfold filed. eapply Forall_impl; [|exact Hok].
  intros e (_ & Hprice & _). assumption.
Qed.

(** X9: the best price goes first.  On a well-formed book the trades of
    one call come in the order of the opposite side: each trade of an
    incoming buy is at a price not above the price of every later trade
    of the call, each trade of an incoming sell at a price not below. *)
Theorem X9_trades_go_from_the_best_price (b : OrderBook) (s : Mem)
    (p : ptr) (b' : OrderBook) (s' : Mem) (tr : list Trade.t) :
  add_order b s p = Ok (b', s', tr) \/
  process_market_order b s p = Ok (b', s', tr) ->
  book_inv b s ->
  StronglySorted
    (fun t1 t2 => no_worse (Order.side (s p))
                    (Trade.price t1) (Trade.price t2)) tr.
Proof.
  intros H Hinv.
  destruct (call_matches _ _ _ _ _ _ H) as (b1 & s1 & Hm & _).
  unfold match_order in Hm.
  ok_inv Hm. destruct a as [[b2 s2] tr2]. injection Hm as _ _ <-.
  destruct (book_inv_layout (Order.side (s p)) b s Hinv).
  eapply side_loop_best_first; eassumption.
Qed.

(** The invariant of a book given in full, by evaluation. *)
Ltac book_inv_by_evaluation :=
  unfold book_inv, levels_consistent, not_crossed, book_ptrs,
    level_exact, level_wf; simpl;
  repeat split; repeat constructor; simpl;
  try discriminate; try reflexivity; try lia;
  try (intros H; repeat destruct H as [H | H]; try discriminate H;
       try contradiction).

Lemma X9_witness :
  exists b' s' tr,
    add_order (fst two_asks_scene) (snd two_asks_scene) (0, 2)
      = Ok (b', s', tr) /\
    map Trade.price tr = [1005000; 1010000] /\
    StronglySorted (fun t1 t2 => Trade.price t1 <= Trade.price t2) tr.
Proof.
  destruct (add_order (fst two_asks_scene) (snd two_asks_scene) (0, 2))
    as [[[b' s'] tr]| |] eqn:E; try discriminate E.
  exists b', s', tr. split; [reflexivity|]. split.
  - vm_compute in E. injection E as _ _ <-. reflexivity.
  - apply (X9_trades_go_from_the_best_price _ _ _ _ _ _ (or_introl E)).
    book_inv_by_evaluation.
Defined.

(** ** The ledger of one call *)

Lemma traded_app (tr1 tr2 : list Trade.t) :
  traded (tr1 ++ tr2) = traded tr1 + traded tr2.
Proof.
  induction tr1 as [|t tr1 IH]; cbn [app traded fold_right].
  - reflexivity.
  - fold (traded (tr1 ++ tr2)). fold (traded tr1). rewrite IH. lia.
Qed.

Lemma tl_suffix {A : Type} (g l : list A) (x : A) :
  In x (tl l) -> In x (tl (g ++ l)).
Proof.
  intros H. destruct g as [|a g]; cbn [app tl]; [assumption|].
  apply in_or_app. right. destruct l; [contradiction|]. right. assumption.
Qed.

Lemma tl_app_In {A : Type} (l1 l2 : list A) (x : A) :
  In x (tl (l1 ++ l2)) -> In x (tl l1) \/ In x l2.
Proof.
  destruct l1 as [|a l1]; cbn [app tl].
  - intros H. right. destruct l2; [contradiction|]. right. assumption.
  - apply in_app_or.
Qed.

(** One pass of the inner loop on a well-formed level. *)
Lemma fill_front_step (sd : Side) (p q : ptr) (rest : list ptr)
    (b : OrderBook) (s : Mem) (level : PriceLevel.t)
    (b1 : OrderBook) (s1 : Mem) (level1 : PriceLevel.t) (tr : list Trade.t) :
  fill_front sd p q rest b s level = Ok (b1, s1, level1, tr) ->
  PriceLevel.orders level = q :: rest ->
  ~ In p (q :: rest) -> NoDup (q :: rest) ->
  Forall (fun r => Order.filled (s r) < Order.quantity (s r)) (q :: rest) ->
  Order.filled (s p) < Order.quantity (s p) ->
  exists t,
    0 < t /\
    Order.filled (s1 p) = Order.filled (s p) + t /\
    PriceLevel.total_quantity level1 = PriceLevel.total_quantity level - t /\
    (forall r, r <> p -> r <> q -> s1 r = s r) /\
    (trade_callback_ b = true ->
     exists t0, tr = [t0] /\ Trade.quantity t0 = t) /\
    trade_callback_ b1 = trade_callback_ b /\
    Forall (fun r => Order.filled (s1 r) < Order.quantity (s1 r))
           (PriceLevel.orders level1) /\
    ((PriceLevel.orders level1 = rest /\ done (s1 q)) \/
     PriceLevel.orders level1 = q :: rest).
Proof.
  intros H Hq Hnotin Hnd Hpos Hguard.
  assert (Hqp : q <> p).
  { intros ->. apply Hnotin. left. reflexivity. }
  inversion Hnd as [|q' rest' Hq_rest Hnd_rest]; subst q' rest'.
  inversion Hpos as [|q' rest' Hq_pos Hrest_pos]; subst q' rest'.
  destruct (fill_front_frame _ _ _ _ _ _ _ _ _ _ _ H Hq)
    as (_ & (_ & _ & _ & Hc1) & _ & _ & Hf1 & _).
  destruct (fill_front_exact _ _ _ _ _ _ _ _ _ _ _ H Hqp)
    as (Hp1 & Htot1 & Hcase).
  destruct (fill_front_trades _ _ _ _ _ _ _ _ _ _ _ H) as (_ & Hon & _).
  exists (Z.min (residual (s p)) (residual (s q))).
  assert (Hrest_pos1 :
            Forall (fun r => Order.filled (s1 r) < Order.quantity (s1 r)) rest).
  { rewrite Forall_forall in *. intros r Hr.
    rewrite Hf1; [auto | |]; intros ->; [|contradiction].
    apply Hnotin. right. assumption. }
  unfold residual in *.
  split; [lia|]. split; [rewrite Hp1; reflexivity|].
  split; [assumption|]. split; [assumption|].
  split; [intros Hc; destruct (Hon Hc) as (t0 & ? & ? & _); eauto|].
  split; [assumption|].
  destruct Hcase as [(Hle & Ho1 & Hq1) | (Hlt & Ho1 & Hq1)]; rewrite Ho1.
  - split; [assumption|]. left. split; [reflexivity|].
    unfold done. rewrite Hq1. cbn. split; [lia | reflexivity].
  - split; [|right; reflexivity].
    constructor; [|assumption]. rewrite Hq1. cbn. lia.
Qed.

Lemma level_loop_ledger (sd : Side) (p : ptr) (fuel : nat) :
  forall b s level b' s' level' tr,
    level_loop fuel sd p b s level = Ok (b', s', level', tr) ->
    ~ In p (PriceLevel.orders level) ->
    NoDup (PriceLevel.orders level) ->
    Forall (fun q => Order.filled (s q) < Order.quantity (s q))
           (PriceLevel.orders level) ->
    exists gone delta,
      PriceLevel.orders level = gone ++ PriceLevel.orders level' /\
      Forall (fun q => done (s' q)) gone /\
      (forall q, In q (tl (PriceLevel.orders level')) -> s' q = s q) /\
      Order.filled (s' p) = Order.filled (s p) + delta /\
      PriceLevel.total_quantity level'
        = PriceLevel.total_quantity level - delta /\
      (trade_callback_ b = true ->
       traded tr = delta /\ Forall (fun t => 0 < Trade.quantity t) tr).
Proof.
  induction fuel as [|fuel IH];
    intros b s level b' s' level' tr H Hnotin Hnd Hpos.
  - discriminate.
  - rewrite level_loop_unfold in H.
    destruct (PriceLevel.orders level) as [|q rest] eqn:Hq.
    { injection H as <- <- <- <-. exists [], 0. rewrite Hq.
      repeat split; auto; lia. }
    destruct (Order.filled (s p) <? Order.quantity (s p)) eqn:Hguard;
      cbn [negb] in H.
    2:{ injection H as <- <- <- <-. exists [], 0. rewrite Hq.
        repeat split; auto; lia. }
    apply Z.ltb_lt in Hguard.
    ok_inv H. destruct a as [[[b1 s1] level1] tr1].
    ok_inv H. destruct a as [[[b2 s2] level2] tr2].
    injection H as <- <- <- <-.
    destruct (fill_front_step _ _ _ _ _ _ _ _ _ _ _
                Hstep Hq Hnotin Hnd Hpos Hguard)
      as (t & Ht & Hp1 & Htot1 & Hf1 & Hon1 & Hc1 & Hpos1 & Hcase).
    inversion Hnd as [|q' rest' Hq_rest Hnd_rest]; subst q' rest'.
    assert (Hqp : q <> p).
    { intros ->. apply Hnotin. left. reflexivity. }
    assert (Hp_rest : ~ In p rest).
    { intros Hin. apply Hnotin. right. assumption. }
    destruct (level_loop_frame _ _ _ _ _ _ _ _ _ _ Hstep0)
      as (_ & _ & _ & _ & Hf2 & _).
    assert (Hhyp : ~ In p (PriceLevel.orders level1) /\
                   NoDup (PriceLevel.orders level1)).
    { destruct Hcase as [(-> & _) | ->]; auto. }
    destruct Hhyp as [Hnotin1 Hnd1].
    destruct (IH _ _ _ _ _ _ _ Hstep0 Hnotin1 Hnd1 Hpos1)
      as (gone & delta & Hgone & Hdone & Htail & Hp2 & Htot2 & Hon2).
    assert (Htail' : forall r, In r (tl (PriceLevel.orders level2)) ->
                               In r rest).
    { intros r Hr. apply (tl_suffix gone) in Hr. rewrite <- Hgone in Hr.
      destruct Hcase as [(Ho & _) | Ho]; rewrite Ho in Hr.
      - destruct rest; [contradiction | right; assumption].
      - assumption. }
    assert (Hrest : forall r, In r (tl (PriceLevel.orders level2)) ->
                              s2 r = s r).
    { intros r Hr. rewrite (Htail r Hr). pose proof (Htail' r Hr) as Hin.
      apply Hf1; intros ->; contradiction. }
    assert (Hledger : trade_callback_ b = true ->
                      traded (tr1 ++ tr2) = t + delta /\
                      Forall (fun t => 0 < Trade.quantity t) (tr1 ++ tr2)).
    { intros Hc. destruct (Hon1 Hc) as (t0 & -> & Ht0).
      destruct Hon2 as [Htr2 Hpos2]; [congruence|].
      split.
      - rewrite traded_app, Htr2. cbn. lia.
      - constructor; [lia | assumption]. }
    destruct Hcase as [(Ho1 & Hq_done) | Ho1]; rewrite Ho1 in *.
    + exists (q :: gone), (t + delta).
      split; [rewrite Hgone; reflexivity|].
      split; [|split; [assumption|split; [lia|split; [lia|assumption]]]].
      constructor; [|assumption].
      rewrite Hf2; assumption.
    + exists gone, (t + delta).
      split; [assumption|].
      split; [assumption|].
      split; [assumption|split; [lia|split; [lia|assumption]]].
Qed.

Lemma side_total_cons (k : Z) (l : PriceLevel.t) (m : LevelMap) :
  side_total ((k, l) :: m) = PriceLevel.total_quantity l + side_total m.
Proof. reflexivity. Qed.

(** One pass of the outer loop on a well-formed side: the side it leaves
    is well formed, and holds what is left of the first level, if
    anything, and the other levels as they were. *)
Lemma side_iteration (sd : Side) (p : ptr) (k : Z) (level : PriceLevel.t)
    (rest : LevelMap) (b : OrderBook) (s : Mem) (b1 : OrderBook) (s1 : Mem)
    (level1 : PriceLevel.t) (tr1 : list Trade.t) :
  contra_levels sd b = (k, level) :: rest ->
  level_loop (S (length (PriceLevel.orders level))) sd p b s level
    = Ok (b1, s1, level1, tr1) ->
  Forall (level_ok s) (contra_levels sd b) ->
  NoDup (level_ptrs (contra_levels sd b)) ->
  ~ In p (level_ptrs (contra_levels sd b)) ->
  let b2 := match PriceLevel.orders level1 with
            | [] => set_contra_levels sd rest b1
            | _ :: _ => set_contra_levels sd ((k, level1) :: rest) b1
            end in
  Forall (level_ok s1) (contra_levels sd b2) /\
  NoDup (level_ptrs (contra_levels sd b2)) /\
  ~ In p (level_ptrs (contra_levels sd b2)) /\
  (forall q, In q (level_ptrs rest) -> s1 q = s q) /\
  level_ptrs (contra_levels sd b2)
    = PriceLevel.orders level1 ++ level_ptrs rest /\
  side_total (contra_levels sd b2)
    = PriceLevel.total_quantity level1 + side_total rest /\
  trade_callback_ b2 = trade_callback_ b.
Proof.
  intros Hm Hstep Hok Hnd Hnotin b2. rewrite Hm in *.
  rewrite level_ptrs_cons in Hnd, Hnotin.
  destruct (NoDup_app_inv _ _ Hnd) as (Hnd_level & Hnd_rest & Hdisj).
  inversion Hok as [|e m' Hok_level Hok_rest]; subst e m'.
  destruct Hok_level as ((Htot & Hne) & (Hprice & Hpos)).
  cbn [fst snd] in Htot, Hne, Hprice, Hpos.
  assert (Hp_level : ~ In p (PriceLevel.orders level)).
  { intros Hin. apply Hnotin, in_or_app. left. assumption. }
  assert (Hp_rest : ~ In p (level_ptrs rest)).
  { intros Hin. apply Hnotin, in_or_app. right. assumption. }
  destruct (level_loop_frame _ _ _ _ _ _ _ _ _ _ Hstep)
    as (_ & (_ & _ & _ & Hc1) & Hp1 & (gone & Ho1) & Hf1 & _ & _).
  destruct (level_loop_exact _ _ _ _ _ _ _ _ _ _ Hstep
              Hp_level Hnd_level Hpos Htot)
    as (Htot1 & Hpos1 & _ & _).
  assert (Hrest_same : forall q, In q (level_ptrs rest) -> s1 q = s q).
  { intros q Hq. apply Hf1.
    - intros ->. contradiction.
    - intros Hin. apply (Hdisj q Hin Hq). }
  pose proof (side_ok_frame s s1 rest Hrest_same Hok_rest) as Hok1.
  assert (Hnd1 : NoDup (PriceLevel.orders level1 ++ level_ptrs rest)).
  { rewrite Ho1, <- app_assoc in Hnd.
    apply NoDup_app_inv in Hnd. apply Hnd. }
  assert (Hp1' : ~ In p (PriceLevel.orders level1 ++ level_ptrs rest)).
  { intros Hin. apply Hnotin. rewrite Ho1, <- app_assoc.
    apply in_or_app. right. assumption. }
  subst b2. destruct (PriceLevel.orders level1) as [|q1 l1] eqn:Ho;
    rewrite contra_set.
  - cbn [app] in *. repeat split; try assumption.
    + rewrite Htot1. reflexivity.
    + rewrite (proj1 (proj2 (set_contra_fields sd rest b1))). assumption.
  - rewrite level_ptrs_cons, side_total_cons, Ho.
    repeat split; try assumption.
    + constructor; [|assumption].
      split; [split|split]; cbn [fst snd]; rewrite ?Ho; try assumption;
        congruence.
    + rewrite (proj1 (proj2 (set_contra_fields sd _ b1))). assumption.
Qed.

Lemma side_loop_ledger (sd : Side) (p : ptr) (fuel : nat) :
  forall b s b' s' tr,
    side_loop fuel sd p b s = Ok (b', s', tr) ->
    Forall (level_ok s) (contra_levels sd b) ->
    NoDup (level_ptrs (contra_levels sd b)) ->
    ~ In p (level_ptrs (contra_levels sd b)) ->
    exists gone delta,
      level_ptrs (contra_levels sd b)
        = gone ++ level_ptrs (contra_levels sd b') /\
      Forall (fun q => done (s' q)) gone /\
      (forall q, In q (tl (level_ptrs (contra_levels sd b'))) ->
                 s' q = s q) /\
      Order.filled (s' p) = Order.filled (s p) + delta /\
      side_total (contra_levels sd b')
        = side_total (contra_levels sd b) - delta /\
      (trade_callback_ b = true ->
       traded tr = delta /\ Forall (fun t => 0 < Trade.quantity t) tr).
Proof.
  induction fuel as [|fuel IH]; intros b s b' s' tr H Hok Hnd Hnotin.
  - discriminate.
  - rewrite side_loop_unfold in H.
    destruct (Order.filled (s p) <? Order.quantity (s p)); cbn [negb] in H.
    2:{ injection H as <- <- <-. exists [], 0.
        repeat split; auto; lia. }
    destruct (contra_levels sd b) as [|[k level] rest] eqn:Hm.
    { injection H as <- <- <-. exists [], 0. rewrite Hm.
      repeat split; auto; lia. }
    destruct (match Order.type (s p) with
              | LIMIT => out_of_reach sd (s p) level
              | MARKET => false
              end).
    { injection H as <- <- <-. exists [], 0. rewrite Hm.
      repeat split; auto; lia. }
    ok_inv H. destruct a as [[[b1 s1] level1] tr1].
    ok_inv H. destruct a as [[b3 s3] tr3].
    injection H as <- <- <-.
    rewrite <- Hm in Hok, Hnd, Hnotin.
    destruct (side_iteration _ _ _ _ _ _ _ _ _ _ _ Hm Hstep Hok Hnd Hnotin)
      as (Hok2 & Hnd2 & Hnotin2 & Hrest_same & Hptrs2 & Htotal2 & Hc2).
    rewrite Hm in Hok, Hnd, Hnotin.
    rewrite level_ptrs_cons in Hnd, Hnotin.
    destruct (NoDup_app_inv _ _ Hnd) as (Hnd_level & _ & _).
    inversion Hok as [|e m' Hok_level _]; subst e m'.
    destruct Hok_level as (_ & (_ & Hpos)). cbn [snd] in Hpos.
    assert (Hp_level : ~ In p (PriceLevel.orders level)).
    { intros Hin. apply Hnotin, in_or_app. left. assumption. }
    destruct (level_loop_ledger _ _ _ _ _ _ _ _ _ _ Hstep
                Hp_level Hnd_level Hpos)
      as (gone1 & delta1 & Hgone1 & Hdone1 & Htail1 & Hfill1 & Htot1 & Hon1).
    remember (match PriceLevel.orders level1 with
              | [] => set_contra_levels sd rest b1
              | _ :: _ => set_contra_levels sd ((k, level1) :: rest) b1
              end) as b2 eqn:Hb2.
    clear Hb2.
    destruct (IH _ _ _ _ _ Hstep0 Hok2 Hnd2 Hnotin2)
      as (gone3 & delta3 & Hgone3 & Hdone3 & Htail3 & Hfill3 & Htot3 & Hon3).
    destruct (side_loop_frame _ _ _ _ _ _ _ _ Hstep0)
      as (_ & _ & _ & Hf3 & _ & _).
    assert (Hall : PriceLevel.orders level ++ level_ptrs rest
                   = gone1 ++ level_ptrs (contra_levels sd b2)).
    { rewrite Hptrs2, Hgone1, <- app_assoc. reflexivity. }
    exists (gone1 ++ gone3), (delta1 + delta3).
    split; [|split; [|split; [|split; [|split]]]].
    + rewrite level_ptrs_cons, Hall, Hgone3, app_assoc. reflexivity.
    + apply Forall_app. split; [|assumption].
      rewrite Forall_forall in *. intros q Hq.
      rewrite Hall in Hnd, Hnotin.
      destruct (NoDup_app_inv _ _ Hnd) as (_ & _ & Hdisj).
      rewrite Hf3; [apply Hdone1; assumption | | apply Hdisj; assumption].
      intros ->. apply Hnotin, in_or_app. left. assumption.
    + intros q Hq. rewrite (Htail3 q Hq).
      apply (tl_suffix gone3) in Hq. rewrite <- Hgone3, Hptrs2 in Hq.
      apply tl_app_In in Hq. destruct Hq as [Hq | Hq]; auto.
    + lia.
    + rewrite Htot3, Htotal2, side_total_cons. lia.
    + intros Hc. destruct (Hon1 Hc) as [Htr1 Hpos1].
      destruct Hon3 as [Htr3 Hpos3]; [congruence|].
      split.
      * rewrite traded_app. lia.
      * apply Forall_app. auto.
Qed.

(** The ledger of a whole call on a well-formed book. *)
Lemma call_ledger (b : OrderBook) (s : Mem) (p : ptr)
    (b' : OrderBook) (s' : Mem) (tr : list Trade.t) :
  add_order b s p = Ok (b', s', tr) \/
  process_market_order b s p = Ok (b', s', tr) ->
  book_inv b s -> ~ In p (book_ptrs b) ->
  let sd := Order.side (s p) in
  exists gone delta,
    level_ptrs (contra_levels sd b)
      = gone ++ level_ptrs (contra_levels sd b') /\
    Forall (fun q => done (s' q)) gone /\
    (forall q, In q (tl (level_ptrs (contra_levels sd b'))) -> s' q = s q) /\
    Order.filled (s' p) = Order.filled (s p) + delta /\
    side_total (contra_levels sd b')
      = side_total (contra_levels sd b) - delta /\
    (trade_callback_ b = true ->
     traded tr = delta /\ Forall (fun t => 0 < Trade.quantity t) tr).
Proof.
  intros H Hinv Hfresh sd.
  destruct (call_matches _ _ _ _ _ _ H)
    as (b1 & s1 & Hm & Hcontra & Hsame & Hfilled & _).
  fold sd in Hcontra. unfold match_order in Hm. fold sd in Hm.
  ok_inv Hm. destruct a as [[b2 s2] tr2]. injection Hm as <- <- <-.
  apply (book_inv_for_iff sd) in Hinv.
  destruct Hinv as (_ & Hok & _ & _ & _ & Hnd).
  apply NoDup_app_inv in Hnd. destruct Hnd as (_ & Hnd & _).
  assert (Hnotin : ~ In p (level_ptrs (contra_levels sd b))).
  { intros Hin. apply Hfresh. apply (book_ptrs_sides sd). right. assumption. }
  destruct (side_loop_ledger _ _ _ _ _ _ _ _ Hstep Hok Hnd Hnotin)
    as (gone & delta & Hgone & Hdone & Htail & Hfill & Htot & Hon).
  exists gone, delta. rewrite Hcontra.
  assert (Hother : forall q, In q (level_ptrs (contra_levels sd b)) ->
                             s' q = s2 q).
  { intros q Hq. rewrite Hsame; [|intros ->; contradiction].
    apply upd_other. intros ->. contradiction. }
  split; [assumption|]. split; [|split; [|split; [|split]]].
  - rewrite Forall_forall in *. intros q Hq.
    rewrite Hother; [auto|]. rewrite Hgone. apply in_or_app. left. assumption.
  - intros q Hq. rewrite Hother; [auto|]. rewrite Hgone.
    apply in_or_app. right. destruct (level_ptrs (contra_levels sd b2));
      [contradiction | right; assumption].
  - rewrite Hfilled, upd_same. cbn. assumption.
  - assumption.
  - assumption.
Qed.

(** X10: matched quantity is conserved.  For an order new to a
    well-formed book with a sink registered, the quantity [add_order] (or
    [process_market_order]) fills on the incoming order is the sum of the
    quantities of the trades of the call, the totals of the opposite side
    drop by that same sum, and every trade has a positive quantity. *)
Theorem X10_matched_quantity_is_conserved (b : OrderBook) (s : Mem)
    (p : ptr) (b' : OrderBook) (s' : Mem) (tr : list Trade.t) :
  add_order b s p = Ok (b', s', tr) \/
  process_market_order b s p = Ok (b', s', tr) ->
  book_inv b s -> ~ In p (book_ptrs b) -> trade_callback_ b = true ->
  Order.filled (s' p) = Order.filled (s p) + traded tr /\
  side_total (contra_levels (Order.side (s p)) b')
    = side_total (contra_levels (Order.side (s p)) b) - traded tr /\
  Forall (fun t => 0 < Trade.quantity t) tr.
Proof.
  intros H Hinv Hfresh Hcb.
  destruct (call_ledger _ _ _ _ _ _ H Hinv Hfresh)
    as (gone & delta & _ & _ & _ & Hfill & Htot & Hon).
  destruct (Hon Hcb) as [<- Hpos]. auto.
Qed.

Lemma X10_witness :
  exists b' s' tr,
    add_order (fst two_asks_scene) (snd two_asks_scene) (0, 2)
      = Ok (b', s', tr) /\
    map Trade.quantity tr = [100; 50] /\
    Order.filled (s' (0, 2)) = 0 + traded tr /\
    side_total (asks_ b') = 200 - traded tr.
Proof.
  destruct (add_order (fst two_asks_scene) (snd two_asks_scene) (0, 2))
    as [[[b' s'] tr]| |] eqn:E; try discriminate E.
  exists b', s', tr. split; [reflexivity|]. split.
  - vm_compute in E. injection E as _ _ <-. reflexivity.
  - destruct (X10_matched_quantity_is_conserved _ _ _ _ _ _ (or_introl E))
      as (Hfill & Htot & _).
    + book_inv_by_evaluation.
    + cbn. intros [H | [H | []]]; discriminate H.
    + reflexivity.
    + split; [exact Hfill | exact Htot].
Defined.

(** X11: price-time priority.  For an order new to a well-formed book,
    [add_order] (or [process_market_order]) consumes the opposite side
    from its front: the orders it removes are a prefix of that side in
    iteration order (best price first, oldest first within a price), each
    of them is filled to its quantity and marked FILLED, and of the orders
    it leaves only the first may have been touched. *)
Theorem X11_orders_are_consumed_in_book_order (b : OrderBook) (s : Mem)
    (p : ptr) (b' : OrderBook) (s' : Mem) (tr : list Trade.t) :
  add_order b s p = Ok (b', s', tr) \/
  process_market_order b s p = Ok (b', s', tr) ->
  book_inv b s -> ~ In p (book_ptrs b) ->
  exists gone,
    level_ptrs (contra_levels (Order.side (s p)) b)
      = gone ++ level_ptrs (contra_levels (Order.side (s p)) b') /\
    Forall (fun q => done (s' q)) gone /\
    (forall q,
       In q (tl (level_ptrs (contra_levels (Order.side (s p)) b'))) ->
       s' q = s q).
Proof.
  intros H Hinv Hfresh.
  destruct (call_ledger _ _ _ _ _ _ H Hinv Hfresh)
    as (gone & delta & Hgone & Hdone & Htail & _).
  exists gone. auto.
Qed.

Lemma X11_witness :
  exists b' s' tr,
    add_order (fst two_asks_scene) (snd two_asks_scene) (0, 2)
      = Ok (b', s', tr) /\
    level_ptrs (asks_ b') = [(0, 1)] /\
    exists gone,
      [(0, 0); (0, 1)] = gone ++ level_ptrs (asks_ b') /\
      Forall (fun q => done (s' q)) gone.
Proof.
  destruct (add_order (fst two_asks_scene) (snd two_asks_scene) (0, 2))
    as [[[b' s'] tr]| |] eqn:E; try discriminate E.
  exists b', s', tr. split; [reflexivity|]. split.
  - vm_compute in E. injection E as <- _ _. reflexivity.
  - destruct (X11_orders_are_consumed_in_book_order _ _ _ _ _ _
                (or_introl E)) as (gone & Hgone & Hdone & _).
    + book_inv_by_evaluation.
    + cbn. intros [H | [H | []]]; discriminate H.
    + exists gone. split; [exact Hgone | exact Hdone].
Defined.

(** ** Resting orders *)

Section MapRoundTrip.
Variable cmp : Z -> Z -> bool.
Hypothesis cmp_irrefl : forall a, cmp a a = false.
Hypothesis cmp_trans :
  forall a b c, cmp a b = true -> cmp b c = true -> cmp a c = true.
Hypothesis cmp_total :
  forall a b, cmp a b = false -> cmp b a = false -> a = b.

Lemma map_find_put_same (k : Z) (v : PriceLevel.t) (m : LevelMap) :
  map_find cmp k (map_put cmp k v m) = Some v.
Proof.
  induction m as [|[k1 l1] m IH]; cbn [map_put map_find].
  - rewrite cmp_irrefl. reflexivity.
  - destruct (cmp k k1) eqn:E1; [|destruct (cmp k1 k) eqn:E2];
      cbn [map_find].
    + rewrite cmp_irrefl. reflexivity.
    + rewrite E1, E2. assumption.
    + rewrite E1, E2. reflexivity.
Qed.

Lemma map_find_put_other (k k' : Z) (v : PriceLevel.t) (m : LevelMap) :
  k' <> k -> map_find cmp k' (map_put cmp k v m) = map_find cmp k' m.
Proof.
  intros Hne. induction m as [|[k1 l1] m IH]; cbn [map_put map_find].
  - destruct (cmp k' k) eqn:E1; [reflexivity|].
    destruct (cmp k k') eqn:E2; [reflexivity|].
    exfalso. apply Hne. apply cmp_total; assumption.
  - destruct (cmp k k1) eqn:E1; [|destruct (cmp k1 k) eqn:E2];
      cbn [map_find].
    + destruct (cmp k' k) eqn:E3.
      * rewrite (cmp_trans _ _ _ E3 E1). reflexivity.
      * destruct (cmp k k') eqn:E4; [reflexivity|].
        exfalso. apply Hne. apply cmp_total; assumption.
    + destruct (cmp k' k1); [reflexivity|].
      destruct (cmp k1 k'); [assumption | reflexivity].
    + assert (k = k1) as <- by (apply cmp_total; assumption).
      destruct (cmp k' k) eqn:E3; [reflexivity|].
      destruct (cmp k k') eqn:E4; [reflexivity|].
      exfalso. apply Hne. apply cmp_total; assumption.
Qed.
End MapRoundTrip.

Lemma own_cmp_irrefl (sd : Side) (a : Z) : own_cmp sd a a = false.
Proof. destruct sd; cbn; unfold greater, less; apply Z.ltb_irrefl. Qed.

(** X12: where a LIMIT order ends up.  After [add_order] on a LIMIT
    order, if the order has quantity left it is the last order of the
    level of its own side at its price (a level created for it if there
    was none), the total of that level has grown by what is left of the
    order, and every other level of that side is as it was; if the order
    was filled on arrival its own side is as it was. *)
Theorem X12_limit_order_rests_at_the_back (b : OrderBook) (s : Mem)
    (p : ptr) (b' : OrderBook) (s' : Mem) (tr : list Trade.t) :
  add_order b s p = Ok (b', s', tr) ->
  Order.type (s p) = LIMIT ->
  let sd := Order.side (s p) in
  let k := Order.price (s p) in
  let old := level_at (own_cmp sd) k (own_levels sd b) in
  (Order.filled (s' p) < Order.quantity (s' p) ->
   map_find (own_cmp sd) k (own_levels sd b')
   = Some (PriceLevel.mk k (PriceLevel.orders old ++ [p])
             (PriceLevel.total_quantity old + residual (s' p))) /\
   forall k', k' <> k ->
     map_find (own_cmp sd) k' (own_levels sd b')
     = map_find (own_cmp sd) k' (own_levels sd b)) /\
  (Order.quantity (s' p) <= Order.filled (s' p) ->
   own_levels sd b' = own_levels sd b).
Proof.
  intros H Hlimit sd k old.
  destruct (add_order_cases _ _ _ _ _ _ H)
    as [(Hmkt & _) | (_ & b1 & Hm & Hcase)]; [congruence|].
  destruct (match_order_frame _ _ _ _ _ _ sd Hm eq_refl)
    as (Ht & (_ & _ & Hown) & _ & _ & _ & Hstatus & _).
  destruct (terms_fields _ _ (Ht p)) as (_ & Hprice & _ & _ & Hside & _).
  fold sd in Hside. fold k in Hprice.
  destruct (final_status_cases (s' p))
    as [(Hfull & Hfs) | [(Hpart & _ & Hfs) | (Hpart & _ & Hfs)]];
    rewrite Hfs in Hstatus.
  - split; [lia|]. intros _.
    destruct Hcase as [(_ & ->) | (Hne & _)]; [assumption | congruence].
  - split; [|lia]. intros _.
    destruct Hcase as [(Hf & _) | (_ & m & Hrest & ->)]; [congruence|].
    rewrite Hside in *. rewrite (proj1 (own_set_own sd m b1)).
    unfold rest_order in Hrest. rewrite Hprice, Hown in Hrest.
    ok_inv Hrest. rename a into r. ok_inv Hrest. rename a into t.
    apply remaining_Ok in Hstep. destruct Hstep as [-> _].
    apply s64_Ok in Hstep0. destruct Hstep0 as [-> _].
    injection Hrest as <-. split.
    + apply map_find_put_same. apply own_cmp_irrefl.
    + intros k' Hk'. apply map_find_put_other;
        [apply own_cmp_trans | apply own_cmp_total | assumption].
  - split; [|lia]. intros _.
    destruct Hcase as [(Hf & _) | (_ & m & Hrest & ->)]; [congruence|].
    rewrite Hside in *. rewrite (proj1 (own_set_own sd m b1)).
    unfold rest_order in Hrest. rewrite Hprice, Hown in Hrest.
    ok_inv Hrest. rename a into r. ok_inv Hrest. rename a into t.
    apply remaining_Ok in Hstep. destruct Hstep as [-> _].
    apply s64_Ok in Hstep0. destruct Hstep0 as [-> _].
    injection Hrest as <-. split.
    + apply map_find_put_same. apply own_cmp_irrefl.
    + intros k' Hk'. apply map_find_put_other;
        [apply own_cmp_trans | apply own_cmp_total | assumption].
Qed.

Lemma X12_witness :
  (exists b' s' tr,
     add_order (fst resting_bid_scene) (snd resting_bid_scene) (0, 2)
       = Ok (b', s', tr) /\
     tr = [] /\
     map_find greater 1010000 (bids_ b')
       = Some (PriceLevel.mk 1010000 [(0, 0); (0, 2)] 150) /\
     asks_ b' = asks_ (fst resting_bid_scene)) /\
  (exists b' s' tr,
     add_order (fst two_asks_scene) (snd two_asks_scene) (0, 2)
       = Ok (b', s', tr) /\
     Order.quantity (s' (0, 2)) <= Order.filled (s' (0, 2)) /\
     bids_ b' = []).
Proof.
  split.
  - destruct (add_order (fst resting_bid_scene) (snd resting_bid_scene)
                (0, 2))
      as [[[b' s'] tr]| |] eqn:E; try discriminate E.
    exists b', s', tr. split; [reflexivity|].
    assert (Hleft : tr = [] /\
                    asks_ b' = asks_ (fst resting_bid_scene) /\
                    Order.filled (s' (0, 2)) < Order.quantity (s' (0, 2))).
    { vm_compute in E. injection E as <- <- <-. vm_compute.
      repeat split; reflexivity. }
    destruct Hleft as (Htr & Hasks & Hleft).
    split; [exact Htr|]. split; [|exact Hasks].
    destruct (X12_limit_order_rests_at_the_back _ _ _ _ _ _ E eq_refl)
      as [Hrest _].
    destruct (Hrest Hleft) as [Hfind _].
    assert (Hres : residual (s' (0, 2)) = 50).
    { vm_compute in E. injection E as _ <- _. reflexivity. }
    rewrite Hres in Hfind. exact Hfind.
  - destruct (add_order (fst two_asks_scene) (snd two_asks_scene) (0, 2))
      as [[[b' s'] tr]| |] eqn:E; try discriminate E.
    exists b', s', tr. split; [reflexivity|].
    assert (Hfull : Order.quantity (s' (0, 2)) <= Order.filled (s' (0, 2))).
    { vm_compute in E. injection E as _ <- _. vm_compute. discriminate. }
    split; [exact Hfull|].
    destruct (X12_limit_order_rests_at_the_back _ _ _ _ _ _ E eq_refl)
      as [_ Hown].
    exact (Hown Hfull).
Defined.

(** ** Volumes and quotes *)

Lemma volume_from_total (m : LevelMap) :
  forall vol,
    Forall (fun e => 0 <= PriceLevel.total_quantity (snd e)) m ->
    0 <= vol <= INT64_MAX ->
    volume_from vol m
    = if vol + side_total m <=? INT64_MAX
      then Ok (vol + side_total m) else Undefined.
Proof.
  pose proof int64_bounds as [Hmin Hmax].
  induction m as [|[k l] m IH]; intros vol Hpos Hvol;
    cbn [volume_from side_total fold_right].
  - rewrite Z.add_0_r.
    replace (vol <=? INT64_MAX) with true by (symmetry; apply Z.leb_le; lia).
    reflexivity.
  - fold (side_total m). cbn [snd].
    inversion Hpos as [|e m' Hl Hm]; subst e m'. cbn [snd] in Hl.
    assert (Hrest : 0 <= side_total m).
    { clear IH Hpos. induction Hm as [|e m He Hm IHm]; cbn; [lia|].
      fold (side_total m). lia. }
    destruct (Z.le_gt_cases (vol + PriceLevel.total_quantity l) INT64_MAX)
      as [Hle | Hgt].
    + rewrite s64_in_range by lia. cbn [bind].
      rewrite IH by (assumption || lia).
      rewrite Z.add_assoc. reflexivity.
    + unfold s64, in_s64.
      replace (vol + PriceLevel.total_quantity l <=? INT64_MAX) with false
        by (symmetry; apply Z.leb_gt; lia).
      rewrite andb_false_r. cbn [bind].
      replace (vol + (PriceLevel.total_quantity l + side_total m)
               <=? INT64_MAX) with false
        by (symmetry; apply Z.leb_gt; lia).
      reflexivity.
Qed.

Lemma side_total_level_sum (s : Mem) (m : LevelMap) :
  Forall (level_ok s) m ->
  side_total m = level_sum s (level_ptrs m) /\
  Forall (fun e => 0 <= PriceLevel.total_quantity (snd e)) m.
Proof.
  induction 1 as [|[k l] m Hl Hm [IH1 IH2]].
  - split; [reflexivity | constructor].
  - destruct Hl as ((Htot & _) & (_ & Hpos)). cbn [snd] in Htot, Hpos.
    split.
    + rewrite side_total_cons, level_ptrs_cons, level_sum_app, IH1, Htot.
      reflexivity.
    + constructor; [|assumption]. cbn [snd]. rewrite Htot.
      apply level_sum_nonneg. assumption.
Qed.

(** X13: the volume getters report what is left of the resting orders.
    On a well-formed book [bid_volume()] and [ask_volume()] return the
    sum of [quantity - filled] over the orders resting on their side,
    whenever that sum is a value of [int64_t]; when it is not, the
    running sum overflows. *)
Theorem X13_volume_is_what_is_left_to_fill (b : OrderBook) (s : Mem) :
  book_inv b s ->
  bid_volume b
  = (if level_sum s (level_ptrs (bids_ b)) <=? INT64_MAX
     then Ok (level_sum s (level_ptrs (bids_ b))) else Undefined) /\
  ask_volume b
  = (if level_sum s (level_ptrs (asks_ b)) <=? INT64_MAX
     then Ok (level_sum s (level_ptrs (asks_ b))) else Undefined).
Proof.
  intros Hinv. pose proof int64_bounds as [Hmin Hmax].
  apply (book_inv_for_iff BUY) in Hinv.
  destruct Hinv as (Hbids & Hasks & _). cbn [own_levels contra_levels] in *.
  destruct (side_total_level_sum s _ Hbids) as [Eb Hb].
  destruct (side_total_level_sum s _ Hasks) as [Ea Ha].
  unfold bid_volume, ask_volume.
  rewrite !volume_from_total by (assumption || lia).
  rewrite Eb, Ea. cbn [Z.add]. split; reflexivity.
Qed.

Lemma X13_witness :
  ask_volume (fst two_asks_scene) = Ok 200 /\
  bid_volume (fst two_asks_scene) = Ok 0.
Proof.
  destruct (X13_volume_is_what_is_left_to_fill
              (fst two_asks_scene) (snd two_asks_scene)) as [Hb Ha].
  - book_inv_by_evaluation.
  - split; [exact Ha | exact Hb].
Defined.

Lemma last_cons_default {A : Type} (m : list A) :
  forall e1 e : A, last (e1 :: m) e = last m e1.
Proof.
  induction m as [|a m IH]; intros e1 e.
  - reflexivity.
  - change (last (e1 :: a :: m) e) with (last (a :: m) e).
    rewrite !IH. reflexivity.
Qed.

Lemma sorted_last_least (m : LevelMap) :
  forall e,
    StronglySorted (fun x y => fst y < fst x) (e :: m) ->
    In (last m e) (e :: m) /\
    forall x, In x (e :: m) -> fst (last m e) <= fst x.
Proof.
  induction m as [|e1 m IH]; intros e Hs.
  - cbn. split; [auto|]. intros x [<- | []]. lia.
  - inversion Hs as [|e' m' Hs1 Hall]; subst e' m'.
    destruct (IH e1 Hs1) as [Hin Hleast].
    rewrite last_cons_default.
    split; [right; assumption|].
    intros x [<- | Hx]; [|auto].
    rewrite Forall_forall in Hall. pose proof (Hall _ Hin). lia.
Qed.

(** X14: what the quotes are.  On a well-formed book [best_ask()] is the
    lowest price of the ask side and [best_bid()] the lowest price of the
    bid side ([bids_] is kept in descending order and [best_bid()] reads
    its last entry); with orders on both sides [best_bid()] lies under
    [best_ask()]. *)
Theorem X14_quotes_are_the_lowest_prices (b : OrderBook) (s : Mem) :
  book_inv b s ->
  (forall k l, In (k, l) (asks_ b) -> best_ask b <= k) /\
  (asks_ b <> [] -> exists l, In (best_ask b, l) (asks_ b)) /\
  (forall k l, In (k, l) (bids_ b) -> best_bid b <= k) /\
  (bids_ b <> [] -> exists l, In (best_bid b, l) (bids_ b)) /\
  (bids_ b <> [] -> asks_ b <> [] -> best_bid b < best_ask b).
Proof.
  intros (_ & Hcross & _ & Hbids & Hasks & _).
  unfold best_ask, best_bid, not_crossed in *.
  destruct (asks_ b) as [|[ka la] asks]; destruct (bids_ b) as [|eb bids].
  - repeat split; try (intros k l []); intros; congruence.
  - destruct (sorted_last_least bids eb Hbids) as [Hin Hleast].
    split; [intros k l []|]. split; [congruence|].
    split; [intros k l Hk; apply (Hleast _ Hk)|].
    split; [|congruence].
    intros _. exists (snd (last bids eb)).
    rewrite <- surjective_pairing. assumption.
  - inversion Hasks as [|e m Hs Hall]; subst e m.
    split.
    { intros k l [Heq | Hk]; [injection Heq as <- _; cbn; lia|].
      rewrite Forall_forall in Hall. pose proof (Hall _ Hk). cbn in *. lia. }
    split; [intros _; exists la; left; reflexivity|].
    split; [intros k l []|]. split; congruence.
  - destruct (sorted_last_least bids eb Hbids) as [Hin Hleast].
    inversion Hasks as [|e m Hs Hall]; subst e m.
    split.
    { intros k l [Heq | Hk]; [injection Heq as <- _; cbn; lia|].
      rewrite Forall_forall in Hall. pose proof (Hall _ Hk). cbn in *. lia. }
    split; [intros _; exists la; left; reflexivity|].
    split; [intros k l Hk; apply (Hleast _ Hk)|].
    split.
    { intros _. exists (snd (last bids eb)).
      rewrite <- surjective_pairing. assumption. }
    intros _ _. destruct eb as [kb lb].
    pose proof (Hleast (kb, lb) (or_introl eq_refl)). cbn in *. lia.
Qed.

Lemma X14_witness :
  best_ask (fst two_asks_scene) = 1005000 /\
  (forall k l, In (k, l) (asks_ (fst two_asks_scene)) ->
               best_ask (fst two_asks_scene) <= k).
Proof.
  split; [reflexivity|].
  apply (X14_quotes_are_the_lowest_prices
           (fst two_asks_scene) (snd two_asks_scene)).
  book_inv_by_evaluation.
Defined.



(** ** Runs of the engine *)

Lemma wrap_u64_sub (a b : Z) :
  wrap_u64 (wrap_u64 a - wrap_u64 b) = wrap_u64 (a - b).
Proof. unfold wrap_u64. symmetry. apply Zminus_mod. Qed.

Lemma wrap_u64_add_r (a b : Z) :
  wrap_u64 (a + wrap_u64 b) = wrap_u64 (a + b).
Proof. unfold wrap_u64. apply Zplus_mod_idemp_r. Qed.

Lemma umap_find_None (symbol : string) (m : list (string * OrderBook)) :
  umap_find symbol m = None <-> ~ In symbol (map fst m).
Proof.
  induction m as [|[k b] m IH]; cbn [umap_find map fst In].
  - tauto.
  - destruct (String.eqb k symbol) eqn:E.
    + apply String.eqb_eq in E. split; [discriminate | tauto].
    + apply String.eqb_neq in E. rewrite IH. tauto.
Qed.

Lemma umap_find_Some (symbol : string) (m : list (string * OrderBook))
    (b : OrderBook) :
  umap_find symbol m = Some b -> In (symbol, b) m.
Proof.
  induction m as [|[k b0] m IH]; cbn [umap_find In]; [discriminate|].
  destruct (String.eqb k symbol) eqn:E.
  - apply String.eqb_eq in E. intros H. injection H as <-. subst. auto.
  - auto.
Qed.

Lemma set_nth_keys {A B : Type} (i : nat) (k : A) (v v' : B)
    (m : list (A * B)) :
  nth_error m i = Some (k, v) -> map fst (set_nth i (k, v') m) = map fst m.
Proof.
  revert i. induction m as [|e m IH]; intros [|i] H; cbn in *;
    try discriminate.
  - injection H as ->. reflexivity.
  - f_equal. apply IH. assumption.
Qed.

Lemma set_nth_Forall {A : Type} (P : A -> Prop) (i : nat) (x : A)
    (l : list A) :
  Forall P l -> P x -> Forall P (set_nth i x l).
Proof.
  revert i. induction l as [|y l IH]; intros i Hl Hx; cbn [set_nth].
  - destruct i; constructor.
  - inversion Hl; subst. destruct i; constructor; auto.
Qed.

Lemma set_nth_map {A B : Type} (f : A -> B) (i : nat) (x y : A)
    (l : list A) :
  nth_error l i = Some y -> f x = f y -> map f (set_nth i x l) = map f l.
Proof.
  revert i. induction l as [|z l IH]; intros [|i] H Hf; cbn in *;
    try discriminate.
  - injection H as ->. congruence.
  - f_equal. apply IH; assumption.
Qed.

Lemma books_trades_set_nth (i : nat) (symbol symbol' : string)
    (book book' : OrderBook) (m : list (string * OrderBook)) :
  nth_error m i = Some (symbol, book) ->
  books_trades (set_nth i (symbol', book') m)
  = books_trades m - total_trades book + total_trades book'.
Proof.
  revert i. induction m as [|e m IH]; intros [|i] H; cbn in *;
    try discriminate.
  - injection H as ->. cbn. fold (books_trades m). lia.
  - fold (books_trades m). fold (books_trades (set_nth i (symbol', book') m)).
    rewrite (IH _ H). lia.
Qed.

Lemma books_trades_app (m1 m2 : list (string * OrderBook)) :
  books_trades (m1 ++ m2) = books_trades m1 + books_trades m2.
Proof.
  induction m1 as [|e m1 IH]; cbn; [reflexivity|].
  fold (books_trades (m1 ++ m2)). fold (books_trades m1). lia.
Qed.

Section EngineRuns.
Variable St : Type.
Variable umap_begin : list string -> nat.

Lemma kept_refl (e : TickEngine St) : kept e e.
Proof. unfold kept. repeat split; reflexivity. Qed.

Lemma kept_trans (e1 e2 e3 : TickEngine St) :
  kept e1 e2 -> kept e2 e3 -> kept e1 e3.
Proof.
  intros (A1 & A2 & A3 & A4 & A5 & A6) (B1 & B2 & B3 & B4 & B5 & B6).
  unfold kept. repeat split; try congruence.
  intros Hne. rewrite B6, A6; [reflexivity | assumption|].
  intros Hnil. apply Hne.
  rewrite Hnil in A1. cbn in A1.
  destruct (order_books_ e1); [reflexivity | discriminate].
Qed.

Lemma on_trades_more (trades : list Trade.t) :
  forall e : TickEngine St,
    let e' := fold_left engine_on_trade trades e in
    map class_of (strategies_ e') = map class_of (strategies_ e) /\
    Stats.ticks_processed (stats_ e') = Stats.ticks_processed (stats_ e) /\
    Stats.total_latency_ns (stats_ e')
      = Stats.total_latency_ns (stats_ e) /\
    (0 <= Stats.trades_executed (stats_ e) < 2 ^ 64 ->
     Stats.trades_executed (stats_ e')
     = wrap_u64 (Stats.trades_executed (stats_ e)
                 + Z.of_nat (length trades))).
Proof.
  induction trades as [|t trades IH]; intros e; cbn [fold_left].
  - cbn zeta. repeat split. intros Hr.
    rewrite Z.add_0_r, wrap_u64_id by assumption. reflexivity.
  - destruct (IH (engine_on_trade e t)) as (H1 & H2 & H3 & H4).
    cbn zeta. rewrite H1, H2, H3. cbn.
    split; [|split; [reflexivity|split; [reflexivity|]]].
    + rewrite map_map. reflexivity.
    + intros Hr. rewrite H4 by apply wrap_u64_range.
      cbn. rewrite wrap_u64_add_l. f_equal. lia.
Qed.

Lemma submit_order_run (e : TickEngine St) (o : Order.t)
    (e' : TickEngine St) :
  submit_order umap_begin e o = Ok e' ->
  kept e e' /\ (engine_inv e -> engine_inv e').
Proof.
  unfold submit_order. intros H.
  destruct (allocate DefaultBlockSize (order_pool_ e)) as [slot pool1].
  destruct (order_books_ e) as [|entry0 books] eqn:Hb.
  { injection H as <-. split.
    - unfold kept. cbn. rewrite Hb. repeat split. intros Hne. congruence.
    - unfold engine_inv, books_wired, trades_counted. cbn. rewrite Hb.
      auto. }
  destruct (begin_entry_some umap_begin (entry0 :: books))
    as [[symbol book] Hentry]; [discriminate|].
  unfold begin_entry in Hentry. rewrite Hentry in H.
  ok_inv H. destruct a as [[book1 s4] trades]. injection H as <-.
  set (e2 := mkEngine _ _ _ _ _ _ _ _ _).
  destruct (on_trades_fields St trades e2) as (F1 & _ & F3 & F4 & _ & F6 & F7).
  destruct (on_trades_more trades e2) as (G1 & G2 & G3 & G4).
  split.
  - unfold kept, uncounted, count_order. cbn.
    rewrite F1, F3, F4, F6, G1, G2, G3. cbn. rewrite Hb.
    split; [|repeat split].
    + eapply set_nth_keys. eassumption.
    + intros _. rewrite wrap_u64_sub. f_equal. lia.
  - intros ((Hnd & Hwired) & (Hbooks & Hlog)). rewrite Hb in *.
    rewrite Forall_forall in Hwired.
    destruct (Hwired _ (nth_error_In _ _ Hentry)) as (Hsym & Hcb & Hrange).
    cbn [fst snd] in Hsym, Hcb, Hrange.
    destruct (call_count _ _ _ _ _ _ (or_introl Hstep) Hrange)
      as (Hon & _ & Hcb1 & Hsym1).
    specialize (Hon Hcb).
    assert (Hte : 0 <= Stats.trades_executed (stats_ e) < 2 ^ 64).
    { rewrite Hbooks. apply wrap_u64_range. }
    unfold engine_inv, books_wired, trades_counted, count_order. cbn.
    rewrite F1, F7, G4 by exact Hte. cbn.
    split; [split|split].
    + erewrite set_nth_keys by eassumption. assumption.
    + apply set_nth_Forall; [apply Forall_forall; assumption|].
      cbn [fst snd]. split; [congruence|]. split; [congruence|].
      rewrite Hon. apply wrap_u64_range.
    + rewrite (books_trades_set_nth _ _ _ _ _ _ Hentry).
      unfold total_trades. rewrite Hon, Hbooks.
      rewrite wrap_u64_add_l.
      replace (books_trades (entry0 :: books) - total_trades_ book
               + wrap_u64 (total_trades_ book + Z.of_nat (length trades)))
        with ((books_trades (entry0 :: books) - total_trades_ book)
               + wrap_u64 (total_trades_ book + Z.of_nat (length trades)))
        by reflexivity.
      rewrite wrap_u64_add_r. f_equal. lia.
    + rewrite Hlog, wrap_u64_add_l, length_app. f_equal. lia.
Qed.

Lemma put_state_run (i : nat) (st : St) (e : TickEngine St) :
  kept e (put_state St i st e) /\
  (engine_inv e -> engine_inv (put_state St i st e)).
Proof.
  unfold put_state.
  destruct (nth_error (strategies_ e) i) as [so|] eqn:E.
  - split; [|auto].
    unfold kept, uncounted. cbn. repeat split.
    eapply set_nth_map; [eassumption | reflexivity].
  - split; [apply kept_refl | auto].
Qed.

Lemma run_on_tick_run (i : nat) (a : Act St) :
  forall e e',
    run_on_tick St umap_begin i a e = Ok e' ->
    kept e e' /\ (engine_inv e -> engine_inv e').
Proof.
  induction a as [st | st o k IH]; intros e e' H; cbn [run_on_tick] in H.
  - injection H as <-. apply put_state_run.
  - ok_inv H. rename a into e1.
    destruct (put_state_run i st e) as [K0 I0].
    destruct (submit_order_run _ _ _ Hstep) as [K1 I1].
    destruct (nth_error (strategies_ e1) i) as [so|].
    + destruct (IH _ _ _ H) as [K2 I2]. split.
      * eapply kept_trans; [|exact K2]. eapply kept_trans; eassumption.
      * auto.
    + injection H as <-. split; [eapply kept_trans; eassumption | auto].
Qed.

Lemma notify_strategies_run (tick : Tick.t) (n : nat) :
  forall i e e',
    notify_strategies St umap_begin n i tick e = Ok e' ->
    kept e e' /\ (engine_inv e -> engine_inv e').
Proof.
  induction n as [|n IH]; intros i e e' H; cbn [notify_strategies] in H.
  - injection H as <-. split; [apply kept_refl | auto].
  - destruct (nth_error (strategies_ e) i) as [so|].
    + ok_inv H. rename a into e1.
      destruct (run_on_tick_run _ _ _ _ Hstep) as [K1 I1].
      destruct (IH _ _ _ H) as [K2 I2].
      split; [eapply kept_trans; eassumption | auto].
    + injection H as <-. split; [apply kept_refl | auto].
Qed.

(** What one tick does to the engine. *)
Lemma process_tick_run (clock : Z * Z) (tick : Tick.t)
    (e e' : TickEngine St) :
  process_tick umap_begin clock tick e = Ok e' ->
  (forall x, In x (map fst (order_books_ e')) <->
             In x (map fst (order_books_ e)) \/ x = Tick.symbol tick) /\
  map class_of (strategies_ e') = map class_of (strategies_ e) /\
  current_time_ e' = Tick.timestamp tick /\
  Stats.ticks_processed (stats_ e')
    = wrap_u64 (Stats.ticks_processed (stats_ e) + 1) /\
  Stats.total_latency_ns (stats_ e')
    = wrap_u64 (Stats.total_latency_ns (stats_ e)
                + (snd clock - fst clock)) /\
  uncounted e' = uncounted e /\
  (engine_inv e -> engine_inv e').
Proof.
  unfold process_tick. destruct clock as [start end_]. intros H.
  ok_inv H. rename a into e2. injection H as <-.
  set (books := match umap_find (Tick.symbol tick) (order_books_ e) with
                | Some _ => order_books_ e
                | None => order_books_ e
                          ++ [(Tick.symbol tick,
                               set_trade_callback
                                 (new_book (Tick.symbol tick)))]
                end) in *.
  set (e1 := mkEngine _ books _ _ _ _ _ _ _) in *.
  destruct (notify_strategies_run _ _ _ _ _ Hstep)
    as [(K1 & K2 & K3 & K4 & K5 & K6) I].
  assert (Hkeys : forall x, In x (map fst books) <->
                            In x (map fst (order_books_ e))
                            \/ x = Tick.symbol tick).
  { intros x. subst books.
    destruct (umap_find (Tick.symbol tick) (order_books_ e)) as [b0|] eqn:E.
    - split; [auto|]. intros [Hx | ->]; [assumption|].
      apply umap_find_Some in E. apply (in_map fst) in E. assumption.
    - rewrite map_app, in_app_iff. cbn. intuition congruence. }
  assert (Hne : books <> []).
  { intros Hnil. specialize (Hkeys (Tick.symbol tick)).
    rewrite Hnil in Hkeys. cbn in Hkeys. tauto. }
  cbn [order_books_ strategies_ current_time_ stats_] in *.
  split; [|split; [|split; [|split; [|split; [|split]]]]].
  - intros x. rewrite K1. apply Hkeys.
  - assumption.
  - assumption.
  - cbn. rewrite K4. reflexivity.
  - cbn. rewrite K5. reflexivity.
  - unfold uncounted in *. cbn. apply (K6 Hne).
  - intros ((Hnd & Hwired) & (Hbooks & Hlog)).
    assert (I1 : engine_inv e1).
    { unfold engine_inv, books_wired, trades_counted. subst e1. cbn.
      subst books.
      destruct (umap_find (Tick.symbol tick) (order_books_ e)) eqn:E;
        [auto|].
      apply umap_find_None in E.
      split; [split|split].
      - rewrite map_app. cbn. apply NoDup_app_intro;
          [assumption | repeat constructor; intros [] |].
        intros x Hx [<- | []]. contradiction.
      - apply Forall_app. split; [assumption|].
        repeat constructor; cbn; reflexivity || discriminate.
      - rewrite books_trades_app. cbn. rewrite !Z.add_0_r. assumption.
      - assumption. }
    destruct (I I1) as (W & (T1 & T2)).
    unfold engine_inv, books_wired, trades_counted. cbn. auto.
Qed.

Lemma run_backtest_run (clock : nat -> Z * Z) (ticks : list Tick.t) :
  forall n e e',
    run_backtest_from St umap_begin clock n ticks e = Ok e' ->
    (forall x, In x (map fst (order_books_ e')) <->
               In x (map fst (order_books_ e))
               \/ In x (map Tick.symbol ticks)) /\
    map class_of (strategies_ e') = map class_of (strategies_ e) /\
    current_time_ e' = last (map Tick.timestamp ticks) (current_time_ e) /\
    (0 <= Stats.ticks_processed (stats_ e) < 2 ^ 64 ->
     Stats.ticks_processed (stats_ e')
     = wrap_u64 (Stats.ticks_processed (stats_ e)
                 + Z.of_nat (length ticks))) /\
    (0 <= Stats.total_latency_ns (stats_ e) < 2 ^ 64 ->
     Stats.total_latency_ns (stats_ e')
     = wrap_u64 (Stats.total_latency_ns (stats_ e)
                 + latency_sum clock n (length ticks))) /\
    uncounted e' = uncounted e /\
    (engine_inv e -> engine_inv e').
Proof.
  induction ticks as [|tick ticks IH]; intros n e e' H;
    cbn [run_backtest_from] in H.
  - injection H as <-. cbn.
    split; [intros x; tauto|]. split; [reflexivity|].
    split; [reflexivity|].
    split; [intros Hr; rewrite Z.add_0_r, wrap_u64_id by assumption;
            reflexivity|].
    split; [intros Hr; rewrite Z.add_0_r, wrap_u64_id by assumption;
            reflexivity|].
    auto.
  - ok_inv H. rename a into e1.
    destruct (process_tick_run _ _ _ _ Hstep)
      as (P1 & P2 & P3 & P4 & P5 & P6 & P7).
    destruct (IH _ _ _ H) as (R1 & R2 & R3 & R4 & R5 & R6 & R7).
    split; [|split; [|split; [|split; [|split; [|split]]]]].
    + intros x. rewrite R1, P1. cbn [map In]. intuition congruence.
    + congruence.
    + rewrite R3, P3. cbn [map]. rewrite last_cons_default.
      destruct (map Tick.timestamp ticks); reflexivity.
    + intros Hr. rewrite R4 by (rewrite P4; apply wrap_u64_range).
      rewrite P4, wrap_u64_add_l. f_equal. cbn [length]. lia.
    + intros Hr. rewrite R5 by (rewrite P5; apply wrap_u64_range).
      rewrite P5, wrap_u64_add_l. f_equal. cbn [length latency_sum]. lia.
    + congruence.
    + auto.
Qed.

Lemma engine_with_fields (l : list (StrategyObj St)) (m0 : Mem) :
  order_books_ (engine_with l m0) = [] /\
  strategies_ (engine_with l m0) = l /\
  next_order_id_ (engine_with l m0) = 1 /\
  current_time_ (engine_with l m0) = 0 /\
  stats_ (engine_with l m0) = Stats.zero /\
  trade_log (engine_with l m0) = [].
Proof.
  unfold engine_with.
  assert (H : forall e0 : TickEngine St,
             let e := fold_left add_strategy l e0 in
             order_books_ e = order_books_ e0 /\
             strategies_ e = strategies_ e0 ++ l /\
             next_order_id_ e = next_order_id_ e0 /\
             current_time_ e = current_time_ e0 /\
             stats_ e = stats_ e0 /\
             trade_log e = trade_log e0).
  { induction l as [|so l IH]; intros e0; cbn [fold_left].
    - cbn zeta. rewrite app_nil_r. repeat split.
    - destruct (IH (add_strategy e0 so)) as (H1 & H2 & H3 & H4 & H5 & H6).
      cbn zeta. rewrite H1, H2, H3, H4, H5, H6. cbn.
      rewrite <- app_assoc. repeat split. }
  apply (H (new_engine m0)).
Qed.

Lemma engine_with_inv (l : list (StrategyObj St)) (m0 : Mem) :
  engine_inv (engine_with l m0).
Proof.
  destruct (engine_with_fields l m0) as (Hb & _ & _ & _ & Hs & Hl).
  unfold engine_inv, books_wired, trades_counted.
  rewrite Hb, Hs, Hl. cbn. repeat split; constructor.
Qed.

Lemma run_backtest_from_shift (clock : nat -> Z * Z) (k : nat)
    (ticks : list Tick.t) :
  forall n e,
    run_backtest_from St umap_begin (fun i => clock (k + i)%nat) n ticks e
    = run_backtest_from St umap_begin clock (k + n) ticks e.
Proof.
  induction ticks as [|tick ticks IH]; intros n e; cbn [run_backtest_from].
  - reflexivity.
  - destruct (process_tick umap_begin (clock (k + n)%nat) tick e);
      cbn [bind]; [|reflexivity|reflexivity].
    rewrite IH. f_equal. lia.
Qed.

Lemma run_backtest_from_app (clock : nat -> Z * Z) (t1 t2 : list Tick.t) :
  forall n e,
    run_backtest_from St umap_begin clock n (t1 ++ t2) e
    = (e1 <- run_backtest_from St umap_begin clock n t1 e ;;
       run_backtest_from St umap_begin clock (n + length t1) t2 e1).
Proof.
  induction t1 as [|tick t1 IH]; intros n e;
    cbn [app run_backtest_from length].
  - cbn [bind]. rewrite Nat.add_0_r. reflexivity.
  - destruct (process_tick umap_begin (clock n) tick e);
      cbn [bind]; [|reflexivity|reflexivity].
    rewrite IH. replace (S n + length t1)%nat with (n + S (length t1))%nat
      by lia. reflexivity.
Qed.
End EngineRuns.

(** X16: the engine counts what its books execute.  After any backtest
    on a new engine, whatever the strategies, [trades_executed] is the sum
    of [total_trades()] over the books of the engine (modulo 2^64), and
    the number of trades [on_trade] has received. *)
Theorem X16_trades_executed_is_what_the_books_count (St : Type)
    (umap_begin : list string -> nat) (strategies : list (StrategyObj St))
    (clock : nat -> Z * Z) (ticks : list Tick.t) (m0 : Mem)
    (e' : TickEngine St) :
  run_backtest umap_begin clock ticks (engine_with strategies m0) = Ok e' ->
  Stats.trades_executed (get_stats e')
    = wrap_u64 (books_trades (order_books_ e')) /\
  Stats.trades_executed (get_stats e')
    = wrap_u64 (Z.of_nat (length (trade_log e'))).
Proof.
  unfold run_backtest. intros H.
  destruct (run_backtest_run St umap_begin _ _ _ _ _ H)
    as (_ & _ & _ & _ & _ & _ & Hinv).
  destruct (Hinv (engine_with_inv St strategies m0)) as (_ & Hcount).
  exact Hcount.
Qed.

Lemma X16_witness :
  exists e',
    run_backtest oldest_first (steady_clock 0 5) two_symbol_ticks
      (engine_with [mkObj cross_every_tick tt] blank_mem)
    = Ok e' /\
    Stats.trades_executed (get_stats e') = 2 /\
    books_trades (order_books_ e') = 2 /\
    length (trade_log e') = 2%nat.
Proof.
  assert (Hrun : exists e',
             run_backtest oldest_first (steady_clock 0 5) two_symbol_ticks
      (engine_with [mkObj cross_every_tick tt] blank_mem)
    = Ok e' /\
             books_trades (order_books_ e') = 2 /\
             length (trade_log e') = 2%nat).
  { eexists. split; [vm_compute; reflexivity|].
    vm_compute. split; reflexivity. }
  destruct Hrun as (e' & E & Hn1 & Hn2).
  exists e'. split; [exact E|].
  destruct (X16_trades_executed_is_what_the_books_count _ _ _ _ _ _ _ E)
    as [Hbooks Hlog].
  split; [rewrite Hbooks, Hn1; reflexivity|].
  split; [exact Hn1 | exact Hn2].
Defined.

(** X17: one book for every symbol seen.  After a backtest on a new
    engine [get_order_book(symbol)] is non-null exactly for the symbols of
    the ticks processed; the book it returns was created for that symbol
    and reports its trades to the engine, and no symbol has two books. *)
Theorem X17_a_book_for_every_symbol_ticked (St : Type)
    (umap_begin : list string -> nat) (strategies : list (StrategyObj St))
    (clock : nat -> Z * Z) (ticks : list Tick.t) (m0 : Mem)
    (e' : TickEngine St) :
  run_backtest umap_begin clock ticks (engine_with strategies m0) = Ok e' ->
  (forall symbol,
     get_order_book e' symbol <> None <-> In symbol (map Tick.symbol ticks)) /\
  (forall symbol book,
     get_order_book e' symbol = Some book ->
     symbol_ book = symbol /\ trade_callback_ book = true) /\
  NoDup (map fst (order_books_ e')).
Proof.
  unfold run_backtest, get_order_book. intros H.
  destruct (run_backtest_run St umap_begin _ _ _ _ _ H)
    as (Hkeys & _ & _ & _ & _ & _ & Hinv).
  destruct (Hinv (engine_with_inv St strategies m0))
    as ((Hnd & Hwired) & _).
  destruct (engine_with_fields St strategies m0) as (Hb & _).
  rewrite Hb in Hkeys. cbn [map In] in Hkeys.
  split; [|split; [|assumption]].
  - intros symbol. rewrite umap_find_None.
    specialize (Hkeys symbol). split.
    + intros Hin.
      destruct (in_dec string_dec symbol (map fst (order_books_ e')))
        as [Hi | Hn]; [|contradiction].
      destruct (proj1 Hkeys Hi) as [[] | Hs]. exact Hs.
    + intros Hin Hout. apply Hout, Hkeys. right. assumption.
  - intros symbol book Hfind. apply umap_find_Some in Hfind.
    rewrite Forall_forall in Hwired.
    destruct (Hwired _ Hfind) as (Hsym & Hcb & _). auto.
Qed.

Lemma X17_witness :
  exists e' aapl msft,
    run_backtest oldest_first (steady_clock 0 5) two_symbol_ticks
      (engine_with [mkObj cross_every_tick tt] blank_mem)
    = Ok e' /\
    get_order_book e' "AAPL" = Some aapl /\ symbol_ aapl = "AAPL"%string /\
    get_order_book e' "MSFT" = Some msft /\ symbol_ msft = "MSFT"%string /\
    get_order_book e' "GOOG" = None.
Proof.
  assert (exists e', run_backtest oldest_first (steady_clock 0 5) two_symbol_ticks
      (engine_with [mkObj cross_every_tick tt] blank_mem)
    = Ok e') as [e' E]
    by (eexists; vm_compute; reflexivity).
  destruct (X17_a_book_for_every_symbol_ticked _ _ _ _ _ _ _ E)
    as (Hsyms & Hbook & _).
  destruct (get_order_book e' "AAPL") as [aapl|] eqn:Ea.
  2:{ exfalso. apply (proj2 (Hsyms "AAPL"%string)); [|exact Ea].
      cbn. auto. }
  destruct (get_order_book e' "MSFT") as [msft|] eqn:Em.
  2:{ exfalso. apply (proj2 (Hsyms "MSFT"%string)); [|exact Em].
      cbn. auto. }
  exists e', aapl, msft.
  split; [exact E|].
  split; [exact Ea|]. split; [apply (Hbook _ _ Ea)|].
  split; [exact Em|]. split; [apply (Hbook _ _ Em)|].
  destruct (get_order_book e' "GOOG") as [goog|] eqn:Eg; [|reflexivity].
  exfalso.
  assert (Hin : In "GOOG"%string (map Tick.symbol two_symbol_ticks)).
  { apply Hsyms. rewrite Eg. discriminate. }
  cbn in Hin. destruct Hin as [Hin | [Hin | []]]; discriminate Hin.
Defined.

(** X18: what a backtest counts.  After a backtest of [n] ticks on a new
    engine [ticks_processed] is [n] (modulo 2^64), [total_latency_ns] is
    the sum of the [n] durations measured around the ticks (modulo 2^64),
    the engine's time is the timestamp of the last tick (0 without a
    tick), and the strategies registered are still there, in their
    order. *)
Theorem X18_backtest_counts_ticks_and_latency (St : Type)
    (umap_begin : list string -> nat) (strategies : list (StrategyObj St))
    (clock : nat -> Z * Z) (ticks : list Tick.t) (m0 : Mem)
    (e' : TickEngine St) :
  run_backtest umap_begin clock ticks (engine_with strategies m0) = Ok e' ->
  Stats.ticks_processed (get_stats e')
    = wrap_u64 (Z.of_nat (length ticks)) /\
  Stats.total_latency_ns (get_stats e')
    = wrap_u64 (latency_sum clock 0 (length ticks)) /\
  current_time_ e' = last (map Tick.timestamp ticks) 0 /\
  map class_of (strategies_ e') = map class_of strategies.
Proof.
  unfold run_backtest, get_stats. intros H.
  destruct (run_backtest_run St umap_begin _ _ _ _ _ H)
    as (_ & Hcls & Htime & Hticks & Hlat & _ & _).
  destruct (engine_with_fields St strategies m0)
    as (_ & Hs & _ & Ht & Hst & _).
  rewrite Hs in Hcls. rewrite Ht in Htime. rewrite Hst in Hticks, Hlat.
  cbn in Hticks, Hlat.
  split; [apply Hticks; split; [lia | reflexivity]|].
  split; [apply Hlat; split; [lia | reflexivity]|].
  auto.
Qed.

Lemma X18_witness :
  exists e',
    run_backtest oldest_first (steady_clock 0 5) two_symbol_ticks
      (engine_with [mkObj cross_every_tick tt] blank_mem)
    = Ok e' /\
    Stats.ticks_processed (get_stats e') = 2 /\
    Stats.total_latency_ns (get_stats e') = 10 /\
    current_time_ e' = 2000.
Proof.
  assert (exists e', run_backtest oldest_first (steady_clock 0 5) two_symbol_ticks
      (engine_with [mkObj cross_every_tick tt] blank_mem)
    = Ok e') as [e' E]
    by (eexists; vm_compute; reflexivity).
  exists e'. split; [exact E|].
  destruct (X18_backtest_counts_ticks_and_latency _ _ _ _ _ _ _ E)
    as (Hticks & Hlat & Htime & _).
  split; [exact Hticks|]. split; [exact Hlat | exact Htime].
Defined.

(** X19: a backtest drops no order.  [process_tick] creates the book of
    its symbol before it notifies the strategies, so that every order a
    strategy submits during a backtest is handed to a book and counted:
    over any backtest, on any engine, [next_order_id_] and
    [orders_submitted] advance by the same amount (modulo 2^64). *)
Theorem X19_backtest_dispatches_every_order (St : Type)
    (umap_begin : list string -> nat) (clock : nat -> Z * Z)
    (ticks : list Tick.t) (e e' : TickEngine St) :
  run_backtest umap_begin clock ticks e = Ok e' ->
  wrap_u64 (next_order_id_ e' - Stats.orders_submitted (get_stats e'))
  = wrap_u64 (next_order_id_ e - Stats.orders_submitted (get_stats e)).
Proof.
  unfold run_backtest, get_stats. intros H.
  destruct (run_backtest_run St umap_begin _ _ _ _ _ H)
    as (_ & _ & _ & _ & _ & Hun & _).
  exact Hun.
Qed.

Lemma X19_witness :
  exists e',
    run_backtest oldest_first (steady_clock 0 5) two_symbol_ticks
      (engine_with [mkObj cross_every_tick tt] blank_mem)
    = Ok e' /\
    next_order_id_ e' = 5 /\ Stats.orders_submitted (get_stats e') = 4.
Proof.
  assert (Hrun : exists e',
             run_backtest oldest_first (steady_clock 0 5) two_symbol_ticks
      (engine_with [mkObj cross_every_tick tt] blank_mem)
    = Ok e' /\ next_order_id_ e' = 5 /\
             0 <= Stats.orders_submitted (get_stats e') < 2 ^ 64).
  { eexists. split; [vm_compute; reflexivity|].
    vm_compute. repeat split; discriminate. }
  destruct Hrun as (e' & E & Hn & Hrange).
  exists e'. split; [exact E|]. split; [exact Hn|].
  pose proof (X19_backtest_dispatches_every_order _ _ _ _ _ _ E) as Hun.
  rewrite Hn in Hun.
  destruct (engine_with_fields unit [mkObj cross_every_tick tt] blank_mem)
    as (_ & _ & Hid & _ & Hst & _).
  unfold get_stats in Hun at 2. rewrite Hid, Hst in Hun.
  change (wrap_u64 (1 - Stats.orders_submitted Stats.zero)) with 1 in Hun.
  unfold wrap_u64 in Hun.
  assert (Hcases : Stats.orders_submitted (get_stats e') <= 5 \/
                   5 < Stats.orders_submitted (get_stats e')) by lia.
  destruct Hcases as [Hle | Hgt].
  - rewrite Z.mod_small in Hun by lia. lia.
  - exfalso.
    replace (5 - Stats.orders_submitted (get_stats e'))
      with ((5 - Stats.orders_submitted (get_stats e') + 2 ^ 64)
            + (-1) * 2 ^ 64) in Hun by lia.
    rewrite Z.mod_add in Hun by discriminate.
    rewrite Z.mod_small in Hun by lia. lia.
Defined.

(** X20: a backtest can be fed in pieces.  Running [run_backtest] on the
    ticks [t1 ++ t2] is running it on [t1] and then, on the engine that
    leaves, on [t2] (with the clock readings of the later ticks); if the
    first run fails so does the whole. *)
Theorem X20_backtest_of_a_concatenation (St : Type)
    (umap_begin : list string -> nat) (clock : nat -> Z * Z)
    (t1 t2 : list Tick.t) (e : TickEngine St) :
  run_backtest umap_begin clock (t1 ++ t2) e
  = (e1 <- run_backtest umap_begin clock t1 e ;;
     run_backtest umap_begin (fun i => clock (length t1 + i)%nat) t2 e1).
Proof.
  unfold run_backtest. rewrite run_backtest_from_app. cbn [Nat.add].
  destruct (run_backtest_from St umap_begin clock 0 t1 e); cbn [bind];
    [|reflexivity|reflexivity].
  rewrite run_backtest_from_shift, Nat.add_0_r. reflexivity.
Qed.

(** ** The engine within its arena *)

Lemma set_nth_split {A : Type} (i : nat) (x y : A) (l : list A) :
  nth_error l i = Some x ->
  exists pre post,
    l = pre ++ x :: post /\ set_nth i y l = pre ++ y :: post.
Proof.
  revert i. induction l as [|z l IH]; intros [|i] H; cbn in *;
    try discriminate.
  - injection H as ->. exists [], l. auto.
  - destruct (IH _ H) as (pre & post & -> & E).
    exists (z :: pre), post. cbn. rewrite E. auto.
Qed.

Lemma all_book_ptrs_app (m1 m2 : list (string * OrderBook)) :
  all_book_ptrs (m1 ++ m2) = all_book_ptrs m1 ++ all_book_ptrs m2.
Proof. unfold all_book_ptrs. apply flat_map_app. Qed.

Lemma all_book_ptrs_cons (kb : string * OrderBook)
    (m : list (string * OrderBook)) :
  all_book_ptrs (kb :: m) = book_ptrs (snd kb) ++ all_book_ptrs m.
Proof. reflexivity. Qed.

(** Replacing the middle of a list without duplicates by elements that are
    new or were there. *)
Lemma NoDup_replace_middle {A : Type} (l1 mid mid' l2 : list A) (x : A) :
  NoDup (l1 ++ mid ++ l2) -> NoDup mid' -> incl mid' (x :: mid) ->
  ~ In x (l1 ++ mid ++ l2) ->
  NoDup (l1 ++ mid' ++ l2).
Proof.
  intros Hnd Hmid' Hincl Hx.
  destruct (NoDup_app_inv _ _ Hnd) as (Hnd1 & Hnd23 & Hd1).
  destruct (NoDup_app_inv _ _ Hnd23) as (_ & Hnd2 & Hd2).
  apply NoDup_app_intro; [assumption | |].
  - apply NoDup_app_intro; [assumption | assumption |].
    intros y Hy Hy2. destruct (Hincl _ Hy) as [<- | Hm].
    + apply Hx. apply in_or_app. right. apply in_or_app. right. assumption.
    + apply (Hd2 _ Hm Hy2).
  - intros y Hy1 Hy. apply in_app_or in Hy. destruct Hy as [Hy | Hy].
    + destruct (Hincl _ Hy) as [<- | Hm].
      * apply Hx. apply in_or_app. left. assumption.
      * apply (Hd1 _ Hy1). apply in_or_app. left. assumption.
    + apply (Hd1 _ Hy1). apply in_or_app. right. assumption.
Qed.

Section EngineArena.
Variable St : Type.
Variable umap_begin : list string -> nat.

Lemma arena_inv_weaken (room room' : nat) (e : TickEngine St) :
  (room' <= room)%nat -> arena_inv room e -> arena_inv room' e.
Proof.
  intros Hle (H1 & H2 & H3 & H4 & H5). unfold arena_inv.
  repeat split; try assumption; try apply H5. lia.
Qed.

Lemma submit_order_arena (room : nat) (e : TickEngine St) (o : Order.t)
    (e' : TickEngine St) :
  submit_order umap_begin e o = Ok e' ->
  arena_inv (S room) e -> arena_inv room e'.
Proof.
  unfold submit_order.
  intros H (Hblocks & Hcb & Hlo & Hhi & Hrange & Hnd & Hinv).
  assert (Hidx : 0 <= current_index_ (order_pool_ e) < DefaultBlockSize)
    by lia.
  destruct (allocate_one_block DefaultBlockSize (order_pool_ e))
    as (Hslot & Hb1 & Hc1 & Hi1);
    [split; reflexivity | assumption | assumption | lia |].
  rewrite Z.mod_small in Hslot, Hi1 by assumption.
  destruct (allocate DefaultBlockSize (order_pool_ e)) as [slot pool1].
  cbn [fst snd] in Hslot, Hb1, Hc1, Hi1. subst slot.
  set (p := (0, current_index_ (order_pool_ e))) in *.
  assert (Hfresh : ~ In p (all_book_ptrs (order_books_ e))).
  { intros Hin. rewrite Forall_forall in Hrange.
    destruct (Hrange _ Hin) as [_ Hlt]. cbn in Hlt. lia. }
  assert (Hrange1 : forall q, In q (p :: all_book_ptrs (order_books_ e)) ->
                              fst q = 0 /\ 0 <= snd q < current_index_ pool1).
  { rewrite Forall_forall in Hrange. intros q [<- | Hq].
    - cbn. lia.
    - destruct (Hrange _ Hq). lia. }
  set (s3 := upd _ p _) in H.
  assert (Hs3 : forall q, q <> p -> s3 q = memory e q).
  { intros q Hq. unfold s3. rewrite !upd_other by assumption. reflexivity. }
  assert (Hinv3 : Forall (fun kb => book_inv (snd kb) s3) (order_books_ e)).
  { rewrite Forall_forall in *. intros kb Hkb.
    apply (book_inv_frame _ (memory e)); [|auto].
    intros q Hq. apply Hs3. intros ->. apply Hfresh.
    unfold all_book_ptrs. apply in_flat_map. exists kb. auto. }
  destruct (order_books_ e) as [|entry0 books] eqn:Hb.
  { injection H as <-. unfold arena_inv. cbn. rewrite Hb1, Hc1, Hi1.
    repeat split; try constructor; lia. }
  destruct (begin_entry_some umap_begin (entry0 :: books))
    as [[symbol book] Hentry]; [discriminate|].
  unfold begin_entry in Hentry. rewrite Hentry in H.
  ok_inv H. destruct a as [[book1 s4] trades]. injection H as <-.
  set (e2 := mkEngine _ _ _ _ _ _ _ _ _).
  destruct (on_trades_fields St trades e2) as (F1 & F2 & _ & _ & F5 & _).
  destruct (set_nth_split _ _ (symbol, book1) _ Hentry)
    as (pre & post & Hsplit & Hset).
  rewrite Hsplit in Hnd, Hfresh, Hinv3, Hrange1.
  rewrite all_book_ptrs_app, all_book_ptrs_cons in Hnd, Hfresh, Hrange1.
  cbn [snd] in Hnd, Hfresh, Hrange1.
  apply Forall_app in Hinv3. destruct Hinv3 as [Hpre Hmid].
  inversion Hmid as [|kb m' Hbook Hpost]; subst kb m'. cbn [snd] in Hbook.
  assert (Hp_book : ~ In p (book_ptrs book)).
  { intros Hin. apply Hfresh. apply in_or_app. right.
    apply in_or_app. left. assumption. }
  destruct (add_order_effect _ _ _ _ _ _ Hstep Hbook Hp_book)
    as (Hbook1 & _ & Hframe & Hincl & _).
  assert (Hother : forall kb,
             In kb (pre ++ post) -> book_inv (snd kb) s3 ->
             book_inv (snd kb) s4).
  { intros kb Hkb Hinvkb. apply (book_inv_frame _ s3); [|assumption].
    intros q Hq.
    assert (Hq_other : In q (all_book_ptrs pre) \/ In q (all_book_ptrs post)).
    { apply in_app_or in Hkb. unfold all_book_ptrs.
      destruct Hkb as [Hkb | Hkb]; [left | right];
        apply in_flat_map; exists kb; auto. }
    apply Hframe.
    - intros ->. apply Hfresh.
      destruct Hq_other as [Hq' | Hq'].
      + apply in_or_app. left. assumption.
      + apply in_or_app. right. apply in_or_app. right. assumption.
    - intros Hqb.
      destruct (NoDup_app_inv _ _ Hnd) as (_ & Hnd23 & Hd1).
      destruct (NoDup_app_inv _ _ Hnd23) as (_ & _ & Hd2).
      destruct Hq_other as [Hq' | Hq'].
      + apply (Hd1 _ Hq'). apply in_or_app. left. assumption.
      + apply (Hd2 _ Hqb Hq'). }
  subst e2. cbn [order_books_ order_pool_ memory] in F1, F2, F5.
  unfold arena_inv, count_order. cbn [order_books_ order_pool_ memory].
  rewrite F1, F2, F5, Hset, all_book_ptrs_app, all_book_ptrs_cons.
  cbn [snd]. rewrite Hb1, Hc1, Hi1.
  split; [reflexivity|]. split; [reflexivity|]. split; [lia|].
  split; [lia|]. split; [|split].
  - apply Forall_forall. intros q Hq. rewrite <- Hi1. apply Hrange1.
    apply in_app_or in Hq. destruct Hq as [Hq | Hq].
    + right. apply in_or_app. left. assumption.
    + apply in_app_or in Hq. destruct Hq as [Hq | Hq].
      * destruct (Hincl _ Hq) as [<- | Hq']; [left; reflexivity|].
        right. apply in_or_app. right. apply in_or_app. left. assumption.
      * right. apply in_or_app. right. apply in_or_app. right. assumption.
  - apply (NoDup_replace_middle _ (book_ptrs book) _ _ p);
      try assumption.
    apply Hbook1.
  - rewrite Forall_forall in Hpre, Hpost.
    apply Forall_app. split; [|constructor].
    + apply Forall_forall. intros kb Hkb.
      apply Hother; [apply in_or_app; left; assumption | auto].
    + assumption.
    + apply Forall_forall. intros kb Hkb.
      apply Hother; [apply in_or_app; right; assumption | auto].
Qed.

Lemma put_state_arena (room : nat) (i : nat) (st : St) (e : TickEngine St) :
  arena_inv room e -> arena_inv room (put_state St i st e).
Proof.
  unfold put_state. destruct (nth_error (strategies_ e) i); auto.
Qed.

Lemma run_on_tick_arena (i : nat) (a : Act St) :
  forall d room e e',
    submits_at_most d a ->
    run_on_tick St umap_begin i a e = Ok e' ->
    arena_inv (room + d) e -> arena_inv room e'.
Proof.
  induction a as [st | st o k IH]; intros d room e e' Hd H Hinv;
    cbn [run_on_tick] in H.
  - injection H as <-. apply put_state_arena.
    apply (arena_inv_weaken (room + d)); [lia | assumption].
  - inversion Hd as [|n st0 o0 k0 Hk]; subst.
    ok_inv H. rename a into e1.
    assert (Hinv1 : arena_inv (room + n) e1).
    { apply (submit_order_arena _ _ _ _ Hstep).
      apply put_state_arena. replace (S (room + n)) with (room + S n)%nat
        by lia. assumption. }
    destruct (nth_error (strategies_ e1) i) as [so|].
    + eapply IH; [apply Hk | eassumption | assumption].
    + injection H as <-.
      apply (arena_inv_weaken (room + n)); [lia | assumption].
Qed.

Lemma notify_strategies_arena (tick : Tick.t) (d : nat) (n : nat) :
  forall i room e e',
    at_most_per_tick d (map class_of (strategies_ e)) ->
    notify_strategies St umap_begin n i tick e = Ok e' ->
    arena_inv (room + n * d) e -> arena_inv room e'.
Proof.
  induction n as [|n IH]; intros i room e e' Hd H Hinv;
    cbn [notify_strategies] in H.
  - injection H as <-.
    apply (arena_inv_weaken (room + 0 * d)); [lia | assumption].
  - destruct (nth_error (strategies_ e) i) as [so|] eqn:Hso.
    + ok_inv H. rename a into e1.
      destruct (run_on_tick_run St umap_begin _ _ _ _ Hstep)
        as [(_ & Hcls & _) _].
      assert (Hso_d : submits_at_most d
                        (on_tick St (class_of so) tick (state_of so))).
      { unfold at_most_per_tick in Hd. rewrite Forall_forall in Hd.
        apply Hd. apply in_map. eapply nth_error_In. eassumption. }
      apply (IH (S i) room e1 e'); [rewrite Hcls; assumption | assumption|].
      apply (run_on_tick_arena _ _ d _ _ _ Hso_d Hstep).
      replace (room + n * d + d)%nat with (room + S n * d)%nat by lia.
      assumption.
    + injection H as <-.
      apply (arena_inv_weaken (room + S n * d)); [lia | assumption].
Qed.

Lemma process_tick_arena (clock : Z * Z) (tick : Tick.t) (d room : nat)
    (e e' : TickEngine St) :
  at_most_per_tick d (map class_of (strategies_ e)) ->
  process_tick umap_begin clock tick e = Ok e' ->
  arena_inv (room + length (strategies_ e) * d) e -> arena_inv room e'.
Proof.
  unfold process_tick. destruct clock as [start end_]. intros Hd H Hinv.
  ok_inv H. rename a into e2. injection H as <-.
  set (e1 := mkEngine _ _ _ _ _ _ _ _ _) in Hstep.
  assert (Hinv1 : arena_inv (room + length (strategies_ e) * d) e1).
  { destruct Hinv as (H1 & H2 & H3 & H4 & H5 & H6 & H7).
    unfold arena_inv. subst e1. cbn.
    destruct (umap_find (Tick.symbol tick) (order_books_ e));
      [repeat split; assumption|].
    rewrite all_book_ptrs_app. cbn. rewrite app_nil_r.
    repeat split; try assumption.
    apply Forall_app. split; [assumption|].
    constructor; [apply book_inv_new | constructor]. }
  pose proof (notify_strategies_arena tick d _ 0%nat room e1 e2 Hd Hstep Hinv1)
    as Hinv2.
  exact Hinv2.
Qed.

Lemma run_backtest_arena (clock : nat -> Z * Z) (d : nat)
    (ticks : list Tick.t) :
  forall n room e e',
    at_most_per_tick d (map class_of (strategies_ e)) ->
    run_backtest_from St umap_begin clock n ticks e = Ok e' ->
    arena_inv (room + length ticks * (length (strategies_ e) * d)) e ->
    arena_inv room e'.
Proof.
  induction ticks as [|tick ticks IH]; intros n room e e' Hd H Hinv;
    cbn [run_backtest_from] in H.
  - injection H as <-.
    apply (arena_inv_weaken (room + 0)); [lia | assumption].
  - ok_inv H. rename a into e1.
    destruct (process_tick_run St umap_begin _ _ _ _ Hstep)
      as (_ & Hcls & _).
    assert (Hlen : length (strategies_ e1) = length (strategies_ e)).
    { rewrite <- (length_map class_of (strategies_ e1)), Hcls.
      apply length_map. }
    apply (IH (S n) room e1 e'); [rewrite Hcls; assumption | assumption|].
    rewrite Hlen.
    apply (process_tick_arena _ _ d _ _ _ Hd Hstep).
    cbn [length] in Hinv.
    replace (room + length ticks * (length (strategies_ e) * d)
             + length (strategies_ e) * d)%nat
      with (room + S (length ticks) * (length (strategies_ e) * d))%nat
      by lia.
    assumption.
Qed.

Lemma engine_with_arena (l : list (StrategyObj St)) (m0 : Mem) :
  arena_inv (Z.to_nat DefaultBlockSize) (engine_with l m0).
Proof.
  assert (H : forall e0 : TickEngine St,
             order_pool_ (fold_left add_strategy l e0) = order_pool_ e0 /\
             memory (fold_left add_strategy l e0) = memory e0).
  { induction l as [|so l IH]; intros e0; cbn [fold_left]; [auto|].
    destruct (IH (add_strategy e0 so)) as [-> ->]. auto. }
  destruct (H (new_engine m0)) as [Hpool Hmem].
  destruct (engine_with_fields St l m0) as (Hb & _).
  unfold arena_inv. fold (engine_with l m0) in Hpool, Hmem.
  rewrite Hpool, Hb. cbn.
  repeat split; try constructor; try discriminate.
Qed.
End EngineArena.

(** X21: within its first 4096 orders the engine keeps every book well
    formed.  If every registered strategy submits at most [d] orders per
    tick and [ticks * strategies * d <= 4096] (the arena's block is not
    exhausted), then after the backtest on a new engine every order book
    satisfies the book invariant over the engine's memory, and no order
    record is referred to by two levels or two books. *)
Theorem X21_books_stay_well_formed_within_the_arena (St : Type)
    (umap_begin : list string -> nat) (strategies : list (StrategyObj St))
    (clock : nat -> Z * Z) (ticks : list Tick.t) (m0 : Mem) (d : nat)
    (e' : TickEngine St) :
  run_backtest umap_begin clock ticks (engine_with strategies m0) = Ok e' ->
  at_most_per_tick d (map class_of strategies) ->
  (length ticks * (length strategies * d) <= 4096)%nat ->
  Forall (fun kb => book_inv (snd kb) (memory e')) (order_books_ e') /\
  NoDup (all_book_ptrs (order_books_ e')).
Proof.
  unfold run_backtest. intros H Hd Hroom.
  destruct (engine_with_fields St strategies m0) as (_ & Hs & _).
  assert (Hinv : arena_inv 0 e').
  { apply (run_backtest_arena St umap_begin clock d ticks 0%nat 0%nat
             (engine_with strategies m0) e').
    - rewrite Hs. assumption.
    - assumption.
    - rewrite Hs. cbn [Nat.add].
      apply (arena_inv_weaken St (Z.to_nat DefaultBlockSize));
        [|apply engine_with_arena].
      change (Z.to_nat DefaultBlockSize) with 4096%nat. assumption. }
  destruct Hinv as (_ & _ & _ & _ & _ & Hnd & Hbooks). auto.
Qed.

Lemma X21_witness :
  exists e',
    run_backtest oldest_first (steady_clock 0 5) two_symbol_ticks
      (engine_with [mkObj cross_every_tick tt] blank_mem)
    = Ok e' /\
    Forall (fun kb => book_inv (snd kb) (memory e')) (order_books_ e') /\
    NoDup (all_book_ptrs (order_books_ e')).
Proof.
  assert (exists e',
             run_backtest oldest_first (steady_clock 0 5) two_symbol_ticks
               (engine_with [mkObj cross_every_tick tt] blank_mem)
             = Ok e') as [e' E]
    by (eexists; vm_compute; reflexivity).
  exists e'. split; [exact E|].
  apply (X21_books_stay_well_formed_within_the_arena _ _ _ _ _ _ 2%nat _ E).
  - repeat constructor.
  - cbn. lia.
Defined.

(** ** Strategy objects over a run *)

Section StrategyInvariants.
Variable St : Type.
Variable umap_begin : list string -> nat.
Variable I : Strategy St -> list Trade.t -> St -> Prop.
Variable classes : list (Strategy St).
Hypothesis I_upheld : forall c, In c classes -> upholds c (I c).

Lemma kept_registered (e e' : TickEngine St) :
  kept e e' -> registered_in classes e -> registered_in classes e'.
Proof.
  intros (_ & Hcls & _) H. unfold registered_in. rewrite Hcls. assumption.
Qed.

Lemma on_trade_keeps (e : TickEngine St) (t : Trade.t) :
  registered_in classes e ->
  objects_keep I e ->
  registered_in classes (engine_on_trade e t) /\
  objects_keep I (engine_on_trade e t).
Proof.
  unfold registered_in, objects_keep, engine_on_trade. cbn. intros Hc H.
  split.
  - rewrite map_map. cbn. exact Hc.
  - apply Forall_map. apply Forall_forall. intros so Hso.
    rewrite Forall_forall in H. cbn.
    apply (proj1 (I_upheld (class_of so) (Hc _ (in_map class_of _ _ Hso)))).
    apply H. assumption.
Qed.

Lemma on_trades_keep (trades : list Trade.t) :
  forall e : TickEngine St,
    registered_in classes e -> objects_keep I e ->
    objects_keep I (fold_left engine_on_trade trades e).
Proof.
  induction trades as [|t trades IH]; intros e Hc H; cbn [fold_left].
  - assumption.
  - destruct (on_trade_keeps e t Hc H). apply IH; assumption.
Qed.

Lemma submit_order_keeps (e : TickEngine St) (o : Order.t)
    (e' : TickEngine St) :
  submit_order umap_begin e o = Ok e' ->
  registered_in classes e -> objects_keep I e -> objects_keep I e'.
Proof.
  unfold submit_order. intros H Hc Hkeep.
  destruct (allocate DefaultBlockSize (order_pool_ e)) as [slot pool1].
  destruct (order_books_ e) as [|entry0 books].
  { injection H as <-. exact Hkeep. }
  destruct (nth_error (entry0 :: books)
              (begin_index umap_begin (entry0 :: books)))
    as [[symbol book]|].
  2:{ injection H as <-. exact Hkeep. }
  ok_inv H. destruct a as [[book1 s4] trades]. injection H as <-.
  unfold count_order.
  set (e3 := fold_left engine_on_trade trades _).
  assert (H3 : objects_keep I e3).
  { apply on_trades_keep; [exact Hc | exact Hkeep]. }
  exact H3.
Qed.

Lemma put_state_keeps (i : nat) (st : St) (e : TickEngine St) :
  (forall so, nth_error (strategies_ e) i = Some so ->
              I (class_of so) (trade_log e) st) ->
  objects_keep I e -> objects_keep I (put_state St i st e).
Proof.
  unfold put_state, objects_keep. intros Hst H.
  destruct (nth_error (strategies_ e) i) as [so|] eqn:E; [|assumption].
  cbn. apply set_nth_Forall; [assumption|]. cbn. apply Hst. reflexivity.
Qed.

Lemma kept_class (i : nat) (e e' : TickEngine St) (c : Strategy St) :
  kept e e' ->
  (forall so, nth_error (strategies_ e) i = Some so -> class_of so = c) ->
  forall so, nth_error (strategies_ e') i = Some so -> class_of so = c.
Proof.
  intros (_ & Hcls & _) Hc so Hso.
  apply (map_nth_error class_of) in Hso. rewrite Hcls in Hso.
  rewrite nth_error_map in Hso.
  destruct (nth_error (strategies_ e) i) as [so0|] eqn:E; [|discriminate].
  cbn in Hso. injection Hso as Heq. rewrite <- Heq. apply Hc. reflexivity.
Qed.

Lemma run_on_tick_keeps (i : nat) (c : Strategy St) (a : Act St) :
  forall e e',
    (forall so, nth_error (strategies_ e) i = Some so -> class_of so = c) ->
    act_keeps (I c) (trade_log e) a ->
    run_on_tick St umap_begin i a e = Ok e' ->
    registered_in classes e -> objects_keep I e -> objects_keep I e'.
Proof.
  induction a as [st | st o k IH]; intros e e' Hc Ha H Hreg Hkeep;
    cbn [run_on_tick] in H.
  - injection H as <-. inversion Ha; subst.
    apply put_state_keeps; [|assumption].
    intros so Hso. rewrite (Hc so Hso). assumption.
  - inversion Ha as [|log st0 o0 k0 Hst Hk]; subst.
    ok_inv H. rename a into e1.
    destruct (put_state_run St i st e) as [K0 _].
    assert (Hkeep0 : objects_keep I (put_state St i st e)).
    { apply put_state_keeps; [|assumption].
      intros so Hso. rewrite (Hc so Hso). assumption. }
    pose proof (kept_registered _ _ K0 Hreg) as Hreg0.
    pose proof (submit_order_keeps _ _ _ Hstep Hreg0 Hkeep0) as Hkeep1.
    destruct (submit_order_run St umap_begin _ _ _ Hstep) as [K1 _].
    pose proof (kept_registered _ _ K1 Hreg0) as Hreg1.
    pose proof (kept_class i _ _ c K1 (kept_class i _ _ c K0 Hc)) as Hc1.
    destruct (nth_error (strategies_ e1) i) as [so1|] eqn:E1.
    + rewrite <- E1 in Hc1.
      eapply IH; [exact Hc1 | | exact H | exact Hreg1 | exact Hkeep1].
      apply Hk. unfold objects_keep in Hkeep1.
      rewrite Forall_forall in Hkeep1.
      pose proof (Hkeep1 _ (nth_error_In _ _ E1)) as H1.
      rewrite (Hc1 so1 E1) in H1. exact H1.
    + injection H as <-. exact Hkeep1.
Qed.

Lemma notify_strategies_keeps (tick : Tick.t) (n : nat) :
  forall i e e',
    notify_strategies St umap_begin n i tick e = Ok e' ->
    registered_in classes e -> objects_keep I e -> objects_keep I e'.
Proof.
  induction n as [|n IH]; intros i e e' H Hreg Hkeep;
    cbn [notify_strategies] in H.
  - injection H as <-. assumption.
  - destruct (nth_error (strategies_ e) i) as [so|] eqn:Hso.
    + ok_inv H. rename a into e1.
      destruct (run_on_tick_run St umap_begin _ _ _ _ Hstep) as [K1 _].
      apply (IH _ _ _ H); [eapply kept_registered; eassumption|].
      apply (run_on_tick_keeps i (class_of so) _ _ _) with (3 := Hstep).
      * intros so0 Hso0. congruence.
      * assert (Hin : In (class_of so) classes).
        { apply Hreg. apply in_map. eapply nth_error_In. eassumption. }
        apply (proj2 (I_upheld (class_of so) Hin)).
        unfold objects_keep in Hkeep. rewrite Forall_forall in Hkeep.
        apply (Hkeep _ (nth_error_In _ _ Hso)).
      * assumption.
      * assumption.
    + injection H as <-. assumption.
Qed.

Lemma process_tick_keeps (clock : Z * Z) (tick : Tick.t)
    (e e' : TickEngine St) :
  process_tick umap_begin clock tick e = Ok e' ->
  registered_in classes e -> objects_keep I e -> objects_keep I e'.
Proof.
  unfold process_tick. destruct clock as [start end_]. intros H Hreg Hkeep.
  ok_inv H. rename a into e2. injection H as <-.
  apply (notify_strategies_keeps _ _ _ _ _ Hstep) in Hkeep;
    [exact Hkeep | exact Hreg].
Qed.

Lemma run_backtest_keeps (clock : nat -> Z * Z) (ticks : list Tick.t) :
  forall n e e',
    run_backtest_from St umap_begin clock n ticks e = Ok e' ->
    registered_in classes e -> objects_keep I e -> objects_keep I e'.
Proof.
  induction ticks as [|tick ticks IH]; intros n e e' H Hreg Hkeep;
    cbn [run_backtest_from] in H.
  - injection H as <-. assumption.
  - ok_inv H. rename a into e1.
    destruct (process_tick_run St umap_begin _ _ _ _ Hstep)
      as (_ & Hcls & _).
    apply (IH _ _ _ H).
    + unfold registered_in. rewrite Hcls. exact Hreg.
    + eapply process_tick_keeps; eassumption.
Qed.
End StrategyInvariants.


Lemma objects_keep_after (St : Type) (umap_begin : list string -> nat)
    (I : Strategy St -> list Trade.t -> St -> Prop)
    (clock : nat -> Z * Z) (ticks : list Tick.t) (e e' : TickEngine St) :
  (forall c, In c (map class_of (strategies_ e)) -> upholds c (I c)) ->
  objects_keep I e ->
  run_backtest umap_begin clock ticks e = Ok e' ->
  objects_keep I e'.
Proof.
  unfold run_backtest. intros Hup Hkeep H.
  apply (run_backtest_keeps St umap_begin I (map class_of (strategies_ e))
           Hup clock ticks 0%nat e e' H); [|exact Hkeep].
  unfold registered_in. apply incl_refl.
Qed.

(** X22: the engine touches a strategy's state through the strategy's own
    member functions only.  Let every registered strategy class preserve
    an invariant of its objects, which may depend on the trades
    [on_trade] has been called with: [on_trade] takes it from a trade list
    to the list extended by its argument, and [on_tick] re-establishes it
    before every [submit_order] and before returning, assuming it whenever
    [submit_order] returns.  Then if the invariant holds of every
    registered object before a backtest, it holds of every object after
    it, for the trades received by then. *)
Theorem X22_strategy_invariants_survive_a_backtest (St : Type)
    (umap_begin : list string -> nat)
    (I : Strategy St -> list Trade.t -> St -> Prop)
    (clock : nat -> Z * Z) (ticks : list Tick.t) (e e' : TickEngine St) :
  (forall c, In c (map class_of (strategies_ e)) -> upholds c (I c)) ->
  objects_keep I e ->
  run_backtest umap_begin clock ticks e = Ok e' ->
  objects_keep I e'.
Proof.
  intros Hup Hkeep H. eapply objects_keep_after; eassumption.
Qed.

Lemma X22_witness :
  exists e',
    run_backtest oldest_first (steady_clock 0 5) two_symbol_ticks
      (engine_with [mkObj counting_cross 0%nat] blank_mem)
    = Ok e' /\
    length (trade_log e') = 2%nat /\
    objects_keep counted e'.
Proof.
  assert (Hrun : exists e',
             run_backtest oldest_first (steady_clock 0 5) two_symbol_ticks
               (engine_with [mkObj counting_cross 0%nat] blank_mem)
             = Ok e' /\
             length (trade_log e') = 2%nat).
  { eexists. split; [vm_compute; reflexivity|]. vm_compute. reflexivity. }
  destruct Hrun as (e' & E & Hlen).
  exists e'. split; [exact E|]. split; [exact Hlen|].
  apply (X22_strategy_invariants_survive_a_backtest _ _ counted _ _ _ _)
    with (3 := E).
  - intros c [<- | []]. split.
    + intros log st trade H _. cbn. rewrite length_app, (H eq_refl). cbn.
      lia.
    + intros log st tick H. cbn.
      apply keeps_submit; [assumption|]. intros log1 st1 H1.
      apply keeps_submit; [assumption|]. intros log2 st2 H2.
      apply keeps_done. assumption.
  - repeat constructor.
Defined.

(** ** The sample strategies *)












Lemma submits_at_most_more {St : Type} (n n' : nat) (a : Act St) :
  submits_at_most n a -> (n <= n')%nat -> submits_at_most n' a.
Proof.
  intros H. revert n'. induction H as [n st | n st o k Hk IH]; intros n' Hle.
  - constructor.
  - destruct n' as [|n']; [lia|]. constructor.
    intros st'. apply IH. lia.
Qed.

Lemma momentum_finish_submits (tick : Tick.t)
    (st : result MomentumStrategy.t) :
  submits_at_most 0 (MomentumStrategy.finish tick st).
Proof. destruct st; constructor. Qed.

Lemma momentum_open_long_submits (tick : Tick.t)
    (st : result MomentumStrategy.t) :
  submits_at_most 1 (MomentumStrategy.open_long tick st).
Proof.
  destruct st as [m| |]; cbn [MomentumStrategy.open_long]; constructor.
  intros [m1| |]; constructor.
Qed.

Lemma momentum_open_short_submits (tick : Tick.t)
    (st : result MomentumStrategy.t) :
  submits_at_most 1 (MomentumStrategy.open_short tick st).
Proof.
  destruct st as [m| |]; cbn [MomentumStrategy.open_short]; constructor.
  intros [m1| |]; try constructor.
  destruct (s64 _); constructor.
Qed.

Lemma maker_place_ask_submits (tick : Tick.t) (can_sell : bool)
    (st : result MarketMakerStrategy.t) :
  submits_at_most 1 (MarketMakerStrategy.place_ask tick can_sell st).
Proof.
  unfold MarketMakerStrategy.place_ask.
  destruct st as [m| |]; try constructor.
  destruct can_sell; try constructor.
  destruct (s64 _); constructor. intros st'. constructor.
Qed.

(** X25: the sample strategies submit at most two orders per tick.
    Whatever its state, one [on_tick] of a [MomentumStrategy] calls
    [submit_order] at most twice (closing a position and opening the
    opposite one), and so does one [on_tick] of a [MarketMakerStrategy]
    (a bid and an ask). *)
Theorem X25_sample_strategies_submit_at_most_two_orders :
  at_most_per_tick 2 [momentum_strategy] /\
  at_most_per_tick 2 [market_maker].
Proof.
  split; constructor; try constructor; intros tick st; cbn.
  - unfold MomentumStrategy.on_tick.
    destruct st as [m| |]; try constructor. cbv zeta.
    destruct (_ <? _); [constructor|].
    destruct (MomentumStrategy.thresholds _) as [[up down]| |];
      try constructor.
    destruct (_ && _).
    + destruct (_ <? _).
      * destruct (s64 _); constructor.
        intros st'. apply momentum_open_long_submits.
      * apply (submits_at_most_more 1); [|lia].
        apply momentum_open_long_submits.
    + destruct (_ && _).
      * destruct (_ <? _).
        -- constructor. intros st'. apply momentum_open_short_submits.
        -- apply (submits_at_most_more 1); [|lia].
           apply momentum_open_short_submits.
      * apply (submits_at_most_more 0); [|lia].
        apply momentum_finish_submits.
  - unfold MarketMakerStrategy.on_tick.
    destruct st as [m| |]; try constructor. cbv zeta.
    destruct (negb _); [constructor|].
    destruct (s64 (- _)); try constructor.
    destruct (_ <? _).
    + destruct (s64 _); constructor.
      intros st'. apply maker_place_ask_submits.
    + apply (submits_at_most_more 1); [|lia].
      apply maker_place_ask_submits.
Qed.

(** ** Ticks on which no strategy submits *)

Lemma set_nth_app {A : Type} (pre : list A) (x y : A) (post : list A) :
  set_nth (length pre) y (pre ++ x :: post) = pre ++ y :: post.
Proof.
  induction pre as [|z pre IH]; cbn; [reflexivity|]. rewrite IH. reflexivity.
Qed.

Lemma set_strategies_same {St : Type} (e : TickEngine St) :
  set_strategies (strategies_ e) e = e.
Proof. destruct e. reflexivity. Qed.

Section QuietTicks.
Variable St : Type.
Variable umap_begin : list string -> nat.

Lemma notify_quiet (tick : Tick.t) (rest : list (StrategyObj St)) :
  forall pre n e,
    strategies_ e = pre ++ rest ->
    (length rest <= n)%nat ->
    Forall (fun so => exists st,
              on_tick St (class_of so) tick (state_of so) = Done st) rest ->
    notify_strategies St umap_begin n (length pre) tick e
    = Ok (set_strategies (pre ++ map (quiet_step tick) rest) e).
Proof.
  induction rest as [|so rest IH]; intros pre n e Hs Hn Hquiet.
  - cbn [map]. rewrite <- Hs, set_strategies_same.
    destruct n as [|n]; cbn [notify_strategies]; [reflexivity|].
    replace (nth_error (strategies_ e) (length pre)) with (@None (StrategyObj St));
      [reflexivity|].
    symmetry. apply nth_error_None. rewrite Hs, app_nil_r. lia.
  - destruct n as [|n]; [cbn in Hn; lia|]. cbn [notify_strategies].
    assert (Hnth : nth_error (strategies_ e) (length pre) = Some so).
    { rewrite Hs, nth_error_app2, Nat.sub_diag by lia. reflexivity. }
    rewrite Hnth.
    inversion Hquiet as [|so' rest' [st Hst] Hrest]; subst so' rest'.
    rewrite Hst. cbn [run_on_tick bind].
    set (e1 := put_state St (length pre) st e).
    assert (Hs1 : strategies_ e1
                  = (pre ++ [mkObj (class_of so) st]) ++ rest).
    { subst e1. unfold put_state. rewrite Hnth. cbn.
      rewrite Hs, set_nth_app, <- app_assoc. reflexivity. }
    pose proof (IH (pre ++ [mkObj (class_of so) st]) n e1 Hs1) as Hrec.
    rewrite length_app in Hrec. cbn [length] in Hrec.
    rewrite Nat.add_1_r in Hrec. rewrite Hrec;
      [|cbn in Hn; lia | assumption].
    f_equal. unfold set_strategies. subst e1. unfold put_state.
    rewrite Hnth. cbn. rewrite <- app_assoc. cbn [app map].
    unfold quiet_step at 2. rewrite Hst. reflexivity.
Qed.

(** A tick on which no strategy submits changes the books by the book of
    its symbol at most, and no counter but those of the ticks. *)
Lemma process_tick_quiet (clock : Z * Z) (tick : Tick.t)
    (e : TickEngine St) :
  Forall (fun so => exists st,
            on_tick St (class_of so) tick (state_of so) = Done st)
         (strategies_ e) ->
  exists e',
    process_tick umap_begin clock tick e = Ok e' /\
    strategies_ e' = map (quiet_step tick) (strategies_ e) /\
    next_order_id_ e' = next_order_id_ e /\
    order_pool_ e' = order_pool_ e /\
    Stats.orders_submitted (stats_ e')
      = Stats.orders_submitted (stats_ e) /\
    Stats.trades_executed (stats_ e') = Stats.trades_executed (stats_ e) /\
    trade_log e' = trade_log e /\
    all_book_ptrs (order_books_ e') = all_book_ptrs (order_books_ e).
Proof.
  intros Hquiet. unfold process_tick. destruct clock as [start end_].
  set (e1 := mkEngine _ _ _ _ _ _ _ _ _).
  pose proof (notify_quiet tick (strategies_ e) [] (length (strategies_ e1))
                e1 eq_refl (Nat.le_refl _) Hquiet) as Hn.
  cbn [length app] in Hn. rewrite Hn. cbn [bind].
  eexists. split; [reflexivity|]. cbn.
  repeat split.
  destruct (umap_find (Tick.symbol tick) (order_books_ e)); [reflexivity|].
  rewrite all_book_ptrs_app. cbn. rewrite app_nil_r. reflexivity.
Qed.
End QuietTicks.

Lemma warming_up_tick (k : nat) (tick : Tick.t)
    (so : StrategyObj (result MomentumStrategy.t)) :
  warming_up (S k) so ->
  (exists st, on_tick _ (class_of so) tick (state_of so) = Done st) /\
  warming_up k (quiet_step tick so).
Proof.
  intros (Hc & m & Hm & Hroom).
  assert (Hact : on_tick _ (class_of so) tick (state_of so)
                 = Done (Ok (MomentumStrategy.set_prices
                               (MomentumStrategy.prices_ m
                                ++ [Tick.price tick]) m))).
  { rewrite Hc, Hm. cbn. unfold MomentumStrategy.on_tick. cbv zeta.
    assert (Hlen : Z.of_nat (length (MomentumStrategy.prices_ m
                                     ++ [Tick.price tick]))
                   = Z.of_nat (length (MomentumStrategy.prices_ m)) + 1).
    { rewrite length_app. cbn [length]. lia. }
    replace (MomentumStrategy.window_size_ m
             <? Z.of_nat (length (MomentumStrategy.prices_ m
                                  ++ [Tick.price tick]))) with false
      by (symmetry; apply Z.ltb_ge; lia).
    cbn [MomentumStrategy.window_size_ MomentumStrategy.set_prices].
    replace (Z.of_nat (length (MomentumStrategy.prices_ m
                               ++ [Tick.price tick]))
             <? MomentumStrategy.window_size_ m) with true
      by (symmetry; apply Z.ltb_lt; lia).
    reflexivity. }
  split; [eauto|].
  unfold quiet_step. rewrite Hact. split; [exact Hc|].
  eexists. split; [reflexivity|]. cbn.
  rewrite length_app. cbn [length]. lia.
Qed.

Lemma run_backtest_warming_up (umap_begin : list string -> nat)
    (clock : nat -> Z * Z) (ticks : list Tick.t) :
  forall n (e : TickEngine (result MomentumStrategy.t)),
    Forall (warming_up (length ticks)) (strategies_ e) ->
    exists e',
      run_backtest_from _ umap_begin clock n ticks e = Ok e' /\
      next_order_id_ e' = next_order_id_ e /\
      order_pool_ e' = order_pool_ e /\
      Stats.orders_submitted (stats_ e')
        = Stats.orders_submitted (stats_ e) /\
      Stats.trades_executed (stats_ e')
        = Stats.trades_executed (stats_ e) /\
      trade_log e' = trade_log e /\
      all_book_ptrs (order_books_ e') = all_book_ptrs (order_books_ e).
Proof.
  induction ticks as [|tick ticks IH]; intros n e Hwarm;
    cbn [run_backtest_from].
  - exists e. repeat split.
  - cbn [length] in Hwarm.
    assert (Hquiet : Forall (fun so => exists st,
                               on_tick _ (class_of so) tick (state_of so)
                               = Done st) (strategies_ e)).
    { eapply Forall_impl; [|exact Hwarm].
      intros so Hso. apply (warming_up_tick _ tick so Hso). }
    destruct (process_tick_quiet _ umap_begin (clock n) tick e Hquiet)
      as (e1 & E1 & Hs1 & A1 & A2 & A3 & A4 & A5 & A6).
    rewrite E1. cbn [bind].
    destruct (IH (S n) e1) as (e' & E & B1 & B2 & B3 & B4 & B5 & B6).
    { rewrite Hs1. apply Forall_map.
      eapply Forall_impl; [|exact Hwarm].
      intros so Hso. apply (warming_up_tick _ tick so Hso). }
    exists e'. split; [exact E|].
    repeat split; congruence.
Qed.

(** X26: no order before the window is full.  A backtest over fewer
    ticks than the price window of each momentum strategy still lacks
    returns without any order submitted: on a new engine whose strategies
    are momentum objects that each miss more prices than there are ticks,
    [orders_submitted] and [trades_executed] are 0 after the run, no id
    has been handed out, and no book holds an order. *)
Theorem X26_momentum_waits_for_a_full_window
    (umap_begin : list string -> nat)
    (strategies : list (StrategyObj (result MomentumStrategy.t)))
    (clock : nat -> Z * Z) (ticks : list Tick.t) (m0 : Mem) :
  Forall (warming_up (length ticks)) strategies ->
  exists e',
    run_backtest umap_begin clock ticks (engine_with strategies m0) = Ok e' /\
    Stats.orders_submitted (get_stats e') = 0 /\
    Stats.trades_executed (get_stats e') = 0 /\
    next_order_id_ e' = 1 /\
    all_book_ptrs (order_books_ e') = [].
Proof.
  intros Hwarm. unfold run_backtest, get_stats.
  destruct (engine_with_fields _ strategies m0)
    as (Hb & Hs & Hid & _ & Hst & _).
  destruct (run_backtest_warming_up umap_begin clock ticks 0%nat
              (engine_with strategies m0))
    as (e' & E & B1 & _ & B3 & B4 & _ & B6).
  { rewrite Hs. exact Hwarm. }
  exists e'. split; [exact E|].
  rewrite B1, B3, B4, B6, Hid, Hst, Hb. repeat split.
Qed.

Lemma X26_witness :
  exists e',
    run_backtest oldest_first (steady_clock 0 5) flat_ticks
      (engine_with [new_momentum 20 100 (Tick.mk "" 0 0 0 BUY)] blank_mem)
    = Ok e' /\
    Stats.orders_submitted (get_stats e') = 0 /\
    next_order_id_ e' = 1.
Proof.
  destruct (X26_momentum_waits_for_a_full_window oldest_first
              [new_momentum 20 100 (Tick.mk "" 0 0 0 BUY)]
              (steady_clock 0 5) flat_ticks blank_mem)
    as (e' & E & Hos & _ & Hid & _).
  - repeat constructor. eexists. split; [reflexivity|]. reflexivity.
  - exists e'. split; [exact E|]. split; [exact Hos | exact Hid].
Defined.

Lemma momentum_zero_window_first_tick (order_size : Z)
    (last_tick tick : Tick.t) :
  MomentumStrategy.on_tick tick
    (Ok (MomentumStrategy.make 0 order_size last_tick))
  = Done Undefined.
Proof. reflexivity. Qed.

(** A backtest of sample strategies that is defined is the backtest of
    the engine, and leaves every object defined. *)
Lemma sample_backtest_defined (T : Type) (umap_begin : list string -> nat)
    (clock : nat -> Z * Z) (ticks : list Tick.t) :
  forall n (e e' : TickEngine (result T)),
    all_defined (strategies_ e) = true ->
    sample_backtest_from umap_begin clock n ticks e = Ok e' ->
    run_backtest_from _ umap_begin clock n ticks e = Ok e' /\
    all_defined (strategies_ e') = true.
Proof.
  induction ticks as [|tick ticks IH]; intros n e e' Hdef H;
    cbn [sample_backtest_from run_backtest_from] in *.
  - injection H as <-. auto.
  - destruct (process_tick umap_begin (clock n) tick e) as [e1| |];
      cbn [bind] in *; try discriminate H.
    destruct (all_defined (strategies_ e1)) eqn:Hdef1; [|discriminate H].
    apply (IH _ _ _ Hdef1 H).
Qed.

(** X27: a window of size zero divides by zero.  The first [on_tick] of a
    [MomentumStrategy] constructed with [window_size = 0] pops the price
    it has just pushed and then divides the sum of no price by the size
    [0] of the window.  So a backtest of that strategy over any ticks, if
    there is one, has undefined behaviour at its first tick, whatever the
    order size, the clock and the policy of the map of books. *)
Theorem X27_momentum_with_an_empty_window_divides_by_zero
    (umap_begin : list string -> nat) (clock : nat -> Z * Z)
    (tick : Tick.t) (ticks : list Tick.t) (m0 : Mem)
    (order_size : Z) (last_tick : Tick.t) :
  MomentumStrategy.on_tick tick
    (Ok (MomentumStrategy.make 0 order_size last_tick))
  = Done Undefined /\
  sample_backtest umap_begin clock (tick :: ticks)
    (engine_with [new_momentum 0 order_size last_tick] m0)
  = Undefined.
Proof.
  split; [reflexivity|].
  unfold sample_backtest. cbn [sample_backtest_from].
  destruct (engine_with_fields _ [new_momentum 0 order_size last_tick] m0)
    as (_ & Hs & _).
  destruct (process_tick_quiet _ umap_begin (clock 0%nat) tick
              (engine_with [new_momentum 0 order_size last_tick] m0))
    as (e1 & E1 & Hs1 & _).
  { rewrite Hs. repeat constructor. exists Undefined.
    apply momentum_zero_window_first_tick. }
  rewrite E1. cbn [bind]. rewrite Hs in Hs1. rewrite Hs1. reflexivity.
Qed.
